(* ===== verification/_CoqProject ===== *)
-Q . S2P
Prelude.v
CText.v
CScan.v
Abi.v
DLog.v
Sha256.v
Ring.v
DenyLimit.v
Modules.v
SyscallTable.v
SyscallCheck.v
Registry.v
RegistryConc.v
Handlers.v
Inherit.v
Scan.v
Ioctl.v
Lifecycle.v
Baseline.v
Runs.v
Report.v
Monitor.v
Environ.v
Elf.v
Render.v
Resolve.v
Host.v
Daemon.v
Cli.v
ScanCmd.v
Main.v
Stop.v
Limiter.v
Store.v
Json.v
Http.v
Server.v
EndToEnd.v
Attack.v
ServerConc.v
ServerLife.v
ServerMain.v
ServerArgs.v
