(* ===== verification/Prelude.v ===== *)
(** * Anticheat: a verification development

    The program is a Linux anticheat in two cooperating parts and a server.

    - The kernel module (src/src/anticheat_module.c, with the shared ABI in
      src/src/anticheat.h and SHA-256 in src/src/sha256.c) keeps a registry of
      protected address spaces, denies ptrace and process_vm access to them
      through kprobes, carries the protection across fork and exec, checks the
      system call table, records events in a ring, and answers ioctls on
      /dev/anticheat.
    - The daemon and command line tool (src/src/anticheat_daemon.c) drives the
      module through those ioctls: a monitor loop drains the ring and runs
      periodic checks (system call table, hidden modules, mappings, baselines
      of executable code, render hooks, injected libraries and layers), logs,
      and reports severe findings to a server over HTTP.  The commands
      (protect, unprotect, list, scan, syscalls, modules, events, lock,
      vmcheck, status) do single operations.
    - The report server (src/server/ac_server.py) receives those reports,
      keeps them in SQLite within two caps, and lets a reviewer list them and
      ban or unban clients; it tells report keys from admin keys, limits the
      requests per address and the connections at once, and passes reports on
      to a webhook.

    ** Files

    Foundations.  [Prelude] (this file): machine integers as [Z] reduced to
    their width, error numbers, list lemmas, tactics and hints.  [CText],
    [CScan]: C strings as lists of bytes, the printing and scanning functions
    of the C library the sources use, with print/scan round trips.  [Abi]:
    src/anticheat.h.

    Kernel module (anticheat_module.c).
    - [Sha256]: sha256.c; the digest is the FIPS 180-4 digest, in pieces or at
      once.  The standard's equations are in the Module [Fips], with constants
      computed from roots of primes.
    - [Ring]: [ac_emit], [ac_drain_events], [ac_peek_events],
      [ac_commit_events].  The ring refines a bounded queue; under every
      interleaving of emitting, flushing and fetching threads each event is
      accounted for.
    - [DenyLimit]: [ac_deny_event_allowed].
    - [Modules]: the walk of the module list and its snapshot, equivalent to
      the walk.
    - [SyscallTable], [SyscallCheck]: finding the system call table and the
      text bounds; capturing and checking it.  A clean table passes, counts
      are exact, hooks are reported on the rising edge.
    - [Registry], [RegistryConc]: the registry, split at its critical
      sections; sequentially a refinement of a bounded map, concurrently a
      step relation with an invariant over all interleavings of adds, deletes,
      clears, exits and release workers.
    - [Handlers]: the deny kprobes and the kill queue.  An attack whose pid
      argument is positive fails and acts on no process; other calls are left
      alone.
    - [Inherit]: fork and exec inheritance, the request queue and worker, the
      reference counts on address spaces as a step relation.  No reference
      leaks, and an exec entered before the worker has unlinked the
      registration of its fork ends with the new image protected or a warning.
    - [Scan], [Ioctl]: the per-descriptor snapshots and every ioctl command,
      with user-copy faults and allocation failures.
    - [Lifecycle]: load and unload in an order in which nothing is released
      while relied on, degraded modes, missed probe hits.

    Daemon (anticheat_daemon.c).
    - [DLog]: [logmsg] and the clamps on counts from the module.
    - [Baseline], [Runs]: hashing a process's memory, the record files with
      their locking and every failure, the coalescing of mappings into runs
      and the verdict on a run.  Savers lose no record unless the file cannot
      be opened, which the code takes for an empty one.
    - [Report], [Resolve]: the URL, JSON escaping, the request and its
      sockets; the resolver child, its descriptors, pipe and reaping.  The
      children the kernel holds are those the daemon tracks.
    - [Monitor]: the periodic checks on the module's answers and the
      fixed-size tables behind them.
    - [Environ], [Elf], [Render]: environment and layer checks, the ELF symbol
      lookup on arbitrary bytes, sound for the ELF-64 layout, and the render
      hook check, which decoys can make inconclusive but not clean.
    - [Host], [Daemon]: the virtual machine check; start-up, the descriptors
      of the background process, and the monitor loop over all checks.
    - [Cli], [ScanCmd]: the commands, each run against the module's own ioctl
      handlers; the scan command from its arguments to its output.
    - [Main]: the dispatch in [main], [events --watch], the double fork of
      [start], the home directory of a process.
    - [Stop]: the signal dispositions, and the monitor loop as steps that a
      signal may interrupt anywhere, with the time spent blocked; it refines
      the loop of [Daemon] and, told to end, runs at most one round of checks
      more.

    Report server (ac_server.py).
    - [Limiter]: [RateLimiter]; the same answers as a limiter that remembers
      everything, within a bounded table, while clock readings come in order;
      a weaker bound when threads overtake each other between reading the
      clock and taking the lock.
    - [Store]: [Store]; opening and its refusals, reports and their retention,
      pages, bans, vacuum.
    - [Json], [Http]: what the server uses of the Python library: UTF-8 with
      replacement, [json.loads], the request line, header fields, URLs and
      query strings.
    - [Server]: [make_handler] and [ReportNotifier]; every route with its
      guard, framing, body, client address, limits and errors.  Keys bound what
      a request can do; addresses cannot be forged past a trusted proxy.
    - [ServerConc]: [BoundedThreadingMixIn] as a step relation over accept
      loop and handlers; the webhook queue under every interleaving.
    - [ServerLife]: the read time-out and the watchdog of a connection, the
      serve loop and shutting down as a timed step relation over the pool,
      from SIGTERM over the thread that sets the shutdown flag to the exit.
    - [ServerMain], [ServerArgs]: the option table with its conversions and
      defaults, the option tests of [main], the unix socket's [server_bind],
      the clean-up.

    Together.  [EndToEnd]: the bytes [ac_report] writes, read by the server's
    own definitions, up to the row in the database and the status the daemon
    reads back; and a hooked system call from the monitor loop to that row.
    [Attack]: a denied ptrace request from the kprobe through the ring, the
    ioctl, the monitor loop and the log to that row.

    ** How the model corresponds to the code

    A C integer is a [Z] with its reduction ([u32], [s64], ...) written where
    the code can wrap; a fixed array is a list of its length; a C string is a
    list of bytes without its terminator, cut where the code's buffer cuts it.
    A function that mutates state takes the state and returns it.  A function
    that takes a lock more than once is split at its critical sections, and the
    concurrent systems are step relations over those sections.  Output is the
    list of emitted events, messages or lines, in order.  Each component is a
    Module with its operations named as in the source; a [...Demo] module holds
    the concrete runs that instantiate the theorems.

    A Python exception is a value of a sum type ([outcome] in [Server]), and a
    handler is a state and exception monad over the server's state; a text is
    the list of its code points, and SQL statements are their meaning on the
    list of rows, newest first.

    Code outside the sources (kernel functions, system calls, memory of other
    processes, the clock, getaddrinfo, SQLite's errors, ipaddress, the password
    and group databases) is a parameter: an argument, a Record of
    what the calls answer, or a type class ([TaskEnv], [ModuleEnv],
    [KernelEnv]).  What a theorem relies on of it is a named hypothesis, such
    as [mem_laws] (a read returns the bytes of the memory, and fails only when
    one is unreadable).

    ** Fuel

    Loops that are not structural carry fuel, and the theorems show the chosen
    amount is enough: the hash loop consumes at least a byte per turn, the
    covering loop of a run passes a record for good per turn, the padding loop
    needs at most 64 turns, the reading loops consume a byte per turn, and the
    JSON parser needs two turns per character.  The pauses of the bounded reap
    can be cut short by signals, so its turns are an argument, and any turn at
    which the deadline has passed is enough.

    ** Not modelled

    Diagnostic printing of the kernel module (pr_info and the like); RCU and
    memory-ordering below the level of critical sections.  Of the server: how
    argparse pairs options with values, SQLite's journal and locking, the size
    limits of the HTTP library, the rounding of floating-point time stamps, the
    lines it prints when it starts.  The test programs, the user-space mock of
    the device, the build and packaging files have no part in the running
    system. *)

From Stdlib Require Export ZArith Lia.
From stdpp Require Export base tactics relations list list_numbers numbers.

#[local] Open Scope Z_scope.

#[global] Arguments Nat.modulo : simpl never.
#[global] Arguments Nat.div : simpl never.

(** ** Machine integers

    A w-bit unsigned integer is a [Z] in [0, 2^w); arithmetic on it is the
    arithmetic of [Z] followed by the reduction below. *)

Definition u8 (x : Z) : Z := x mod 256.
Definition u32 (x : Z) : Z := x mod 4294967296.
Definition u64 (x : Z) : Z := x mod 18446744073709551616.

(** Reinterpretation of a word as a two's complement signed integer. *)
Definition s32 (x : Z) : Z :=
  let y := u32 x in if y <? 2147483648 then y else y - 4294967296.
Definition s64 (x : Z) : Z :=
  let y := u64 x in
  if y <? 9223372036854775808 then y else y - 18446744073709551616.

(** Linear arithmetic with [mod] and [/] by constants. *)
Ltac word_lia := unfold u8, u32, u64 in *; Z.div_mod_to_equations; lia.

Lemma u8_range x : 0 <= u8 x < 256.
Proof. word_lia. Qed.
Lemma u32_range x : 0 <= u32 x < 4294967296.
Proof. word_lia. Qed.
Lemma u64_range x : 0 <= u64 x < 18446744073709551616.
Proof. word_lia. Qed.
Lemma u8_id x : 0 <= x < 256 -> u8 x = x.
Proof. word_lia. Qed.
Lemma u32_id x : 0 <= x < 4294967296 -> u32 x = x.
Proof. word_lia. Qed.
Lemma u64_id x : 0 <= x < 18446744073709551616 -> u64 x = x.
Proof. word_lia. Qed.

Lemma s32_range x : -2147483648 <= s32 x < 2147483648.
Proof.
  unfold s32. pose proof (u32_range x). destruct (Z.ltb_spec (u32 x) 2147483648); lia.
Qed.
Lemma s64_range x : -9223372036854775808 <= s64 x < 9223372036854775808.
Proof.
  unfold s64. pose proof (u64_range x). destruct (Z.ltb_spec (u64 x) 9223372036854775808); lia.
Qed.

(** A signed value survives the trip through a register. *)
Lemma s64_u64 x :
  -9223372036854775808 <= x < 9223372036854775808 -> s64 (u64 x) = x.
Proof.
  intros H. unfold s64. destruct (Z.ltb_spec (u64 (u64 x)) 9223372036854775808);
    word_lia.
Qed.

(** Narrowing looks at the low bits only. *)
Lemma u32_u64 x : u32 (u64 x) = u32 x.
Proof.
  unfold u32, u64. symmetry. apply Znumtheory.Zmod_div_mod; [lia..|].
  by exists 4294967296.
Qed.
Lemma s32_s64 x : s32 (s64 x) = s32 x.
Proof.
  unfold s32, s64. destruct (Z.ltb_spec (u64 x) 9223372036854775808).
  - by rewrite u32_u64.
  - replace (u32 (u64 x - 18446744073709551616)) with (u32 x); [done|].
    rewrite <- (u32_u64 x). word_lia.
Qed.

(** ** Error numbers returned by the module (include/uapi/asm-generic/errno) *)

Definition EPERM : Z := 1.
Definition ESRCH : Z := 3.
Definition EIO : Z := 5.
Definition ENOMEM : Z := 12.
Definition EFAULT : Z := 14.
Definition EBUSY : Z := 16.
Definition ENODEV : Z := 19.
Definition EINVAL : Z := 22.
Definition ENOTTY : Z := 25.
Definition ENOSPC : Z := 28.

(** ** Case analysis on boolean conditions *)

(** Split on the first boolean test found in the goal, recording the
    proposition it decides. *)
Ltac case_test :=
  match goal with
  | |- context [if ?b then _ else _] =>
      lazymatch b with
      | Z.ltb ?x ?y => destruct (Z.ltb_spec x y)
      | Z.leb ?x ?y => destruct (Z.leb_spec x y)
      | Z.eqb ?x ?y => destruct (Z.eqb_spec x y)
      | Nat.ltb ?x ?y => destruct (Nat.ltb_spec x y)
      | Nat.leb ?x ?y => destruct (Nat.leb_spec x y)
      | Nat.eqb ?x ?y => destruct (Nat.eqb_spec x y)
      | _ => destruct b eqn:?
      end
  end.

(** The same on a hypothesis. *)
Ltac case_test_in H :=
  match type of H with
  | context [if ?b then _ else _] =>
      lazymatch b with
      | Z.ltb ?x ?y => destruct (Z.ltb_spec x y)
      | Z.leb ?x ?y => destruct (Z.leb_spec x y)
      | Z.eqb ?x ?y => destruct (Z.eqb_spec x y)
      | Nat.ltb ?x ?y => destruct (Nat.ltb_spec x y)
      | Nat.leb ?x ?y => destruct (Nat.leb_spec x y)
      | Nat.eqb ?x ?y => destruct (Nat.eqb_spec x y)
      | _ => destruct b eqn:?
      end
  end.

Create HintDb boolp.
#[export] Hint Rewrite andb_true_iff andb_false_iff orb_true_iff
  orb_false_iff negb_true_iff negb_false_iff : boolp.
#[export] Hint Rewrite Z.eqb_eq Z.eqb_neq Z.ltb_lt Z.ltb_ge Z.leb_le
  Z.leb_gt : boolp.
#[export] Hint Rewrite Nat.eqb_eq Nat.eqb_neq Nat.ltb_lt Nat.ltb_ge
  Nat.leb_le Nat.leb_gt : boolp.

Ltac boolp := autorewrite with boolp in *.

(** ** Arrays as lists: scans and counts *)

Section scans.
Context {A : Type}.

(** [for (i = 0; i < n; i++) if (p(a[i])) break;] *)
Fixpoint find_index (p : A -> bool) (l : list A) : option nat :=
  match l with
  | [] => None
  | x :: l' => if p x then Some O else S <$> find_index p l'
  end.

Fixpoint count_if (p : A -> bool) (l : list A) : nat :=
  match l with
  | [] => O
  | x :: l' => (if p x then 1 else 0) + count_if p l'
  end%nat.

Lemma find_index_Some p l i :
  find_index p l = Some i ->
  (exists x, l !! i = Some x /\ p x = true) /\
  (forall j x, (j < i)%nat -> l !! j = Some x -> p x = false).
Proof.
  revert i. induction l as [|a l IH]; intros i; simpl; [done|].
  destruct (p a) eqn:Ea.
  - intros [= <-]. split; [eauto|]. intros; lia.
  - destruct (find_index p l) as [k|] eqn:Ek; simpl; [|done].
    intros [= <-]. destruct (IH k eq_refl) as [Hx Hlt]. split; [done|].
    intros [|j] x Hj Hl; simpl in Hl; [congruence|].
    apply (Hlt j); [lia|done].
Qed.

Lemma find_index_lt p l i : find_index p l = Some i -> (i < length l)%nat.
Proof.
  intros [[x [Hx _]] _]%find_index_Some. by eapply lookup_lt_Some.
Qed.

Lemma find_index_None p l :
  find_index p l = None <-> forall i x, l !! i = Some x -> p x = false.
Proof.
  induction l as [|a l IH]; simpl.
  - split; [|done]. intros _ i x. by rewrite lookup_nil.
  - destruct (p a) eqn:Ea; simpl.
    + split; [done|]. intros H. specialize (H O a eq_refl). congruence.
    + destruct (find_index p l); simpl.
      * split; [done|]. intros H.
        assert (Some n = None) as [=]. apply IH.
        intros i x Hx. apply (H (S i) x Hx).
      * split; [|done]. intros _ [|i] x Hx; simpl in Hx; [congruence|].
        by apply (proj1 IH eq_refl i).
Qed.

Lemma find_index_complete p l i x :
  l !! i = Some x -> p x = true ->
  exists j, find_index p l = Some j /\ (j <= i)%nat.
Proof.
  intros Hx Hp. destruct (find_index p l) as [j|] eqn:Ej.
  - exists j. split; [done|]. destruct (decide (j <= i)%nat); [done|].
    apply find_index_Some in Ej as [_ Hlt].
    rewrite (Hlt i x) in Hp; [done|lia|done].
  - rewrite find_index_None in Ej. by rewrite (Ej i x Hx) in Hp.
Qed.

Lemma count_if_insert p l i x y :
  l !! i = Some x ->
  (count_if p (<[i:=y]> l) + (if p x then 1 else 0) =
   count_if p l + (if p y then 1 else 0))%nat.
Proof.
  revert i. induction l as [|a l IH]; intros [|i] H; simplify_eq/=.
  - lia.
  - specialize (IH i H). lia.
Qed.

Lemma count_if_le p l : (count_if p l <= length l)%nat.
Proof. induction l as [|a l IH]; simpl; [done|]. destruct (p a); lia. Qed.

Lemma count_if_0 p l :
  (forall i x, l !! i = Some x -> p x = false) -> count_if p l = O.
Proof.
  induction l as [|a l IH]; intros H; simpl; [done|].
  rewrite (H O a eq_refl), IH; [done|]. intros i x. apply (H (S i)).
Qed.

Lemma count_if_full p l :
  count_if p l = length l -> forall i x, l !! i = Some x -> p x = true.
Proof.
  induction l as [|a l IH]; simpl; [done|].
  pose proof (count_if_le p l). destruct (p a) eqn:Ea; [|lia].
  intros ? [|i] x Hx; simplify_eq/=; [done|]. by apply (IH ltac:(lia) i).
Qed.

Lemma count_if_ext p q l :
  (forall i x, l !! i = Some x -> p x = q x) -> count_if p l = count_if q l.
Proof.
  induction l as [|a l IH]; intros H; simpl; [done|].
  rewrite (H O a eq_refl), IH; [done|]. intros i x. apply (H (S i)).
Qed.
End scans.

Lemma count_if_app {A} (P : A -> bool) l1 l2 :
  count_if P (l1 ++ l2) = (count_if P l1 + count_if P l2)%nat.
Proof. induction l1 as [|x l1 IH]; simpl; [done|]. rewrite IH. lia. Qed.

Lemma count_if_fmap {A B} (p : B -> bool) (f : A -> B) l :
  count_if p (f <$> l) = count_if (p ∘ f) l.
Proof. induction l as [|a l IH]; csimpl; [done|]. by rewrite IH. Qed.

(** Lookups in an updated array, by cases on the index. *)
Lemma list_lookup_insert_case {A} (l : list A) i j x y :
  <[i:=x]> l !! j = Some y ->
  (i = j /\ y = x /\ (i < length l)%nat) \/ (i <> j /\ l !! j = Some y).
Proof.
  intros H. destruct (decide (i = j)) as [->|Hne].
  - left. assert (j < length l)%nat as Hj.
    { apply lookup_lt_Some in H. by rewrite length_insert in H. }
    rewrite list_lookup_insert_eq in H by done. by simplify_eq.
  - right. by rewrite list_lookup_insert_ne in H.
Qed.

Lemma lookup_lt_is_Some_list {A} (l : list A) i :
  (i < length l)%nat -> exists x, l !! i = Some x.
Proof. intros H. by apply lookup_lt_is_Some. Qed.

(** [for (i = 0; i < n; i++) ... a[i] ...] visits the array in order. *)
Lemma fmap_seq_lookup_total {A B} `{!Inhabited A} (f : A -> B) (l : list A) :
  (fun i => f (l !!! i)) <$> seq 0 (length l) = f <$> l.
Proof.
  apply list_eq. intros i. rewrite !list_lookup_fmap.
  destruct (decide (i < length l)%nat) as [Hi|Hi].
  - rewrite lookup_seq_lt by done. simpl.
    by rewrite (list_lookup_lookup_total_lt l i Hi).
  - rewrite lookup_seq_ge by lia. by rewrite lookup_ge_None_2 by lia.
Qed.

(** Rule induction over a reachable state: what holds initially and is kept
    by every step holds wherever the steps lead. *)
Lemma rtc_invariant {A} (R : relation A) (P : A -> Prop) x y :
  rtc R x y -> P x -> (forall a b, R a b -> P a -> P b) -> P y.
Proof. induction 1; eauto. Qed.

(** ** An array being overwritten from the left *)

Section sweep.
Context {A : Type}.

(** The array [old] after its first [n] entries were set to [f 0 .. ]. *)
Definition sweep (f : nat -> A) (n : nat) (old : list A) : list A :=
  (f <$> seq 0 n) ++ drop n old.

Lemma length_sweep f n old :
  (n <= length old)%nat -> length (sweep f n old) = length old.
Proof.
  intros H. unfold sweep.
  rewrite length_app, length_fmap, length_seq, length_drop. lia.
Qed.

Lemma sweep_full f n old :
  length old = n -> sweep f n old = f <$> seq 0 n.
Proof. intros <-. unfold sweep. by rewrite drop_all, app_nil_r. Qed.

Lemma sweep_lookup f n old : sweep f n old !! n = old !! n.
Proof.
  unfold sweep. rewrite lookup_app_r; rewrite length_fmap, length_seq; [|done].
  by rewrite lookup_drop, Nat.sub_diag, Nat.add_0_r.
Qed.

Lemma sweep_lookup_total `{!Inhabited A} f n old :
  sweep f n old !!! n = old !!! n.
Proof. rewrite !list_lookup_total_alt. by rewrite sweep_lookup. Qed.

Lemma sweep_S f n old :
  (n < length old)%nat ->
  sweep f (S n) old = <[n := f n]> (sweep f n old).
Proof.
  intros Hn. symmetry. destruct (lookup_lt_is_Some_list old n Hn) as [y Hy].
  unfold sweep. rewrite (drop_S _ _ _ Hy), seq_S, fmap_app, <- app_assoc.
  rewrite insert_app_r_alt; rewrite length_fmap, length_seq; [|done].
  by rewrite Nat.sub_diag.
Qed.

Lemma insert_same `{!Inhabited A} n (l : list A) x :
  (n < length l)%nat -> l !!! n = x -> <[n := x]> l = l.
Proof.
  intros Hn <-. apply list_insert_id. by apply list_lookup_lookup_total_lt.
Qed.
End sweep.

Lemma fmap_seq_total {A} `{!Inhabited A} (f : nat -> A) n i :
  (i < n)%nat -> (f <$> seq 0 n) !!! i = f i.
Proof.
  intros Hi. apply list_lookup_total_correct.
  by rewrite list_lookup_fmap, lookup_seq_lt.
Qed.

Lemma count_if_seq_0 (p : nat -> bool) n :
  count_if p (seq 0 n) = 0%nat <-> forall i, (i < n)%nat -> p i = false.
Proof.
  split.
  - intros H i Hi. destruct (p i) eqn:E; [|done].
    assert (forall l, i ∈ l -> count_if p l <> 0%nat) as Hne.
    { induction l as [|a l IH]; rewrite ?elem_of_nil, ?elem_of_cons; [done|].
      intros [<-|Hl]; simpl; [by rewrite E|]. specialize (IH Hl). lia. }
    destruct (Hne (seq 0 n)); [apply elem_of_seq; lia|done].
  - intros H. apply count_if_0. intros j x [-> Hj]%lookup_seq. by apply H.
Qed.

(** A counter incremented on some iterations of a loop. *)
Lemma count_if_seq_S (p : nat -> bool) n :
  count_if p (seq 0 (S n)) = (count_if p (seq 0 n) + if p n then 1 else 0)%nat.
Proof.
  rewrite seq_S, count_if_app. simpl. destruct (p n); lia.
Qed.

(** A loop that appends nothing. *)
Lemma concat_seq_nil {A} (f : nat -> list A) n :
  (forall i, (i < n)%nat -> f i = []) -> concat (f <$> seq 0 n) = [].
Proof.
  intros H. assert (f <$> seq 0 n = (fun _ => []) <$> seq 0 n) as ->.
  { apply list_fmap_ext. intros j x [-> Hj]%lookup_seq. by apply H. }
  induction (seq 0 n); [done|by simpl].
Qed.

Lemma sublist_Forall {A} (P : A -> Prop) (l1 l2 : list A) :
  l1 `sublist_of` l2 -> Forall P l2 -> Forall P l1.
Proof.
  intros Hs Hf. apply list.Forall_forall. intros x Hx.
  apply (proj1 (list.Forall_forall _ _) Hf). by eapply elem_of_sublist.
Qed.

Lemma sublist_filter_mono {A} (P : A -> Prop) `{!∀ x, Decision (P x)} (l1 l2 : list A) :
  l1 `sublist_of` l2 -> filter P l1 `sublist_of` filter P l2.
Proof.
  induction 1 as [|x l1 l2 _ IH|x l1 l2 _ IH]; [done| |];
    rewrite ?filter_cons; case_decide; by try constructor.
Qed.

Lemma filter_all {A} (P : A -> Prop) `{!∀ x, Decision (P x)} l :
  Forall P l -> filter P l = l.
Proof.
  induction 1 as [|x l Hx _ IH]; [done|]. by rewrite filter_cons_True, IH.
Qed.

Lemma filter_iff_on {A} (P Q : A -> Prop) `{!forall x, Decision (P x)}
    `{!forall x, Decision (Q x)} (l : list A) :
  (forall x, x ∈ l -> P x <-> Q x) -> filter P l = filter Q l.
Proof.
  induction l as [|a l IH]; intros Hpq; [done|]. rewrite !filter_cons.
  rewrite IH by (intros x Hx; apply Hpq; by right).
  pose proof (Hpq a ltac:(by left)). do 2 case_decide; tauto.
Qed.

Lemma count_if_none {A} (p : A -> bool) (l : list A) :
  count_if p l = O <-> Forall (fun x => p x = false) l.
Proof.
  induction l as [|a l IH]; cbn [count_if]; [done|].
  rewrite Forall_cons_iff, <- IH. destruct (p a); naive_solver lia.
Qed.
