(* ===== verification/CText.v ===== *)
(** C text: NUL-free byte strings, bounded copies and the printf conversions
    the program uses.

    A C string is the list of its bytes before the terminating NUL.  A buffer
    of [size] bytes therefore holds a string of at most [size - 1] bytes. *)

From stdpp Require Export strings.
From S2P Require Import Prelude.

#[local] Open Scope Z_scope.

(** ** Literals *)

Definition byte_of_ascii (a : Ascii.ascii) : Z := Z.of_N (Ascii.N_of_ascii a).

Fixpoint lit (s : string) : list Z :=
  match s with
  | EmptyString => []
  | String a s' => byte_of_ascii a :: lit s'
  end.
Arguments lit s%_string.

(** ** Bounded copies *)

(** [strscpy(dst, src, size)] and [snprintf(dst, size, "%s", src)]: at most
    [size - 1] bytes, always terminated.  Every call site has [size > 0]. *)
Definition strscpy (size : nat) (src : list Z) : list Z :=
  take (size - 1) src.

(** [strcmp(a, b) == 0] *)
Definition streq (a b : list Z) : bool := bool_decide (a = b).

(** ** Conversions *)

Definition digit_char (d : Z) : Z := if d <? 10 then 48 + d else 87 + d.

(** Digits of [n] in base [b], most significant first, prepended to [acc]. *)
Fixpoint fmt_base (b : Z) (fuel : nat) (n : Z) (acc : list Z) : list Z :=
  match fuel with
  | O => acc
  | S f =>
      let acc' := digit_char (n mod b) :: acc in
      if n / b =? 0 then acc' else fmt_base b f (n / b) acc'
  end.

(** [%u], [%llu]: at most 20 digits for a 64-bit value. *)
Definition fmt_u (n : Z) : list Z := fmt_base 10 20 n [].
(** [%x], [%lx], [%llx]: at most 16 digits for a 64-bit value. *)
Definition fmt_x (n : Z) : list Z := fmt_base 16 16 n [].
(** [%d], [%ld] *)
Definition fmt_d (n : Z) : list Z :=
  if n <? 0 then 45 :: fmt_u (- n) else fmt_u n.

Example fmt_d_ex : fmt_d (-120) = lit "-120".
Proof. reflexivity. Qed.
Example fmt_x_ex : fmt_x 48879 = lit "beef".
Proof. reflexivity. Qed.

Lemma length_fmt_u n : (length (fmt_u n) <= 20)%nat.
Proof.
  assert (forall f n acc, (length (fmt_base 10 f n acc) <= f + length acc)%nat) as H.
  { intros f. induction f as [|f IH]; intros m acc; cbn [fmt_base]; [lia|].
    destruct (_ =? 0); cbn [length]; [lia|]. etrans; [apply IH|]. cbn [length]. lia. }
  specialize (H 20%nat n []). exact H.
Qed.

Lemma length_strscpy size s : (length (strscpy size s) <= size - 1)%nat.
Proof. unfold strscpy. rewrite length_take. lia. Qed.

Lemma strscpy_id size s : (length s <= size - 1)%nat -> strscpy size s = s.
Proof. intros H. unfold strscpy. by apply take_ge. Qed.

Lemma strscpy_idem size s : strscpy size (strscpy size s) = strscpy size s.
Proof. apply strscpy_id, length_strscpy. Qed.

Lemma streq_spec a b : reflect (a = b) (streq a b).
Proof. unfold streq. apply bool_decide_reflect. Qed.

Lemma streq_true a b : streq a b = true -> a = b.
Proof. by destruct (streq_spec a b). Qed.

(** ** Little-endian fields of a structure in memory *)

(** The value of the [n] bytes at [off]. *)
Fixpoint le (n : nat) (off : nat) (buf : list Z) : Z :=
  match n with
  | O => 0
  | S n' => default 0 (buf !! off) + 256 * le n' (S off) buf
  end.

Fixpoint put_le (n : nat) (v : Z) : list Z :=
  match n with O => [] | S n' => v mod 256 :: put_le n' (v / 256) end.

Lemma length_put_le n v : length (put_le n v) = n.
Proof. revert v. induction n; intros v; simpl; auto. Qed.

Lemma le_put_le n v pre post :
  0 <= v < 256 ^ Z.of_nat n -> le n (length pre) (pre ++ put_le n v ++ post) = v.
Proof.
  revert v pre. induction n as [|n IH]; intros v pre Hv; cbn [le put_le app].
  - change (256 ^ Z.of_nat 0) with 1 in Hv. lia.
  - rewrite list_lookup_middle by done. cbn [from_option id].
    rewrite Nat2Z.inj_succ, Z.pow_succ_r in Hv by lia.
    specialize (IH (v / 256) (pre ++ [v mod 256])).
    rewrite length_app, <- app_assoc, Nat.add_1_r in IH. cbn [length app] in IH.
    rewrite IH; [Z.div_mod_to_equations; lia|].
    split; [apply Z.div_pos; lia|apply Z.div_lt_upper_bound; lia].
Qed.
