(* ===== verification/CScan.v ===== *)
(** The C library's number and line scanning, as the daemon uses it: [strtol]
    in base 10, the [%llx] and [%64s] conversions of [sscanf], [fgets], and
    that they read back what the [printf] conversions write. *)

From S2P Require Import Prelude CText.

#[local] Open Scope Z_scope.

(** ** Characters *)

Definition isspace (c : Z) : bool := (c =? 32) || ((9 <=? c) && (c <=? 13)).
Definition isdigit (c : Z) : bool := (48 <=? c) && (c <=? 57).

Definition hexval (c : Z) : option Z :=
  if isdigit c then Some (c - 48)
  else if (97 <=? c) && (c <=? 102) then Some (c - 87)
  else if (65 <=? c) && (c <=? 70) then Some (c - 55)
  else None.

Definition decval (c : Z) : option Z := if isdigit c then Some (c - 48) else None.

Fixpoint skip_space (s : list Z) : list Z :=
  match s with
  | c :: s' => if isspace c then skip_space s' else s
  | [] => []
  end.

(** The longest prefix of digits, accumulated into [acc]; [None] when there is
    no digit. *)
Fixpoint digits (val : Z -> option Z) (base acc : Z) (s : list Z) : Z * list Z :=
  match s with
  | c :: s' =>
      match val c with
      | Some d => digits val base (acc * base + d) s'
      | None => (acc, s)
      end
  | [] => (acc, [])
  end.

Definition some_digits (val : Z -> option Z) (base : Z) (s : list Z)
    : option (Z * list Z) :=
  match s with
  | c :: _ => match val c with
              | Some _ => Some (digits val base 0 s)
              | None => None
              end
  | [] => None
  end.

(** An optional sign: whether negative, and the rest. *)
Definition sign (s : list Z) : bool * list Z :=
  match s with
  | 45 :: s' => (true, s')
  | 43 :: s' => (false, s')
  | _ => (false, s)
  end.

(** [strtol(s, &end, 10)]: the value clamped to [long], whether [errno] was
    set, and [end]; without digits the value is 0 and [end] is [s]. *)
Definition LONG_MAX : Z := 9223372036854775807.
Definition LONG_MIN : Z := -9223372036854775808.
Definition INT_MAX : Z := 2147483647.

Definition strtol10 (s : list Z) : Z * bool * list Z :=
  let '(neg, s1) := sign (skip_space s) in
  match some_digits decval 10 s1 with
  | None => (0, false, s)
  | Some (v, rest) =>
      let x := if neg then - v else v in
      if LONG_MAX <? x then (LONG_MAX, true, rest)
      else if x <? LONG_MIN then (LONG_MIN, true, rest)
      else (x, false, rest)
  end.

(** [strtoul(s, &end, 10)]: a minus sign negates modulo 2^64; the value
    saturates. *)
Definition ULONG_MAX : Z := 18446744073709551615.

Definition strtoul10 (s : list Z) : Z * list Z :=
  let '(neg, s1) := sign (skip_space s) in
  match some_digits decval 10 s1 with
  | None => (0, s)
  | Some (v, rest) =>
      (if ULONG_MAX <? v then ULONG_MAX else if neg then u64 (- v) else v, rest)
  end.

(** [%llx]: white space, an optional sign, an optional 0x, hex digits; the
    value saturates at 2^64 - 1. *)
Definition ULLONG_MAX : Z := 18446744073709551615.

Definition scan_x (s : list Z) : option (Z * list Z) :=
  let '(neg, s1) := sign (skip_space s) in
  let body :=
    match s1 with
    | 48 :: x :: s2 =>
        if (x =? 120) || (x =? 88) then Some (digits hexval 16 0 s2)
        else some_digits hexval 16 s1
    | _ => some_digits hexval 16 s1
    end in
  match body with
  | None => None
  | Some (v, rest) =>
      Some (if ULLONG_MAX <? v then ULLONG_MAX
            else if neg then u64 (- v) else v, rest)
  end.

(** [%<width>s]: white space, then up to [width] other characters. *)
Fixpoint word_of (width : nat) (s : list Z) : list Z * list Z :=
  match width, s with
  | S w, c :: s' =>
      if isspace c then ([], s)
      else let '(a, rest) := word_of w s' in (c :: a, rest)
  | _, _ => ([], s)
  end.

Definition scan_s (width : nat) (s : list Z) : option (list Z * list Z) :=
  match word_of width (skip_space s) with
  | ([], _) => None
  | (w, rest) => Some (w, rest)
  end.

(** [fgets(line, size, f)]: up to [size - 1] bytes, ending after a newline;
    the line and the rest of the file. *)
Fixpoint fgets_n (n : nat) (s : list Z) : list Z * list Z :=
  match n, s with
  | S n', c :: s' =>
      if c =? 10 then ([c], s')
      else let '(l, rest) := fgets_n n' s' in (c :: l, rest)
  | _, _ => ([], s)
  end.

(** The bytes of a buffer before its first NUL. *)
Fixpoint cstr (s : list Z) : list Z :=
  match s with
  | c :: s' => if c =? 0 then [] else c :: cstr s'
  | [] => []
  end.

(** ** Reading back what was printed *)

Lemma digit_char_hexval d : 0 <= d < 16 -> hexval (digit_char d) = Some d.
Proof.
  intros Hd. unfold hexval, digit_char, isdigit.
  destruct (Z.ltb_spec d 10).
  - replace ((48 <=? 48 + d) && (48 + d <=? 57)) with true by lia. f_equal. lia.
  - replace ((48 <=? 87 + d) && (87 + d <=? 57)) with false by lia.
    replace ((97 <=? 87 + d) && (87 + d <=? 102)) with true by lia. f_equal. lia.
Qed.

Lemma digit_char_decval d : 0 <= d < 10 -> decval (digit_char d) = Some d.
Proof.
  intros Hd. unfold decval, digit_char, isdigit.
  destruct (Z.ltb_spec d 10); [|lia].
  replace ((48 <=? 48 + d) && (48 + d <=? 57)) with true by lia. f_equal. lia.
Qed.

(** The characters [fmt_base] writes. *)
Definition digit_of (b c : Z) : Prop := exists d, 0 <= d < b /\ c = digit_char d.

Section readback.
Context (b : Z) (val : Z -> option Z).
Context (Hb : 2 <= b) (Hval : forall d, 0 <= d < b -> val (digit_char d) = Some d).

Lemma fmt_base_digits fuel n :
  (0 < fuel)%nat -> 0 <= n < b ^ Z.of_nat fuel ->
  exists ds, ds <> [] /\ Forall (digit_of b) ds /\
    (length ds <= fuel)%nat /\
    (forall acc, fmt_base b fuel n acc = ds ++ acc) /\
    (forall a rest, digits val b a (ds ++ rest) =
       digits val b (a * b ^ Z.of_nat (length ds) + n) rest).
Proof.
  revert n. induction fuel as [|fuel IH]; intros n Hf Hn; [lia|].
  assert (0 <= n mod b < b) as Hm by (apply Z.mod_pos_bound; lia).
  pose proof (Z.div_mod n b ltac:(lia)) as Hdm.
  destruct (Z.eqb_spec (n / b) 0) as [Hz|Hz].
  - exists [digit_char (n mod b)]. split; [done|]. split.
    { apply Forall_singleton. by exists (n mod b). }
    split; [simpl; lia|]. split.
    { intros acc. cbn [fmt_base]. by rewrite Hz. }
    intros a rest. cbn [app digits length]. rewrite Hval by lia.
    f_equal. rewrite Z.pow_1_r. lia.
  - assert (0 < n / b) as Hpos by (pose proof (Z.div_pos n b); lia).
    assert (n / b < b ^ Z.of_nat fuel) as Hlt.
    { apply Z.div_lt_upper_bound; [lia|].
      replace (Z.of_nat (S fuel)) with (Z.succ (Z.of_nat fuel)) in Hn by lia.
      rewrite Z.pow_succ_r in Hn by lia. lia. }
    destruct fuel as [|fuel]; [simpl in Hlt; lia|].
    destruct (IH (n / b)) as (ds & Hne & Hall & Hlen & Hfmt & Hread); [lia|lia|].
    exists (ds ++ [digit_char (n mod b)]). split; [by destruct ds|]. split.
    { apply Forall_app_2; [done|]. apply Forall_singleton. by exists (n mod b). }
    split; [rewrite length_app; simpl; lia|]. split.
    { intros acc. rewrite <- app_assoc. cbn [app]. rewrite <- Hfmt.
      cbn [fmt_base]. apply Z.eqb_neq in Hz. by rewrite Hz. }
    intros a rest. rewrite <- app_assoc, Hread. cbn [app digits].
    rewrite Hval by lia. f_equal. rewrite length_app, Nat2Z.inj_add.
    rewrite Z.pow_add_r by lia. change (Z.of_nat (length [_])) with 1. nia.
Qed.
End readback.

Lemma digit_of_hex c :
  digit_of 16 c -> 48 <= c <= 57 \/ 97 <= c <= 102.
Proof.
  intros (d & Hd & ->). unfold digit_char. destruct (Z.ltb_spec d 10); lia.
Qed.

Lemma digit_of_10 c : digit_of 10 c -> 48 <= c <= 57.
Proof.
  intros (d & Hd & ->). unfold digit_char. destruct (Z.ltb_spec d 10); lia.
Qed.

Lemma fmt_base_chars b fuel n acc :
  0 < b -> Forall (digit_of b) acc -> Forall (digit_of b) (fmt_base b fuel n acc).
Proof.
  intros Hb. revert n acc. induction fuel as [|fuel IH]; intros n acc Hacc; [done|].
  assert (Forall (digit_of b) (digit_char (n mod b) :: acc)) as Hacc'.
  { constructor; [|done]. exists (n mod b). split; [|done]. by apply Z.mod_pos_bound. }
  cbn [fmt_base]. case_test; [done|by apply IH].
Qed.

Lemma fmt_u_chars n : Forall (fun c => 48 <= c <= 57) (fmt_u n).
Proof.
  eapply Forall_impl; [by apply (fmt_base_chars 10); [|constructor]|].
  apply digit_of_10.
Qed.

Lemma sign_plain c s : 48 <= c -> sign (c :: s) = (false, c :: s).
Proof.
  intros Hc. unfold sign. assert (c <> 45 /\ c <> 43) as [??] by lia.
  destruct c as [|p|p]; try done. repeat (destruct p as [p|p|]; try done).
Qed.

Lemma skip_space_plain c s : 32 < c -> skip_space (c :: s) = c :: s.
Proof.
  intros Hc. cbn [skip_space]. unfold isspace.
  by replace ((c =? 32) || ((9 <=? c) && (c <=? 13))) with false by lia.
Qed.

(** [%llx] reads back a [%llx] that a non-hexadecimal character other than x
    follows. *)
Lemma scan_x_fmt n c rest :
  0 <= n < 2 ^ 64 -> hexval c = None -> c <> 120 -> c <> 88 ->
  scan_x (fmt_x n ++ c :: rest) = Some (n, c :: rest).
Proof.
  intros Hn Hc Hx HX. unfold fmt_x, scan_x.
  destruct (fmt_base_digits 16 hexval ltac:(lia) digit_char_hexval 16 n)
    as (ds & Hne & Hall & _ & -> & Hread); [lia|lia|].
  rewrite app_nil_r. specialize (Hread 0 (c :: rest)).
  destruct ds as [|d ds]; [done|]. apply Forall_cons_1 in Hall as [Hd Hall].
  assert (hexval d <> None) as Hdv.
  { destruct Hd as (e & He & ->). by rewrite digit_char_hexval. }
  apply digit_of_hex in Hd. cbn [app] in *.
  rewrite skip_space_plain by lia. rewrite sign_plain by lia.
  assert (some_digits hexval 16 (d :: ds ++ c :: rest) = Some (n, c :: rest)) as Hsd.
  { unfold some_digits. destruct (hexval d); [|done]. f_equal.
    rewrite Hread. cbn [digits]. by rewrite Hc. }
  assert (ULLONG_MAX <? n = false) as Hov by (unfold ULLONG_MAX; lia).
  assert (exists y r, ds ++ c :: rest = y :: r /\ y <> 120 /\ y <> 88)
    as (y & r & Hy & Hy1 & Hy2).
  { destruct ds as [|y ds]; [by exists c, rest|]. exists y, (ds ++ c :: rest).
    apply Forall_cons_1 in Hall as [Hyd _]. apply digit_of_hex in Hyd.
    split; [done|]. lia. }
  rewrite Hy in *. apply Z.eqb_neq in Hy1, Hy2. rewrite Hy1, Hy2, Hsd.
  cbn [orb].
  destruct d as [|p|p]; cbn iota; try (by rewrite Hov).
  repeat (destruct p as [p|p|]; cbn iota; try (by rewrite Hov)).
Qed.

(** [strtol] reads back a [%u] that a non-digit, or the end, follows. *)
Lemma strtol10_fmt n rest :
  0 <= n <= LONG_MAX -> match rest with c :: _ => decval c = None | [] => True end ->
  strtol10 (fmt_u n ++ rest) = (n, false, rest).
Proof.
  unfold LONG_MAX. intros Hn Hc. unfold fmt_u, strtol10.
  destruct (fmt_base_digits 10 decval ltac:(lia) digit_char_decval 20 n)
    as (ds & Hne & Hall & _ & -> & Hread); [lia|lia|].
  rewrite app_nil_r. specialize (Hread 0 rest).
  destruct ds as [|d ds]; [done|]. apply Forall_cons_1 in Hall as [Hd Hall].
  assert (decval d <> None) as Hdv.
  { destruct Hd as (e & He & ->). by rewrite digit_char_decval. }
  apply digit_of_10 in Hd. cbn [app] in *.
  rewrite skip_space_plain by lia. rewrite sign_plain by lia.
  unfold some_digits. destruct (decval d); [|done]. rewrite Hread.
  rewrite Z.mul_0_l, Z.add_0_l.
  assert (digits decval 10 n rest = (n, rest)) as ->.
  { destruct rest as [|c rest]; [done|]. cbn [digits]. by rewrite Hc. }
  unfold LONG_MAX, LONG_MIN. do 2 (case_test; try lia). done.
Qed.

Lemma strtoul10_fmt n :
  0 <= n <= ULONG_MAX -> strtoul10 (fmt_u n) = (n, []).
Proof.
  unfold ULONG_MAX. intros Hn. unfold fmt_u, strtoul10.
  destruct (fmt_base_digits 10 decval ltac:(lia) digit_char_decval 20 n)
    as (ds & Hne & Hall & _ & -> & Hread); [lia|lia|].
  specialize (Hread 0 []). destruct ds as [|d ds]; [done|].
  apply Forall_cons_1 in Hall as [Hd Hall].
  assert (decval d <> None) as Hdv.
  { destruct Hd as (e & He & ->). by rewrite digit_char_decval. }
  apply digit_of_10 in Hd. cbn [app] in *.
  rewrite skip_space_plain by lia. rewrite sign_plain by lia.
  unfold some_digits. destruct (decval d); [|done]. rewrite Hread.
  cbn [digits]. unfold ULONG_MAX. case_test; [lia|]. f_equal; lia.
Qed.

Lemma digits_nonneg val b a s v rest :
  (forall c d, val c = Some d -> 0 <= d) -> 0 <= b -> 0 <= a ->
  digits val b a s = (v, rest) -> 0 <= v.
Proof.
  intros Hval Hb. revert a. induction s as [|c s IH]; intros a Ha Hd; cbn [digits] in Hd.
  - by simplify_eq.
  - destruct (val c) as [d|] eqn:Hc; [|by simplify_eq].
    eapply IH; [|exact Hd]. apply Hval in Hc. nia.
Qed.

Lemma hexval_nonneg c d : hexval c = Some d -> 0 <= d.
Proof.
  unfold hexval, isdigit. intros Hc. repeat case_test_in Hc; simplify_eq; boolp; lia.
Qed.

Lemma decval_nonneg c d : decval c = Some d -> 0 <= d.
Proof. unfold decval, isdigit. intros Hc. case_test_in Hc; simplify_eq; boolp; lia. Qed.

Lemma some_digits_eq val b s v rest :
  some_digits val b s = Some (v, rest) -> digits val b 0 s = (v, rest).
Proof.
  unfold some_digits. destruct s as [|c s]; [done|].
  destruct (val c); [|done]. by intros ?%(inj Some).
Qed.

Lemma strtoul10_range s v rest : strtoul10 s = (v, rest) -> 0 <= v <= ULONG_MAX.
Proof.
  unfold strtoul10, ULONG_MAX. destruct (sign _) as [neg s1]. intros Hs.
  destruct (some_digits decval 10 s1) as [[x r]|] eqn:Hd; [|by simplify_eq].
  apply some_digits_eq, digits_nonneg in Hd; [|exact decval_nonneg|lia..].
  injection Hs as <- <-. pose proof (u64_range (- x)).
  repeat case_test; lia.
Qed.

(** A word of [w] characters, ended by white space, is read whole. *)
Lemma word_of_app w (s : list Z) c rest :
  (length s <= w)%nat -> Forall (fun c => isspace c = false) s ->
  isspace c = true -> word_of w (s ++ c :: rest) = (s, c :: rest).
Proof.
  revert w. induction s as [|a s IH]; intros w Hlen Hall Hc; cbn [app].
  - destruct w; [done|]. cbn [word_of]. by rewrite Hc.
  - apply Forall_cons_1 in Hall as [Ha Hall]. cbn [length] in Hlen.
    destruct w as [|w]; [lia|]. cbn [word_of]. rewrite Ha.
    by rewrite (IH w) by (lia || done).
Qed.

Lemma scan_s_app w (s : list Z) c rest :
  s <> [] -> (length s <= w)%nat -> Forall (fun c => isspace c = false) s ->
  isspace c = true -> scan_s w (s ++ c :: rest) = Some (s, c :: rest).
Proof.
  intros Hne Hlen Hall Hc. unfold scan_s.
  assert (skip_space (s ++ c :: rest) = s ++ c :: rest) as ->.
  { destruct s as [|a s]; [done|]. apply Forall_cons_1 in Hall as [Ha _].
    cbn [app skip_space]. by rewrite Ha. }
  rewrite word_of_app by done. by destruct s.
Qed.

(** A line shorter than the buffer is read up to its newline. *)
Lemma fgets_line n (l : list Z) rest :
  (length l < n)%nat -> Forall (fun c => c <> 10) l ->
  fgets_n n (l ++ 10 :: rest) = (l ++ [10], rest).
Proof.
  revert n. induction l as [|a l IH]; intros n Hlen Hall; cbn [app].
  - destruct n; [simpl in Hlen; lia|]. done.
  - apply Forall_cons_1 in Hall as [Ha Hall]. cbn [length] in Hlen.
    destruct n as [|n]; [lia|]. cbn [fgets_n]. apply Z.eqb_neq in Ha. rewrite Ha.
    by rewrite (IH n) by (lia || done).
Qed.

Lemma fgets_shrinks n s l rest :
  fgets_n (S n) s = (l, rest) -> s <> [] -> (length rest < length s)%nat.
Proof.
  intros Hf Hs.
  assert (forall m t l' r, fgets_n m t = (l', r) -> (length r <= length t)%nat) as Hle.
  { induction m as [|m IH]; intros [|c t] l' r Ht; cbn [fgets_n] in Ht;
      try (injection Ht as <- <-; simpl; lia).
    destruct (c =? 10); [injection Ht as <- <-; simpl; lia|].
    destruct (fgets_n m t) as [l2 r2] eqn:E. injection Ht as <- <-.
    apply IH in E. simpl. lia. }
  destruct s as [|c s]; [done|]. cbn [fgets_n] in Hf.
  destruct (c =? 10); [injection Hf as <- <-; simpl; lia|].
  destruct (fgets_n n s) as [l2 r2] eqn:E. injection Hf as <- <-.
  apply Hle in E. simpl. lia.
Qed.

Lemma cstr_id s : Forall (fun c => c <> 0) s -> cstr s = s.
Proof.
  induction 1 as [|c s Hc _ IH]; [done|]. cbn [cstr]. apply Z.eqb_neq in Hc.
  by rewrite Hc, IH.
Qed.

Lemma fmt_x_chars n : 0 <= n < 2 ^ 64 ->
  Forall (fun c => 32 < c < 127) (fmt_x n) /\ (1 <= length (fmt_x n) <= 16)%nat.
Proof.
  intros Hn. unfold fmt_x.
  destruct (fmt_base_digits 16 hexval ltac:(lia) digit_char_hexval 16 n)
    as (ds & Hne & Hall & Hlen & -> & _); [lia|lia|].
  rewrite app_nil_r. split; [|destruct ds; simpl in *; [done|lia]].
  eapply Forall_impl; [exact Hall|]. intros c Hc%digit_of_hex. lia.
Qed.
