(* ===== verification/Abi.v ===== *)
(** The ABI shared by the kernel module and the daemon (src/anticheat.h):
    limits, event types, the structures crossing the ioctl boundary, their
    x86-64 layout and the command numbers built from their sizes. *)

From S2P Require Import Prelude CText.

#[local] Open Scope Z_scope.

(** ** Limits *)

Definition AC_IOCTL_VERSION : Z := 2.
Definition AC_GET_EVENTS_MAX_BLOCK_MS : Z := 1000.
Definition AC_MAX_COMM : nat := 16.
Definition AC_MAX_VMAS : nat := 4096.
Definition AC_VMA_PATH : nat := 128.
Definition AC_MOD_NAME_LEN : nat := 64.
Definition AC_MAX_EVENTS : nat := 64.
Definition AC_MAX_PROTS : nat := 64.
Definition AC_MAX_MODS : nat := 1024.
Definition AC_EVENT_DATA : nat := 128.

Definition AC_VM_EXEC : Z := 4.
Definition AC_VM_WRITE : Z := 2.

(** ** Event types *)

Definition AC_EV_FORK : Z := 1.
Definition AC_EV_EXEC : Z := 2.
Definition AC_EV_EXIT : Z := 3.
Definition AC_EV_PTRACE : Z := 4.
Definition AC_EV_SYSCALL_HOOK : Z := 5.
Definition AC_EV_RWX : Z := 6.
Definition AC_EV_ANON_EXEC : Z := 7.
Definition AC_EV_INFO : Z := 8.
Definition AC_EV_PROCESS_VM : Z := 9.
Definition AC_EV_SYSCALL_REDIRECT : Z := 10.
Definition AC_EV_FORK_DROPPED : Z := 11.

(** ** Structures

    A [char] array is the string it holds; a 0/1 [unsigned int] that only
    ever holds a truth value is a [bool]. *)

Record ac_status := mk_status {
  st_version : Z;
  st_syscall_table_addr : Z;
  st_active_procs : Z;
  st_events_dropped : Z;
  st_locked : Z;
  st_syscall_hook_count : Z;
  st_kill_dropped : Z;
}.

Record ac_proc_id := mk_proc_id {
  pr_pid : Z;
  pr_ref_pid : Z;
  pr_jit_allowed : Z;
  pr_comm : list Z;
}.

Record ac_vma_info := mk_vma_info {
  vi_start : Z;
  vi_end : Z;
  vi_offset : Z;
  vi_inode : Z;
  vi_flags : Z;
  vi_is_file : bool;
  vi_path : list Z;
}.

Record ac_scan_begin := mk_scan_begin {
  sb_pid : Z;
  sb_ref_pid : Z;
  sb_emit_events : Z;
  sb_resolved_pid : Z;
  sb_n_vmas : Z;
  sb_rwx_count : Z;
  sb_exec_count : Z;
  sb_anon_exec_count : Z;
  sb_truncated : bool;
}.

Record ac_syscall_check := mk_syscall_check {
  sc_table_addr : Z;
  sc_nr_syscalls : Z;
  sc_total : Z;
  sc_non_text : Z;
  sc_hooked : Z;
  sc_ok : bool;
  sc_baseline_ready : bool;
  sc_redirected : Z;
  sc_checksum_mismatch : bool;
  sc_baseline_sha256 : list Z;
  sc_current_sha256 : list Z;
}.

Record ac_mod_info := mk_mod_info {
  mi_name : list Z;
  mi_size : Z;
  mi_state : Z;
}.

Record ac_event := mk_event {
  ev_ts : Z;
  ev_pid : Z;
  ev_comm : list Z;
  ev_type : Z;
  ev_data : list Z;
}.

(** What [memset(ev, 0, sizeof *ev)] leaves in a slot. *)
Definition zero_event : ac_event := mk_event 0 0 [] 0 [].

Record ac_event_list := mk_event_list {
  el_count : nat;
  el_dropped : Z;
  el_block_ms : Z;
  el_events : list ac_event;    (** all [AC_MAX_EVENTS] slots *)
}.

Record ac_prot_item := mk_prot_item {
  pi_pid : Z;
  pi_jit_allowed : bool;
  pi_comm : list Z;
}.

#[export] Instance ac_event_inhabited : Inhabited ac_event :=
  populate zero_event.
#[export] Instance ac_event_eq_dec : EqDecision ac_event.
Proof. solve_decision. Defined.
#[export] Instance ac_prot_item_eq_dec : EqDecision ac_prot_item.
Proof. solve_decision. Defined.
#[export] Instance ac_vma_info_eq_dec : EqDecision ac_vma_info.
Proof. solve_decision. Defined.
#[export] Instance ac_mod_info_eq_dec : EqDecision ac_mod_info.
Proof. solve_decision. Defined.

(** ** Layout

    The System V x86-64 rules: a member is placed at the next multiple of its
    alignment, the size is rounded up to the largest alignment. *)

Record ctype := mk_ctype { ct_size : Z; ct_align : Z }.

Definition c_int : ctype := mk_ctype 4 4.
Definition c_long : ctype := mk_ctype 8 8.
Definition c_chars (n : nat) : ctype := mk_ctype (Z.of_nat n) 1.
Definition c_array (n : nat) (t : ctype) : ctype :=
  mk_ctype (Z.of_nat n * ct_size t) (ct_align t).

Definition round_up (x a : Z) : Z := (x + a - 1) / a * a.

Definition c_struct (ms : list ctype) : ctype :=
  let '(off, al) := foldl (fun '(off, al) m =>
    (round_up off (ct_align m) + ct_size m, Z.max al (ct_align m))) (0, 1) ms in
  mk_ctype (round_up off al) al.

Definition t_ac_status : ctype :=
  c_struct [c_long; c_long; c_int; c_int; c_int; c_int; c_int].
Definition t_ac_proc_id : ctype :=
  c_struct [c_int; c_int; c_int; c_chars AC_MAX_COMM].
Definition t_ac_vma_info : ctype :=
  c_struct [c_long; c_long; c_long; c_long; c_long; c_int;
            c_chars AC_VMA_PATH].
Definition t_ac_scan_begin : ctype :=
  c_struct [c_int; c_int; c_int; c_int; c_int; c_int; c_int; c_int; c_int].
Definition t_ac_scan_get : ctype := c_struct [c_int; c_int; t_ac_vma_info].
Definition t_ac_syscall_check : ctype :=
  c_struct [c_long; c_int; c_int; c_int; c_int; c_int; c_int; c_int; c_int;
            c_chars 65; c_chars 65].
Definition t_ac_mod_info : ctype :=
  c_struct [c_chars AC_MOD_NAME_LEN; c_long; c_int].
Definition t_ac_mod_get : ctype := c_struct [c_int; t_ac_mod_info].
Definition t_ac_event : ctype :=
  c_struct [c_long; c_int; c_chars AC_MAX_COMM; c_int;
            c_chars AC_EVENT_DATA].
Definition t_ac_event_list : ctype :=
  c_struct [c_int; c_int; c_int; c_array AC_MAX_EVENTS t_ac_event].
Definition t_ac_prot_item : ctype :=
  c_struct [c_int; c_int; c_chars AC_MAX_COMM].
Definition t_ac_prot_list : ctype :=
  c_struct [c_int; c_array AC_MAX_PROTS t_ac_prot_item].

(** ** Command numbers (the [_IOC] encoding of asm-generic/ioctl.h) *)

Definition AC_IOCTL_MAGIC : Z := 0xAC.

Definition IOC (dir nr size : Z) : Z :=
  Z.lor (Z.lor (Z.shiftl dir 30) (Z.shiftl AC_IOCTL_MAGIC 8))
        (Z.lor nr (Z.shiftl size 16)).
Definition IO (nr : Z) : Z := IOC 0 nr 0.
Definition IOW (nr : Z) (t : ctype) : Z := IOC 1 nr (ct_size t).
Definition IOR (nr : Z) (t : ctype) : Z := IOC 2 nr (ct_size t).
Definition IOWR (nr : Z) (t : ctype) : Z := IOC 3 nr (ct_size t).

Definition AC_IOCTL_STATUS : Z := IOR 1 t_ac_status.
Definition AC_IOCTL_ADD_PROC : Z := IOW 2 t_ac_proc_id.
Definition AC_IOCTL_DEL_PROC : Z := IOW 3 t_ac_proc_id.
Definition AC_IOCTL_SCAN_BEGIN : Z := IOWR 4 t_ac_scan_begin.
Definition AC_IOCTL_CHECK_SYSCALLS : Z := IOR 5 t_ac_syscall_check.
Definition AC_IOCTL_GET_EVENTS : Z := IOWR 7 t_ac_event_list.
Definition AC_IOCTL_FLUSH_EVENTS : Z := IO 8.
Definition AC_IOCTL_LIST_PROTECTED : Z := IOR 9 t_ac_prot_list.
Definition AC_IOCTL_LOCK : Z := IO 10.
Definition AC_IOCTL_UNLOCK : Z := IO 11.
Definition AC_IOCTL_SCAN_GET : Z := IOWR 12 t_ac_scan_get.
Definition AC_IOCTL_SCAN_END : Z := IO 13.
Definition AC_IOCTL_MODS_BEGIN : Z := IOR 14 c_int.
Definition AC_IOCTL_MODS_GET : Z := IOWR 15 t_ac_mod_get.
Definition AC_IOCTL_MODS_END : Z := IO 16.

Definition ioctl_numbers : list Z := [
  AC_IOCTL_STATUS; AC_IOCTL_ADD_PROC; AC_IOCTL_DEL_PROC; AC_IOCTL_SCAN_BEGIN;
  AC_IOCTL_CHECK_SYSCALLS; AC_IOCTL_GET_EVENTS; AC_IOCTL_FLUSH_EVENTS;
  AC_IOCTL_LIST_PROTECTED; AC_IOCTL_LOCK; AC_IOCTL_UNLOCK; AC_IOCTL_SCAN_GET;
  AC_IOCTL_SCAN_END; AC_IOCTL_MODS_BEGIN; AC_IOCTL_MODS_GET;
  AC_IOCTL_MODS_END ].

(** The size field of a command number. *)
Definition ioc_size (cmd : Z) : Z := Z.land (Z.shiftr cmd 16) 16383.

(** Every structure fits the 14-bit size field, so a command number carries
    the exact size of its argument. *)
Lemma ioc_sizes :
  ioc_size <$> ioctl_numbers =
  [ ct_size t_ac_status; ct_size t_ac_proc_id; ct_size t_ac_proc_id;
    ct_size t_ac_scan_begin; ct_size t_ac_syscall_check;
    ct_size t_ac_event_list; 0; ct_size t_ac_prot_list; 0; 0;
    ct_size t_ac_scan_get; 0; ct_size c_int; ct_size t_ac_mod_get; 0 ].
Proof. reflexivity. Qed.

Lemma ioctl_numbers_NoDup : NoDup ioctl_numbers.
Proof. by apply (bool_decide_unpack _); vm_compute. Qed.
