(* ===== verification/DLog.v ===== *)
(** The daemon's output (src/anticheat_daemon.c): [logmsg] and what it sends
    where, the clamps on counts received from the module, and the rendering
    of events. *)

From S2P Require Import Prelude CText Abi.

#[local] Open Scope Z_scope.

(** [%#llx] *)
Definition fmt_sx (n : Z) : list Z :=
  if n =? 0 then lit "0" else lit "0x" ++ fmt_x n.

Module DLog.

(** ** Messages *)

(** syslog priorities: the smaller, the more severe. *)
Definition LOG_ALERT : Z := 1.
Definition LOG_CRIT : Z := 2.
Definition LOG_ERR : Z := 3.
Definition LOG_WARNING : Z := 4.
Definition LOG_INFO : Z := 6.

(** One [logmsg] call; the text is cut to its 512-byte buffer. *)
Record msg := mk_msg { m_pri : Z; m_text : list Z }.

Definition logm (pri : Z) (text : list (list Z)) : msg :=
  mk_msg pri (strscpy 512 (concat text)).

Inductive out :=
  | Syslog (pri : Z) (text : list Z)
  | Stderr (text : list Z)
  | Report (event_type detail : list Z).

(** Where a message goes. *)
Definition logmsg (g_verbose : bool) (m : msg) : list out :=
  [Syslog (m_pri m) (m_text m)]
  ++ (if (m_pri m <=? LOG_WARNING) || g_verbose
      then [Stderr (m_text m ++ [10])] else [])
  ++ (if m_pri m <=? LOG_CRIT
      then [Report (if m_pri m <=? LOG_ALERT then lit "ALERT"
                    else lit "CRITICAL") (m_text m)]
      else []).

(** ** Clamps on counts from the other side of the ioctl boundary *)

Definition clamp_event_count (n : Z) : Z * list msg :=
  if Z.of_nat AC_MAX_EVENTS <? n then
    (Z.of_nat AC_MAX_EVENTS,
     [logm LOG_WARNING [lit "kernel reported "; fmt_u n; lit " events (max ";
        fmt_u (Z.of_nat AC_MAX_EVENTS); lit "); truncating"]])
  else (n, []).

Definition clamp_prot_count (n : Z) : Z * list msg :=
  if Z.of_nat AC_MAX_PROTS <? n then
    (Z.of_nat AC_MAX_PROTS,
     [logm LOG_WARNING [lit "kernel reported "; fmt_u n;
        lit " protected processes (max "; fmt_u (Z.of_nat AC_MAX_PROTS);
        lit "); truncating"]])
  else (n, []).

Definition clamp_vma_count (n : Z) : Z * list msg :=
  if Z.of_nat AC_MAX_VMAS <? n then
    (Z.of_nat AC_MAX_VMAS,
     [logm LOG_WARNING [lit "kernel reported "; fmt_u n; lit " VMAs (max ";
        fmt_u (Z.of_nat AC_MAX_VMAS); lit "); truncating"]])
  else (n, []).

(** ** Events *)

Definition ev_type_str (t : Z) : list Z :=
  if t =? AC_EV_FORK then lit "FORK"
  else if t =? AC_EV_EXEC then lit "EXEC"
  else if t =? AC_EV_EXIT then lit "EXIT"
  else if t =? AC_EV_PTRACE then lit "PTRACE-DENIED"
  else if t =? AC_EV_PROCESS_VM then lit "PROCESS-VM-DENIED"
  else if t =? AC_EV_SYSCALL_HOOK then lit "SYSCALL-HOOK"
  else if t =? AC_EV_SYSCALL_REDIRECT then lit "SYSCALL-REDIRECT"
  else if t =? AC_EV_RWX then lit "RWX"
  else if t =? AC_EV_ANON_EXEC then lit "ANON-EXEC"
  else if t =? AC_EV_INFO then lit "INFO"
  else if t =? AC_EV_FORK_DROPPED then lit "FORK-DROPPED"
  else lit "UNKNOWN".

(** [clock_text t] is [localtime] followed by [strftime("%H:%M:%S")]: [None]
    when [localtime] refuses the time. *)
Definition format_event_time (clock_text : Z -> option (list Z)) (bufsz : nat)
    (t : Z) : list Z :=
  match clock_text t with
  | Some s => s
  | None => strscpy bufsz (fmt_d t)
  end.

Definition print_event (clock_text : Z -> option (list Z)) (e : ac_event)
    : list Z :=
  let t := ev_ts e / 1000000000 in
  concat [format_event_time clock_text 32 t; lit " ["; ev_type_str (ev_type e);
    lit "] pid="; fmt_d (ev_pid e); lit " comm="; ev_comm e; lit " "; ev_data e;
    [10]].

(** ** Facts *)

(** A message is reported to the server exactly when it is an alert or
    critical, and always reaches syslog. *)
Lemma logmsg_reports g m ty d :
  Report ty d ∈ logmsg g m <->
  m_pri m <= LOG_CRIT /\ d = m_text m /\
  ty = (if m_pri m <=? LOG_ALERT then lit "ALERT" else lit "CRITICAL").
Proof.
  unfold logmsg. rewrite !elem_of_app, list_elem_of_singleton.
  destruct (Z.leb_spec (m_pri m) LOG_CRIT).
  - rewrite list_elem_of_singleton.
    split; [|naive_solver]. intros [?|[Hs|?]]; [done| |naive_solver].
    destruct (_ || _); apply list_elem_of_In in Hs; naive_solver.
  - split; [|lia]. intros [?|[Hs|Hn]]; [done| |by apply elem_of_nil in Hn].
    destruct (_ || _); apply list_elem_of_In in Hs; naive_solver.
Qed.

(** The clamps cut a count at its array's size, warn exactly when they cut,
    and never at a severity that is reported. *)
Definition clamped (max : nat) (n : Z) (r : Z * list msg) : Prop :=
  fst r = Z.min n (Z.of_nat max) /\ (snd r = [] <-> n <= Z.of_nat max) /\
  Forall (fun m => m_pri m = LOG_WARNING) (snd r).

Lemma clamps_bounded n :
  clamped AC_MAX_EVENTS n (clamp_event_count n) /\
  clamped AC_MAX_PROTS n (clamp_prot_count n) /\
  clamped AC_MAX_VMAS n (clamp_vma_count n).
Proof.
  unfold clamped, clamp_event_count, clamp_prot_count, clamp_vma_count.
  split_and!; case_test; cbn [fst snd]; try lia; try done;
    try (split; [done|lia]); repeat constructor.
Qed.

End DLog.
