(* ===== verification/Sha256.v ===== *)
(** SHA-256 (src/sha256.c, src/sha256.h): the compression function, the
    streaming context and the hexadecimal digest.

    The context is modelled field by field, stale buffer bytes included.  The
    theorems state that feeding a message in pieces is feeding it at once,
    that the digest is the one the equations of FIPS 180-4 define ([Fips], which
    takes nothing from the code, not even its constants) and that the
    hexadecimal form determines the digest. *)

From S2P Require Import Prelude CText.

#[local] Open Scope Z_scope.

(** ** Reference: FIPS 180-4

    The standard's own equations on words as numbers below 2^32, with nothing
    taken from the code: constants from the roots of primes (sections 4.2.2 and
    5.3.3), functions (4.1.2), padding (5.1.1) and hash computation (6.2.2). *)

Module Fips.

Definition add (x y : Z) : Z := (x + y) mod 2 ^ 32.
Definition not (x : Z) : Z := 2 ^ 32 - 1 - x.
Definition SHR (n x : Z) : Z := x / 2 ^ n.
Definition ROTR (n x : Z) : Z := x / 2 ^ n + (x mod 2 ^ n) * 2 ^ (32 - n).

Definition xor3 (x y z : Z) : Z := Z.lxor (Z.lxor x y) z.
Definition Ch (x y z : Z) : Z := Z.lxor (Z.land x y) (Z.land (not x) z).
Definition Maj (x y z : Z) : Z := xor3 (Z.land x y) (Z.land x z) (Z.land y z).
Definition Sigma0 (x : Z) : Z := xor3 (ROTR 2 x) (ROTR 13 x) (ROTR 22 x).
Definition Sigma1 (x : Z) : Z := xor3 (ROTR 6 x) (ROTR 11 x) (ROTR 25 x).
Definition sigma0 (x : Z) : Z := xor3 (ROTR 7 x) (ROTR 18 x) (SHR 3 x).
Definition sigma1 (x : Z) : Z := xor3 (ROTR 17 x) (ROTR 19 x) (SHR 10 x).

(** The first 64 primes, by trial division. *)
Definition prime (n : Z) : bool :=
  (1 <? n) && forallb (fun d => negb (n mod d =? 0)) (seqZ 2 (n - 2)).
Definition primes : list Z := List.filter prime (seqZ 2 310).

(** The largest [r] with [r^k <= n], one bit at a time from bit [bits - 1]. *)
Definition root (k n : Z) (bits : nat) : Z :=
  foldr (fun b r => if (r + 2 ^ Z.of_nat b) ^ k <=? n then r + 2 ^ Z.of_nat b else r)
        0 (seq 0 bits).

(** The first 32 bits of the fractional part of the [k]-th root of [p]. *)
Definition frac32 (k p : Z) : Z := root k (p * 2 ^ (32 * k)) 40 mod 2 ^ 32.

Definition K_table : list Z := frac32 3 <$> primes.
Definition H0 : list Z := frac32 2 <$> take 8 primes.

Definition be_value (bs : list Z) : Z := foldl (fun v b => 256 * v + b) 0 bs.
Definition be_bytes (n : nat) (x : Z) : list Z :=
  (fun i => (x / 256 ^ Z.of_nat (n - 1 - i)) mod 256) <$> seq 0 n.

(** A one bit, the zeros that fill the last block but for 64 bits, the length
    in bits on 64 bits. *)
Definition pad (m : list Z) : list Z :=
  m ++ [128] ++ replicate (Z.to_nat ((55 - Z.of_nat (length m)) mod 64)) 0
    ++ be_bytes 8 ((Z.of_nat (length m) * 8) mod 2 ^ 64).

(** The words W_t ... W_0 of the message schedule, the newest first. *)
Definition next_W (w : list Z) : list Z :=
  add (add (add (sigma1 (w !!! 1%nat)) (w !!! 6%nat)) (sigma0 (w !!! 14%nat)))
      (w !!! 15%nat) :: w.
Definition W (block : list Z) : list Z :=
  Nat.iter 48 next_W
    (reverse ((fun i => be_value (take 4 (drop (4 * i) block))) <$> seq 0 16)).

(** The working variables, and one of the 64 steps. *)
Inductive working := working_vars (a b c d e f g h : Z).

Definition step (x : working) (kw : Z * Z) : working :=
  let '(working_vars a b c d e f g h) := x in
  let T1 := add (add (add (add h (Sigma1 e)) (Ch e f g)) kw.1) kw.2 in
  let T2 := add (Sigma0 a) (Maj a b c) in
  working_vars (add T1 T2) a b c (add d T1) e f g.

Definition working_of (H : list Z) : working :=
  working_vars (H !!! 0%nat) (H !!! 1%nat) (H !!! 2%nat) (H !!! 3%nat)
               (H !!! 4%nat) (H !!! 5%nat) (H !!! 6%nat) (H !!! 7%nat).
Definition words_of (x : working) : list Z :=
  let '(working_vars a b c d e f g h) := x in [a; b; c; d; e; f; g; h].

Definition compress (H block : list Z) : list Z :=
  zip_with add H
    (words_of (foldl step (working_of H) (zip K_table (reverse (W block))))).

Fixpoint hash (n : nat) (H msg : list Z) : list Z :=
  match n with
  | O => H
  | S n' => hash n' (compress H (take 64 msg)) (drop 64 msg)
  end.

Definition sha256 (m : list Z) : list Z :=
  let p := pad m in concat (be_bytes 4 <$> hash (length p / 64) H0 p).

End Fips.

Module Sha.

(** ** Constants and word functions *)

(** The round constants, in the rows of the source table. *)
Definition K : list Z :=
  [0x428a2f98; 0x71374491; 0xb5c0fbcf; 0xe9b5dba5; 0x3956c25b; 0x59f111f1] ++
  [0x923f82a4; 0xab1c5ed5; 0xd807aa98; 0x12835b01; 0x243185be; 0x550c7dc3] ++
  [0x72be5d74; 0x80deb1fe; 0x9bdc06a7; 0xc19bf174; 0xe49b69c1; 0xefbe4786] ++
  [0x0fc19dc6; 0x240ca1cc; 0x2de92c6f; 0x4a7484aa; 0x5cb0a9dc; 0x76f988da] ++
  [0x983e5152; 0xa831c66d; 0xb00327c8; 0xbf597fc7; 0xc6e00bf3; 0xd5a79147] ++
  [0x06ca6351; 0x14292967; 0x27b70a85; 0x2e1b2138; 0x4d2c6dfc; 0x53380d13] ++
  [0x650a7354; 0x766a0abb; 0x81c2c92e; 0x92722c85; 0xa2bfe8a1; 0xa81a664b] ++
  [0xc24b8b70; 0xc76c51a3; 0xd192e819; 0xd6990624; 0xf40e3585; 0x106aa070] ++
  [0x19a4c116; 0x1e376c08; 0x2748774c; 0x34b0bcb5; 0x391c0cb3; 0x4ed8aa4a] ++
  [0x5b9cca4f; 0x682e6ff3; 0x748f82ee; 0x78a5636f; 0x84c87814; 0x8cc70208] ++
  [0x90befffa; 0xa4506ceb; 0xbef9a3f7; 0xc67178f2].

Definition rotr (x n : Z) : Z :=
  Z.lor (Z.shiftr x (Z.land n 31))
        (u32 (Z.shiftl x (Z.land (32 - Z.land n 31) 31))).

(** [be32(p + off)] *)
Definition be32 (p : list Z) (off : nat) : Z :=
  Z.lor (Z.lor (Z.lor (u32 (Z.shiftl (p !!! off) 24))
                      (u32 (Z.shiftl (p !!! (off + 1)%nat) 16)))
               (u32 (Z.shiftl (p !!! (off + 2)%nat) 8)))
        (p !!! (off + 3)%nat).

(** The message schedule: [w] holds [w[0..i)]; each step appends [w[i]]. *)
Definition sched_step (w : list Z) : list Z :=
  let i := length w in
  let w15 := w !!! (i - 15)%nat in
  let w2 := w !!! (i - 2)%nat in
  let s0 := Z.lxor (Z.lxor (rotr w15 7) (rotr w15 18)) (Z.shiftr w15 3) in
  let s1 := Z.lxor (Z.lxor (rotr w2 17) (rotr w2 19)) (Z.shiftr w2 10) in
  w ++ [u32 (w !!! (i - 16)%nat + s0 + w !!! (i - 7)%nat + s1)].

Definition schedule (p : list Z) : list Z :=
  Nat.iter 48 sched_step ((fun i => be32 p (4 * i)) <$> seq 0 16).

Record vars := mk_vars {
  va : Z; vb : Z; vc : Z; vd : Z; ve : Z; vf : Z; vg : Z; vh : Z }.

Definition round (w : list Z) (v : vars) (i : nat) : vars :=
  let '(mk_vars a b cc d e f g h) := v in
  let S1 := Z.lxor (Z.lxor (rotr e 6) (rotr e 11)) (rotr e 25) in
  let ch := Z.lxor (Z.land e f) (Z.land (u32 (Z.lnot e)) g) in
  let t1 := u32 (h + S1 + ch + K !!! i + w !!! i) in
  let S0 := Z.lxor (Z.lxor (rotr a 2) (rotr a 13)) (rotr a 22) in
  let maj := Z.lxor (Z.lxor (Z.land a b) (Z.land a cc)) (Z.land b cc) in
  let t2 := u32 (S0 + maj) in
  mk_vars (u32 (t1 + t2)) a b cc (u32 (d + t1)) e f g.

(** [ac_sha256_block]: the new [c->h]. *)
Definition ac_sha256_block (h p : list Z) : list Z :=
  let w := schedule p in
  let v0 := mk_vars (h !!! 0%nat) (h !!! 1%nat) (h !!! 2%nat) (h !!! 3%nat)
                    (h !!! 4%nat) (h !!! 5%nat) (h !!! 6%nat) (h !!! 7%nat) in
  let v := foldl (round w) v0 (seq 0 64) in
  [ u32 (h !!! 0%nat + va v); u32 (h !!! 1%nat + vb v);
    u32 (h !!! 2%nat + vc v); u32 (h !!! 3%nat + vd v);
    u32 (h !!! 4%nat + ve v); u32 (h !!! 5%nat + vf v);
    u32 (h !!! 6%nat + vg v); u32 (h !!! 7%nat + vh v) ].

(** ** The streaming context *)

Record ac_sha256_ctx := mk_ctx {
  ctx_h : list Z;
  ctx_len : Z;
  ctx_buf : list Z;
  ctx_buflen : nat;
}.

Definition iv : list Z := [
  0x6a09e667; 0xbb67ae85; 0x3c6ef372; 0xa54ff53a;
  0x510e527f; 0x9b05688c; 0x1f83d9ab; 0x5be0cd19 ].

(** [ac_sha256_init]; [buf] is left as it was. *)
Definition ac_sha256_init (c : ac_sha256_ctx) : ac_sha256_ctx :=
  mk_ctx iv 0 (ctx_buf c) 0.

(** A context on the stack: [buf] holds 64 bytes of anything; zero here. *)
Definition fresh_ctx : ac_sha256_ctx := mk_ctx [] 0 (replicate 64 0) 0.

(** One iteration of the [while (len > 0)] loop copies [take] bytes. *)
Fixpoint update_loop (fuel : nat) (c : ac_sha256_ctx) (data : list Z)
    : ac_sha256_ctx :=
  match fuel with
  | O => c
  | S fuel' =>
      if (length data =? 0)%nat then c else
      let room := (64 - ctx_buflen c)%nat in
      let tk := if (length data <? room)%nat then length data else room in
      let buf := list_inserts (ctx_buflen c) (take tk data) (ctx_buf c) in
      let n := (ctx_buflen c + tk)%nat in
      let c' :=
        if (n =? 64)%nat
        then mk_ctx (ac_sha256_block (ctx_h c) buf) (ctx_len c) buf 0
        else mk_ctx (ctx_h c) (ctx_len c) buf n in
      update_loop fuel' c' (drop tk data)
  end.

Definition ac_sha256_update (c : ac_sha256_ctx) (data : list Z)
    : ac_sha256_ctx :=
  let c0 := mk_ctx (ctx_h c) (u64 (ctx_len c + Z.of_nat (length data)))
                   (ctx_buf c) (ctx_buflen c) in
  update_loop (length data) c0 data.

(** [while (c->buflen != 56) ac_sha256_update(c, &zero, 1);] *)
Fixpoint pad_loop (fuel : nat) (c : ac_sha256_ctx) : ac_sha256_ctx :=
  match fuel with
  | O => c
  | S fuel' =>
      if (ctx_buflen c =? 56)%nat then c
      else pad_loop fuel' (ac_sha256_update c [0])
  end.

Definition lenbuf (bits : Z) : list Z :=
  (fun i => u8 (Z.shiftr bits (56 - Z.of_nat i * 8))) <$> seq 0 8.

Definition word_bytes (x : Z) : list Z :=
  [ u8 (Z.shiftr x 24); u8 (Z.shiftr x 16); u8 (Z.shiftr x 8); u8 x ].

(** The loop that stores the hash words, most significant byte first. *)
Definition out_words (h : list Z) : list Z :=
  concat ((fun i => word_bytes (h !!! i)) <$> seq 0 8).

(** [ac_sha256_final]: the 32 output bytes.  The padding loop runs at most 63
    times (see [final_spec]); the fuel is 64. *)
Definition ac_sha256_final (c : ac_sha256_ctx) : list Z :=
  let bits := u64 (ctx_len c * 8) in
  let c1 := ac_sha256_update c [0x80] in
  let c2 := pad_loop 64 c1 in
  let c3 := ac_sha256_update c2 (lenbuf bits) in
  out_words (ctx_h c3).

Definition hexd : list Z := lit "0123456789abcdef".

Definition ac_sha256_hex_digest (digest : list Z) : list Z :=
  concat ((fun i =>
    [ hexd !!! Z.to_nat (Z.shiftr (digest !!! i) 4);
      hexd !!! Z.to_nat (Z.land (digest !!! i) 0xf) ]) <$> seq 0 32).

Definition ac_sha256_hex (buf : list Z) : list Z :=
  ac_sha256_hex_digest
    (ac_sha256_final (ac_sha256_update (ac_sha256_init fresh_ctx) buf)).

(** The blocks of a padded message, compressed in order. *)
Fixpoint sha_blocks (n : nat) (h msg : list Z) : list Z :=
  match n with
  | O => h
  | S n' => sha_blocks n' (ac_sha256_block h (take 64 msg)) (drop 64 msg)
  end.

(** Decoding of a hexadecimal digest. *)
Definition unhex_digit (c : Z) : Z := if c <? 58 then c - 48 else c - 87.

Fixpoint unhex (s : list Z) : list Z :=
  match s with
  | a :: b :: s' => (16 * unhex_digit a + unhex_digit b) :: unhex s'
  | _ => []
  end.

(** The context without the length counter, fed one byte at a time. *)
Record core := mk_core { co_h : list Z; co_buf : list Z; co_n : nat }.

Definition core_of (c : ac_sha256_ctx) : core :=
  mk_core (ctx_h c) (ctx_buf c) (ctx_buflen c).

Definition feed (c : core) (b : Z) : core :=
  let buf := <[co_n c := b]> (co_buf c) in
  if (S (co_n c) =? 64)%nat
  then mk_core (ac_sha256_block (co_h c) buf) buf 0
  else mk_core (co_h c) buf (S (co_n c)).

Definition wf_core (c : core) : Prop :=
  length (co_buf c) = 64%nat /\ (co_n c < 64)%nat.

(** The invariant of a context between calls. *)
Definition wf_ctx (c : ac_sha256_ctx) : Prop :=
  wf_core (core_of c) /\ 0 <= ctx_len c < 18446744073709551616.

(** ** Streaming *)

Lemma feed_wf c b : wf_core c -> wf_core (feed c b).
Proof.
  intros [Hl Hn]. unfold feed, wf_core. case_test; simpl;
    rewrite length_insert; lia.
Qed.

Lemma feeds_wf bs c : wf_core c -> wf_core (foldl feed c bs).
Proof. revert c. induction bs; simpl; auto using feed_wf. Qed.

Lemma feed_n c b : wf_core c -> co_n (feed c b) = (S (co_n c) mod 64)%nat.
Proof.
  intros [_ Hn]. unfold feed.
  destruct (Nat.eqb_spec (S (co_n c)) 64) as [E|E]; cbn [co_n].
  - by rewrite E.
  - rewrite Nat.mod_small; lia.
Qed.

Lemma feeds_n bs c :
  wf_core c -> co_n (foldl feed c bs) = ((co_n c + length bs) mod 64)%nat.
Proof.
  revert c. induction bs as [|b bs IH]; intros c Hc; simpl.
  - rewrite Nat.add_0_r, Nat.mod_small; [done|apply Hc].
  - rewrite IH by auto using feed_wf. rewrite feed_n by done.
    rewrite Nat.Div0.add_mod_idemp_l. f_equal. lia.
Qed.

(** Feeding bytes that do not run past the block boundary is one [memcpy],
    with a compression when the block is complete. *)
Lemma feeds_run bs c :
  (co_n c + length bs <= 64)%nat -> (co_n c < 64)%nat ->
  foldl feed c bs =
  let buf := list_inserts (co_n c) bs (co_buf c) in
  if (co_n c + length bs =? 64)%nat
  then mk_core (ac_sha256_block (co_h c) buf) buf 0
  else mk_core (co_h c) buf (co_n c + length bs).
Proof.
  revert c. induction bs as [|b bs IH]; intros [h buf n] Hle Hlt;
    simpl in *.
  - rewrite Nat.add_0_r. case_test; [lia|done].
  - unfold feed at 2. cbn [co_n co_h co_buf]. destruct (Nat.eqb_spec (S n) 64) as [He|Hne].
    + destruct bs; simpl in *; [|lia]. case_test; [done|lia].
    + rewrite IH by (simpl; lia). simpl.
      rewrite <- list_insert_inserts_lt by lia.
      replace (n + S (length bs))%nat with (S (n + length bs))%nat by lia.
      done.
Qed.

Lemma ctx_h_core c : ctx_h c = co_h (core_of c).
Proof. reflexivity. Qed.

Lemma update_loop_feed fuel c data :
  wf_core (core_of c) -> (length data <= fuel)%nat ->
  core_of (update_loop fuel c data) = foldl feed (core_of c) data /\
  ctx_len (update_loop fuel c data) = ctx_len c.
Proof.
  revert c data. induction fuel as [|fuel IH]; intros c data [Hl Hn] Hf.
  - destruct data; simpl in *; [done|lia].
  - simpl in *. destruct (Nat.eqb_spec (length data) 0) as [H0|H0].
    { destruct data; simpl in *; [done|lia]. }
    set (tk := if (length data <? 64 - ctx_buflen c)%nat then _ else _).
    assert (0 < tk <= length data /\ ctx_buflen c + tk <= 64)%nat as Htk.
    { subst tk. case_test; lia. }
    clearbody tk.
    assert (length (take tk data) = tk) as Hlt by (rewrite length_take; lia).
    pose proof (feeds_run (take tk data) (core_of c)) as Hrun.
    rewrite Hlt in Hrun. simpl in Hrun.
    specialize (Hrun ltac:(lia) ltac:(lia)).
    replace (foldl feed (core_of c) data) with
      (foldl feed (foldl feed (core_of c) (take tk data)) (drop tk data))
      by (by rewrite <- foldl_app, take_drop).
    rewrite Hrun.
    edestruct IH as [IH1 IH2]; cycle 2.
    { split; [etransitivity; [exact IH1|]|etransitivity; [exact IH2|]].
      - f_equal. by case_test.
      - by case_test. }
    + case_test; split; simpl; rewrite ?length_inserts; lia.
    + rewrite length_drop. lia.
Qed.

Lemma update_core c data :
  wf_ctx c ->
  core_of (ac_sha256_update c data) = foldl feed (core_of c) data.
Proof.
  intros [Hc _]. unfold ac_sha256_update.
  by edestruct update_loop_feed as [-> _]; [exact Hc| |].
Qed.

Lemma update_len c data :
  wf_ctx c ->
  ctx_len (ac_sha256_update c data) =
  u64 (ctx_len c + Z.of_nat (length data)).
Proof.
  intros [Hc _]. unfold ac_sha256_update.
  by edestruct update_loop_feed as [_ ->]; [exact Hc| |].
Qed.

Lemma update_wf c data : wf_ctx c -> wf_ctx (ac_sha256_update c data).
Proof.
  intros Hc. split.
  - rewrite update_core by done. apply feeds_wf, Hc.
  - rewrite update_len by done. apply u64_range.
Qed.

Lemma init_wf c : length (ctx_buf c) = 64%nat -> wf_ctx (ac_sha256_init c).
Proof. intros H. repeat split; simpl; [done|lia..]. Qed.

#[local] Hint Resolve update_wf init_wf feeds_wf : sha.

Lemma ctx_eq c1 c2 :
  core_of c1 = core_of c2 -> ctx_len c1 = ctx_len c2 -> c1 = c2.
Proof. destruct c1, c2; unfold core_of; simpl; congruence. Qed.

Lemma update_nil c : wf_ctx c -> ac_sha256_update c [] = c.
Proof.
  intros Hc. apply ctx_eq.
  - by rewrite update_core.
  - rewrite update_len by done. destruct Hc as [_ Hl]. simpl. word_lia.
Qed.

Lemma update_app c a b :
  wf_ctx c ->
  ac_sha256_update (ac_sha256_update c a) b = ac_sha256_update c (a ++ b).
Proof.
  intros Hc. apply ctx_eq.
  - rewrite !update_core, foldl_app by auto with sha. done.
  - rewrite !update_len, length_app by auto with sha. word_lia.
Qed.

Lemma updates_concat c chunks :
  wf_ctx c ->
  foldl ac_sha256_update c chunks = ac_sha256_update c (concat chunks).
Proof.
  revert c. induction chunks as [|a chunks IH]; intros c Hc; simpl.
  - by rewrite update_nil.
  - by rewrite IH, update_app by auto with sha.
Qed.

(** ** The digest *)

Lemma update_buflen c data :
  wf_ctx c ->
  ctx_buflen (ac_sha256_update c data) =
  ((ctx_buflen c + length data) mod 64)%nat.
Proof.
  intros Hc. etransitivity; [apply (f_equal co_n (update_core c data Hc))|].
  rewrite feeds_n by apply Hc. reflexivity.
Qed.

(** One zero byte brings the fill level one step closer to 56. *)
Lemma pad_step n :
  (n < 64)%nat -> n <> 56%nat ->
  ((120 - n) mod 64 = S ((120 - S n mod 64) mod 64))%nat.
Proof.
  intros Hn Hne. destruct (decide (n = 63)%nat) as [->|]; [done|].
  rewrite (Nat.mod_small (S n)) by lia. apply Nat2Z.inj.
  rewrite Nat2Z.inj_succ, !Nat2Z.inj_mod, !Nat2Z.inj_sub by lia.
  Z.div_mod_to_equations. lia.
Qed.

Lemma pad_loop_feed fuel c :
  wf_ctx c -> ((120 - ctx_buflen c) mod 64 < fuel)%nat ->
  wf_ctx (pad_loop fuel c) /\
  core_of (pad_loop fuel c) =
  foldl feed (core_of c) (replicate ((120 - ctx_buflen c) mod 64) 0).
Proof.
  revert c. induction fuel as [|fuel IH]; intros c Hc Hf; [lia|]. simpl.
  destruct (Nat.eqb_spec (ctx_buflen c) 56) as [E|E].
  { split; [done|]. by rewrite E. }
  pose proof (update_buflen c [0] Hc) as Hn.
  rewrite Nat.add_comm in Hn. simpl in Hn.
  pose proof (pad_step (ctx_buflen c) ltac:(apply Hc) E) as Hz.
  rewrite Hz. simpl. rewrite <- Hn.
  destruct (IH (ac_sha256_update c [0])) as [IH1 IH2]; auto with sha.
  { rewrite Hn. lia. }
  split; [done|]. by rewrite IH2, update_core.
Qed.

(** What [ac_sha256_final] feeds after the message. *)
Lemma final_stream c l :
  wf_ctx c ->
  core_of (ac_sha256_update (pad_loop 64 (ac_sha256_update c [0x80])) l) =
  foldl feed (core_of c)
    ([0x80] ++ replicate ((119 - ctx_buflen c) mod 64) 0 ++ l).
Proof.
  intros Hc. pose proof (update_wf c [0x80] Hc) as H1.
  destruct (pad_loop_feed 64 _ H1) as [Hw Hp].
  { apply Nat.mod_upper_bound. lia. }
  rewrite update_core, Hp, update_core, update_buflen by done.
  rewrite !foldl_app. do 3 f_equal.
  assert (ctx_buflen c < 64)%nat as Hlt by apply Hc. simpl length.
  apply Nat2Z.inj. rewrite !Nat2Z.inj_mod, !Nat2Z.inj_sub, Nat2Z.inj_mod
    by (pose proof (Nat.mod_upper_bound (ctx_buflen c + 1) 64); lia).
  Z.div_mod_to_equations. lia.
Qed.

Lemma inserts_all (bs buf : list Z) :
  length bs = length buf -> list_inserts 0 bs buf = bs.
Proof.
  intros H. apply list_eq. intros i.
  destruct (decide (i < length bs)%nat).
  - by rewrite list_lookup_inserts, Nat.sub_0_r by lia.
  - rewrite (lookup_ge_None_2 bs), lookup_ge_None_2; [done| |lia].
    rewrite length_inserts. lia.
Qed.

Lemma feed_blocks n h buf msg :
  length msg = (64 * n)%nat -> length buf = 64%nat ->
  co_h (foldl feed (mk_core h buf 0) msg) = sha_blocks n h msg.
Proof.
  revert h buf msg. induction n as [|n IH]; intros h buf msg Hm Hb.
  - by destruct msg; [|simpl in Hm; lia].
  - rewrite <- (take_drop 64 msg) at 1. rewrite foldl_app.
    assert (length (take 64 msg) = 64%nat) as Ht
      by (rewrite length_take; lia).
    rewrite (feeds_run (take 64 msg)) by (simpl; lia). cbn [co_n co_buf co_h].
    rewrite Ht, inserts_all by lia. simpl (_ =? _)%nat. cbv iota.
    rewrite IH; [done|rewrite length_drop; lia|done].
Qed.

Lemma fips_pad_length m :
  length (Fips.pad m) = (64 * (length (Fips.pad m) / 64))%nat.
Proof.
  apply Nat.div_exact; [lia|].
  unfold Fips.pad. rewrite !length_app, length_replicate. simpl length.
  apply Nat2Z.inj. rewrite Nat2Z.inj_mod. Z.div_mod_to_equations. lia.
Qed.

(** ** The code's word functions are the standard's *)

Definition word (x : Z) : Prop := 0 <= x < 4294967296.
Definition byte (x : Z) : Prop := 0 <= x < 256.

(** Disjoint bits add up. *)
Lemma lor_add a b k : 0 <= k -> 0 <= a < 2 ^ k -> Z.lor a (b * 2 ^ k) = a + b * 2 ^ k.
Proof.
  intros Hk Ha. rewrite <- Z.add_lor_land.
  enough (Z.land a (b * 2 ^ k) = 0) by lia.
  apply Z.bits_inj'. intros i Hi. rewrite Z.land_spec, Z.bits_0.
  destruct (decide (i < k)).
  - by rewrite Z.mul_pow2_bits_low, andb_false_r by lia.
  - replace (Z.testbit a i) with false; [done|]. symmetry.
    apply Z.testbit_false; [lia|]. rewrite Z.div_small; [done|].
    pose proof (Z.pow_le_mono_r 2 k i). lia.
Qed.

(** The two parts of a rotated word. *)
Lemma split_word n x :
  word x -> 0 < n < 32 ->
  2 ^ n * 2 ^ (32 - n) = 4294967296 /\ 0 < 2 ^ n /\ 0 < 2 ^ (32 - n) /\
  0 <= x / 2 ^ n < 2 ^ (32 - n) /\ 0 <= x mod 2 ^ n < 2 ^ n.
Proof.
  intros [Hx0 Hx] Hn.
  assert (2 ^ n * 2 ^ (32 - n) = 4294967296) as E
    by (rewrite <- Z.pow_add_r, Z.add_sub_assoc, Z.add_simpl_l by lia; done).
  assert (0 < 2 ^ (32 - n)) by (apply Z.pow_pos_nonneg; lia).
  assert (0 < 2 ^ n) by (apply Z.pow_pos_nonneg; lia).
  split_and!; try done.
  - apply Z.div_pos; lia.
  - apply Z.div_lt_upper_bound; lia.
  - by apply Z.mod_pos_bound.
  - by apply Z.mod_pos_bound.
Qed.

Lemma rotr_ROTR n x : word x -> 0 < n < 32 -> rotr x n = Fips.ROTR n x.
Proof.
  intros Hx Hn. destruct (split_word n x Hx Hn) as (E & ? & ? & ? & ?).
  unfold rotr, Fips.ROTR.
  change 31 with (Z.ones 5). rewrite !Z.land_ones, (Z.mod_small n), Z.mod_small by lia.
  rewrite Z.shiftr_div_pow2, Z.shiftl_mul_pow2 by lia. unfold u32. rewrite <- E.
  rewrite Z.mul_mod_distr_r by lia. apply lor_add; lia.
Qed.

Lemma be32_value p off :
  Forall byte p -> (off + 4 <= length p)%nat ->
  be32 p off = Fips.be_value (take 4 (drop off p)) /\ word (be32 p off).
Proof.
  intros Hb Hl.
  assert (be32 p off = be32 (drop off p) 0) as ->.
  { unfold be32. by rewrite !lookup_total_drop, Nat.add_0_r. }
  assert (4 <= length (drop off p))%nat as Hk by (rewrite length_drop; lia).
  apply (Forall_drop _ off) in Hb.
  destruct (drop off p) as [|b0 [|b1 [|b2 [|b3 r]]]]; cbn in Hk; try lia.
  rewrite !Forall_cons in Hb. destruct Hb as (H0 & H1 & H2 & H3 & _). unfold byte in *.
  assert (be32 (b0 :: b1 :: b2 :: b3 :: r) 0 =
    b3 + (b2 + (b1 + b0 * 256) * 256) * 2 ^ 8) as ->.
  { unfold be32. cbn -[Z.shiftl Z.mul Z.add].
    rewrite !Z.shiftl_mul_pow2 by lia. unfold u32. rewrite !Z.mod_small by lia.
    rewrite (Z.lor_comm (b0 * _) _), (lor_add (b1 * 2 ^ 16) b0 24) by lia.
    replace (b1 * 2 ^ 16 + b0 * 2 ^ 24) with ((b1 + b0 * 256) * 2 ^ 16) by lia.
    rewrite (Z.lor_comm ((b1 + _) * _) _), (lor_add (b2 * 2 ^ 8) _ 16) by lia.
    replace (b2 * 2 ^ 8 + (b1 + b0 * 256) * 2 ^ 16)
      with ((b2 + (b1 + b0 * 256) * 256) * 2 ^ 8) by lia.
    by rewrite (Z.lor_comm ((b2 + _) * _) _), (lor_add b3 _ 8) by lia. }
  unfold Fips.be_value, word. cbn [take foldl]. rewrite take_0. cbn [foldl]. lia.
Qed.

Ltac to_fips :=
  rewrite !rotr_ROTR by (done || lia); rewrite ?Z.shiftr_div_pow2 by lia.

Ltac words :=
  repeat apply Forall_cons_2; try apply Forall_nil_2; solve [assumption | apply u32_range].

(** The schedule, appended to by the code and consed by the standard. *)
Lemma sched_step_next w :
  (16 <= length w)%nat -> Forall word w ->
  reverse (sched_step w) = Fips.next_W (reverse w) /\ Forall word (sched_step w).
Proof.
  intros Hl Hw. unfold sched_step.
  split; [|apply list.Forall_app; split; [done|apply list.Forall_singleton, u32_range]].
  rewrite reverse_snoc. unfold Fips.next_W. apply (f_equal (fun x => x :: reverse w)).
  assert (forall k, (k < 16)%nat ->
    reverse w !!! k = w !!! (length w - S k)%nat /\ word (w !!! (length w - S k)%nat)) as Hk.
  { intros k Hk. split.
    - rewrite !list_lookup_total_alt, reverse_lookup by lia. done.
    - apply (proj1 (list.Forall_forall _ _) Hw), list_elem_of_lookup_total_2. lia. }
  destruct (Hk 1%nat ltac:(lia)) as [-> H1], (Hk 6%nat ltac:(lia)) as [-> H6],
    (Hk 14%nat ltac:(lia)) as [-> H14], (Hk 15%nat ltac:(lia)) as [-> H15].
  to_fips. unfold Fips.add. change (2 ^ 32) with 4294967296.
  unfold Fips.sigma0, Fips.sigma1, Fips.xor3, Fips.SHR.
  set (s0 := Z.lxor (Z.lxor (Fips.ROTR 7 _) _) _).
  set (s1 := Z.lxor (Z.lxor (Fips.ROTR 17 _) _) _). clearbody s0 s1. word_lia.
Qed.

Lemma schedule_W p :
  Forall byte p -> length p = 64%nat ->
  reverse (schedule p) = Fips.W p /\ length (schedule p) = 64%nat /\ Forall word (schedule p).
Proof.
  intros Hb Hl. unfold schedule, Fips.W.
  set (w0 := _ <$> seq 0 16). set (w1 := reverse (_ <$> seq 0 16)).
  assert (reverse w0 = w1 /\ length w0 = 16%nat /\ Forall word w0) as H0.
  { assert (forall i, i ∈ seq 0 16 -> 
      be32 p (4 * i) = Fips.be_value (take 4 (drop (4 * i) p)) /\ word (be32 p (4 * i))) as E.
    { intros i Hi%elem_of_seq. apply be32_value; [done|lia]. }
    subst w0 w1. split_and!; [|done|].
    - f_equal. apply list_fmap_ext. intros k i Hi. by apply E, list_elem_of_lookup; exists k.
    - apply Forall_fmap, list.Forall_forall. intros i Hi. by apply E. }
  clearbody w0 w1. 
  assert (forall n, reverse (Nat.iter n sched_step w0) = Nat.iter n Fips.next_W w1 /\
    length (Nat.iter n sched_step w0) = (16 + n)%nat /\ Forall word (Nat.iter n sched_step w0)) as H.
  { induction n as [|n (IH1 & IH2 & IH3)]; [destruct H0; split_and!; naive_solver lia|].
    rewrite !Nat.iter_succ. destruct (sched_step_next (Nat.iter n sched_step w0)) as [E1 E2]; [lia|done|].
    rewrite E1, IH1. split_and!; [done| |done].
    unfold sched_step at 1. rewrite length_app. cbn [length]. lia. }
  apply H.
Qed.

(** The working variables after some rounds. *)
Definition working (v : vars) : Fips.working :=
  let '(mk_vars a b cc d e f g h) := v in Fips.working_vars a b cc d e f g h.
Definition word_vars (v : vars) : Prop :=
  let '(mk_vars a b cc d e f g h) := v in Forall word [a; b; cc; d; e; f; g; h].

Lemma round_step w v i :
  word_vars v ->
  working (round w v i) = Fips.step (working v) (K !!! i, w !!! i) /\ word_vars (round w v i).
Proof.
  destruct v as [a b c d e f g h]. cbn [word_vars].
  rewrite !Forall_cons. intros (Ha & Hb & Hc & Hd & He & Hf & Hg & Hh & _).
  cbn [round working Fips.step word_vars fst snd]. to_fips.
  assert (u32 (Z.lnot e) = Fips.not e) as ->
    by (unfold Fips.not, Z.lnot, word in *; change (2 ^ 32) with 4294967296; word_lia).
  unfold Fips.Sigma0, Fips.Sigma1, Fips.Ch, Fips.Maj, Fips.xor3.
  set (S1 := Z.lxor (Z.lxor (Fips.ROTR 6 _) _) _).
  set (S0 := Z.lxor (Z.lxor (Fips.ROTR 2 _) _) _).
  set (ch := Z.lxor (Z.land e f) _). set (maj := Z.lxor _ (Z.land b c)).
  clearbody S1 S0 ch maj.
  split; [|words].
  unfold Fips.add. change (2 ^ 32) with 4294967296. f_equal; word_lia.
Qed.

Lemma rounds_steps w v l :
  word_vars v ->
  working (foldl (round w) v l) =
    foldl Fips.step (working v) ((fun i => (K !!! i, w !!! i)) <$> l) /\
  word_vars (foldl (round w) v l).
Proof.
  revert v. induction l as [|i l IH]; intros v Hv; [done|]. cbn [foldl fmap list_fmap].
  destruct (round_step w v i Hv) as [<- Hv']. by apply IH.
Qed.

(** The constants are those of the standard. *)
Lemma K_fips : K = Fips.K_table.
Proof. vm_compute. reflexivity. Qed.

Lemma iv_fips : iv = Fips.H0.
Proof. vm_compute. reflexivity. Qed.

Lemma zip_seq {A B} `{!Inhabited A, !Inhabited B} (l : list A) (k : list B) :
  length l = length k -> (fun i => (l !!! i, k !!! i)) <$> seq 0 (length l) = zip l k.
Proof.
  revert k. induction l as [|a l IH]; intros [|b k] H; try done. cbn in *.
  f_equal. rewrite <- IH by lia. by rewrite <- fmap_S_seq, <- list_fmap_compose.
Qed.

Lemma block_compress h p :
  length h = 8%nat -> Forall word h -> length p = 64%nat -> Forall byte p ->
  ac_sha256_block h p = Fips.compress h p /\
  length (ac_sha256_block h p) = 8%nat /\ Forall word (ac_sha256_block h p).
Proof.
  intros Hl Hw Hp Hb. destruct (schedule_W p Hb Hp) as (Hs & Hsl & _).
  split; [|split; [reflexivity|unfold ac_sha256_block; words]].
  unfold Fips.compress, ac_sha256_block. rewrite <- Hs, reverse_involutive, <- K_fips.
  rewrite <- zip_seq by done. change (length K) with 64%nat.
  set (v0 := mk_vars _ _ _ _ _ _ _ _).
  assert (word_vars v0) as Hv0.
  { do 8 (destruct h as [|? h]; [discriminate Hl|]). destruct h; [exact Hw|discriminate Hl]. }
  destruct (rounds_steps (schedule p) v0 (seq 0 64) Hv0) as [E _].
  change (Fips.working_of h) with (working v0). rewrite <- E.
  destruct (foldl _ v0 _) as [a b c d e f g hh]. cbn [working Fips.words_of va vb vc vd ve vf vg vh].
  do 8 (destruct h as [|? h]; [discriminate Hl|]). destruct h; [reflexivity|discriminate Hl].
Qed.

Lemma sha_blocks_hash n h msg :
  length h = 8%nat -> Forall word h -> length msg = (64 * n)%nat -> Forall byte msg ->
  sha_blocks n h msg = Fips.hash n h msg /\ length (sha_blocks n h msg) = 8%nat.
Proof.
  revert h msg. induction n as [|n IH]; intros h msg Hl Hw Hm Hb; [done|]. cbn [sha_blocks Fips.hash].
  destruct (block_compress h (take 64 msg)) as (<- & Hl' & Hw'); try done.
  { rewrite length_take. lia. }
  { by apply Forall_take. }
  apply IH; [done..|rewrite length_drop; lia|by apply Forall_drop].
Qed.

Lemma word_bytes_be x : word_bytes x = Fips.be_bytes 4 x.
Proof.
  unfold word_bytes, Fips.be_bytes. rewrite !Z.shiftr_div_pow2 by lia.
  cbn [fmap list_fmap seq]. cbn [Nat.sub]. by rewrite Z.div_1_r.
Qed.

Lemma out_words_be h : length h = 8%nat -> out_words h = concat (Fips.be_bytes 4 <$> h).
Proof.
  intros H. unfold out_words. rewrite <- H, (fmap_seq_lookup_total word_bytes).
  f_equal. apply list_fmap_ext. intros. apply word_bytes_be.
Qed.

Lemma lenbuf_be bits : lenbuf bits = Fips.be_bytes 8 bits.
Proof.
  unfold lenbuf, Fips.be_bytes. apply list_fmap_ext. intros k i Hi%lookup_seq.
  rewrite Z.shiftr_div_pow2 by lia. unfold u8. do 2 f_equal.
  change 256 with (2 ^ 8). rewrite <- Z.pow_mul_r by lia. f_equal. lia.
Qed.

Lemma fips_pad_bytes m : Forall byte m -> Forall byte (Fips.pad m).
Proof.
  intros Hm. unfold Fips.pad. rewrite !list.Forall_app. split_and!; [done| | |].
  - by apply list.Forall_singleton.
  - by apply Forall_replicate.
  - apply Forall_fmap, list.Forall_true. intros i. by apply Z.mod_pos_bound.
Qed.

(** The context after the message and its padding. *)
Lemma final_core c m :
  length (ctx_buf c) = 64%nat ->
  let c1 := ac_sha256_update (ac_sha256_init c) m in
  ctx_h (ac_sha256_update (pad_loop 64 (ac_sha256_update c1 [0x80])) (lenbuf (u64 (ctx_len c1 * 8))))
  = co_h (foldl feed (mk_core iv (ctx_buf c) 0) (Fips.pad m)).
Proof.
  intros Hb c1. assert (wf_ctx (ac_sha256_init c)) as H0 by by apply init_wf.
  subst c1. rewrite update_len by done. cbn [ac_sha256_init ctx_len].
  rewrite ctx_h_core, final_stream by auto with sha.
  rewrite update_core, <- foldl_app by done.
  change (mk_core iv (ctx_buf c) 0) with (core_of (ac_sha256_init c)).
  apply (f_equal co_h), (f_equal (foldl feed _)).
  unfold Fips.pad. rewrite update_buflen, lenbuf_be by done. cbn [ac_sha256_init ctx_buflen].
  replace (u64 (u64 (0 + Z.of_nat (length m)) * 8))
    with ((Z.of_nat (length m) * 8) mod 2 ^ 64) by (change (2 ^ 64) with 18446744073709551616; word_lia).
  do 4 f_equal.
  apply Nat2Z.inj. rewrite Z2Nat.id by (apply Z.mod_pos_bound; lia).
  rewrite Nat2Z.inj_mod, Nat2Z.inj_sub, Nat2Z.inj_mod
    by (pose proof (Nat.mod_upper_bound (0 + length m) 64); lia).
  Z.div_mod_to_equations. lia.
Qed.

(** ** Hexadecimal form *)

Lemma hex_byte_ok :
  forallb (fun b => (16 * unhex_digit (hexd !!! Z.to_nat (Z.shiftr b 4)) +
                     unhex_digit (hexd !!! Z.to_nat (Z.land b 0xf)) =? b)%Z)
          (seqZ 0 256) = true.
Proof. vm_compute. reflexivity. Qed.

Lemma unhex_byte b :
  0 <= b < 256 ->
  16 * unhex_digit (hexd !!! Z.to_nat (Z.shiftr b 4)) +
  unhex_digit (hexd !!! Z.to_nat (Z.land b 0xf)) = b.
Proof.
  intros Hb. pose proof hex_byte_ok as H. rewrite forallb_forall in H.
  apply Z.eqb_eq, H, list_elem_of_In, elem_of_seqZ. lia.
Qed.

Lemma hex_digest_bytes d :
  length d = 32%nat ->
  ac_sha256_hex_digest d =
  concat ((fun b => [ hexd !!! Z.to_nat (Z.shiftr b 4);
                      hexd !!! Z.to_nat (Z.land b 0xf) ]) <$> d).
Proof.
  intros H. unfold ac_sha256_hex_digest. rewrite <- H.
  by rewrite (fmap_seq_lookup_total
    (fun b => [ hexd !!! Z.to_nat (Z.shiftr b 4);
                hexd !!! Z.to_nat (Z.land b 0xf) ])).
Qed.

Lemma unhex_hex d :
  length d = 32%nat -> Forall (fun b => 0 <= b < 256) d ->
  unhex (ac_sha256_hex_digest d) = d.
Proof.
  intros Hl Hr. rewrite hex_digest_bytes by done. clear Hl.
  induction Hr as [|b d Hb _ IH]; [done|].
  cbn [fmap list_fmap concat app unhex]. by rewrite unhex_byte, IH.
Qed.

Lemma out_words_bytes h :
  length (out_words h) = 32%nat /\
  Forall (fun b => 0 <= b < 256) (out_words h).
Proof.
  split; [done|]. unfold out_words, word_bytes. simpl.
  repeat constructor; apply u8_range.
Qed.

Lemma final_bytes c :
  length (ac_sha256_final c) = 32%nat /\
  Forall (fun b => 0 <= b < 256) (ac_sha256_final c).
Proof. apply out_words_bytes. Qed.

Lemma length_hex_digest d : length (ac_sha256_hex_digest d) = 64%nat.
Proof. reflexivity. Qed.

(** Equal hexadecimal digests are equal digests. *)
Lemma hex_final_inj c1 c2 :
  ac_sha256_hex_digest (ac_sha256_final c1) =
  ac_sha256_hex_digest (ac_sha256_final c2) ->
  ac_sha256_final c1 = ac_sha256_final c2.
Proof.
  intros H. destruct (final_bytes c1), (final_bytes c2).
  by rewrite <- (unhex_hex (ac_sha256_final c1)), H, unhex_hex.
Qed.

(** ** Properties *)

(** A message fed to a context in any number of pieces leaves exactly the
    context (hash words, byte counter, buffer contents and fill level) that
    feeding the concatenation in one call leaves. *)
Theorem update_pieces c chunks :
  wf_ctx c ->
  foldl ac_sha256_update c chunks = ac_sha256_update c (concat chunks).
Proof. apply updates_concat. Qed.

Lemma update_pieces_witness :
  foldl ac_sha256_update (ac_sha256_init fresh_ctx) [lit "a"; []; lit "bc"]
  = ac_sha256_update (ac_sha256_init fresh_ctx) (lit "abc").
Proof.
  apply (update_pieces (ac_sha256_init fresh_ctx) [lit "a"; []; lit "bc"]).
  apply init_wf. reflexivity.
Defined.

(** C16: for every message of bytes, initialising a context (whatever its
    buffer held), feeding it the message and finalising gives the digest that
    the equations of FIPS 180-4 ([Fips.sha256]) define: constants computed from
    the roots of the first primes, message schedule, 64 rounds, padding (the
    length field modulo 2^64) and big-endian output.  In particular the padding loop terminates. *)
Theorem final_is_fips c m :
  length (ctx_buf c) = 64%nat -> Forall byte m ->
  ac_sha256_final (ac_sha256_update (ac_sha256_init c) m) = Fips.sha256 m.
Proof.
  intros Hb Hm. unfold ac_sha256_final, Fips.sha256.
  destruct (sha_blocks_hash (length (Fips.pad m) / 64) iv (Fips.pad m)) as [E El];
    [done|by repeat constructor|apply fips_pad_length|by apply fips_pad_bytes|].
  rewrite <- iv_fips, <- E, <- out_words_be by done.
  rewrite <- (feed_blocks _ _ (ctx_buf c)) by (done || apply fips_pad_length).
  f_equal. by apply final_core.
Qed.

Lemma final_is_fips_witness :
  ac_sha256_final (ac_sha256_update (ac_sha256_init fresh_ctx) (lit "abc"))
  = Fips.sha256 (lit "abc").
Proof.
  apply (final_is_fips fresh_ctx (lit "abc")); [reflexivity|repeat constructor; done].
Defined.

(** The 64-character hexadecimal form of a finalised digest decodes to
    the digest, so comparing two hexadecimal digests, as the baseline check
    and the system call table check do, compares the digests. *)
Theorem hex_roundtrip c :
  length (ac_sha256_hex_digest (ac_sha256_final c)) = 64%nat /\
  unhex (ac_sha256_hex_digest (ac_sha256_final c)) = ac_sha256_final c.
Proof.
  destruct (final_bytes c). split; [apply length_hex_digest|by apply unhex_hex].
Qed.

(** Known answers from FIPS 180-4, for the constants and round function. *)
Example sha256_abc :
  ac_sha256_hex (lit "abc") =
  lit "ba7816bf8f01cfea414140de5dae2223b00361a396177a9cb410ff61f20015ad".
Proof. vm_compute. reflexivity. Qed.

Example sha256_two_blocks :
  ac_sha256_hex
    (lit "abcdbcdecdefdefgefghfghighijhijkijkljklmklmnlmnomnopnopq") =
  lit "248d6a61d20638b8e5c026930c3e6039a33ce45964ff2167f6ecedd419db06c1".
Proof. vm_compute. reflexivity. Qed.

End Sha.
