(* ===== verification/Ring.v ===== *)
(** The event ring of the kernel module (src/anticheat_module.c, [ac_emit],
    [ac_drain_events], [ac_peek_events], [ac_commit_events]).

    Each function is one critical section of [ac_ring_lock] and is modelled as
    a function on the ring's variables.  The ring is shown to implement a
    bounded queue; the concurrent system in which any number of threads emit,
    flush and fetch is a step relation whose invariant accounts for every
    event ever emitted. *)

From stdpp Require Import sorting sets.
From S2P Require Import Prelude CText Abi.

#[local] Open Scope Z_scope.

Module Ring.

Definition AC_RING_SIZE : nat := 256.

Record ring_st := mk_ring {
  ac_ring : list ac_event;
  ac_ring_head : nat;
  ac_ring_tail : nat;
  ac_ring_count : nat;
  ac_dropped : Z;
  ac_ring_removed : Z;
}.

(** Static storage: everything zero. *)
Definition ring_init : ring_st :=
  mk_ring (replicate AC_RING_SIZE zero_event) 0 0 0 0 0.

(** ** Operations *)

(** Overflow eviction of the oldest entry. *)
Definition evict (r : ring_st) : ring_st :=
  mk_ring (ac_ring r) (ac_ring_head r) ((ac_ring_tail r + 1) mod AC_RING_SIZE)
    (ac_ring_count r - 1) (u32 (ac_dropped r + 1))
    (u64 (ac_ring_removed r + 1)).

(** The entry [ac_emit] builds; [comm] is [None] for a NULL pointer, [text]
    the formatted message before truncation. *)
Definition build_event (ts ty pid : Z) (comm : option (list Z))
    (text : list Z) : ac_event :=
  mk_event ts pid (strscpy AC_MAX_COMM (default (lit "?") comm)) ty
    (strscpy AC_EVENT_DATA text).

Definition push (r : ring_st) (ev : ac_event) : ring_st :=
  mk_ring (<[ac_ring_head r := ev]> (ac_ring r))
    ((ac_ring_head r + 1) mod AC_RING_SIZE) (ac_ring_tail r)
    (ac_ring_count r + 1) (ac_dropped r) (ac_ring_removed r).

Definition ac_emit (r : ring_st) (ts ty pid : Z) (comm : option (list Z))
    (text : list Z) : ring_st :=
  let r1 := if (AC_RING_SIZE <=? ac_ring_count r)%nat then evict r else r in
  push r1 (build_event ts ty pid comm text).

(** The arguments of an [ac_emit] call, for callers that emit several. *)
Record emission := mk_emission {
  em_type : Z;
  em_pid : Z;
  em_comm : option (list Z);
  em_text : list Z;
}.

(** The calls in order; [clock k] is the time read by the [k]-th. *)
Definition emit_all (clock : nat -> Z) (r : ring_st) (ems : list emission)
    : ring_st :=
  snd (foldl (fun '(k, r) e =>
    (S k, ac_emit r (clock k) (em_type e) (em_pid e) (em_comm e) (em_text e)))
    (O, r) ems).

(** [ac_ring_tail = (ac_ring_tail + k) % AC_RING_SIZE] with the count and the
    removal counter. *)
Definition advance (r : ring_st) (k : nat) : ring_st :=
  mk_ring (ac_ring r) (ac_ring_head r) ((ac_ring_tail r + k) mod AC_RING_SIZE)
    (ac_ring_count r - k) (ac_dropped r)
    (u64 (ac_ring_removed r + Z.of_nat k)).

Definition set_count (el : ac_event_list) (n : nat) : ac_event_list :=
  mk_event_list n (el_dropped el) (el_block_ms el) (el_events el).
Definition set_header (el : ac_event_list) (dropped : Z) : ac_event_list :=
  mk_event_list 0 dropped (el_block_ms el) (el_events el).
(** [out->events[out->count] = ev; out->count++] *)
Definition append (el : ac_event_list) (ev : ac_event) : ac_event_list :=
  mk_event_list (el_count el + 1) (el_dropped el) (el_block_ms el)
    (<[el_count el := ev]> (el_events el)).

Fixpoint drain_loop (fuel : nat) (r : ring_st) (out : option ac_event_list)
    : ring_st * option ac_event_list :=
  match fuel with
  | O => (r, out)
  | S fuel' =>
      if (0 <? ac_ring_count r)%nat &&
         match out with
         | None => true
         | Some el => (el_count el <? AC_MAX_EVENTS)%nat
         end
      then drain_loop fuel' (advance r 1)
             ((fun el => append el (ac_ring r !!! ac_ring_tail r)) <$> out)
      else (r, out)
  end.

(** [out] is [None] for a NULL pointer (the flush).  Each iteration removes
    one entry, so [ac_ring_count] iterations and the final test suffice. *)
Definition ac_drain_events (r : ring_st) (out : option ac_event_list)
    : ring_st * option ac_event_list :=
  drain_loop (S (ac_ring_count r)) r
    ((fun el => set_header el (ac_dropped r)) <$> out).

Fixpoint peek_loop (fuel : nat) (r : ring_st) (idx : nat)
    (out : ac_event_list) : ac_event_list :=
  match fuel with
  | O => out
  | S fuel' =>
      if (el_count out <? ac_ring_count r)%nat &&
         (el_count out <? AC_MAX_EVENTS)%nat
      then peek_loop fuel' r ((idx + 1) mod AC_RING_SIZE)
             (append out (ac_ring r !!! idx))
      else out
  end.

(** The list filled in and [*removed_before].  At most [AC_MAX_EVENTS]
    iterations and the final test. *)
Definition ac_peek_events (r : ring_st) (out : ac_event_list)
    : ac_event_list * Z :=
  (peek_loop (S AC_MAX_EVENTS) r (ac_ring_tail r)
     (set_header out (ac_dropped r)),
   ac_ring_removed r).

Definition ac_commit_events (r : ring_st) (n : nat) (removed_before : Z)
    : ring_st :=
  let removed_since := u64 (ac_ring_removed r - removed_before) in
  let to_remove :=
    if Z.of_nat n <=? removed_since then O
    else Z.to_nat (u32 (Z.of_nat n - u32 removed_since)) in
  let to_remove :=
    if (ac_ring_count r <? to_remove)%nat then ac_ring_count r
    else to_remove in
  advance r to_remove.

(** ** Invariant and abstract queue *)

Definition wf_ring (r : ring_st) : Prop :=
  length (ac_ring r) = AC_RING_SIZE /\
  (ac_ring_tail r < AC_RING_SIZE)%nat /\
  (ac_ring_count r <= AC_RING_SIZE)%nat /\
  ac_ring_head r = ((ac_ring_tail r + ac_ring_count r) mod AC_RING_SIZE)%nat /\
  0 <= ac_dropped r < 4294967296 /\
  0 <= ac_ring_removed r < 18446744073709551616.

Definition slot (r : ring_st) (i : nat) : ac_event :=
  ac_ring r !!! ((ac_ring_tail r + i) mod AC_RING_SIZE)%nat.

(** The queued events, oldest first. *)
Definition contents (r : ring_st) : list ac_event :=
  slot r <$> seq 0 (ac_ring_count r).

Record queue := mk_queue {
  q_events : list ac_event;
  q_dropped : Z;
  q_removed : Z;
}.

Definition abs (r : ring_st) : queue :=
  mk_queue (contents r) (ac_dropped r) (ac_ring_removed r).

(** A queue of at most [AC_RING_SIZE] events that forgets its oldest event,
    and counts it, when it is full. *)
Definition q_emit (q : queue) (ev : ac_event) : queue :=
  if (length (q_events q) =? AC_RING_SIZE)%nat
  then mk_queue (drop 1 (q_events q) ++ [ev]) (u32 (q_dropped q + 1))
         (u64 (q_removed q + 1))
  else mk_queue (q_events q ++ [ev]) (q_dropped q) (q_removed q).

Definition q_remove (q : queue) (k : nat) : queue :=
  mk_queue (drop k (q_events q)) (q_dropped q)
    (u64 (q_removed q + Z.of_nat (k `min` length (q_events q)))).

(** The reply to a fetch: the oldest events over the caller's slots. *)
Definition q_fetch (q : queue) (out : ac_event_list) : ac_event_list :=
  let evs := take AC_MAX_EVENTS (q_events q) in
  mk_event_list (length evs) (q_dropped q) (el_block_ms out)
    (list_inserts 0 evs (el_events out)).

(** ** Refinement of the queue *)

Lemma length_contents r : length (contents r) = ac_ring_count r.
Proof. unfold contents. by rewrite length_fmap, length_seq. Qed.

Lemma contents_lookup r i :
  (i < ac_ring_count r)%nat -> contents r !! i = Some (slot r i).
Proof.
  intros Hi. unfold contents. by rewrite list_lookup_fmap, lookup_seq_lt.
Qed.

Lemma mod_distinct t i c :
  (i < c < AC_RING_SIZE)%nat ->
  ((t + i) mod AC_RING_SIZE <> (t + c) mod AC_RING_SIZE)%nat.
Proof.
  intros [Hi Hc] He. apply (f_equal Z.of_nat) in He.
  unfold AC_RING_SIZE in *. rewrite !Nat2Z.inj_mod in He.
  Z.div_mod_to_equations. lia.
Qed.

Lemma advance_wf r k :
  wf_ring r -> (k <= ac_ring_count r)%nat -> wf_ring (advance r k).
Proof.
  intros (Hl & Ht & Hc & Hh & Hd & Hr) Hk. unfold wf_ring, advance. simpl.
  repeat split; try done; try apply u64_range; try lia.
  - apply Nat.mod_upper_bound. done.
  - rewrite Hh, Nat.Div0.add_mod_idemp_l. f_equal. lia.
Qed.

Lemma contents_advance r k :
  (k <= ac_ring_count r)%nat ->
  contents (advance r k) = drop k (contents r).
Proof.
  intros Hk. apply list_eq. intros i. rewrite lookup_drop.
  destruct (decide (i < ac_ring_count r - k)%nat).
  - rewrite !contents_lookup by (simpl; lia). unfold slot. simpl.
    by rewrite Nat.Div0.add_mod_idemp_l, Nat.add_assoc.
  - rewrite !lookup_ge_None_2; rewrite ?length_contents; simpl; (done || lia).
Qed.

Lemma push_wf r ev :
  wf_ring r -> (ac_ring_count r < AC_RING_SIZE)%nat -> wf_ring (push r ev).
Proof.
  intros (Hl & Ht & Hc & Hh & Hd & Hr) Hk. unfold wf_ring, push. simpl.
  rewrite length_insert. repeat split; try done; try lia.
  rewrite Hh, Nat.Div0.add_mod_idemp_l. f_equal. lia.
Qed.

Lemma contents_push r ev :
  wf_ring r -> (ac_ring_count r < AC_RING_SIZE)%nat ->
  contents (push r ev) = contents r ++ [ev].
Proof.
  intros (Hl & Ht & Hc & Hh & _) Hk. unfold contents. simpl.
  rewrite seq_app, fmap_app. simpl. f_equal.
  - apply list_fmap_ext. intros j i [-> Hi]%lookup_seq. simpl in *.
    unfold slot. simpl. apply list_lookup_total_insert_ne. rewrite Hh.
    apply not_eq_sym, mod_distinct. lia.
  - unfold slot. simpl. rewrite <- Hh, list_lookup_total_insert_eq; [done|].
    rewrite Hl, Hh. by apply Nat.mod_upper_bound.
Qed.

Lemma evict_advance r :
  evict r =
  mk_ring (ac_ring r) (ac_ring_head r) (ac_ring_tail (advance r 1))
    (ac_ring_count (advance r 1)) (u32 (ac_dropped r + 1))
    (ac_ring_removed (advance r 1)).
Proof. reflexivity. Qed.

Lemma evict_wf r : wf_ring r -> (0 < ac_ring_count r)%nat -> wf_ring (evict r).
Proof.
  intros Hr Hc. destruct (advance_wf r 1 Hr Hc) as (H1 & H2 & H3 & H4 & H5 & H6).
  rewrite evict_advance. repeat split; try done; try apply H6;
    apply u32_range.
Qed.

Lemma contents_evict r :
  (0 < ac_ring_count r)%nat -> contents (evict r) = drop 1 (contents r).
Proof. intros Hc. by rewrite <- contents_advance by lia. Qed.

Lemma emit_room_wf r :
  wf_ring r ->
  let r1 := if (AC_RING_SIZE <=? ac_ring_count r)%nat then evict r else r in
  wf_ring r1 /\ (ac_ring_count r1 < AC_RING_SIZE)%nat.
Proof.
  intros Hr. cbv zeta. assert (ac_ring_count r <= AC_RING_SIZE)%nat by apply Hr.
  destruct (Nat.leb_spec AC_RING_SIZE (ac_ring_count r)) as [Hf|Hf]; [|done].
  unfold AC_RING_SIZE in *. split; [apply evict_wf; [done|lia]|simpl; lia].
Qed.

Lemma emit_wf r ts ty pid comm text :
  wf_ring r -> wf_ring (ac_emit r ts ty pid comm text).
Proof. intros Hr. apply push_wf; by apply emit_room_wf. Qed.

Lemma emit_refines r ts ty pid comm text :
  wf_ring r ->
  abs (ac_emit r ts ty pid comm text) =
  q_emit (abs r) (build_event ts ty pid comm text).
Proof.
  intros Hr. unfold ac_emit, q_emit. destruct (emit_room_wf r Hr) as [Hw Hlt].
  assert (ac_ring_count r <= AC_RING_SIZE)%nat by apply Hr. revert Hw Hlt.
  cbn [q_events abs]. rewrite length_contents.
  destruct (Nat.leb_spec AC_RING_SIZE (ac_ring_count r)) as [Hf|Hf];
    destruct (Nat.eqb_spec (ac_ring_count r) AC_RING_SIZE); try lia;
    intros Hw Hlt; unfold abs; rewrite contents_push by done.
  - rewrite contents_evict by (unfold AC_RING_SIZE in *; lia). done.
  - done.
Qed.

(** *** Removal *)

Lemma advance_refines r k :
  (k <= ac_ring_count r)%nat -> abs (advance r k) = q_remove (abs r) k.
Proof.
  intros Hk. unfold abs, q_remove. cbn [q_events q_dropped q_removed].
  rewrite contents_advance, length_contents, Nat.min_l by done. done.
Qed.

(** How many of the [n] entries peeked at [removed_before] a commit removes. *)
Lemma commit_advance r n before :
  wf_ring r -> 0 <= before < 18446744073709551616 -> (n <= AC_MAX_EVENTS)%nat ->
  ac_commit_events r n before =
  advance r (ac_ring_count r `min`
             (n - Z.to_nat (u64 (ac_ring_removed r - before)))).
Proof.
  intros Hr Hb Hn. unfold ac_commit_events. f_equal.
  unfold AC_MAX_EVENTS in Hn.
  pose proof (u64_range (ac_ring_removed r - before)).
  set (since := u64 (ac_ring_removed r - before)) in *. clearbody since.
  destruct (Z.leb_spec (Z.of_nat n) since).
  - case_test; lia.
  - rewrite (u32_id since), u32_id by lia.
    replace (Z.to_nat (Z.of_nat n - since)) with (n - Z.to_nat since)%nat
      by lia. case_test; lia.
Qed.

Lemma commit_wf r n before :
  wf_ring r -> wf_ring (ac_commit_events r n before).
Proof.
  intros Hr. unfold ac_commit_events. apply advance_wf; [done|].
  cbv zeta. case_test; [done|lia].
Qed.

(** *** Copying out *)

Lemma foldl_append evs out :
  foldl append out evs =
  mk_event_list (el_count out + length evs) (el_dropped out)
    (el_block_ms out) (list_inserts (el_count out) evs (el_events out)).
Proof.
  revert out. induction evs as [|ev evs IH]; intros [n d b l]; simpl.
  - by rewrite Nat.add_0_r.
  - rewrite IH. simpl. rewrite list_insert_inserts_lt by lia.
    f_equal; [lia|]. by rewrite Nat.add_1_r.
Qed.

Lemma fetch_append r out :
  q_fetch (abs r) out =
  foldl append (set_header out (ac_dropped r))
    (take AC_MAX_EVENTS (contents r)).
Proof. rewrite foldl_append. reflexivity. Qed.

Lemma peek_loop_spec fuel r idx out :
  idx = ((ac_ring_tail r + el_count out) mod AC_RING_SIZE)%nat ->
  (AC_MAX_EVENTS - el_count out < fuel)%nat ->
  peek_loop fuel r idx out =
  foldl append out
    (take (AC_MAX_EVENTS - el_count out) (drop (el_count out) (contents r))).
Proof.
  revert idx out. induction fuel as [|fuel IH]; intros idx out -> Hf; [lia|].
  cbn [peek_loop].
  destruct (Nat.ltb_spec (el_count out) (ac_ring_count r)) as [H1|H1]; cycle 1.
  { rewrite drop_ge by (rewrite length_contents; lia). by rewrite take_nil. }
  destruct (Nat.ltb_spec (el_count out) AC_MAX_EVENTS) as [H2|H2]; cycle 1.
  { by replace (AC_MAX_EVENTS - el_count out)%nat with 0%nat by lia. }
  cbn [andb]. rewrite IH; cbn [append el_count]; [|by rewrite
    Nat.Div0.add_mod_idemp_l, Nat.add_assoc|lia].
  rewrite (drop_S _ _ _ (contents_lookup r _ H1)).
  replace (AC_MAX_EVENTS - el_count out)%nat
    with (S (AC_MAX_EVENTS - (el_count out + 1))) by lia.
  by rewrite Nat.add_1_r.
Qed.

Lemma peek_refines r out :
  wf_ring r ->
  ac_peek_events r out = (q_fetch (abs r) out, q_removed (abs r)).
Proof.
  intros (_ & Ht & _). unfold ac_peek_events. rewrite fetch_append. f_equal.
  apply peek_loop_spec; cbn [set_header el_count]; [|lia].
  by rewrite Nat.add_0_r, Nat.mod_small.
Qed.

Lemma advance_advance r a b :
  (a + b <= ac_ring_count r)%nat ->
  advance (advance r a) b = advance r (a + b).
Proof.
  intros H. unfold advance. simpl. f_equal.
  - by rewrite Nat.Div0.add_mod_idemp_l, Nat.add_assoc.
  - lia.
  - word_lia.
Qed.

Lemma advance_0 r : wf_ring r -> advance r 0 = r.
Proof.
  destruct r. intros (_ & Ht & _ & _ & _ & Hr). simpl in *. unfold advance.
  simpl. rewrite Nat.add_0_r, Nat.mod_small, Nat.sub_0_r, Z.add_0_r by done.
  by rewrite u64_id.
Qed.

(** How many entries a drain takes. *)
Definition drain_n (r : ring_st) (out : option ac_event_list) : nat :=
  match out with
  | None => ac_ring_count r
  | Some el => ac_ring_count r `min` (AC_MAX_EVENTS - el_count el)
  end.

Lemma drain_loop_spec fuel r out :
  wf_ring r -> (ac_ring_count r < fuel)%nat ->
  drain_loop fuel r out =
  (advance r (drain_n r out),
   (fun el => foldl append el (take (drain_n r out) (contents r))) <$> out).
Proof.
  revert r out. induction fuel as [|fuel IH]; intros r out Hr Hf; [lia|].
  cbn [drain_loop]. destruct (andb _ _) eqn:E.
  - assert (drain_n r out = S (drain_n (advance r 1)
      ((fun el => append el (ac_ring r !!! ac_ring_tail r)) <$> out)) /\
      0 < ac_ring_count r)%nat as [-> H0].
    { destruct out; simpl in *; boolp; lia. }
    rewrite IH by (try apply advance_wf; simpl; (done || lia)).
    set (k := drain_n (advance r 1) _).
    assert (k <= ac_ring_count r - 1)%nat as Hk.
    { subst k. unfold drain_n. destruct out; simpl; lia. }
    clearbody k. rewrite advance_advance by lia. f_equal.
    rewrite contents_advance by lia.
    destruct out as [el|]; [|done]. simpl. f_equal.
    rewrite <- (drop_0 (contents r)) at 2.
    rewrite (drop_S _ _ _ (contents_lookup r 0 H0)). simpl. do 2 f_equal.
    unfold slot. rewrite Nat.add_0_r, Nat.mod_small by apply Hr. done.
  - assert (drain_n r out = 0%nat) as ->.
    { destruct out; simpl in *; boolp; lia. }
    rewrite advance_0 by done. by destruct out.
Qed.

Lemma flush_refines r :
  wf_ring r ->
  ac_drain_events r None = (advance r (ac_ring_count r), None) /\
  abs (advance r (ac_ring_count r)) = q_remove (abs r) (ac_ring_count r).
Proof.
  intros Hr. unfold ac_drain_events.
  rewrite drain_loop_spec by (done || lia). split; [done|].
  by apply advance_refines.
Qed.

(** Draining into a list is peeking and committing in one critical section. *)
Lemma drain_peek_commit r el :
  wf_ring r ->
  let '(el', before) := ac_peek_events r el in
  ac_drain_events r (Some el) =
  (ac_commit_events r (el_count el') before, Some el').
Proof.
  intros Hr. rewrite peek_refines by done. cbn [q_removed abs].
  unfold ac_drain_events.
  rewrite drain_loop_spec by (done || lia). cbn [fmap option_fmap option_map].
  rewrite commit_advance; [|done|apply Hr|]; cycle 1.
  { cbn [el_count q_fetch]. rewrite length_take. lia. }
  rewrite Z.sub_diag, fetch_append. cbn [drain_n set_header el_count].
  rewrite Nat.sub_0_r. f_equal.
  - f_equal. rewrite foldl_append. cbn [el_count set_header].
    rewrite length_take, length_contents. change (Z.to_nat (u64 0)) with O. lia.
  - do 2 f_equal. rewrite <- length_contents.
    destruct (decide (length (contents r) <= AC_MAX_EVENTS)%nat).
    + rewrite Nat.min_l, !take_ge by lia. done.
    + by rewrite Nat.min_r by lia.
Qed.

(** ** The concurrent system

    Any number of threads emit and flush; fetches ([AC_IOCTL_GET_EVENTS]) are
    serialised by [ac_get_events_lock], so at most one is past its peek.  The
    ring, and what a fetch holds in its kernel buffer, are the program's; the
    rest records the history: [s_hist] every event emitted, in order;
    [s_user] every event a successful [copy_to_user] handed to user space;
    [s_delivered], [s_evicted], [s_flushed] the positions in [s_hist] of the
    events delivered, evicted by overflow and dropped by a flush. *)

Inductive fetch :=
  | Idle
  | Peeked (el : ac_event_list) (before : Z) (base : nat)
  | Copied (el : ac_event_list) (before : Z) (base : nat).

Record sys := mk_sys {
  s_ring : ring_st;
  s_get : fetch;
  s_hist : list ac_event;
  s_user : list ac_event;
  s_delivered : list nat;
  s_evicted : list nat;
  s_flushed : list nat;
}.

Definition sys_init : sys := mk_sys ring_init Idle [] [] [] [] [].

(** Position in the history of the oldest queued event. *)
Definition oldest (st : sys) : nat :=
  length (s_hist st) - ac_ring_count (s_ring st).

(** The events a filled-in list carries. *)
Definition el_list (el : ac_event_list) : list ac_event :=
  take (el_count el) (el_events el).

Inductive step : sys -> sys -> Prop :=
  | step_emit st ts ty pid comm text :
      step st
        (mk_sys (ac_emit (s_ring st) ts ty pid comm text) (s_get st)
           (s_hist st ++ [build_event ts ty pid comm text])
           (s_user st) (s_delivered st)
           (if (AC_RING_SIZE <=? ac_ring_count (s_ring st))%nat
            then s_evicted st ++ [oldest st] else s_evicted st)
           (s_flushed st))
  | step_flush st :
      step st
        (mk_sys (fst (ac_drain_events (s_ring st) None)) (s_get st)
           (s_hist st) (s_user st) (s_delivered st) (s_evicted st)
           (s_flushed st ++ seq (oldest st) (ac_ring_count (s_ring st))))
  | step_peek st buf :
      s_get st = Idle -> length (el_events buf) = AC_MAX_EVENTS ->
      step st
        (mk_sys (s_ring st)
           (let '(el, before) := ac_peek_events (s_ring st) buf in
            Peeked el before (oldest st))
           (s_hist st) (s_user st) (s_delivered st) (s_evicted st)
           (s_flushed st))
  | step_copy st el before base :
      s_get st = Peeked el before base ->
      step st
        (mk_sys (s_ring st) (Copied el before base) (s_hist st)
           (s_user st ++ el_list el)
           (s_delivered st ++ seq base (el_count el))
           (s_evicted st) (s_flushed st))
  | step_fault st el before base :
      s_get st = Peeked el before base ->
      step st
        (mk_sys (s_ring st) Idle (s_hist st) (s_user st) (s_delivered st)
           (s_evicted st) (s_flushed st))
  | step_commit st el before base :
      s_get st = Copied el before base ->
      step st
        (mk_sys (ac_commit_events (s_ring st) (el_count el) before) Idle
           (s_hist st) (s_user st) (s_delivered st) (s_evicted st)
           (s_flushed st)).

Definition accounted (st : sys) (i : nat) : Prop :=
  i ∈ s_delivered st \/ i ∈ s_evicted st \/ i ∈ s_flushed st.

(** Delivered positions stay below this bound. *)
Definition frontier (st : sys) : nat :=
  match s_get st with
  | Idle => oldest st
  | Peeked _ _ base => base
  | Copied el _ base => base + el_count el
  end.

Definition fetch_ok (st : sys) : Prop :=
  match s_get st with
  | Idle => True
  | Peeked el before base | Copied el before base =>
      before = u64 (Z.of_nat base) /\ (base <= oldest st)%nat /\
      (el_count el <= AC_MAX_EVENTS)%nat /\
      (base + el_count el <= length (s_hist st))%nat /\
      el_list el = take (el_count el) (drop base (s_hist st))
  end.

Record inv (st : sys) : Prop := {
  inv_wf : wf_ring (s_ring st);
  inv_count : (ac_ring_count (s_ring st) <= length (s_hist st))%nat;
  inv_contents : contents (s_ring st) = drop (oldest st) (s_hist st);
  inv_removed : ac_ring_removed (s_ring st) = u64 (Z.of_nat (oldest st));
  inv_dropped :
    ac_dropped (s_ring st) = u32 (Z.of_nat (length (s_evicted st)));
  inv_user : Forall2 (fun i ev => s_hist st !! i = Some ev)
               (s_delivered st) (s_user st);
  inv_sorted : StronglySorted lt (s_delivered st);
  inv_frontier : forall i, i ∈ s_delivered st -> (i < frontier st)%nat;
  inv_cover : forall i, (i < oldest st)%nat -> accounted st i;
  inv_fetch : fetch_ok st;
  inv_copied : forall el before base, s_get st = Copied el before base ->
    forall i, (base <= i < base + el_count el)%nat -> i ∈ s_delivered st;
}.

(** ** Every step preserves the invariant *)

Lemma emit_full r ts ty pid comm text :
  wf_ring r -> (AC_RING_SIZE <=? ac_ring_count r)%nat = true ->
  let r' := ac_emit r ts ty pid comm text in
  contents r' = drop 1 (contents r) ++ [build_event ts ty pid comm text] /\
  ac_dropped r' = u32 (ac_dropped r + 1) /\
  ac_ring_removed r' = u64 (ac_ring_removed r + 1) /\
  ac_ring_count r' = ac_ring_count r.
Proof.
  intros Hr Hf. pose proof (emit_refines r ts ty pid comm text Hr) as Hq.
  assert (ac_ring_count r <= AC_RING_SIZE)%nat by apply Hr. boolp.
  unfold q_emit in Hq. cbn [abs q_events q_dropped q_removed] in Hq.
  rewrite length_contents, (proj2 (Nat.eqb_eq _ _)) in Hq by lia.
  cbv zeta. injection Hq as Hq1 Hq2 Hq3. repeat split; try done.
  rewrite <- (length_contents (ac_emit _ _ _ _ _ _)), Hq1, length_app, length_drop, length_contents.
  unfold AC_RING_SIZE in *. simpl. lia.
Qed.

Lemma emit_room r ts ty pid comm text :
  wf_ring r -> (AC_RING_SIZE <=? ac_ring_count r)%nat = false ->
  let r' := ac_emit r ts ty pid comm text in
  contents r' = contents r ++ [build_event ts ty pid comm text] /\
  ac_dropped r' = ac_dropped r /\
  ac_ring_removed r' = ac_ring_removed r /\
  ac_ring_count r' = S (ac_ring_count r).
Proof.
  intros Hr Hf. pose proof (emit_refines r ts ty pid comm text Hr) as Hq.
  boolp. unfold q_emit in Hq. cbn [abs q_events q_dropped q_removed] in Hq.
  rewrite length_contents, (proj2 (Nat.eqb_neq _ _)) in Hq by lia.
  cbv zeta. injection Hq as Hq1 Hq2 Hq3. repeat split; try done.
  rewrite <- (length_contents (ac_emit _ _ _ _ _ _)), Hq1, length_app, length_contents. simpl. lia.
Qed.

Lemma fetch_ok_grow st st' evs :
  s_get st' = s_get st -> s_hist st' = s_hist st ++ evs ->
  (oldest st <= oldest st')%nat -> fetch_ok st -> fetch_ok st'.
Proof.
  unfold fetch_ok. intros -> -> Ho. destruct (s_get st) as [|el b base|el b base];
    [done|..]; intros (H1 & H2 & H3 & H4 & H5);
    rewrite length_app; repeat split; try done; try lia;
    rewrite drop_app_le, take_app_le by (rewrite ?length_drop; lia); done.
Qed.

Lemma frontier_grow st st' i :
  s_get st' = s_get st -> (oldest st <= oldest st')%nat ->
  (i < frontier st)%nat -> (i < frontier st')%nat.
Proof. unfold frontier. intros -> Ho. destruct (s_get st); lia. Qed.

Lemma user_grow (h evs : list ac_event) ps us :
  Forall2 (fun (i : nat) ev => h !! i = Some ev) ps us ->
  Forall2 (fun (i : nat) ev => (h ++ evs) !! i = Some ev) ps us.
Proof.
  intros H. eapply Forall2_impl; [done|]. intros i ev Hi.
  by apply lookup_app_l_Some.
Qed.

(** What a step that appends [evs] to the history and moves [oldest] forward
    leaves to prove. *)
Lemma inv_grow st r' evs ev' fl' o' :
  let st' := mk_sys r' (s_get st) (s_hist st ++ evs) (s_user st)
               (s_delivered st) ev' fl' in
  inv st -> wf_ring r' ->
  (length (s_hist st ++ evs) = ac_ring_count r' + o')%nat ->
  contents r' = drop o' (s_hist st ++ evs) ->
  ac_ring_removed r' = u64 (Z.of_nat o') ->
  ac_dropped r' = u32 (Z.of_nat (length ev')) ->
  (oldest st <= o')%nat ->
  (forall i, (i < o')%nat -> accounted st' i) ->
  inv st'.
Proof.
  intros st' I ? Hl ?? Hd Ho Hcov.
  assert (oldest st' = o') as <- by (unfold oldest; simpl s_hist; simpl s_ring; lia). split; try done; try apply I.
  - simpl s_ring. simpl s_hist. lia.
  - apply user_grow, I.
  - intros i Hi. eapply frontier_grow, I; done.
  - eapply fetch_ok_grow; [..|apply I]; done.
Qed.

Lemma emit_step st ts ty pid comm text :
  inv st ->
  inv (mk_sys (ac_emit (s_ring st) ts ty pid comm text) (s_get st)
         (s_hist st ++ [build_event ts ty pid comm text])
         (s_user st) (s_delivered st)
         (if (AC_RING_SIZE <=? ac_ring_count (s_ring st))%nat
          then s_evicted st ++ [oldest st] else s_evicted st)
         (s_flushed st)).
Proof.
  intros I. pose proof (inv_wf _ I) as Hw. pose proof (inv_count _ I) as Hc.
  pose proof (inv_cover _ I) as Hcov.
  destruct (_ <=? _)%nat eqn:Hf;
    [destruct (emit_full _ ts ty pid comm text Hw Hf) as (H1 & H2 & H3 & H4)
    |destruct (emit_room _ ts ty pid comm text Hw Hf) as (H1 & H2 & H3 & H4)].
  all: set (r' := ac_emit _ _ _ _ _ _) in *.
  all: set (h' := s_hist st ++ _).
  all: assert (length h' = S (length (s_hist st))) as Hh
         by (unfold h'; rewrite length_app; simpl; lia).
  - assert (length h' - ac_ring_count r' = S (oldest st))%nat as Ho.
    { unfold oldest. lia. }
    assert (oldest st < length (s_hist st))%nat as Hlt.
    { unfold oldest, AC_RING_SIZE in *. boolp. lia. }
    apply inv_grow with (S (oldest st)); fold h'; try done; try lia.
    + apply emit_wf, Hw.
    + rewrite H1, (inv_contents _ I), drop_drop, Nat.add_1_r.
      unfold h'. by rewrite drop_app_le by lia.
    + rewrite H3, (inv_removed _ I). word_lia.
    + rewrite H2, (inv_dropped _ I), length_app. simpl. word_lia.
    + intros i Hi. unfold accounted. simpl. rewrite elem_of_app.
      destruct (decide (i = oldest st)) as [->|]; [set_solver|].
      destruct (Hcov i) as [|[]]; [lia|auto..].
  - assert (length h' - ac_ring_count r' = oldest st)%nat as Ho.
    { unfold oldest. lia. }
    apply inv_grow with (oldest st); fold h'; try done; try lia.
    + apply emit_wf, Hw.
    + rewrite H1, (inv_contents _ I). unfold h'.
      rewrite drop_app_le by (unfold oldest; lia). done.
    + by rewrite H3, (inv_removed _ I).
    + by rewrite H2, (inv_dropped _ I).
Qed.

Lemma flush_step st :
  inv st ->
  inv (mk_sys (fst (ac_drain_events (s_ring st) None)) (s_get st) (s_hist st)
         (s_user st) (s_delivered st) (s_evicted st)
         (s_flushed st ++ seq (oldest st) (ac_ring_count (s_ring st)))).
Proof.
  intros I. pose proof (inv_wf _ I) as Hw. pose proof (inv_count _ I) as Hc.
  destruct (flush_refines _ Hw) as [-> _]. simpl fst.
  rewrite <- (app_nil_r (s_hist st)) at 1.
  apply inv_grow with (length (s_hist st)); rewrite ?app_nil_r; try done.
  - by apply advance_wf.
  - simpl. lia.
  - rewrite contents_advance by done. rewrite !drop_ge; [done|lia|].
    by rewrite length_contents.
  - simpl. rewrite (inv_removed _ I). unfold oldest. word_lia.
  - simpl. apply I.
  - unfold oldest. lia.
  - intros i Hi. unfold accounted. simpl. rewrite elem_of_app, elem_of_seq.
    destruct (decide (i < oldest st)%nat) as [Hlt|].
    + destruct (inv_cover _ I i Hlt) as [|[]]; auto.
    + right; right; right. unfold oldest in *. lia.
Qed.

(** What a step of the fetching thread that leaves the ring alone must show. *)
Lemma inv_fetch_step st get' user' del' :
  let st' := mk_sys (s_ring st) get' (s_hist st) user' del' (s_evicted st)
               (s_flushed st) in
  inv st ->
  Forall2 (fun i ev => s_hist st !! i = Some ev) del' user' ->
  StronglySorted lt del' ->
  (forall i, i ∈ del' -> (i < frontier st')%nat) ->
  (forall i, i ∈ s_delivered st -> i ∈ del') ->
  fetch_ok st' ->
  (forall el before base, get' = Copied el before base ->
     forall i, (base <= i < base + el_count el)%nat -> i ∈ del') ->
  inv st'.
Proof.
  intros st' I Hu Hs Hf Hsub Hok Hcp. split; try done; try apply I.
  intros i Hi. destruct (inv_cover _ I i Hi) as [|[]];
    unfold accounted; simpl; auto.
Qed.

Lemma peek_step st buf :
  inv st -> s_get st = Idle -> length (el_events buf) = AC_MAX_EVENTS ->
  inv (mk_sys (s_ring st)
         (let '(el, before) := ac_peek_events (s_ring st) buf in
          Peeked el before (oldest st))
         (s_hist st) (s_user st) (s_delivered st) (s_evicted st)
         (s_flushed st)).
Proof.
  intros I Hg Hb. pose proof (inv_wf _ I) as Hw. pose proof (inv_count _ I).
  rewrite peek_refines by done. apply inv_fetch_step; try done; try apply I.
  - intros i Hi. simpl. pose proof (inv_frontier _ I i Hi) as Hf.
    unfold frontier in Hf. by rewrite Hg in Hf.
  - unfold fetch_ok, q_fetch, el_list. simpl s_get. cbv iota.
    cbn [el_count el_events q_events abs q_removed].
    rewrite length_take, length_contents. repeat split.
    + apply I.
    + unfold oldest. simpl. lia.
    + lia.
    + unfold oldest. simpl s_hist. lia.
    + rewrite (inv_contents _ I). simpl s_hist.
      assert (length (drop (oldest st) (s_hist st)) =
              ac_ring_count (s_ring st)) as Hl
        by (rewrite length_drop; unfold oldest; lia).
      set (q := drop (oldest st) (s_hist st)) in *.
      assert (take AC_MAX_EVENTS q =
              take (AC_MAX_EVENTS `min` ac_ring_count (s_ring st)) q) as ->.
      { rewrite <- Hl. destruct (decide (length q <= AC_MAX_EVENTS)%nat).
        - by rewrite !take_ge by lia.
        - by rewrite Nat.min_l by lia. }
      set (n := Nat.min _ _).
      assert (length (take n q) = n) as Hn by (rewrite length_take; lia).
      rewrite <- Hn at 1. rewrite <- (take_drop n (el_events buf)).
      rewrite list_inserts_0_r.
      * by rewrite take_app_length.
      * rewrite Hn, length_take. unfold AC_MAX_EVENTS in *. lia.
Qed.

Lemma delivered_user (h : list ac_event) base n :
  (base + n <= length h)%nat ->
  Forall2 (fun i ev => h !! i = Some ev) (seq base n)
    (take n (drop base h)).
Proof.
  intros Hl. apply Forall2_same_length_lookup. split.
  - rewrite length_seq, length_take, length_drop. lia.
  - intros i x y [-> Hi]%lookup_seq Hy.
    by rewrite lookup_take_lt, lookup_drop in Hy.
Qed.

Lemma seq_sorted base n : StronglySorted lt (seq base n).
Proof.
  revert base. induction n as [|n IH]; intros base; simpl; constructor; [done|].
  apply Forall_forall. intros i. rewrite elem_of_seq. lia.
Qed.

Lemma copy_step st el before base :
  inv st -> s_get st = Peeked el before base ->
  inv (mk_sys (s_ring st) (Copied el before base) (s_hist st)
         (s_user st ++ el_list el) (s_delivered st ++ seq base (el_count el))
         (s_evicted st) (s_flushed st)).
Proof.
  intros I Hg. pose proof (inv_fetch _ I) as Hok. unfold fetch_ok in Hok.
  rewrite Hg in Hok. destruct Hok as (H1 & H2 & H3 & H4 & H5).
  assert (forall i, i ∈ s_delivered st -> (i < base)%nat) as Hb.
  { intros i Hi. pose proof (inv_frontier _ I i Hi) as Hf.
    unfold frontier in Hf. by rewrite Hg in Hf. }
  apply inv_fetch_step; try done.
  - apply Forall2_app; [apply I|]. rewrite H5. by apply delivered_user.
  - apply StronglySorted_app_2; [|apply I|apply seq_sorted].
    intros i j Hi%Hb. rewrite elem_of_seq. lia.
  - intros i. rewrite elem_of_app, elem_of_seq. unfold frontier. simpl.
    intros [Hi%Hb|]; lia.
  - intros i Hi. apply elem_of_app. by left.
  - intros ??? [= -> -> ->] i Hi. apply elem_of_app. right.
    by apply elem_of_seq.
Qed.

Lemma fault_step st el before base :
  inv st -> s_get st = Peeked el before base ->
  inv (mk_sys (s_ring st) Idle (s_hist st) (s_user st) (s_delivered st)
         (s_evicted st) (s_flushed st)).
Proof.
  intros I Hg. apply inv_fetch_step; try done; try apply I.
  intros i Hi. pose proof (inv_frontier _ I i Hi) as Hf.
  pose proof (inv_fetch _ I) as Hok. unfold fetch_ok in Hok.
  unfold frontier in *. rewrite Hg in Hf, Hok. destruct Hok as (_ & Hb & _).
  unfold oldest in *. simpl. lia.
Qed.

Lemma commit_step st el before base :
  inv st -> s_get st = Copied el before base ->
  Z.of_nat (length (s_hist st)) < 18446744073709551616 ->
  inv (mk_sys (ac_commit_events (s_ring st) (el_count el) before) Idle
         (s_hist st) (s_user st) (s_delivered st) (s_evicted st)
         (s_flushed st)).
Proof.
  intros I Hg Hmax. pose proof (inv_wf _ I) as Hw.
  pose proof (inv_count _ I) as Hc.
  pose proof (inv_fetch _ I) as Hok. unfold fetch_ok in Hok.
  rewrite Hg in Hok. destruct Hok as (-> & H2 & H3 & H4 & H5).
  rewrite commit_advance by (done || apply u64_range).
  rewrite (inv_removed _ I).
  replace (Z.to_nat (u64 (u64 (Z.of_nat (oldest st)) - u64 (Z.of_nat base))))
    with (oldest st - base)%nat by (unfold oldest in *; word_lia).
  set (k := Nat.min _ _).
  assert (oldest st + k = oldest st `max` (base + el_count el))%nat as Hk
    by (subst k; unfold oldest in *; lia).
  assert (k <= ac_ring_count (s_ring st))%nat as Hkc by (subst k; lia).
  clearbody k. set (st' := mk_sys _ _ _ _ _ _ _).
  assert (oldest st' = oldest st + k)%nat as Ho by (unfold oldest; simpl; lia).
  split; try done; try apply I.
  - by apply advance_wf.
  - simpl. lia.
  - rewrite Ho. simpl. rewrite contents_advance by done.
    by rewrite (inv_contents _ I), drop_drop.
  - rewrite Ho. simpl. rewrite (inv_removed _ I). word_lia.
  - intros i Hi. pose proof (inv_frontier _ I i Hi) as Hf.
    unfold frontier in *. rewrite Hg in Hf. simpl. lia.
  - rewrite Ho. intros i Hi. destruct (decide (i < oldest st)%nat) as [Hlt|].
    + apply (inv_cover _ I i Hlt).
    + left. apply (inv_copied _ I el _ base Hg). lia.
Qed.

Lemma ring_sys_init_inv : inv sys_init.
Proof.
  split; try done; try (intros i Hi; simpl in Hi; by inversion Hi).
  - unfold wf_ring, AC_RING_SIZE. repeat split; simpl; (reflexivity || lia).
  - constructor.
Qed.

Lemma step_hist st st' :
  step st st' -> (length (s_hist st) <= length (s_hist st'))%nat.
Proof. intros []; simpl; rewrite ?length_app; lia. Qed.

Lemma ring_step_inv st st' :
  step st st' -> Z.of_nat (length (s_hist st')) < 18446744073709551616 ->
  inv st -> inv st'.
Proof.
  intros [] Hl I; simpl in Hl; eauto using emit_step, flush_step, peek_step,
    copy_step, fault_step, commit_step.
Qed.

Lemma ring_reachable_inv st :
  rtc step sys_init st ->
  Z.of_nat (length (s_hist st)) < 18446744073709551616 -> inv st.
Proof.
  intros H. apply (rtc_invariant step (fun st => _ -> inv st) _ _ H).
  - intros _. apply ring_sys_init_inv.
  - intros st1 st2 Hs IH Hl. apply ring_step_inv with st1; [done|done|].
    apply IH. pose proof (step_hist _ _ Hs). lia.
Qed.

Lemma commit_refines r n before :
  wf_ring r -> 0 <= before < 18446744073709551616 -> (n <= AC_MAX_EVENTS)%nat ->
  abs (ac_commit_events r n before) =
  q_remove (abs r) (n - Z.to_nat (u64 (q_removed (abs r) - before))).
Proof.
  intros Hr Hb Hn. rewrite commit_advance by done. cbn [q_removed abs].
  set (k := (n - _)%nat). rewrite advance_refines by lia.
  unfold q_remove. cbn [q_events abs]. rewrite length_contents. f_equal.
  - destruct (decide (k <= ac_ring_count r)%nat); [by rewrite Nat.min_r|].
    rewrite !drop_ge; rewrite ?length_contents; (done || lia).
  - do 3 f_equal. lia.
Qed.

(** ** Properties *)

(** C17: the ring implements the bounded queue.  Its variables stay in range
    and consistent under every operation; emitting appends, forgetting and
    counting the oldest event exactly when 256 are queued; peeking replies
    with the 64 oldest and changes nothing; committing [n] peeked entries
    removes [n] minus what has been removed since the peek; flushing
    empties. *)
Theorem ring_refines_queue r :
  wf_ring r ->
  (forall ts ty pid comm text,
     let r' := ac_emit r ts ty pid comm text in
     wf_ring r' /\ abs r' = q_emit (abs r) (build_event ts ty pid comm text)) /\
  (forall out, ac_peek_events r out =
               (q_fetch (abs r) out, q_removed (abs r))) /\
  (forall n before, 0 <= before < 18446744073709551616 ->
     (n <= AC_MAX_EVENTS)%nat ->
     let r' := ac_commit_events r n before in
     wf_ring r' /\
     abs r' = q_remove (abs r)
                (n - Z.to_nat (u64 (q_removed (abs r) - before)))) /\
  (let r' := fst (ac_drain_events r None) in
   wf_ring r' /\ abs r' = q_remove (abs r) (length (q_events (abs r)))).
Proof.
  intros Hr. split_and!.
  - intros. split; [by apply emit_wf|by apply emit_refines].
  - intros. by apply peek_refines.
  - intros. split; [by apply commit_wf|by apply commit_refines].
  - destruct (flush_refines r Hr) as [-> H2].
    split; [by apply advance_wf|].
    simpl. by rewrite length_contents.
Qed.

Lemma ring_init_wf : wf_ring ring_init.
Proof. apply (inv_wf _ ring_sys_init_inv). Qed.

Lemma ring_refines_queue_witness :
  abs (ac_emit ring_init 7 AC_EV_INFO 0 None (lit "loaded")) =
  mk_queue [mk_event 7 0 (lit "?") AC_EV_INFO (lit "loaded")] 0 0.
Proof.
  destruct (ring_refines_queue ring_init ring_init_wf) as [H _].
  destruct (H 7 AC_EV_INFO 0 None (lit "loaded")) as [_ H'].
  transitivity (q_emit (abs ring_init)
    (build_event 7 AC_EV_INFO 0 None (lit "loaded"))); [exact H'|].
  reflexivity.
Defined.

(** What the history says of a state of the system. *)
Record accounting (st : sys) : Prop := {
  acc_queue : contents (s_ring st) = drop (oldest st) (s_hist st);
  acc_user : Forall2 (fun i ev => s_hist st !! i = Some ev)
               (s_delivered st) (s_user st);
  acc_once : StronglySorted lt (s_delivered st);
  acc_none_lost : forall i, (i < length (s_hist st))%nat ->
    (oldest st <= i)%nat \/ accounted st i;
  acc_counted :
    ac_dropped (s_ring st) = u32 (Z.of_nat (length (s_evicted st)));
}.

(** C1: under every interleaving of emitting, flushing and fetching threads,
    with evictions between a fetch's peek and its commit and with failing
    copies to user space, every event ever emitted is still queued, was
    delivered, was evicted by overflow and counted in [ac_dropped], or was
    flushed; user space receives events in emission order, none twice.
    (The removal counter has 64 bits; the history is assumed shorter.) *)
Theorem events_accounted st :
  rtc step sys_init st ->
  Z.of_nat (length (s_hist st)) < 18446744073709551616 ->
  accounting st.
Proof.
  intros Hr Hl. pose proof (ring_reachable_inv st Hr Hl) as I.
  split; try apply I. intros i Hi.
  destruct (decide (oldest st <= i)%nat); [by left|right].
  apply (inv_cover _ I). lia.
Qed.

(** A run: an event is emitted and fetched while a second one arrives. *)
Lemma events_accounted_witness :
  exists st, s_user st = [mk_event 1 5 (lit "?") 8 (lit "a")] /\
    contents (s_ring st) = [mk_event 2 6 (lit "g") 8 (lit "b")] /\
    accounting st.
Proof.
  pose (buf := mk_event_list 0 0 0 (replicate 64 zero_event)).
  eexists. split; [|split; [|apply events_accounted]].
  3: { eapply rtc_l; [apply (step_emit _ 1 8 5 None (lit "a"))|].
       eapply rtc_l; [apply (step_peek _ buf); reflexivity|].
       eapply rtc_l; [apply (step_emit _ 2 8 6 (Some (lit "g")) (lit "b"))|].
       eapply rtc_l; [eapply step_copy; reflexivity|].
       eapply rtc_l; [eapply step_commit; reflexivity|].
       apply rtc_refl. }
  - vm_compute. reflexivity.
  - vm_compute. reflexivity.
  - vm_compute. reflexivity.
Defined.

(** Draining into a list, the variant of the flush that returns what it
    removes, is a peek and its commit in one critical section: same reply,
    same ring. *)
Theorem drain_is_peek_commit r el :
  wf_ring r ->
  let '(el', before) := ac_peek_events r el in
  ac_drain_events r (Some el) =
  (ac_commit_events r (el_count el') before, Some el').
Proof. apply drain_peek_commit. Qed.

Lemma drain_is_peek_commit_witness :
  let r := ac_emit ring_init 7 AC_EV_INFO 0 None (lit "loaded") in
  ac_ring_count (fst (ac_drain_events r
    (Some (mk_event_list 0 0 0 (replicate 64 zero_event))))) = 0%nat.
Proof.
  pose proof (drain_is_peek_commit
    (ac_emit ring_init 7 AC_EV_INFO 0 None (lit "loaded"))
    (mk_event_list 0 0 0 (replicate 64 zero_event))
    (emit_wf _ _ _ _ _ _ ring_init_wf)) as H.
  destruct (ac_peek_events _ _) as [el' b] eqn:E. cbv zeta. rewrite H.
  vm_compute in E. injection E as <- <-. reflexivity.
Defined.

(** What a fetch copies to user space holds nothing but queued events and
    the caller's own bytes: slot [i] of the reply is the [i]-th queued event
    below [count] and the slot the caller passed in from [count] on. *)
Theorem fetch_reply_slots r out i :
  wf_ring r -> length (el_events out) = AC_MAX_EVENTS ->
  let reply := fst (ac_peek_events r out) in
  el_count reply = (AC_MAX_EVENTS `min` ac_ring_count r)%nat /\
  el_events reply !! i =
    if decide (i < el_count reply)%nat then contents r !! i
    else el_events out !! i.
Proof.
  intros Hr Hl. rewrite peek_refines by done. unfold q_fetch.
  cbn [fst el_count el_events q_events abs].
  rewrite length_take, length_contents. split; [done|].
  destruct (decide _) as [Hi|Hi].
  - rewrite list_lookup_inserts, Nat.sub_0_r, lookup_take_lt; try done;
      rewrite ?length_take, ?length_contents; lia.
  - rewrite list_lookup_inserts_ge; [done|].
    rewrite length_take, length_contents. lia.
Qed.

Lemma fetch_reply_slots_witness :
  let reply := fst (ac_peek_events ring_init
    (mk_event_list 3 0 0 (replicate 64 (mk_event 9 9 [] 9 [])))) in
  el_count reply = 0%nat /\ el_events reply !! 5%nat = Some (mk_event 9 9 [] 9 []).
Proof.
  apply (fetch_reply_slots ring_init
    (mk_event_list 3 0 0 (replicate 64 (mk_event 9 9 [] 9 []))) 5
    ring_init_wf eq_refl).
Defined.
End Ring.
