(* ===== verification/DenyLimit.v ===== *)
(** The rate limit on denial events (src/anticheat_module.c,
    [ac_deny_event_allowed]): at most [AC_DENY_EV_BURST] events per type and
    window of [HZ] ticks, the suppressed ones counted for the next report. *)

From S2P Require Import Prelude.

#[local] Open Scope Z_scope.

Module DenyLimit.

Definition AC_DENY_EV_BURST : Z := 8.

Record ac_deny_rl := mk_rl {
  rl_window_start : Z;
  rl_n : Z;
  rl_suppressed : Z;
}.

(** Static storage. *)
Definition rl_init : ac_deny_rl := mk_rl 0 0 0.

(** [time_after(a, b)]: [(long)(b - a) < 0]. *)
Definition time_after (a b : Z) : bool := s64 (b - a) <? 0.

Section limit.
(** The kernel's tick rate; [AC_DENY_EV_WINDOW] is [HZ]. *)
Context (HZ : Z).

(** [j1] and [j2] are the two reads of [jiffies], the test's and the new
    window's.  The result is the verdict, [*suppressed] and the new state. *)
Definition ac_deny_event_allowed (j1 j2 : Z) (rl : ac_deny_rl)
    : bool * Z * ac_deny_rl :=
  let '(out, rl1) :=
    if (rl_n rl =? 0) || time_after j1 (u64 (rl_window_start rl + HZ))
    then (rl_suppressed rl, mk_rl j2 0 0)
    else (0, rl) in
  let ok := rl_n rl1 <? AC_DENY_EV_BURST in
  let rl2 :=
    if ok
    then mk_rl (rl_window_start rl1) (u32 (rl_n rl1 + 1)) (rl_suppressed rl1)
    else mk_rl (rl_window_start rl1) (rl_n rl1) (u32 (rl_suppressed rl1 + 1)) in
  (ok, out, rl2).

(** A sequence of calls, each with its two clock readings: the verdicts with
    the reported counts, and the final state. *)
Fixpoint deny_run (rl : ac_deny_rl) (calls : list (Z * Z))
    : list (bool * Z) * ac_deny_rl :=
  match calls with
  | [] => ([], rl)
  | (j1, j2) :: calls' =>
      let '(ok, out, rl1) := ac_deny_event_allowed j1 j2 rl in
      let '(res, rl2) := deny_run rl1 calls' in
      ((ok, out) :: res, rl2)
  end.

Definition allowed (res : list (bool * Z)) : nat := count_if fst res.
Definition denied (res : list (bool * Z)) : nat := count_if (negb ∘ fst) res.
Definition reported (res : list (bool * Z)) : Z := foldr Z.add 0 (snd <$> res).

Definition wf_rl (rl : ac_deny_rl) : Prop :=
  0 <= rl_n rl <= AC_DENY_EV_BURST /\ 0 <= rl_suppressed rl < 4294967296.

Lemma allowed_wf j1 j2 rl :
  wf_rl rl -> wf_rl (snd (ac_deny_event_allowed j1 j2 rl)).
Proof.
  unfold wf_rl, ac_deny_event_allowed, AC_DENY_EV_BURST. intros [Hn Hs].
  destruct (orb _ _); cbn [rl_n snd]; case_test; cbn [rl_n rl_suppressed snd];
    word_lia.
Qed.

(** One call moves a suppressed event between "pending" and "reported". *)
Lemma allowed_conserves j1 j2 rl :
  wf_rl rl ->
  let '(ok, out, rl') := ac_deny_event_allowed j1 j2 rl in
  u32 (out + rl_suppressed rl') =
  u32 (rl_suppressed rl + if ok then 0 else 1) /\
  0 <= out /\ (out <> 0 -> ok = true).
Proof.
  unfold wf_rl, ac_deny_event_allowed, AC_DENY_EV_BURST. intros [Hn Hs].
  destruct (orb _ _); cbn [rl_n]; [simpl|case_test; simpl]; split_and!;
    try done; try lia; word_lia.
Qed.

Lemma run_conserves calls rl :
  wf_rl rl ->
  let '(res, rl') := deny_run rl calls in
  u32 (reported res + rl_suppressed rl') =
  u32 (rl_suppressed rl + Z.of_nat (denied res)) /\
  Forall (fun r => snd r <> 0 -> fst r = true) res.
Proof.
  revert rl. induction calls as [|[j1 j2] calls IH]; intros rl Hw; simpl.
  - split; [|done]. unfold reported, denied. simpl. f_equal. lia.
  - pose proof (allowed_conserves j1 j2 rl Hw) as Hc.
    pose proof (allowed_wf j1 j2 rl Hw) as Hw1.
    destruct (ac_deny_event_allowed j1 j2 rl) as [[ok out] rl1].
    specialize (IH rl1 Hw1). destruct (deny_run rl1 calls) as [res rl2].
    destruct Hc as (H1 & H2 & H3), IH as [IH1 IH2]. split.
    + change (reported ((ok, out) :: res)) with (out + reported res).
      change (denied ((ok, out) :: res))
        with ((if negb ok then 1 else 0) + denied res)%nat.
      rewrite Nat2Z.inj_add. destruct ok; cbn [negb]; word_lia.
    + by constructor.
Qed.

(** ** Rate *)

(** Successive clock readings of real time from [t] on. *)
Fixpoint ticking (t : Z) (times : list (Z * Z)) : Prop :=
  match times with
  | [] => True
  | (a, b) :: times' => t <= a <= b /\ ticking b times'
  end.

Fixpoint last_time (t : Z) (times : list (Z * Z)) : Z :=
  match times with
  | [] => t
  | (_, b) :: times' => last_time b times'
  end.

Definition jiffies_of (times : list (Z * Z)) : list (Z * Z) :=
  (fun '(a, b) => (u64 a, u64 b)) <$> times.

Lemma ticking_last t times : ticking t times -> t <= last_time t times.
Proof.
  revert t. induction times as [|[a b] times IH]; intros t; simpl; [lia|].
  intros [? ?%IH]. lia.
Qed.

Lemma time_after_spec a w :
  - 9223372036854775808 < a - (w + HZ) < 9223372036854775808 ->
  time_after (u64 a) (u64 (u64 w + HZ)) = (w + HZ <? a).
Proof.
  intros H. unfold time_after, s64.
  replace (u64 (u64 (u64 w + HZ) - u64 a)) with (u64 (w + HZ - a)) by word_lia.
  destruct (Z.ltb_spec (u64 (w + HZ - a)) 9223372036854775808) as [H1|H1];
    destruct (Z.ltb_spec (w + HZ) a) as [H2|H2];
    apply Z.ltb_lt || apply Z.ltb_ge; word_lia.
Qed.

(** [w] is the real time at which the current window opened, [k] the number
    of events let through before it. *)
Lemma run_rate times t w t0 k rl :
  0 < HZ < 4611686018427387904 ->
  rl_window_start rl = u64 w -> 0 < rl_n rl <= 8 -> t0 <= w <= t ->
  k * (HZ + 1) <= 8 * (w - t0) -> ticking t times ->
  last_time t times - t0 <= 4611686018427387904 ->
  let res := fst (deny_run rl (jiffies_of times)) in
  (k + rl_n rl + Z.of_nat (allowed res) - 8) * (HZ + 1) <=
  8 * (last_time t times - t0).
Proof.
  intros HHZ. revert t w k rl.
  induction times as [|[a b] times IH];
    intros t w k rl Hw Hn Ht Hk Htick Hlast; cbn in *.
  - nia.
  - destruct Htick as [Hab Htick]. pose proof (ticking_last b times Htick).
    pose proof (time_after_spec a w ltac:(lia)) as Hafter.
    unfold ac_deny_event_allowed. rewrite Hw, Hafter.
    destruct (Z.eqb_spec (rl_n rl) 0) as [|_]; [lia|]. cbn [orb].
    destruct (Z.ltb_spec (w + HZ) a) as [Hnew|Hold]; cbn [rl_n rl_window_start].
    + cbn.
      specialize (IH b b (k + 8) (mk_rl (u64 b) 1 0) eq_refl).
      cbn in IH. unfold jiffies_of in IH.
      destruct (deny_run _ _) as [res rl2]. cbn in *.
      assert ((k + 8) * (HZ + 1) <= 8 * (b - t0)) by nia.
      specialize (IH ltac:(lia) ltac:(lia) ltac:(lia) Htick ltac:(lia)).
      unfold allowed in *. cbn. nia.
    + unfold AC_DENY_EV_BURST.
      destruct (Z.ltb_spec (rl_n rl) 8) as [Hlt|Hge].
      * specialize (IH b w k
          (mk_rl (rl_window_start rl) (u32 (rl_n rl + 1)) (rl_suppressed rl)) Hw).
        cbn in IH. unfold jiffies_of in IH.
        destruct (deny_run _ _) as [res rl2]. cbn in *.
        rewrite u32_id in IH by lia.
        specialize (IH ltac:(lia) ltac:(lia) ltac:(lia) Htick ltac:(lia)).
        unfold allowed in *. cbn. nia.
      * specialize (IH b w k
          (mk_rl (rl_window_start rl) (rl_n rl) (u32 (rl_suppressed rl + 1))) Hw).
        cbn in IH. unfold jiffies_of in IH.
        destruct (deny_run _ _) as [res rl2]. cbn in *.
        specialize (IH ltac:(lia) ltac:(lia) ltac:(lia) Htick ltac:(lia)).
        unfold allowed in *. cbn. nia.
Qed.

(** ** Properties *)

(** over any run of denials, from the module's initial state and with the
    clock advancing as it may, the number of events let through in [D] ticks
    is at most [8 + 8 * D / (HZ + 1)]: one window's burst and eight more for
    each further window. *)
Theorem deny_events_bounded times t0 :
  0 < HZ < 4611686018427387904 -> ticking t0 times ->
  last_time t0 times - t0 <= 4611686018427387904 ->
  let res := fst (deny_run rl_init (jiffies_of times)) in
  (Z.of_nat (allowed res) - 8) * (HZ + 1) <= 8 * (last_time t0 times - t0).
Proof.
  intros HHZ Htick Hlast. destruct times as [|[a b] times]; [cbn; lia|].
  destruct Htick as [Hab Htick]. cbn [last_time] in *.
  pose proof (ticking_last b times Htick).
  pose proof (run_rate times b b b 0 (mk_rl (u64 b) 1 0) HHZ eq_refl) as Hr.
  cbn in Hr. specialize (Hr ltac:(lia) ltac:(lia) ltac:(lia) Htick ltac:(lia)).
  cbn in *. unfold jiffies_of in Hr. destruct (deny_run _ _) as [res rl2].
  unfold allowed in *. cbn in *. nia.
Qed.

(** No suppressed event is forgotten.  For every sequence of clock
    readings, what the calls reported plus what is still pending is the number
    of events denied (on 32 bits), and a count is only ever reported together
    with a permission to emit. *)
Theorem suppressed_conserved calls :
  let '(res, rl) := deny_run rl_init calls in
  u32 (reported res + rl_suppressed rl) = u32 (Z.of_nat (denied res)) /\
  Forall (fun r => snd r <> 0 -> fst r = true) res.
Proof.
  apply (run_conserves calls rl_init). unfold wf_rl, AC_DENY_EV_BURST. simpl.
  lia.
Qed.
End limit.

Lemma deny_events_bounded_witness :
  let times := (fun k => (Z.of_nat k, Z.of_nat k)) <$> seq 0 12 in
  allowed (fst (deny_run 250 rl_init (jiffies_of times))) = 8%nat /\
  (8 - 8) * (250 + 1) <= 8 * 11.
Proof.
  split; [vm_compute; reflexivity|].
  refine (deny_events_bounded 250
    ((fun k => (Z.of_nat k, Z.of_nat k)) <$> seq 0 12) 0 _ _ _).
  - lia.
  - simpl. lia.
  - simpl. lia.
Defined.
End DenyLimit.
