(* ===== verification/Modules.v ===== *)
(** The loaded-module list as the kernel module sees it
    (src/anticheat_module.c: [ac_next_module_rcu], [ac_module_sane],
    [ac_addr_in_module], [ac_snapshot_mod_ranges], [ac_addr_in_ranges]).

    The kernel's list is circular; the walk enters it at the module's own node
    and stops when it is back there.  The address classification of the system
    call check uses a snapshot of the modules' ranges, equivalent to the walk
    it replaces. *)

From S2P Require Import Prelude CText Abi.

#[local] Open Scope Z_scope.

(** ** What the kernel provides *)

(** [enum module_state] *)
Inductive module_state :=
  | MODULE_STATE_LIVE | MODULE_STATE_COMING | MODULE_STATE_GOING
  | MODULE_STATE_UNFORMED.

#[export] Instance module_state_eq_dec : EqDecision module_state.
Proof. solve_decision. Defined.

(** The members of [struct module] the program reads.  [m_core] are the base
    and size of the core memory types, [MOD_TEXT] first. *)
Record module := mk_module {
  m_addr : Z;
  m_name : list Z;
  m_state : module_state;
  m_core : list (Z * Z);
}.

#[export] Instance module_inhabited : Inhabited module :=
  populate (mk_module 0 [] MODULE_STATE_UNFORMED []).

Class ModuleEnv := {
  is_vmalloc_or_module_addr : Z -> bool;
  within_module_core : Z -> module -> bool;
  MOD_MEM_NUM_TYPES : nat;
}.

(** [within_module_core] tests [addr - base < size], unsigned, for each core
    memory type. *)
Class ModuleLaws `{!ModuleEnv} : Prop := {
  within_module_core_spec addr m :
    within_module_core addr m =
    existsb (fun '(base, size) => u64 (addr - base) <? size) (m_core m);
}.

Module Mods.
Section mods.
Context `{!ModuleEnv}.

(** ** The walk *)

(** The circular list: node [i + 1] follows node [i], [this] is the node of
    THIS_MODULE. *)
Definition ac_next_module_rcu (ring : list module) (this i : nat)
    : option nat :=
  let j := ((i + 1) mod length ring)%nat in
  if (j =? this)%nat then None else Some j.

(** [ac_for_each_module_rcu]: the modules visited, in order. *)
Fixpoint walk_from (fuel : nat) (ring : list module) (this i : nat)
    : list module :=
  match fuel with
  | O => []
  | S fuel' =>
      ring !!! i ::
      match ac_next_module_rcu ring this i with
      | None => []
      | Some j => walk_from fuel' ring this j
      end
  end.

Definition ac_for_each_module_rcu (ring : list module) (this : nat)
    : list module :=
  walk_from (length ring) ring this this.

(** ** Classification of an entry and of an address *)

Definition GiB : Z := 0x40000000.

Definition mod_text (m : module) : Z * Z := m_core m !!! 0%nat.

Definition ac_module_sane (m : module) : bool :=
  if negb (is_vmalloc_or_module_addr (m_addr m)) then false else
  if bool_decide (m_state m <> MODULE_STATE_LIVE) then false else
  if (fst (mod_text m) =? 0) || (snd (mod_text m) =? 0) then false else
  if GiB <? snd (mod_text m) then false else true.

Definition ac_module_size (m : module) : Z :=
  foldl (fun acc '(_, size) => u64 (acc + size)) 0 (m_core m).

Definition ac_addr_in_module (mods : list module) (addr : Z) : bool :=
  existsb (fun m => ac_module_sane m && within_module_core addr m) mods.

(** ** The range snapshot *)

Record ac_mod_range := mk_range { rg_start : Z; rg_end : Z }.

(** The inner loop over one module's core ranges; [None] once [truncated]. *)
Fixpoint snap_ranges (cap : nat) (core : list (Z * Z))
    (acc : list ac_mod_range) : option (list ac_mod_range) :=
  match core with
  | [] => Some acc
  | (base, size) :: core' =>
      if (base =? 0) || (size =? 0) || (GiB <? size)
      then snap_ranges cap core' acc
      else if (cap <=? length acc)%nat then None
      else snap_ranges cap core' (acc ++ [mk_range base (u64 (base + size))])
  end.

Fixpoint snap_mods (cap : nat) (mods : list module) (acc : list ac_mod_range)
    : option (list ac_mod_range) :=
  match mods with
  | [] => Some acc
  | m :: mods' =>
      if negb (ac_module_sane m) then snap_mods cap mods' acc
      else match snap_ranges cap (m_core m) acc with
           | None => None
           | Some acc' => snap_mods cap mods' acc'
           end
  end.

(** [None] is the NULL pointer: no memory ([alloc_ok] false) or more ranges
    than the array holds. *)
Definition ac_snapshot_mod_ranges (alloc_ok : bool) (mods : list module)
    : option (list ac_mod_range) :=
  if negb alloc_ok then None
  else snap_mods (AC_MAX_MODS * MOD_MEM_NUM_TYPES) mods [].

Definition ac_addr_in_ranges (addr : Z) (ranges : list ac_mod_range) : bool :=
  existsb (fun r => (rg_start r <=? addr) && (addr <? rg_end r)) ranges.

(** ** The walk visits every entry once *)

Lemma walk_from_suffix fuel ring this i :
  (this < length ring)%nat -> (i < length ring)%nat ->
  fuel = (if (i <? this)%nat then this - i else length ring - i + this)%nat ->
  walk_from fuel ring this i =
  if (i <? this)%nat then drop i (take this ring)
  else drop i ring ++ take this ring.
Proof.
  revert i. induction fuel as [|fuel IH]; intros i Ht Hi Hf.
  { case_test; lia. }
  cbn [walk_from]. unfold ac_next_module_rcu.
  assert (ring !! i = Some (ring !!! i)) as Hx
    by by apply list_lookup_lookup_total_lt.
  destruct (decide (S i = length ring)) as [He|He].
  - rewrite Nat.add_1_r, He, Nat.Div0.mod_same.
    destruct (Nat.ltb_spec i this); [lia|].
    rewrite (drop_S _ _ _ Hx), (drop_ge ring (S i)) by lia. simpl app.
    destruct (Nat.eqb_spec 0 this) as [<-|]; [by rewrite take_0|].
    rewrite IH; [|lia..|].
    + destruct (Nat.ltb_spec 0 this); [|lia]. done.
    + destruct (Nat.ltb_spec 0 this); lia.
  - rewrite Nat.mod_small, Nat.add_1_r by lia.
    destruct (Nat.eqb_spec (S i) this) as [<-|].
    + destruct (Nat.ltb_spec i (S i)); [|lia].
      rewrite (drop_S (take (S i) ring) (ring !!! i) i), drop_ge;
        rewrite ?length_take; try done; try lia.
      rewrite lookup_take_lt by lia. done.
    + rewrite IH by (try lia; revert Hf; repeat case_test; lia).
      destruct (Nat.ltb_spec i this), (Nat.ltb_spec (S i) this); try lia.
      * rewrite (drop_S (take this ring) (ring !!! i) i); [done|].
        by rewrite lookup_take_lt.
      * by rewrite (drop_S _ _ _ Hx).
Qed.

Lemma for_each_rotation ring this :
  (this < length ring)%nat ->
  ac_for_each_module_rcu ring this = drop this ring ++ take this ring.
Proof.
  intros Ht. unfold ac_for_each_module_rcu.
  rewrite walk_from_suffix; [|lia..|].
  - by rewrite Nat.ltb_irrefl.
  - rewrite Nat.ltb_irrefl. lia.
Qed.

(** ** The snapshot decides what the walk decides *)

(** A core range that is not torn: unused (size 0) or a real address range. *)
Definition range_ok (r : Z * Z) : Prop :=
  let '(base, size) := r in
  0 <= size <= GiB /\ 0 <= base /\ base + size < 18446744073709551616 /\
  (size <> 0 -> base <> 0).

Definition ranges_ok (mods : list module) : Prop :=
  Forall (fun m => ac_module_sane m = true -> Forall range_ok (m_core m)) mods.

Lemma in_range_spec addr base size :
  0 <= addr < 18446744073709551616 -> range_ok (base, size) ->
  (base =? 0) || (size =? 0) || (GiB <? size) = false ->
  (base <=? addr) && (addr <? u64 (base + size)) = (u64 (addr - base) <? size).
Proof.
  unfold range_ok, GiB. intros Ha (Hs & Hb & He & _) Hn.
  rewrite u64_id by lia.
  destruct (Z.leb_spec base addr), (Z.ltb_spec addr (base + size)); symmetry;
    cbn [andb]; apply Z.ltb_lt || apply Z.ltb_ge; word_lia.
Qed.

Lemma skipped_range addr base size :
  range_ok (base, size) ->
  (base =? 0) || (size =? 0) || (GiB <? size) = true ->
  (u64 (addr - base) <? size) = false.
Proof.
  unfold range_ok, GiB. intros (Hs & Hb & He & Hz) Hn. boolp.
  destruct (decide (size = 0)) as [->|]; [|exfalso; naive_solver lia].
  pose proof (u64_range (addr - base)). lia.
Qed.

Lemma in_ranges_app addr r1 r2 :
  ac_addr_in_ranges addr (r1 ++ r2) =
  ac_addr_in_ranges addr r1 || ac_addr_in_ranges addr r2.
Proof. apply existsb_app. Qed.

Lemma snap_ranges_spec cap core acc acc' addr :
  0 <= addr < 18446744073709551616 -> Forall range_ok core ->
  snap_ranges cap core acc = Some acc' ->
  ac_addr_in_ranges addr acc' =
  ac_addr_in_ranges addr acc ||
  existsb (fun '(base, size) => u64 (addr - base) <? size) core.
Proof.
  intros Ha Hok. revert acc. induction Hok as [|[base size] core Hr _ IH];
    intros acc; cbn [snap_ranges existsb].
  - intros [= ->]. by rewrite orb_false_r.
  - destruct (_ || (GiB <? size)) eqn:Hskip.
    + intros ->%IH. by rewrite skipped_range.
    + destruct (_ <=? _)%nat; [done|]. intros ->%IH.
      rewrite in_ranges_app. cbn [ac_addr_in_ranges existsb rg_start rg_end].
      by rewrite in_range_spec, orb_false_r, <- orb_assoc.
Qed.

Context `{!ModuleLaws}.

Lemma snap_mods_spec cap mods acc acc' addr :
  0 <= addr < 18446744073709551616 -> ranges_ok mods ->
  snap_mods cap mods acc = Some acc' ->
  ac_addr_in_ranges addr acc' =
  ac_addr_in_ranges addr acc || ac_addr_in_module mods addr.
Proof.
  intros Ha Hok. revert acc. induction Hok as [|m mods Hm _ IH];
    intros acc; cbn [snap_mods ac_addr_in_module existsb].
  - intros [= ->]. by rewrite orb_false_r.
  - destruct (ac_module_sane m) eqn:Hs; cbn [negb andb]; [|apply IH].
    destruct (snap_ranges cap (m_core m) acc) as [acc1|] eqn:Hr; [|done].
    intros ->%IH. rewrite (snap_ranges_spec _ _ _ _ _ Ha (Hm eq_refl) Hr).
    by rewrite within_module_core_spec, <- orb_assoc.
Qed.

Lemma snapshot_spec ok mods ranges addr :
  0 <= addr < 18446744073709551616 -> ranges_ok mods ->
  ac_snapshot_mod_ranges ok mods = Some ranges ->
  ac_addr_in_ranges addr ranges = ac_addr_in_module mods addr.
Proof.
  intros Ha Hok. unfold ac_snapshot_mod_ranges. destruct ok; [|done].
  by apply snap_mods_spec.
Qed.

(** The snapshot is refused only for lack of memory or of room. *)
Lemma snap_ranges_room cap core acc :
  (length acc + length core <= cap)%nat ->
  exists acc', snap_ranges cap core acc = Some acc' /\
               (length acc' <= length acc + length core)%nat.
Proof.
  revert acc. induction core as [|[base size] core IH]; intros acc Hc;
    cbn [snap_ranges length] in *; [eauto with lia|].
  destruct (_ || _).
  - destruct (IH acc) as (acc' & -> & ?); eauto with lia.
  - destruct (Nat.leb_spec cap (length acc)); [lia|].
    destruct (IH (acc ++ [mk_range base (u64 (base + size))]))
      as (acc' & -> & Hl); rewrite ?length_app in *; simpl in *; [lia|].
    eauto with lia.
Qed.

(** ** Properties *)

(** Entered at the module's own node, the walk of the circular list
    terminates after visiting every entry exactly once, its own entry
    first. *)
Theorem walk_visits_all ring this :
  (this < length ring)%nat ->
  ac_for_each_module_rcu ring this ≡ₚ ring /\
  head (ac_for_each_module_rcu ring this) = ring !! this.
Proof.
  intros Ht. rewrite for_each_rotation by done. split.
  - rewrite Permutation_app_comm. by rewrite take_drop.
  - destruct (lookup_lt_is_Some_list ring this Ht) as [m Hm].
    by rewrite Hm, (drop_S _ _ _ Hm).
Qed.
End mods.

Lemma walk_visits_all_witness :
  let m k := mk_module k [] MODULE_STATE_LIVE [] in
  head (ac_for_each_module_rcu [m 1; m 2; m 3] 1) = Some (m 2).
Proof.
  apply (walk_visits_all [mk_module 1 [] MODULE_STATE_LIVE [];
    mk_module 2 [] MODULE_STATE_LIVE [];
    mk_module 3 [] MODULE_STATE_LIVE []] 1).
  simpl. lia.
Defined.
End Mods.
