(* ===== verification/SyscallTable.v ===== *)
(** Locating the system call table and the bounds of core kernel text
    (src/anticheat_module.c: [ac_lookup] to [ac_find_syscall_table]).

    Kernel memory is a partial function from addresses to words, fixed while
    a search runs; the module list is the list of entries the walk visits. *)

From S2P Require Import Prelude CText Abi Modules.
Import Mods.

#[local] Open Scope Z_scope.

(** ** What the kernel provides *)

Class KernelEnv := {
  (** the address a kprobe on this symbol reports, [None] if it is refused *)
  register_kprobe : list Z -> option Z;
  (** [copy_from_kernel_nofault] of an aligned word, [None] on a fault *)
  kread64 : Z -> option Z;
  kread32 : Z -> option Z;
  (** [__NR_syscalls] *)
  NR_syscalls : nat;
}.

(** A word read has 64 bits. *)
Class KernelLaws `{!KernelEnv} : Prop := {
  kread64_range a v : kread64 a = Some v -> 0 <= v < 18446744073709551616;
}.

Definition NR_read : Z := 0.
Definition NR_write : Z := 1.

Module Table.
Section table.
Context `{!ModuleEnv, !KernelEnv}.

(** ** Symbols and text bounds *)

Definition ac_lookup (name : list Z) : Z := default 0 (register_kprobe name).

Definition ac_normalize_func (addr : Z) : Z :=
  if addr =? 0 then 0 else
  if addr <? 4 then addr else
  match kread32 (addr - 4) with
  | Some insn => if insn =? 0xfa1e0ff3 then addr - 4 else addr
  | None => addr
  end.

Record text_st := mk_text {
  ac_stext : Z;
  ac_etext : Z;
  ac_text_end : Z;
  ac_text_end_guessed : bool;
  ac_anchor : Z;
}.

Definition text_init : text_st := mk_text 0 0 0 false 0.

Definition ac_resolve_text_bounds (st : text_st) : text_st :=
  let stext0 := ac_lookup (lit "_stext") in
  let stext := if stext0 =? 0 then ac_lookup (lit "_text") else stext0 in
  let etext0 := ac_lookup (lit "_etext") in
  let etext := if etext0 =? 0 then ac_lookup (lit "_sinittext") else etext0 in
  if negb (etext =? 0)
  then mk_text stext etext etext (ac_text_end_guessed st) (ac_anchor st)
  else if negb (stext =? 0)
  then mk_text stext etext (u64 (stext + 0x20000000)) true (ac_anchor st)
  else mk_text stext etext (ac_text_end st) (ac_text_end_guessed st)
         (ac_anchor st).

(** ** Address classification *)

Section classify.
Context (st : text_st) (mods : list module).

Definition ac_in_core_text (addr : Z) : bool :=
  if (ac_stext st =? 0) || (ac_text_end st =? 0) then false else
  if (addr <? ac_stext st) || (ac_text_end st <=? addr) then false else
  if ac_addr_in_module mods addr then false else true.

Definition in_window (e anchor : Z) : bool :=
  (u64 (anchor - 0x4000000) <? e) && (e <? u64 (anchor + 0x4000000)).

Definition ac_plausible_handler (e anchor : Z) : bool :=
  if e =? 0 then false else
  if ac_addr_in_module mods e then false else in_window e anchor.

Definition ac_entry_bad (e : Z) : bool :=
  if negb (ac_stext st =? 0) && negb (ac_text_end st =? 0)
  then negb (ac_in_core_text e)
  else negb (ac_plausible_handler e (ac_anchor st)).

Definition ac_in_core_text_snapshot (addr : Z) (ranges : list ac_mod_range)
    : bool :=
  if (ac_stext st =? 0) || (ac_text_end st =? 0) then false else
  if (addr <? ac_stext st) || (ac_text_end st <=? addr) then false else
  if ac_addr_in_ranges addr ranges then false else true.

Definition ac_plausible_handler_snapshot (e anchor : Z)
    (ranges : list ac_mod_range) : bool :=
  if e =? 0 then false else
  if ac_addr_in_ranges e ranges then false else in_window e anchor.

(** [ranges] is [None] when no snapshot could be taken. *)
Definition ac_entry_bad_snapshot (e : Z)
    (ranges : option (list ac_mod_range)) : bool :=
  match ranges with
  | None => ac_entry_bad e
  | Some rs =>
      if negb (ac_stext st =? 0) && negb (ac_text_end st =? 0)
      then negb (ac_in_core_text_snapshot e rs)
      else negb (ac_plausible_handler_snapshot e (ac_anchor st) rs)
  end.
End classify.

(** ** Candidate tables *)

(** [base + i * sizeof(unsigned long)] *)
Definition slot_addr (base : Z) (i : nat) : Z := u64 (base + Z.of_nat i * 8).

Fixpoint plausible_loop (mods : list module) (base anchor : Z) (slots : list nat)
    (valid : nat) : bool :=
  match slots with
  | [] => (400 <=? valid)%nat
  | i :: slots' =>
      match kread64 (slot_addr base i) with
      | None => plausible_loop mods base anchor slots' valid
      | Some e =>
          if e =? 0 then plausible_loop mods base anchor slots' valid else
          if ac_plausible_handler mods e anchor then
            if (400 <=? S valid)%nat then true
            else plausible_loop mods base anchor slots' (S valid)
          else plausible_loop mods base anchor slots' valid
      end
  end.

Definition ac_table_plausible (mods : list module) (base anchor : Z) : bool :=
  plausible_loop mods base anchor (seq 0 NR_syscalls) 0.

(** [x & ~0x1FFFFF] *)
Definition align_2MB (x : Z) : Z := Z.land x (u64 (Z.lnot 0x1FFFFF)).

(** The loop over the table: lowest and highest plausible handler. *)
Definition bounds_step (mods : list module) (base anchor : Z)
    (lh : Z * Z) (i : nat) : Z * Z :=
  let '(lo, hi) := lh in
  match kread64 (slot_addr base i) with
  | None => (lo, hi)
  | Some e =>
      if negb (ac_plausible_handler mods e anchor) then (lo, hi) else
      (if (lo =? 0) || (e <? lo) then e else lo, if hi <? e then e else hi)
  end.

Definition ac_derive_bounds (mods : list module) (st : text_st)
    (base anchor : Z) : text_st :=
  let '(lo, hi) :=
    foldl (bounds_step mods base anchor) (0, 0) (seq 0 NR_syscalls) in
  if negb (lo =? 0) && negb (hi =? 0) then
    let derived_end := align_2MB (u64 (hi + 1 + 0x1FFFFF)) in
    let stext := if ac_stext st =? 0 then align_2MB lo else ac_stext st in
    let text_end :=
      if ac_text_end st =? 0 then derived_end
      else if ac_text_end_guessed st && negb (derived_end =? ac_text_end st)
      then derived_end else ac_text_end st in
    mk_text stext (ac_etext st) text_end false (ac_anchor st)
  else st.

(** ** The search *)

(** The body of both scan loops: [Some base] when [addr] is slot [__NR_read]
    of a plausible table. *)
Definition candidate (mods : list module) (rh wh addr : Z) : option Z :=
  match kread64 addr with
  | None => None
  | Some v1 =>
      if negb (v1 =? rh) then None else
      let base := u64 (addr - NR_read * 8) in
      match kread64 (u64 (base + NR_write * 8)) with
      | None => None
      | Some v2 =>
          if (v2 =? wh) && ac_table_plausible mods base rh
          then Some base else None
      end
  end.

Fixpoint scan_forward (fuel : nat) (mods : list module) (rh wh hi addr : Z)
    : option Z :=
  match fuel with
  | O => None
  | S fuel' =>
      if addr <? hi then
        match candidate mods rh wh addr with
        | Some base => Some base
        | None => scan_forward fuel' mods rh wh hi (u64 (addr + 8))
        end
      else None
  end.

Fixpoint scan_backward (fuel : nat) (mods : list module) (rh wh lo addr : Z)
    : option Z :=
  match fuel with
  | O => None
  | S fuel' =>
      if lo <? addr then
        match candidate mods rh wh addr with
        | Some base => Some base
        | None => scan_backward fuel' mods rh wh lo (u64 (addr - 8))
        end
      else None
  end.

(** 32 MB in steps of 8 bytes, and the test that ends the loop. *)
Definition scan_fuel : nat := S (Z.to_nat 0x400000).

(** The table (0 if there is none) and the text bounds it leaves. *)
Definition ac_find_syscall_table (mods : list module) (st : text_st)
    : Z * text_st :=
  let rh := ac_normalize_func (ac_lookup (lit "__x64_sys_read")) in
  let wh := ac_normalize_func (ac_lookup (lit "__x64_sys_write")) in
  if (rh =? 0) || (wh =? 0) then (0, st) else
  let lo := if negb (ac_etext st =? 0) then ac_etext st
            else if negb (ac_stext st =? 0) then ac_stext st else rh in
  let hi := u64 (lo + 0x2000000) in
  let found base :=
    (base, ac_derive_bounds mods
             (mk_text (ac_stext st) (ac_etext st) (ac_text_end st)
                (ac_text_end_guessed st) rh) base rh) in
  match scan_forward scan_fuel mods rh wh hi lo with
  | Some base => found base
  | None =>
      match scan_backward scan_fuel mods rh wh (u64 (rh - 0x2000000)) rh with
      | Some base => found base
      | None => (0, st)
      end
  end.

(** ** Lemmas *)

Lemma snapshot_classifies `{!ModuleLaws} st mods ok ranges e :
  0 <= e < 18446744073709551616 -> ranges_ok mods ->
  ac_snapshot_mod_ranges ok mods = ranges ->
  ac_entry_bad_snapshot st mods e ranges = ac_entry_bad st mods e.
Proof.
  intros He Hok Hs. destruct ranges as [rs|]; [|done].
  unfold ac_entry_bad_snapshot, ac_entry_bad, ac_in_core_text_snapshot,
    ac_in_core_text, ac_plausible_handler_snapshot, ac_plausible_handler.
  by rewrite (snapshot_spec _ _ _ _ He Hok Hs).
Qed.

(** The entry of slot [i] counts towards plausibility. *)
Definition slot_plausible (mods : list module) (base anchor : Z) (i : nat)
    : bool :=
  match kread64 (slot_addr base i) with
  | Some e => ac_plausible_handler mods e anchor
  | None => false
  end.

Lemma plausible_zero mods anchor : ac_plausible_handler mods 0 anchor = false.
Proof. reflexivity. Qed.

Lemma plausible_loop_spec mods base anchor slots valid :
  (valid < 400)%nat ->
  plausible_loop mods base anchor slots valid =
  (400 <=? valid + count_if (slot_plausible mods base anchor) slots)%nat.
Proof.
  revert valid. induction slots as [|i slots IH]; intros valid Hv;
    cbn [plausible_loop count_if].
  - by rewrite Nat.add_0_r.
  - unfold slot_plausible at 1.
    destruct (kread64 (slot_addr base i)) as [e|]; [|by apply IH].
    destruct (Z.eqb_spec e 0) as [->|]; [by apply IH|].
    destruct (ac_plausible_handler mods e anchor); [|by apply IH].
    destruct (Nat.leb_spec 400 (S valid)).
    + symmetry. apply Nat.leb_le. lia.
    + rewrite IH by lia. f_equal. lia.
Qed.

Lemma table_plausible_spec mods base anchor :
  ac_table_plausible mods base anchor =
  (400 <=? count_if (slot_plausible mods base anchor) (seq 0 NR_syscalls))%nat.
Proof. apply plausible_loop_spec. lia. Qed.

(** *** Derived bounds *)

Lemma align_2MB_spec x :
  0 <= x < 18446744073709551616 -> align_2MB x = x / 0x200000 * 0x200000.
Proof.
  intros Hx. unfold align_2MB.
  change (u64 (Z.lnot 0x1FFFFF)) with (Z.shiftl (Z.ones 43) 21).
  replace (Z.land x (Z.shiftl (Z.ones 43) 21))
    with (Z.shiftl (Z.land (Z.shiftr x 21) (Z.ones 43)) 21).
  - rewrite Z.land_ones, Z.shiftl_mul_pow2, Z.shiftr_div_pow2 by lia.
    change (2 ^ 21) with 0x200000. change (2 ^ 43) with 8796093022208.
    rewrite Z.mod_small; [done|]. Z.div_mod_to_equations. lia.
  - apply Z.bits_inj'. intros n Hn.
    rewrite Z.land_spec, !Z.shiftl_spec by done.
    destruct (decide (n < 21)).
    + rewrite !(Z.testbit_neg_r _ (n - 21)) by lia. by rewrite andb_false_r.
    + rewrite Z.land_spec, Z.shiftr_spec by lia. do 2 f_equal. lia.
Qed.

Context `{!KernelLaws}.

Lemma plausible_window mods e anchor :
  ac_plausible_handler mods e anchor = true ->
  e <> 0 /\ ac_addr_in_module mods e = false /\ in_window e anchor = true.
Proof.
  unfold ac_plausible_handler.
  destruct (Z.eqb_spec e 0), (ac_addr_in_module mods e); done.
Qed.

(** [lo] and [hi] after some slots: the extremes of their plausible
    entries, themselves plausible, or both 0. *)
Definition bounds_ok mods base anchor (slots : list nat) (lh : Z * Z) : Prop :=
  (forall i e, i ∈ slots -> kread64 (slot_addr base i) = Some e ->
     ac_plausible_handler mods e anchor = true ->
     0 < fst lh <= e /\ e <= snd lh) /\
  (lh = (0, 0) \/
   ac_plausible_handler mods (fst lh) anchor = true /\
   ac_plausible_handler mods (snd lh) anchor = true /\
   0 < fst lh <= snd lh /\ snd lh < 18446744073709551616).

Lemma bounds_step_ok mods base anchor slots lh i :
  bounds_ok mods base anchor slots lh ->
  bounds_ok mods base anchor (slots ++ [i])
    (bounds_step mods base anchor lh i).
Proof.
  destruct lh as [lo hi]. intros [Hall Hlh]. cbn [bounds_step].
  assert (forall lo' hi', lo' <= lo \/ lo = 0 -> hi <= hi' -> 0 <= lo ->
    (lo <> 0 -> 0 < lo') ->
    (forall e, kread64 (slot_addr base i) = Some e ->
       ac_plausible_handler mods e anchor = true -> 0 < lo' <= e /\ e <= hi') ->
    forall j e, j ∈ slots ++ [i] -> kread64 (slot_addr base j) = Some e ->
      ac_plausible_handler mods e anchor = true -> 0 < lo' <= e /\ e <= hi')
    as Hext.
  { intros lo' hi' Hlo Hhi Hp Hp' Hi j e Hj. rewrite elem_of_app in Hj.
    destruct Hj as [Hj| ->%list_elem_of_singleton]; [|by apply Hi].
    intros Hr He. specialize (Hall j e Hj Hr He). simpl in Hall. lia. }
  assert (0 <= lo /\ 0 <= hi) as [Hlo0 Hhi0]
    by (destruct Hlh as [[= -> ->]|]; simpl in *; lia).
  revert Hext. destruct (kread64 (slot_addr base i)) as [e|] eqn:Hr;
    intros Hext; [|split; [cbn [fst snd]; apply Hext; (done || lia)|done]].
  destruct (ac_plausible_handler mods e anchor) eqn:He; cbn [negb]; cycle 1.
  { split; [|done]. cbn [fst snd]. apply Hext; try lia. intros ? [= ->]. congruence. }
  pose proof (kread64_range _ _ Hr) as Hrange.
  destruct (plausible_window _ _ _ He) as (Hne & _ & _). split.
  - cbn [fst snd]. apply Hext.
    + destruct (Z.eqb_spec lo 0); [by right|left]. simpl. case_test; lia.
    + case_test; lia.
    + done.
    + intros Hnz. case_test; lia.
    + intros ? [= ->] _. destruct (Z.eqb_spec lo 0); simpl; repeat case_test; lia.
  - right. destruct Hlh as [[= -> ->]|(Hl & Hh & Hle & Hmax)]; simpl in *.
    + destruct (Z.ltb_spec 0 e); [|lia]. repeat split; try done; lia.
    + destruct (Z.eqb_spec lo 0); [lia|]. simpl.
      repeat case_test; repeat split; try done; lia.
Qed.

Lemma bounds_loop_ok mods base anchor slots :
  bounds_ok mods base anchor slots
    (foldl (bounds_step mods base anchor) (0, 0) slots).
Proof.
  induction slots as [|i slots IH] using rev_ind.
  - split; [|by left]. intros i e Hi. by apply not_elem_of_nil in Hi.
  - rewrite foldl_app. by apply bounds_step_ok.
Qed.

Definition slot_entry (mods : list module) (base anchor : Z) (i : nat) (e : Z)
    : Prop :=
  (i < NR_syscalls)%nat /\ kread64 (slot_addr base i) = Some e /\
  ac_plausible_handler mods e anchor = true.

Lemma derive_spec mods st base anchor i e :
  0 <= anchor -> anchor + 0x4200000 <= 18446744073709551616 ->
  slot_entry mods base anchor i e ->
  let st' := ac_derive_bounds mods st base anchor in
  (ac_text_end st = 0 \/ ac_text_end_guessed st = true ->
     e < ac_text_end st' <= anchor + 0x4200000) /\
  (ac_stext st = 0 -> ac_stext st' <= e) /\
  (ac_stext st <> 0 -> ac_stext st' = ac_stext st) /\
  ac_anchor st' = ac_anchor st.
Proof.
  intros Ha Hmax (Hi & Hr & He). unfold ac_derive_bounds. cbv zeta.
  pose proof (bounds_loop_ok mods base anchor (seq 0 NR_syscalls)) as [Hall Hex].
  destruct (foldl _ _ _) as [lo hi]. simpl in Hall, Hex.
  destruct (Hall i e) as [Hlo Hhi]; try done. { apply elem_of_seq. lia. }
  destruct Hex as [[= -> ->]|(_ & Hph & Hle & Hhmax)]; [lia|].
  destruct (Z.eqb_spec lo 0), (Z.eqb_spec hi 0); try lia. cbn [negb andb].
  destruct (plausible_window _ _ _ Hph) as (_ & _ & Hw).
  unfold in_window in Hw. boolp. destruct Hw as [_ Hw].
  rewrite u64_id in Hw by lia.
  rewrite (u64_id (hi + 1 + 0x1FFFFF)), !align_2MB_spec by lia.
  set (de := (hi + 1 + 0x1FFFFF) / 0x200000 * 0x200000).
  assert (hi < de <= hi + 0x200000) as Hde
    by (subst de; Z.div_mod_to_equations; lia).
  assert (lo / 0x200000 * 0x200000 <= lo) by (Z.div_mod_to_equations; lia).
  clearbody de. cbn [ac_text_end ac_stext ac_anchor]. split_and!.
  - intros Hg. destruct (Z.eqb_spec (ac_text_end st) 0); [lia|].
    destruct Hg as [|Hg]; [done|]. rewrite Hg. cbn [andb].
    destruct (Z.eqb_spec de (ac_text_end st)); simpl; lia.
  - intros ->. simpl. lia.
  - intros Hs. destruct (Z.eqb_spec (ac_stext st) 0); done.
  - done.
Qed.

Lemma derive_accepts mods st base anchor i e :
  0 <= anchor -> anchor + 0x4200000 <= 18446744073709551616 ->
  ac_anchor st = anchor ->
  ac_text_end st = 0 \/ ac_text_end_guessed st = true ->
  ac_stext st <= e ->
  slot_entry mods base anchor i e ->
  ac_entry_bad (ac_derive_bounds mods st base anchor) mods e = false.
Proof.
  intros Ha Hmax <- Hend Hst Hs.
  destruct (derive_spec mods st base _ i e Ha Hmax Hs) as (B1 & B2 & B3 & B4).
  specialize (B1 Hend). set (st' := ac_derive_bounds _ _ _ _) in *.
  clearbody st'. destruct Hs as (_ & _ & He).
  destruct (plausible_window _ _ _ He) as (_ & Hmod & _).
  unfold ac_entry_bad, ac_in_core_text. rewrite B4, He, Hmod.
  destruct (Z.eqb_spec (ac_stext st') 0), (Z.eqb_spec (ac_text_end st') 0);
    cbn [negb andb orb]; try done.
  destruct (Z.ltb_spec e (ac_stext st')) as [Hlt|].
  - exfalso. destruct (decide (ac_stext st = 0)) as [E|E];
      [specialize (B2 E)|specialize (B3 E)]; lia.
  - destruct (Z.leb_spec (ac_text_end st') e); [lia|done].
Qed.

(** *** The search loops *)

Lemma candidate_spec mods rh wh addr base :
  0 <= addr < 18446744073709551616 ->
  candidate mods rh wh addr = Some base ->
  base = addr /\ kread64 base = Some rh /\
  kread64 (u64 (base + 8)) = Some wh /\
  (400 <= count_if (slot_plausible mods base rh) (seq 0 NR_syscalls))%nat.
Proof.
  intros Ha. unfold candidate, NR_read, NR_write.
  destruct (kread64 addr) as [v1|] eqn:E1; [|done].
  destruct (Z.eqb_spec v1 rh) as [->|]; simpl negb; [|done].
  replace (u64 (addr - 0 * 8)) with addr by word_lia. cbv zeta iota.
  change (1 * 8) with 8.
  destruct (kread64 (u64 (addr + 8))) as [v2|] eqn:E2; [|done].
  destruct (Z.eqb_spec v2 wh) as [->|]; [|done]. simpl andb.
  rewrite table_plausible_spec.
  destruct (Nat.leb_spec 400
    (count_if (slot_plausible mods addr rh) (seq 0 NR_syscalls))); [|done].
  by intros [= <-].
Qed.

Lemma scan_forward_spec mods rh wh hi k : forall fuel addr,
  (k < fuel)%nat -> 0 <= addr -> addr + 8 * Z.of_nat k = hi ->
  hi < 18446744073709551616 ->
  match scan_forward fuel mods rh wh hi addr with
  | Some base => exists j, 0 <= j < Z.of_nat k /\
                   candidate mods rh wh (addr + 8 * j) = Some base
  | None => forall j, 0 <= j < Z.of_nat k ->
              candidate mods rh wh (addr + 8 * j) = None
  end.
Proof.
  induction k as [|k IH]; intros [|fuel] addr Hf Ha Hk Hhi; try lia;
    cbn [scan_forward]; destruct (Z.ltb_spec addr hi); try lia.
  destruct (candidate mods rh wh addr) as [b|] eqn:E.
  { exists 0. split; [lia|]. by rewrite Z.mul_0_r, Z.add_0_r. }
  rewrite u64_id by lia.
  specialize (IH fuel (addr + 8) ltac:(lia) ltac:(lia) ltac:(lia) Hhi).
  destruct (scan_forward _ _ _ _ _ _).
  - destruct IH as (j & Hj & Hc). exists (j + 1). split; [lia|].
    rewrite <- Hc. f_equal. lia.
  - intros j Hj. destruct (decide (j = 0)) as [->|].
    + by rewrite Z.mul_0_r, Z.add_0_r.
    + rewrite <- (IH (j - 1)) by lia. f_equal. lia.
Qed.

Lemma scan_backward_spec mods rh wh lo k : forall fuel addr,
  (k < fuel)%nat -> 0 <= lo -> addr - 8 * Z.of_nat k = lo ->
  addr < 18446744073709551616 ->
  match scan_backward fuel mods rh wh lo addr with
  | Some base => exists j, 0 <= j < Z.of_nat k /\
                   candidate mods rh wh (addr - 8 * j) = Some base
  | None => forall j, 0 <= j < Z.of_nat k ->
              candidate mods rh wh (addr - 8 * j) = None
  end.
Proof.
  induction k as [|k IH]; intros [|fuel] addr Hf Ha Hk Hhi; try lia;
    cbn [scan_backward]; destruct (Z.ltb_spec lo addr); try lia.
  destruct (candidate mods rh wh addr) as [b|] eqn:E.
  { exists 0. split; [lia|]. by rewrite Z.mul_0_r, Z.sub_0_r. }
  rewrite u64_id by lia.
  specialize (IH fuel (addr - 8) ltac:(lia) Ha ltac:(lia) ltac:(lia)).
  destruct (scan_backward _ _ _ _ _ _).
  - destruct IH as (j & Hj & Hc). exists (j + 1). split; [lia|].
    rewrite <- Hc. f_equal. lia.
  - intros j Hj. destruct (decide (j = 0)) as [->|].
    + by rewrite Z.mul_0_r, Z.sub_0_r.
    + rewrite <- (IH (j - 1)) by lia. f_equal. lia.
Qed.

Definition read_handler : Z :=
  ac_normalize_func (ac_lookup (lit "__x64_sys_read")).
Definition write_handler : Z :=
  ac_normalize_func (ac_lookup (lit "__x64_sys_write")).
(** Where the forward scan starts. *)
Definition scan_start (st : text_st) : Z :=
  if negb (ac_etext st =? 0) then ac_etext st
  else if negb (ac_stext st =? 0) then ac_stext st else read_handler.

(** [base] holds both handlers and at least 400 plausible entries. *)
Definition is_table (mods : list module) (base : Z) : Prop :=
  kread64 base = Some read_handler /\
  kread64 (u64 (base + 8)) = Some write_handler /\
  (400 <= count_if (slot_plausible mods base read_handler)
            (seq 0 NR_syscalls))%nat.

(** What the search returns for the result of the two loops. *)
Lemma find_found mods st :
  0 < read_handler -> write_handler <> 0 ->
  ac_find_syscall_table mods st =
  let found base :=
    (base, ac_derive_bounds mods
             (mk_text (ac_stext st) (ac_etext st) (ac_text_end st)
                (ac_text_end_guessed st) read_handler) base read_handler) in
  match scan_forward scan_fuel mods read_handler write_handler
          (u64 (scan_start st + 0x2000000)) (scan_start st) with
  | Some base => found base
  | None =>
      match scan_backward scan_fuel mods read_handler write_handler
              (u64 (read_handler - 0x2000000)) read_handler with
      | Some base => found base
      | None => (0, st)
      end
  end.
Proof.
  intros Hr Hw. unfold ac_find_syscall_table.
  fold read_handler write_handler. fold (scan_start st).
  destruct (Z.eqb_spec read_handler 0); [lia|].
  destruct (Z.eqb_spec write_handler 0); [lia|]. done.
Qed.

(** ** Properties *)

(** Classifying an address against the snapshot of the module ranges is
    classifying it by walking the module list, whether or not the snapshot
    could be taken, as long as no range of a live module is torn. *)
Theorem snapshot_equals_walk `{!ModuleLaws} st mods alloc_ok e :
  0 <= e < 18446744073709551616 -> ranges_ok mods ->
  ac_entry_bad_snapshot st mods e (ac_snapshot_mod_ranges alloc_ok mods) =
  ac_entry_bad st mods e.
Proof. intros He Hok. by eapply snapshot_classifies. Qed.

(** A table the search returns holds the read and the write handler in
    their slots and at least 400 plausible handlers, and the anchor is the
    read handler; when the search returns 0, no word of the 32 MB forward
    window nor of the 32 MB backward window starts such a table.  Both scans
    terminate within the fuel. *)
Theorem find_table_correct mods st :
  0 < read_handler < 18446744073709551616 -> write_handler <> 0 ->
  0 < scan_start st -> scan_start st + 0x2000000 < 18446744073709551616 ->
  0x2000000 <= read_handler ->
  let '(base, st') := ac_find_syscall_table mods st in
  (base <> 0 /\ is_table mods base /\ ac_anchor st' = read_handler) \/
  (base = 0 /\ st' = st /\ forall j, 0 <= j < 0x400000 ->
     candidate mods read_handler write_handler (scan_start st + 8 * j) = None /\
     candidate mods read_handler write_handler (read_handler - 8 * j) = None).
Proof.
  intros Hr Hw Hs0 Hs Hrb. rewrite find_found by lia.
  pose proof (scan_forward_spec mods read_handler write_handler
    (scan_start st + 0x2000000) (Z.to_nat 0x400000) scan_fuel (scan_start st)
    ltac:(unfold scan_fuel; lia) ltac:(lia)
    ltac:(rewrite Z2Nat.id; lia) Hs) as Hf.
  pose proof (scan_backward_spec mods read_handler write_handler
    (read_handler - 0x2000000) (Z.to_nat 0x400000) scan_fuel read_handler
    ltac:(unfold scan_fuel; lia) ltac:(lia)
    ltac:(rewrite Z2Nat.id; lia) ltac:(lia)) as Hb.
  rewrite !Z2Nat.id in Hf, Hb by lia. rewrite !u64_id by lia.
  assert (forall a base, 0 < a < 18446744073709551616 ->
    candidate mods read_handler write_handler a = Some base ->
    base <> 0 /\ is_table mods base) as Hc.
  { intros a base Ha (-> & T1 & T2 & T3)%candidate_spec; [|lia].
    split; [lia|done]. }
  destruct (scan_forward _ _ _ _ _ _) as [base|]; [left|].
  - destruct Hf as (j & Hj & [T1 T2]%Hc); [|lia]. split_and!; try done.
    unfold ac_derive_bounds. destruct (foldl _ _ _). by case_test.
  - destruct (scan_backward _ _ _ _ _ _) as [base|]; [left|right].
    + destruct Hb as (j & Hj & [T1 T2]%Hc); [|lia]. split_and!; try done.
      unfold ac_derive_bounds. destruct (foldl _ _ _). by case_test.
    + split_and!; try done. intros j Hj. auto.
Qed.

(** The bounds derived from the table never condemn an entry they were
    derived from.  Where the end of text was unknown or the 512 MB guess,
    every plausible handler of the table, at or above a resolved start of
    text, is classified as core text afterwards, and the new end is at most
    66 MB above the anchor. *)
Theorem derived_bounds_accept mods st base i e :
  0 <= ac_anchor st -> ac_anchor st + 0x4200000 <= 18446744073709551616 ->
  ac_text_end st = 0 \/ ac_text_end_guessed st = true ->
  ac_stext st <= e ->
  slot_entry mods base (ac_anchor st) i e ->
  let st' := ac_derive_bounds mods st base (ac_anchor st) in
  ac_entry_bad st' mods e = false /\
  ac_text_end st' <= ac_anchor st + 0x4200000.
Proof.
  intros Ha Hmax Hend Hst Hs. split.
  - by eapply derive_accepts.
  - by apply (derive_spec mods st base (ac_anchor st) i e).
Qed.
End table.

(** ** A concrete kernel

    Read handler at [0xffffffff81200000], 512 handlers 256 bytes apart, the
    table 64 bytes above the first handler, symbols of section bounds not
    probe-able, one module of 8 KiB. *)
Module Demo.

Definition rh : Z := 0xffffffff81200000.
Definition tbl : Z := rh + 0x40.

#[export] Instance demo_mods : ModuleEnv := {|
  is_vmalloc_or_module_addr := fun a => 0xffffffffa0000000 <=? a;
  within_module_core := fun addr m =>
    existsb (fun '(base, size) => u64 (addr - base) <? size) (m_core m);
  MOD_MEM_NUM_TYPES := 7;
|}.

#[export] Instance demo_mod_laws : ModuleLaws.
Proof. split. reflexivity. Defined.

#[export] Instance demo_kernel : KernelEnv := {|
  register_kprobe := fun name =>
    if streq name (lit "__x64_sys_read") then Some rh
    else if streq name (lit "__x64_sys_write") then Some (rh + 256) else None;
  kread64 := fun a =>
    if (tbl <=? a) && (a <? tbl + 4096) && ((a - tbl) mod 8 =? 0)
    then Some (rh + (a - tbl) / 8 * 256) else None;
  kread32 := fun _ => None;
  NR_syscalls := 512;
|}.

#[export] Instance demo_kernel_laws : KernelLaws.
Proof.
  split. intros a v. simpl. destruct (_ && _) eqn:E; [|done].
  intros [= <-]. unfold tbl, rh in *. boolp. Z.div_mod_to_equations. lia.
Defined.

Definition demo_module : module :=
  mk_module 0xffffffffa0001000 (lit "ext4") MODULE_STATE_LIVE
    [(0xffffffffa0001000, 8192); (0, 0); (0, 0); (0, 0)].
End Demo.
Import Demo.

Lemma demo_ranges_ok : ranges_ok [demo_module].
Proof.
  constructor; [intros _|constructor].
  repeat (apply Forall_cons; split); [..|apply Forall_nil; done];
    unfold range_ok, GiB; lia.
Qed.

Lemma snapshot_equals_walk_witness :
  ac_entry_bad_snapshot text_init [demo_module] 0xffffffffa0001010
    (ac_snapshot_mod_ranges true [demo_module]) = true.
Proof.
  transitivity (ac_entry_bad text_init [demo_module] 0xffffffffa0001010);
    [|vm_compute; reflexivity].
  apply (snapshot_equals_walk text_init [demo_module] true 0xffffffffa0001010);
    [lia|apply demo_ranges_ok].
Defined.

Lemma find_table_correct_witness :
  exists base st', ac_find_syscall_table [demo_module] text_init = (base, st') /\
    is_table [demo_module] base /\ ac_anchor st' = rh.
Proof.
  pose proof (find_table_correct [demo_module] text_init) as H.
  assert (read_handler = rh) as Er by (vm_compute; reflexivity).
  assert (scan_start text_init = rh) as Es by (vm_compute; reflexivity).
  rewrite Er, Es in H. unfold rh in H at 1 2 3 4 5.
  specialize (H ltac:(lia) ltac:(vm_compute; discriminate) ltac:(lia)
    ltac:(lia) ltac:(lia)).
  destruct (ac_find_syscall_table _ _) as [base st'].
  destruct H as [(H1 & H2 & H3)|(_ & _ & H)]; [by eauto|].
  destruct (H 8 ltac:(lia)) as [H8 _]. vm_compute in H8. discriminate.
Defined.

Lemma derived_bounds_accept_witness :
  let st' := ac_derive_bounds [demo_module] (mk_text 0 0 0 false rh) tbl rh in
  ac_entry_bad st' [demo_module] (rh + 511 * 256) = false /\
  ac_text_end st' <= rh + 0x4200000.
Proof.
  apply (derived_bounds_accept [demo_module] (mk_text 0 0 0 false rh) tbl 511
           (rh + 511 * 256)); simpl; unfold rh; try lia.
  repeat split; vm_compute; (lia || reflexivity).
Defined.
End Table.
