(* ===== verification/SyscallCheck.v ===== *)
(** The integrity check of the system call table (src/anticheat_module.c:
    [ac_capture_syscall_baseline], [ac_check_syscalls] and their state).

    A check reads each slot once, so the live table is the partial function
    [kr] from addresses to words, a different one for each check.  Checks are
    serialised by [ac_syscall_check_lock]; events are the list of [ac_emit]
    calls, in order. *)

From S2P Require Import Prelude CText Abi Sha256 Ring Modules SyscallTable.
Import Sha Ring Mods Table.

#[local] Open Scope Z_scope.

Module Check.
Section check.
(** [__NR_syscalls] *)
Context `{!ModuleEnv} (NR : nat).

(** ** State *)

(** Bitmaps are lists of [NR] booleans. *)
Record sc_st := mk_sc {
  ac_syscall_table : Z;
  ac_hooked_bitmap : list bool;
  ac_syscall_baseline : list Z;
  ac_syscall_baseline_hex : list Z;
  ac_syscall_baseline_ready : bool;
  ac_redirect_bitmap : list bool;
  ac_baseline_captured : list bool;
}.

(** Static storage, with the table located at [base]. *)
Definition sc_init (base : Z) : sc_st :=
  mk_sc base (replicate NR false) (replicate NR 0) [] false
    (replicate NR false) (replicate NR false).

(** The bytes of an [unsigned long], and of the whole baseline array. *)
Definition le64 (x : Z) : list Z :=
  (fun k => u8 (Z.shiftr x (Z.of_nat k * 8))) <$> seq 0 8.
Definition le64s (xs : list Z) : list Z := concat (le64 <$> xs).

Definition test_bit (i : nat) (bm : list bool) : bool := bm !!! i.

(** ** Capture at load time *)

Definition capture_slot (kr : Z -> option Z) (base : Z)
    (bc : list Z * list bool) (i : nat) : list Z * list bool :=
  let '(bl, cap) := bc in
  match kr (slot_addr base i) with
  | Some e => (<[i := e]> bl, <[i := true]> cap)
  | None => (<[i := 0]> bl, cap)
  end.

Definition ac_capture_syscall_baseline (kr : Z -> option Z) (st : sc_st)
    : sc_st :=
  let base := ac_syscall_table st in
  if base =? 0 then st else
  let '(bl, cap) :=
    foldl (capture_slot kr base)
      (ac_syscall_baseline st, ac_baseline_captured st) (seq 0 NR) in
  mk_sc base (ac_hooked_bitmap st) bl (ac_sha256_hex (le64s bl)) true
    (ac_redirect_bitmap st) cap.

(** ** The check *)

Lemma length_hex m : length (ac_sha256_hex m) = 64%nat.
Proof. apply length_hex_digest. Qed.

Record check_acc := mk_acc {
  ca_st : sc_st;
  ca_hash : ac_sha256_ctx;
  ca_redirected : Z;
  ca_total : Z;
  ca_non_text : Z;
  ca_hooked : Z;
  ca_ems : list emission;
}.

Definition redirect_event (i : nat) (old e : Z) : emission :=
  mk_emission AC_EV_SYSCALL_REDIRECT 0 (Some (lit "?"))
    (lit "syscall[" ++ fmt_u (Z.of_nat i) ++ lit "] handler changed 0x" ++
     fmt_x old ++ lit " -> 0x" ++ fmt_x e ++ lit " (still core text)").

Definition hook_event (i : nat) (e : Z) : emission :=
  mk_emission AC_EV_SYSCALL_HOOK 0 (Some (lit "?"))
    (lit "syscall[" ++ fmt_u (Z.of_nat i) ++ lit "] -> 0x" ++ fmt_x e ++
     lit " outside core kernel text").

Definition set_redirect (st : sc_st) (i : nat) (b : bool) : sc_st :=
  mk_sc (ac_syscall_table st) (ac_hooked_bitmap st) (ac_syscall_baseline st)
    (ac_syscall_baseline_hex st) (ac_syscall_baseline_ready st)
    (<[i := b]> (ac_redirect_bitmap st)) (ac_baseline_captured st).

Definition set_hooked (st : sc_st) (i : nat) (b : bool) : sc_st :=
  mk_sc (ac_syscall_table st) (<[i := b]> (ac_hooked_bitmap st))
    (ac_syscall_baseline st) (ac_syscall_baseline_hex st)
    (ac_syscall_baseline_ready st) (ac_redirect_bitmap st)
    (ac_baseline_captured st).

Definition backfill (st : sc_st) (i : nat) (e : Z) : sc_st :=
  let bl := <[i := e]> (ac_syscall_baseline st) in
  mk_sc (ac_syscall_table st) (ac_hooked_bitmap st) bl
    (ac_sha256_hex (le64s bl)) (ac_syscall_baseline_ready st)
    (<[i := false]> (ac_redirect_bitmap st))
    (<[i := true]> (ac_baseline_captured st)).

(** The comparison with the baseline: state, [redirected] and events. *)
Definition check_redirect (bad : Z -> bool) (st : sc_st) (i : nat) (e : Z)
    (redirected : Z) : sc_st * Z * list emission :=
  if ac_syscall_baseline_ready st then
    let old := ac_syscall_baseline st !!! i in
    if negb (test_bit i (ac_baseline_captured st)) then
      (backfill st i e, redirected, [])
    else if negb (e =? old) then
      if negb (bad e) then
        (set_redirect st i true, u32 (redirected + 1),
         if test_bit i (ac_redirect_bitmap st) then [] else [redirect_event i old e])
      else (set_redirect st i false, redirected, [])
    else (set_redirect st i false, redirected, [])
  else (st, redirected, []).

(** One iteration of the loop. *)
Definition check_slot (bad : Z -> bool) (kr : Z -> option Z) (acc : check_acc)
    (i : nat) : check_acc :=
  let '(mk_acc st hash redirected total non_text hooked ems) := acc in
  match kr (slot_addr (ac_syscall_table st) i) with
  | None =>
      let have_baseline :=
        ac_syscall_baseline_ready st && test_bit i (ac_baseline_captured st) in
      let e := if have_baseline then ac_syscall_baseline st !!! i else 0 in
      mk_acc st (ac_sha256_update hash (le64 e)) redirected total non_text
        hooked ems
  | Some e =>
      let hash' := ac_sha256_update hash (le64 e) in
      let '(st1, redirected', ems1) := check_redirect bad st i e redirected in
      if e =? 0 then
        mk_acc st1 hash' redirected' total non_text hooked (ems ++ ems1)
      else if bad e then
        mk_acc (set_hooked st1 i true) hash' redirected' (u32 (total + 1))
          (u32 (non_text + 1)) (u32 (hooked + 1))
          (ems ++ ems1 ++
           if test_bit i (ac_hooked_bitmap st1) then [] else [hook_event i e])
      else
        mk_acc (set_hooked st1 i false) hash' redirected' (u32 (total + 1))
          non_text hooked (ems ++ ems1)
  end.

Definition zero_check : ac_syscall_check :=
  mk_syscall_check 0 0 0 0 0 false false 0 false [] [].

(** [ac_check_syscalls]: return value, [*out], state and events.  [text] are
    the text bounds, [mods] the modules the walk visits, [alloc_ok] whether
    the snapshot's array could be allocated. *)
Definition ac_check_syscalls (text : text_st) (mods : list module)
    (alloc_ok : bool) (kr : Z -> option Z) (st : sc_st)
    : Z * ac_syscall_check * sc_st * list emission :=
  let base := ac_syscall_table st in
  if base =? 0 then (- ENODEV, zero_check, st, []) else
  let ranges := ac_snapshot_mod_ranges alloc_ok mods in
  let bad e := ac_entry_bad_snapshot text mods e ranges in
  let acc0 := mk_acc st (ac_sha256_init fresh_ctx) 0 0 0 0 [] in
  let '(mk_acc st1 hash redirected total non_text hooked ems) :=
    foldl (check_slot bad kr) acc0 (seq 0 NR) in
  let ready := ac_syscall_baseline_ready st1 in
  let bhex := if ready then strscpy 65 (ac_syscall_baseline_hex st1) else [] in
  let chex := ac_sha256_hex_digest (ac_sha256_final hash) in
  let mismatch := ready && negb (streq chex bhex) in
  (0, mk_syscall_check base (Z.of_nat NR) total non_text hooked
        ((hooked =? 0) && (redirected =? 0) && negb mismatch)
        (ac_syscall_baseline_ready st) redirected mismatch bhex chex,
   st1, ems).

(** ** What one check computes, slot by slot *)

#[local] Opaque ac_sha256_hex_digest ac_sha256_update
  ac_sha256_init ac_sha256_final.

Definition wf_sc (st : sc_st) : Prop :=
  length (ac_hooked_bitmap st) = NR /\
  length (ac_syscall_baseline st) = NR /\
  length (ac_redirect_bitmap st) = NR /\
  length (ac_baseline_captured st) = NR.

Section view.
Context (bad : Z -> bool) (kr : Z -> option Z) (st : sc_st).

Definition rd (i : nat) : option Z := kr (slot_addr (ac_syscall_table st) i).
Definition ready : bool := ac_syscall_baseline_ready st.
Definition captured (i : nat) : bool := test_bit i (ac_baseline_captured st).
Definition trusted (i : nat) : Z := ac_syscall_baseline st !!! i.

(** The slot was read, had a trusted value, and holds another handler that
    still classifies as core text. *)
Definition redirected_at (i : nat) : bool :=
  match rd i with
  | Some e => ready && captured i && negb (e =? trusted i) && negb (bad e)
  | None => false
  end.
(** The slot was read and holds an address that does not. *)
Definition hooked_at (i : nat) : bool :=
  match rd i with Some e => negb (e =? 0) && bad e | None => false end.
Definition used_at (i : nat) : bool :=
  match rd i with Some e => negb (e =? 0) | None => false end.

Definition new_baseline (i : nat) : Z :=
  match rd i with
  | Some e => if ready && negb (captured i) then e else trusted i
  | None => trusted i
  end.
Definition new_captured (i : nat) : bool :=
  match rd i with Some _ => captured i || ready | None => captured i end.
Definition new_redirect (i : nat) : bool :=
  match rd i with
  | Some _ => if ready then redirected_at i
              else test_bit i (ac_redirect_bitmap st)
  | None => test_bit i (ac_redirect_bitmap st)
  end.
Definition new_hooked (i : nat) : bool :=
  match rd i with
  | Some e => if e =? 0 then test_bit i (ac_hooked_bitmap st) else bad e
  | None => test_bit i (ac_hooked_bitmap st)
  end.
(** The word hashed for the slot. *)
Definition hashed (i : nat) : Z :=
  match rd i with
  | Some e => e
  | None => if ready && captured i then trusted i else 0
  end.
(** Events on the rising edges. *)
Definition events_at (i : nat) : list emission :=
  match rd i with
  | Some e =>
      (if redirected_at i && negb (test_bit i (ac_redirect_bitmap st))
       then [redirect_event i (trusted i) e] else []) ++
      (if hooked_at i && negb (test_bit i (ac_hooked_bitmap st))
       then [hook_event i e] else [])
  | None => []
  end.

Definition hex_of (xs : list Z) : list Z := ac_sha256_hex (le64s xs).

(** The accumulator after [n] slots. *)
Definition view (n : nat) : check_acc :=
  mk_acc
    (mk_sc (ac_syscall_table st) (sweep new_hooked n (ac_hooked_bitmap st))
       (sweep new_baseline n (ac_syscall_baseline st))
       (if ready then hex_of (sweep new_baseline n (ac_syscall_baseline st))
        else ac_syscall_baseline_hex st)
       ready (sweep new_redirect n (ac_redirect_bitmap st))
       (sweep new_captured n (ac_baseline_captured st)))
    (foldl ac_sha256_update (ac_sha256_init fresh_ctx)
       ((le64 ∘ hashed) <$> seq 0 n))
    (u32 (Z.of_nat (count_if redirected_at (seq 0 n))))
    (u32 (Z.of_nat (count_if used_at (seq 0 n))))
    (u32 (Z.of_nat (count_if hooked_at (seq 0 n))))
    (u32 (Z.of_nat (count_if hooked_at (seq 0 n))))
    (concat (events_at <$> seq 0 n)).

Lemma u32_count (p : nat -> bool) n :
  u32 (Z.of_nat (count_if p (seq 0 (S n)))) =
  if p n then u32 (u32 (Z.of_nat (count_if p (seq 0 n))) + 1)
  else u32 (Z.of_nat (count_if p (seq 0 n))).
Proof. rewrite count_if_seq_S. destruct (p n); word_lia. Qed.

Lemma check_slot_view n :
  wf_sc st -> (n < NR)%nat -> check_slot bad kr (view n) n = view (S n).
Proof.
  intros (Lh & Lb & Lr & Lc) Hn. unfold view at 2.
  rewrite !u32_count, seq_S, !fmap_app, foldl_app, concat_app.
  cbn [foldl fmap list_fmap concat app compose Nat.add]. rewrite app_nil_r.
  rewrite !sweep_S by lia.
  unfold check_slot, view. cbn [ac_syscall_table]. fold (rd n).
  set (HB := sweep new_hooked n _). set (B := sweep new_baseline n _).
  set (R := sweep new_redirect n _). set (C := sweep new_captured n _).
  assert (test_bit n HB = test_bit n (ac_hooked_bitmap st) /\
    B !!! n = trusted n /\ test_bit n R = test_bit n (ac_redirect_bitmap st) /\
    test_bit n C = captured n) as (EH & EB & ER & EC)
    by (repeat split; apply sweep_lookup_total).
  assert ((n < length HB /\ n < length B) /\ n < length R /\ n < length C)%nat
    as [[LH LB] [LR LC]] by (repeat split; unfold HB, B, R, C;
      rewrite length_sweep; lia).
  clearbody HB B R C.
  unfold new_hooked, new_baseline, new_redirect, new_captured, hashed,
    events_at, redirected_at, used_at, hooked_at.
  unfold check_redirect. cbn [ac_syscall_baseline_ready ac_baseline_captured
    ac_syscall_baseline ac_redirect_bitmap ac_hooked_bitmap].
  rewrite EB, EC, ER.
  destruct (rd n) as [e|].
  - destruct ready, (captured n); cbn [negb andb orb];
      try destruct (Z.eqb_spec e (trusted n)); cbn [negb andb orb];
      destruct (bad e) eqn:Eb; cbn [negb andb orb];
      destruct (Z.eqb_spec e 0) as [->|]; cbn [negb andb orb].
    all: unfold set_hooked, set_redirect, backfill; cbn [ac_syscall_table
      ac_hooked_bitmap ac_syscall_baseline ac_syscall_baseline_hex
      ac_syscall_baseline_ready ac_redirect_bitmap ac_baseline_captured].
    all: rewrite ?EH, ?app_nil_r, ?app_nil_l, <- ?app_assoc.
    all: rewrite ?(insert_same n HB), ?(insert_same n B), ?(insert_same n R),
      ?(insert_same n C) by done.
    all: try reflexivity.
    all: by destruct (test_bit n (ac_hooked_bitmap st)),
      (test_bit n (ac_redirect_bitmap st)).
  - f_equal; [|by rewrite app_nil_r].
    by rewrite !insert_same.
Qed.

Lemma check_loop n :
  wf_sc st -> (n <= NR)%nat ->
  (ready = true ->
   ac_syscall_baseline_hex st = hex_of (ac_syscall_baseline st)) ->
  foldl (check_slot bad kr)
    (mk_acc st (ac_sha256_init fresh_ctx) 0 0 0 0 []) (seq 0 n) = view n.
Proof.
  intros Hw Hn Hhex. induction n as [|n IH].
  - unfold view, sweep, ready in *. cbn [seq fmap list_fmap foldl count_if
      concat app]. rewrite !drop_0.
    destruct st as [t h b hex rdy r c]; cbn in *.
    destruct rdy; [by rewrite Hhex|done].
  - rewrite seq_S, foldl_app, IH by lia. cbn [foldl Nat.add].
    by apply check_slot_view.
Qed.

(** The digest of the words hashed. *)
Definition live_hex : list Z := hex_of (hashed <$> seq 0 NR).
End view.

(** The invariant of the state between checks: arrays of the right size, the
    baseline digest up to date, slots never captured at 0. *)
Record sc_inv (st : sc_st) : Prop := {
  inv_sizes : wf_sc st;
  inv_hex : ready st = true ->
    ac_syscall_baseline_hex st = hex_of (ac_syscall_baseline st);
  inv_uncaptured : forall i, (i < NR)%nat ->
    captured st i = false -> trusted st i = 0;
}.

(** The state a check leaves. *)
Definition after (bad : Z -> bool) (kr : Z -> option Z) (st : sc_st) : sc_st :=
  ca_st (view bad kr st NR).

Lemma le64_hash ctx xs :
  wf_ctx ctx ->
  foldl ac_sha256_update ctx (le64 <$> xs) = ac_sha256_update ctx (le64s xs).
Proof. apply updates_concat. Qed.

Lemma live_digest kr st :
  ac_sha256_hex_digest (ac_sha256_final
    (foldl ac_sha256_update (ac_sha256_init fresh_ctx)
       ((le64 ∘ hashed kr st) <$> seq 0 NR))) = live_hex kr st.
Proof.
  unfold live_hex, hex_of, ac_sha256_hex.
  rewrite list_fmap_compose, le64_hash; [done|]. by apply init_wf.
Qed.

(** The classification a check uses. *)
Definition classify (text : text_st) (mods : list module) (alloc_ok : bool)
    (e : Z) : bool :=
  ac_entry_bad_snapshot text mods e (ac_snapshot_mod_ranges alloc_ok mods).

(** [ac_check_syscalls] in closed form. *)
Lemma check_spec text mods alloc_ok kr st :
  sc_inv st -> ac_syscall_table st <> 0 ->
  let bad := classify text mods alloc_ok in
  let st' := after bad kr st in
  let count p := u32 (Z.of_nat (count_if p (seq 0 NR))) in
  let hooked := count (hooked_at bad kr st) in
  let redirected := count (redirected_at bad kr st) in
  let mismatch := ready st &&
    negb (bool_decide (live_hex kr st = hex_of (ac_syscall_baseline st'))) in
  ac_check_syscalls text mods alloc_ok kr st =
  (0, mk_syscall_check (ac_syscall_table st) (Z.of_nat NR)
        (count (used_at kr st)) hooked hooked
        ((hooked =? 0) && (redirected =? 0) && negb mismatch) (ready st)
        redirected mismatch
        (if ready st then hex_of (ac_syscall_baseline st') else [])
        (live_hex kr st),
   st', concat (events_at bad kr st <$> seq 0 NR)).
Proof.
  intros I Hb. cbv zeta. unfold ac_check_syscalls.
  destruct (Z.eqb_spec (ac_syscall_table st) 0); [done|].
  fold (classify text mods alloc_ok). set (bad := classify text mods alloc_ok).
  change (fun e => _) with bad. cbv zeta.
  rewrite (check_loop bad kr st NR (inv_sizes _ I)) by (done || apply I).
  unfold after, view. cbv iota. cbn [ca_st ac_syscall_baseline_ready
    ac_syscall_baseline_hex ac_syscall_baseline].
  change (ac_syscall_baseline_ready st) with (ready st).
  rewrite live_digest. unfold streq. destruct (ready st); [|reflexivity].
  rewrite strscpy_id by (unfold hex_of; rewrite length_hex; lia). done.
Qed.


(** *** The state after a check *)

Section after.
Context (bad : Z -> bool) (kr : Z -> option Z) (st : sc_st) (I : sc_inv st).

Lemma after_sizes : wf_sc (after bad kr st).
Proof.
  destruct (inv_sizes _ I) as (Lh & Lb & Lr & Lc).
  unfold after, view, wf_sc. cbn [ca_st ac_hooked_bitmap ac_syscall_baseline
    ac_redirect_bitmap ac_baseline_captured].
  rewrite !length_sweep by lia. done.
Qed.

Context (i : nat) (Hi : (i < NR)%nat).

Lemma after_trusted : trusted (after bad kr st) i = new_baseline kr st i.
Proof.
  destruct (inv_sizes _ I) as (Lh & Lb & Lr & Lc).
  unfold trusted, after, view. cbn.
  by rewrite sweep_full, fmap_seq_total.
Qed.

Lemma after_captured : captured (after bad kr st) i = new_captured kr st i.
Proof.
  destruct (inv_sizes _ I) as (Lh & Lb & Lr & Lc).
  unfold captured, after, view, test_bit. cbn.
  by rewrite sweep_full, fmap_seq_total.
Qed.

Lemma after_hooked :
  test_bit i (ac_hooked_bitmap (after bad kr st)) = new_hooked bad kr st i.
Proof.
  destruct (inv_sizes _ I) as (Lh & Lb & Lr & Lc).
  unfold after, view, test_bit. cbn.
  by rewrite sweep_full, fmap_seq_total.
Qed.

Lemma after_redirect :
  test_bit i (ac_redirect_bitmap (after bad kr st)) = new_redirect bad kr st i.
Proof.
  destruct (inv_sizes _ I) as (Lh & Lb & Lr & Lc).
  unfold after, view, test_bit. cbn.
  by rewrite sweep_full, fmap_seq_total.
Qed.
End after.

Lemma after_ready bad kr st : ready (after bad kr st) = ready st.
Proof. reflexivity. Qed.

Lemma after_table bad kr st :
  ac_syscall_table (after bad kr st) = ac_syscall_table st.
Proof. reflexivity. Qed.

Lemma after_baseline bad kr st :
  sc_inv st ->
  ac_syscall_baseline (after bad kr st) = new_baseline kr st <$> seq 0 NR.
Proof.
  intros I. destruct (inv_sizes _ I) as (Lh & Lb & Lr & Lc).
  unfold after, view. cbn. by rewrite sweep_full.
Qed.

Lemma after_inv bad kr st : sc_inv st -> sc_inv (after bad kr st).
Proof.
  intros I. split.
  - by apply after_sizes.
  - rewrite after_ready. intros Hr. unfold after, view. cbn. by rewrite Hr.
  - intros i Hi. rewrite after_captured, after_trusted by done.
    unfold new_captured, new_baseline. pose proof (inv_uncaptured _ I i Hi) as Hu.
    destruct (rd kr st i); [|done].
    destruct (captured st i); simpl; [done|]. intros ->. auto.
Qed.

(** The check's hash agrees with the baseline's whenever every slot read
    holds its trusted value. *)
Lemma hashed_baseline kr st i :
  sc_inv st -> ready st = true -> (i < NR)%nat ->
  (forall e, rd kr st i = Some e -> captured st i = true ->
     e = trusted st i) ->
  hashed kr st i = new_baseline kr st i.
Proof.
  intros I Hr Hi Heq. unfold hashed, new_baseline in *. rewrite Hr.
  pose proof (inv_uncaptured _ I i Hi) as Hu.
  destruct (rd kr st i) as [e|]; destruct (captured st i); simpl; auto.
  by rewrite Hu.
Qed.

Lemma live_hex_baseline bad kr st :
  sc_inv st -> ready st = true ->
  (forall i e, (i < NR)%nat -> rd kr st i = Some e -> captured st i = true ->
     e = trusted st i) ->
  live_hex kr st = hex_of (ac_syscall_baseline (after bad kr st)).
Proof.
  intros I Hr Heq. rewrite after_baseline by done. unfold live_hex.
  apply (f_equal hex_of), list_fmap_ext. intros j x [-> Hj]%lookup_seq.
  apply hashed_baseline; try done. intros e He Hc. by apply (Heq j).
Qed.

(** *** Repetition *)

(** Repeated on the same table, a check finds the same hooks and redirects,
    with their bits already set. *)
Lemma again_redirected bad kr st i :
  sc_inv st -> (i < NR)%nat ->
  redirected_at bad kr (after bad kr st) i = redirected_at bad kr st i.
Proof.
  intros I Hi. unfold redirected_at at 1.
  change (rd kr (after bad kr st) i) with (rd kr st i).
  rewrite after_ready, after_captured, after_trusted by done.
  unfold redirected_at, new_captured, new_baseline.
  destruct (rd kr st i) as [e|]; [|done].
  destruct (ready st), (captured st i); simpl; try done.
  by rewrite Z.eqb_refl.
Qed.

Lemma again_events bad kr st i :
  sc_inv st -> (i < NR)%nat -> events_at bad kr (after bad kr st) i = [].
Proof.
  intros I Hi. unfold events_at. rewrite again_redirected by done.
  rewrite after_redirect, after_hooked by done.
  unfold new_redirect, new_hooked, hooked_at, redirected_at.
  change (rd kr (after bad kr st) i) with (rd kr st i).
  destruct (rd kr st i) as [e|]; [|done].
  destruct (ready st); cbn [andb]; rewrite ?andb_negb_r;
    destruct (e =? 0), (bad e); done.
Qed.

(** *** Capture *)

Lemma capture_loop kr base n bl cap :
  length bl = NR -> length cap = NR -> (n <= NR)%nat ->
  foldl (capture_slot kr base) (bl, cap) (seq 0 n) =
  (sweep (fun i => default 0 (kr (slot_addr base i))) n bl,
   sweep (fun i => match kr (slot_addr base i) with
                   | Some _ => true | None => test_bit i cap end) n cap).
Proof.
  intros Lb Lc. induction n as [|n IH]; intros Hn.
  - unfold sweep. by rewrite !drop_0.
  - rewrite seq_S, foldl_app, IH by lia. cbn [foldl Nat.add capture_slot].
    rewrite !sweep_S by lia.
    destruct (kr (slot_addr base n)) as [e|]; simpl; [done|].
    f_equal. rewrite insert_same; [done| |].
    + rewrite length_sweep; lia.
    + by rewrite sweep_lookup_total.
Qed.

Lemma test_bit_replicate i : (i < NR)%nat -> test_bit i (replicate NR false) = false.
Proof.
  intros Hi. unfold test_bit. by apply lookup_total_replicate_2.
Qed.

Lemma capture_facts kr base :
  base <> 0 ->
  let st := ac_capture_syscall_baseline kr (sc_init base) in
  sc_inv st /\ ready st = true /\ ac_syscall_table st = base /\
  forall i, (i < NR)%nat ->
    match rd kr st i with
    | Some e => captured st i = true /\ trusted st i = e
    | None => captured st i = false
    end.
Proof.
  intros Hb. cbv zeta. unfold ac_capture_syscall_baseline, sc_init.
  cbn [ac_syscall_table ac_syscall_baseline ac_baseline_captured].
  destruct (Z.eqb_spec base 0); [done|].
  rewrite capture_loop by (rewrite ?length_replicate; lia).
  rewrite !sweep_full by apply length_replicate.
  assert (forall i, (i < NR)%nat ->
    test_bit i ((fun i => match kr (slot_addr base i) with
      | Some _ => true | None => test_bit i (replicate NR false) end)
      <$> seq 0 NR) = match kr (slot_addr base i) with
      | Some _ => true | None => false end) as Hc.
  { intros i Hi. unfold test_bit at 1. rewrite fmap_seq_total by done.
    by rewrite test_bit_replicate. }
  split_and!; try done.
  - split.
    + unfold wf_sc. cbn. by rewrite !length_fmap, !length_replicate, length_seq.
    + done.
    + intros i Hi. unfold captured, trusted. cbn. rewrite Hc by done.
      rewrite fmap_seq_total by done. by destruct (kr _).
  - intros i Hi. unfold rd, captured, trusted. cbn. rewrite Hc by done.
    rewrite fmap_seq_total by done. by destruct (kr _).
Qed.

(** ** Properties *)

(** C15: the counters a check reports are exact.  [hooked] counts the slots
    read whose non-null entry is outside core text, [redirected] the slots
    whose entry differs from the trusted one and is inside it, [total] the
    non-null entries read; [ok] is 1 exactly when none is hooked, none is
    redirected and, with a baseline, the digest over the table equals the
    baseline's. *)
Theorem check_counts_exact text mods alloc_ok kr st :
  sc_inv st -> ac_syscall_table st <> 0 -> Z.of_nat NR < 4294967296 ->
  let bad := classify text mods alloc_ok in
  let '(ret, out, st', _) := ac_check_syscalls text mods alloc_ok kr st in
  ret = 0 /\
  sc_hooked out = Z.of_nat (count_if (hooked_at bad kr st) (seq 0 NR)) /\
  sc_redirected out =
    Z.of_nat (count_if (redirected_at bad kr st) (seq 0 NR)) /\
  sc_total out = Z.of_nat (count_if (used_at kr st) (seq 0 NR)) /\
  (sc_ok out = true <->
   (forall i, (i < NR)%nat -> hooked_at bad kr st i = false /\
                              redirected_at bad kr st i = false) /\
   (ready st = true -> live_hex kr st = hex_of (ac_syscall_baseline st'))).
Proof.
  intros I Hb Hn. cbv zeta. rewrite check_spec by done. cbv zeta.
  set (bad := classify text mods alloc_ok).
  assert (forall p, u32 (Z.of_nat (count_if p (seq 0 NR))) =
    Z.of_nat (count_if p (seq 0 NR))) as Hu.
  { intros p. apply u32_id. pose proof (count_if_le p (seq 0 NR)) as Hle.
    rewrite length_seq in Hle. lia. }
  cbn [sc_hooked sc_redirected sc_total sc_ok]. rewrite !Hu.
  split_and!; try done.
  rewrite !andb_true_iff, negb_true_iff, !Z.eqb_eq.
  rewrite !(Nat2Z.inj_iff _ 0), !count_if_seq_0.
  rewrite andb_false_iff, negb_false_iff, bool_decide_eq_true.
  split.
  - intros [[Hh Hr] Hm]. split; [by auto|]. intros ?.
    destruct Hm as [Hm|]; [congruence|done].
  - intros [Ha Hm]. split; [split; intros i Hi; by apply Ha|].
    destruct (ready st); [right; auto|by left].
Qed.

(** A check never revises what it trusts.  The state stays consistent
    (sizes, digest of the baseline, uncaptured slots at 0), the table address
    and readiness do not change, and a captured slot keeps its trusted
    value; a slot that could not be read keeps its whole state and is not
    reported. *)
Theorem check_keeps_trust text mods alloc_ok kr st :
  sc_inv st -> ac_syscall_table st <> 0 ->
  let bad := classify text mods alloc_ok in
  let '(_, _, st', _) := ac_check_syscalls text mods alloc_ok kr st in
  sc_inv st' /\ ready st' = ready st /\
  ac_syscall_table st' = ac_syscall_table st /\
  forall i, (i < NR)%nat ->
    (captured st i = true ->
     captured st' i = true /\ trusted st' i = trusted st i) /\
    (rd kr st i = None ->
     captured st' i = captured st i /\ trusted st' i = trusted st i /\
     test_bit i (ac_hooked_bitmap st') = test_bit i (ac_hooked_bitmap st) /\
     test_bit i (ac_redirect_bitmap st') = test_bit i (ac_redirect_bitmap st) /\
     events_at bad kr st i = []).
Proof.
  intros I Hb. cbv zeta. rewrite check_spec by done. cbv zeta.
  set (bad := classify text mods alloc_ok).
  split_and!; [by apply after_inv|done|done|]. intros i Hi.
  rewrite after_captured, after_trusted, after_hooked, after_redirect by done.
  unfold new_captured, new_baseline, new_hooked, new_redirect, events_at.
  split.
  - intros Hc. destruct (rd kr st i); rewrite Hc; simpl; [|done].
    by rewrite andb_false_r.
  - by intros ->.
Qed.

(** C14: no false alarm.  With a baseline, if every slot that can be read
    holds its trusted value (or was not captured yet) and no entry read is
    outside core text, the check answers [ok] and emits nothing; slots that
    cannot be read do not disturb the digest. *)
Theorem clean_table_passes text mods alloc_ok kr st :
  sc_inv st -> ac_syscall_table st <> 0 -> ready st = true ->
  (forall i e, (i < NR)%nat -> rd kr st i = Some e ->
     (captured st i = true -> e = trusted st i) /\
     (e <> 0 -> classify text mods alloc_ok e = false)) ->
  let '(_, out, _, ems) := ac_check_syscalls text mods alloc_ok kr st in
  sc_ok out = true /\ sc_checksum_mismatch out = false /\ ems = [].
Proof.
  intros I Hb Hr Hclean. rewrite check_spec by done. cbv zeta.
  set (bad := classify text mods alloc_ok).
  assert (forall i, (i < NR)%nat -> hooked_at bad kr st i = false) as H1.
  { intros i Hi. unfold hooked_at. destruct (rd kr st i) as [e|] eqn:E; [|done].
    destruct (Hclean i e Hi E) as [_ H2].
    destruct (Z.eqb_spec e 0); simpl; auto. }
  assert (forall i, (i < NR)%nat -> redirected_at bad kr st i = false) as H2.
  { intros i Hi. unfold redirected_at.
    destruct (rd kr st i) as [e|] eqn:E; [|done].
    destruct (Hclean i e Hi E) as [H2 _].
    destruct (captured st i); [|by rewrite andb_false_r].
    rewrite H2, Z.eqb_refl by done. by rewrite !andb_false_r. }
  rewrite (proj2 (count_if_seq_0 _ _) H1), (proj2 (count_if_seq_0 _ _) H2).
  rewrite (live_hex_baseline bad) by (try done; intros; by eapply Hclean).
  rewrite bool_decide_eq_true_2 by done. cbn [sc_ok sc_checksum_mismatch].
  rewrite andb_false_r. split_and!; try done. apply concat_seq_nil.
  intros i Hi. unfold events_at. rewrite H1, H2 by done. by destruct (rd kr st i).
Qed.

(** A persistent condition is reported once.  A second check of the same
    table emits no event, whatever the first one found. *)
Theorem repeated_check_silent text mods alloc_ok kr st :
  sc_inv st -> ac_syscall_table st <> 0 ->
  let '(_, _, st1, _) := ac_check_syscalls text mods alloc_ok kr st in
  let '(_, _, _, ems) := ac_check_syscalls text mods alloc_ok kr st1 in
  ems = [].
Proof.
  intros I Hb. rewrite check_spec by done. cbv zeta.
  rewrite check_spec by (done || by apply after_inv). cbv zeta.
  apply concat_seq_nil. intros i Hi. by apply again_events.
Qed.

(** Capturing at load time makes the baseline ready and consistent: a
    slot that could be read is trusted with the value read, zero included, a
    slot that could not is left to be adopted by a later check. *)
Theorem capture_correct kr base :
  base <> 0 ->
  let st := ac_capture_syscall_baseline kr (sc_init base) in
  sc_inv st /\ ready st = true /\ ac_syscall_table st = base /\
  forall i, (i < NR)%nat ->
    match rd kr st i with
    | Some e => captured st i = true /\ trusted st i = e
    | None => captured st i = false
    end.
Proof. apply capture_facts. Qed.
End check.

(** ** A table of four slots *)
Module CheckDemo.
Import Table.Demo.

Definition base : Z := 0x1000.
Definition text : text_st := mk_text 0x100000 0x200000 0x200000 false 0x100000.
(** Slots 0 to 3 hold handlers inside core text. *)
Definition live (a : Z) : option Z := Some (0x100000 + a).
(** The same with slot 1 pointing outside and slot 2 redirected inside. *)
Definition tampered (a : Z) : option Z :=
  if a =? base + 8 then Some 0x300000
  else if a =? base + 16 then Some 0x100010 else live a.
Definition booted : sc_st :=
  ac_capture_syscall_baseline 4 live (sc_init 4 base).

Lemma booted_ok : sc_inv 4 booted /\ ready booted = true /\
  ac_syscall_table booted = base /\
  forall i, (i < 4)%nat ->
    match rd live booted i with
    | Some e => captured booted i = true /\ trusted booted i = e
    | None => captured booted i = false
    end.
Proof. by apply capture_facts. Qed.

Lemma table_set : ac_syscall_table booted <> 0.
Proof. by vm_compute. Qed.

Lemma check_counts_exact_witness :
  let '(ret, out, _, _) := ac_check_syscalls 4 text [] true tampered booted in
  ret = 0 /\ sc_hooked out = 1 /\ sc_redirected out = 1 /\ sc_total out = 4.
Proof.
  pose proof (check_counts_exact 4 text [] true tampered booted
    (proj1 booted_ok) table_set ltac:(lia)) as H.
  destruct (ac_check_syscalls _ _ _ _ _ _) as [[[ret out] st'] ems].
  destruct H as (-> & -> & -> & -> & _). repeat split; vm_compute; reflexivity.
Defined.

Lemma check_keeps_trust_witness :
  let '(_, _, st', _) := ac_check_syscalls 4 text [] true tampered booted in
  sc_inv 4 st' /\ trusted st' 1 = 0x101008.
Proof.
  pose proof (check_keeps_trust 4 text [] true tampered booted
    (proj1 booted_ok) table_set) as H.
  destruct (ac_check_syscalls _ _ _ _ _ _) as [[[ret out] st'] ems].
  destruct H as (H1 & _ & _ & H2). split; [done|].
  destruct (H2 1%nat ltac:(lia)) as [H3 _].
  destruct H3 as [_ ->]; vm_compute; reflexivity.
Defined.

Lemma clean_table_passes_witness :
  let '(_, out, _, ems) := ac_check_syscalls 4 text [] true live booted in
  sc_ok out = true /\ sc_checksum_mismatch out = false /\ ems = [].
Proof.
  apply (clean_table_passes 4 text [] true live booted (proj1 booted_ok)
    table_set).
  - vm_compute. reflexivity.
  - intros i e Hi He. destruct booted_ok as (_ & _ & _ & H).
    specialize (H i Hi). rewrite He in H. split; [naive_solver|]. intros _.
    destruct i as [|[|[|[|i]]]]; [..|lia]; vm_compute in He;
      injection He as <-; vm_compute; reflexivity.
Defined.

Lemma repeated_check_silent_witness :
  let '(_, _, st1, ems1) := ac_check_syscalls 4 text [] true tampered booted in
  let '(_, _, _, ems2) := ac_check_syscalls 4 text [] true tampered st1 in
  length ems1 = 2%nat /\ ems2 = [].
Proof.
  pose proof (repeated_check_silent 4 text [] true tampered booted
    (proj1 booted_ok) table_set) as H.
  assert (length (snd (ac_check_syscalls 4 text [] true tampered booted))
          = 2%nat) as Hl by (vm_compute; reflexivity).
  destruct (ac_check_syscalls 4 text [] true tampered booted)
    as [[[ret out] st1] ems1].
  destruct (ac_check_syscalls 4 text [] true tampered st1)
    as [[[ret2 out2] st2] ems2].
  done.
Defined.

Lemma capture_correct_witness :
  ready (ac_capture_syscall_baseline 4 live (sc_init 4 base)) = true.
Proof. apply (capture_correct 4 live base). unfold base. lia. Defined.
(** A null entry is skipped before the hooked bit is cleared: a slot hooked,
    then zeroed, then hooked again is reported the first time only, although
    the check in between counts no hooked slot. *)
Example hook_after_null_unreported :
  let hook a := if a =? base + 8 then Some 0x300000 else live a in
  let null a := if a =? base + 8 then Some 0 else live a in
  let '(_, _, st1, ems1) := ac_check_syscalls 4 text [] true hook booted in
  let '(_, out2, st2, _) := ac_check_syscalls 4 text [] true null st1 in
  let '(_, out3, _, ems3) := ac_check_syscalls 4 text [] true hook st2 in
  length ems1 = 1%nat /\ sc_hooked out2 = 0 /\ sc_hooked out3 = 1 /\ ems3 = [].
Proof. vm_compute. repeat split. Qed.
End CheckDemo.
End Check.
