(* ===== verification/Registry.v ===== *)
(** The registry of protected address spaces (src/anticheat_module.c,
    [ac_prots] and the functions on it).

    A function that takes [ac_prot_lock] more than once is split into its
    critical sections; between them it is inside [mmu_notifier_register] or
    [mmu_notifier_unregister], which sleep.  This file has the sections, the
    functions composed of them as one thread runs them, and their sequential
    behaviour; RegistryConc interleaves the sections. *)

From stdpp Require Import gmap.
From S2P Require Import Prelude CText Abi Ring.
Import Ring.

#[local] Open Scope Z_scope.

Module Reg.

(** ** State *)

Definition AC_PROT_MAX : nat := 64.

(** [struct mm_struct *] values: [NULL], the claim marker, and addresses of
    address spaces, which are larger. *)
Definition NULL : Z := 0.
Definition AC_PROT_RESERVED : Z := 1.

Record ac_prot_entry := mk_entry {
  pe_mm : Z;
  pe_pid : Z;
  pe_jit_allowed : bool;
  pe_removing : bool;
  pe_claiming : Z;
  pe_cancel : bool;
  pe_release_mm : Z;
  pe_comm : list Z;
}.

#[global] Instance ac_prot_entry_eq_dec : EqDecision ac_prot_entry.
Proof. solve_decision. Defined.

Definition free_entry : ac_prot_entry := mk_entry 0 0 false false 0 false 0 [].

#[global] Instance ac_prot_entry_inhabited : Inhabited ac_prot_entry :=
  populate free_entry.

Record reg_st := mk_reg {
  ac_prots : list ac_prot_entry;
  ac_prot_count : Z;
}.

Definition reg_init : reg_st := mk_reg (replicate AC_PROT_MAX free_entry) 0.

Definition set_prots (st : reg_st) (i : nat) (e : ac_prot_entry) : reg_st :=
  mk_reg (<[i := e]> (ac_prots st)) (ac_prot_count st).

(** ** Critical sections of [ac_add_prot_mm] *)

Inductive add_result :=
  | AddRet (ret : Z)           (** return without claiming a slot *)
  | AddClaimed (slot : nat).   (** go on to register the notifier *)

(** What the scan does with one entry. *)
Definition add_dup (mm : Z) (e : ac_prot_entry) : bool :=
  (pe_mm e =? mm) && negb (pe_removing e).
Definition add_claiming (mm : Z) (e : ac_prot_entry) : bool :=
  (pe_mm e =? AC_PROT_RESERVED) && (pe_claiming e =? mm) &&
  negb (pe_cancel e).
Definition add_free (e : ac_prot_entry) : bool :=
  (pe_mm e =? NULL) && negb (pe_removing e).

(** The scan from index [i] on: where it returns, with the slot to claim. *)
Inductive scan_result :=
  | ScanDup (i : nat)
  | ScanClaiming
  | ScanEnd (slot : option nat).

Fixpoint add_scan (mm : Z) (es : list ac_prot_entry) (i : nat)
    (slot : option nat) : scan_result :=
  match es with
  | [] => ScanEnd slot
  | e :: es' =>
      if add_dup mm e then ScanDup i else
      if add_claiming mm e then ScanClaiming else
      add_scan mm es' (S i)
        (match slot with
         | None => if add_free e then Some i else None
         | Some s => Some s
         end)
  end.

Definition set_jit (e : ac_prot_entry) (jit : bool) : ac_prot_entry :=
  mk_entry (pe_mm e) (pe_pid e) jit (pe_removing e) (pe_claiming e)
    (pe_cancel e) (pe_release_mm e) (pe_comm e).

Definition claim_entry (e : ac_prot_entry) (mm : Z) : ac_prot_entry :=
  mk_entry AC_PROT_RESERVED (pe_pid e) (pe_jit_allowed e) (pe_removing e) mm
    false (pe_release_mm e) (pe_comm e).

(** First section: dedupe, or claim a free slot. *)
Definition add_claim (st : reg_st) (mm : Z) (jit : bool)
    : add_result * reg_st :=
  match add_scan mm (ac_prots st) 0 None with
  | ScanDup i => (AddRet 0, set_prots st i (set_jit (ac_prots st !!! i) jit))
  | ScanClaiming => (AddRet 0, st)
  | ScanEnd None => (AddRet (- ENOSPC), st)
  | ScanEnd (Some i) =>
      (AddClaimed i, set_prots st i (claim_entry (ac_prots st !!! i) mm))
  end.

Inductive fin_result :=
  | FinRet (ret : Z)
  | FinCancelled.              (** go on to unregister the notifier *)

Definition unclaim_entry (e : ac_prot_entry) (removing : bool)
    : ac_prot_entry :=
  mk_entry NULL (pe_pid e) (pe_jit_allowed e) removing NULL false
    (pe_release_mm e) (pe_comm e).

Definition publish_entry (e : ac_prot_entry) (mm pid : Z) (jit : bool)
    (comm : list Z) : ac_prot_entry :=
  mk_entry mm pid jit (pe_removing e) NULL (pe_cancel e) (pe_release_mm e)
    (strscpy AC_MAX_COMM comm).

(** Second section, after [mmu_notifier_register] returned [ret]. *)
Definition add_finish (st : reg_st) (slot : nat) (mm pid : Z)
    (comm : list Z) (jit : bool) (ret : Z) : fin_result * reg_st :=
  let e := ac_prots st !!! slot in
  if negb (ret =? 0) then
    (FinRet ret, set_prots st slot (unclaim_entry e (pe_removing e)))
  else if pe_cancel e then
    (FinCancelled, set_prots st slot (unclaim_entry e true))
  else
    (FinRet 0, mk_reg (<[slot := publish_entry e mm pid jit comm]> (ac_prots st))
                 (u32 (ac_prot_count st + 1))).

Definition set_removing (e : ac_prot_entry) (b : bool) : ac_prot_entry :=
  mk_entry (pe_mm e) (pe_pid e) (pe_jit_allowed e) b (pe_claiming e)
    (pe_cancel e) (pe_release_mm e) (pe_comm e).

(** Last section of an add that was cancelled, of [ac_del_prot_mm] and of
    [ac_clear_protected]: the unregistration has returned. *)
Definition unreg_done (st : reg_st) (slot : nat) : reg_st :=
  set_prots st slot (set_removing (ac_prots st !!! slot) false).

(** ** Removal *)

(** First section of [ac_del_prot_mm]: the slot whose notifier to
    unregister, or the claims of [mm] flagged as cancelled. *)
Definition del_match (mm : Z) (e : ac_prot_entry) : bool :=
  (pe_mm e =? mm) && negb (pe_removing e).

Definition flag_cancel (mm : Z) (e : ac_prot_entry) : ac_prot_entry :=
  if (pe_mm e =? AC_PROT_RESERVED) && (pe_claiming e =? mm)
  then mk_entry (pe_mm e) (pe_pid e) (pe_jit_allowed e) (pe_removing e)
         (pe_claiming e) true (pe_release_mm e) (pe_comm e)
  else e.

Definition del_mark (st : reg_st) (mm : Z) : option nat * reg_st :=
  match find_index (del_match mm) (ac_prots st) with
  | Some i =>
      (Some i, set_prots st i (set_removing (ac_prots st !!! i) true))
  | None => (None, mk_reg (flag_cancel mm <$> ac_prots st) (ac_prot_count st))
  end.

(** First section of an iteration of [ac_clear_protected]. *)
Definition clear_mark (st : reg_st) (i : nat) : option Z * reg_st :=
  let e := ac_prots st !!! i in
  if negb (pe_mm e =? NULL) && negb (pe_mm e =? AC_PROT_RESERVED) &&
     negb (pe_removing e)
  then (Some (pe_mm e), set_prots st i (set_removing e true))
  else (None, st).

(** ** The release callback *)

Definition release_entry (e : ac_prot_entry) : ac_prot_entry :=
  mk_entry NULL (pe_pid e) (pe_jit_allowed e) true (pe_claiming e)
    (pe_cancel e) (pe_release_mm e) (pe_comm e).

(** The critical section of [ac_mmu_release] on a slot: [Some (pid, comm)]
    when the entry was removed and no caller is unregistering it. *)
Definition release_cs (st : reg_st) (slot : nat) (mm : Z)
    : option (Z * list Z) * reg_st :=
  let e := ac_prots st !!! slot in
  if pe_mm e =? mm then
    (if pe_removing e then None
     else Some (pe_pid e, strscpy AC_MAX_COMM (pe_comm e)),
     mk_reg (<[slot := release_entry e]> (ac_prots st))
       (u32 (ac_prot_count st - 1)))
  else (None, st).

Definition set_release_mm (e : ac_prot_entry) (mm : Z) : ac_prot_entry :=
  mk_entry (pe_mm e) (pe_pid e) (pe_jit_allowed e) (pe_removing e)
    (pe_claiming e) (pe_cancel e) mm (pe_comm e).

(** The rest of [ac_mmu_release] for an organic exit: the event, and the work
    item queued for this slot. *)
Definition exit_event (pid : Z) (comm : list Z) : emission :=
  mk_emission AC_EV_EXIT pid (Some comm) (lit "protected process exited").

Definition release_queue (st : reg_st) (slot : nat) (mm : Z) : reg_st :=
  set_prots st slot (set_release_mm (ac_prots st !!! slot) mm).

(** The last section of [ac_prot_release_worker]. *)
Definition release_worker_done (st : reg_st) (slot : nat) : reg_st :=
  set_prots st slot
    (set_removing (set_release_mm (ac_prots st !!! slot) NULL) false).

(** ** Queries *)

Definition ac_is_protected_mm (st : reg_st) (mm : Z) : bool :=
  if mm =? NULL then false
  else existsb (fun e => pe_mm e =? mm) (ac_prots st).

Definition ac_prot_jit_allowed_mm (st : reg_st) (mm : Z) : bool :=
  let '(found, jit) :=
    foldl (fun '(found, jit) e =>
      if pe_mm e =? mm then (true, jit && pe_jit_allowed e) else (found, jit))
      (false, true) (ac_prots st) in
  found && jit.

Definition ac_protected_count (st : reg_st) : Z := ac_prot_count st.

Fixpoint list_loop (es : list ac_prot_entry) (n : nat) : list ac_prot_item :=
  match es with
  | [] => []
  | e :: es' =>
      if (n <? AC_MAX_PROTS)%nat then
        if (pe_mm e =? NULL) || (pe_mm e =? AC_PROT_RESERVED)
        then list_loop es' n
        else mk_prot_item (pe_pid e) (pe_jit_allowed e)
               (strscpy AC_MAX_COMM (pe_comm e)) :: list_loop es' (S n)
      else []
  end.

(** [out->items[0 .. out->count)] *)
Definition ac_list_protected (st : reg_st) : list ac_prot_item :=
  list_loop (ac_prots st) 0.

(** ** The functions as one thread runs them

    [reg] is what [mmu_notifier_register] returns.  The unregistration of a
    registered notifier calls [ac_mmu_release] before it returns. *)

Definition ac_add_prot_mm (st : reg_st) (mm pid : Z) (comm : list Z)
    (jit : bool) (reg : Z) : Z * reg_st :=
  match add_claim st mm jit with
  | (AddRet r, st1) => (r, st1)
  | (AddClaimed slot, st1) =>
      match add_finish st1 slot mm pid comm jit reg with
      | (FinRet r, st2) => (r, st2)
      | (FinCancelled, st2) =>
          let '(_, st3) := release_cs st2 slot mm in
          (0, unreg_done st3 slot)
      end
  end.

Definition ac_del_prot_mm (st : reg_st) (mm : Z) : reg_st :=
  match del_mark st mm with
  | (None, st1) => st1
  | (Some i, st1) =>
      let '(_, st2) := release_cs st1 i mm in unreg_done st2 i
  end.

(** [exit_mmap] of a protected address space: the callback on [slot], the
    queued work and its unregistration, which finds the notifier unhashed. *)
Definition ac_mmu_release (st : reg_st) (slot : nat) (mm : Z)
    : reg_st * list emission :=
  match release_cs st slot mm with
  | (None, st1) => (st1, [])
  | (Some (pid, comm), st1) =>
      (release_queue st1 slot mm, [exit_event pid comm])
  end.

Definition ac_prot_release_worker (st : reg_st) (slot : nat) : reg_st :=
  release_worker_done st slot.

Definition clear_step (st : reg_st) (i : nat) : reg_st :=
  match clear_mark st i with
  | (None, st1) => st1
  | (Some mm, st1) =>
      let '(_, st2) := release_cs st1 i mm in unreg_done st2 i
  end.

Definition ac_clear_protected (st : reg_st) : reg_st :=
  foldl clear_step st (seq 0 AC_PROT_MAX).

(** ** The scan of [ac_add_prot_mm] *)

(** [mm] is protected or about to be: the two dedupe tests. *)
Definition live (mm : Z) (e : ac_prot_entry) : bool :=
  add_dup mm e || add_claiming mm e.

Definition scan_spec (mm : Z) (es : list ac_prot_entry) (r : scan_result)
    : Prop :=
  match r with
  | ScanDup i => exists e, es !! i = Some e /\ add_dup mm e = true
  | ScanClaiming => exists i e, es !! i = Some e /\ add_claiming mm e = true
  | ScanEnd None =>
      forall i e, es !! i = Some e -> live mm e = false /\ add_free e = false
  | ScanEnd (Some i) =>
      (exists e, es !! i = Some e /\ add_free e = true) /\
      (forall j e, es !! j = Some e -> live mm e = false)
  end.

Lemma add_scan_gen mm pre es slot :
  (forall i e, pre !! i = Some e -> live mm e = false) ->
  match slot with
  | Some i => exists e, pre !! i = Some e /\ add_free e = true
  | None => forall i e, pre !! i = Some e -> add_free e = false
  end ->
  scan_spec mm (pre ++ es) (add_scan mm es (length pre) slot).
Proof.
  revert pre slot. induction es as [|e es IH]; intros pre slot Hl Hs;
    cbn [add_scan].
  - rewrite app_nil_r. destruct slot as [i|]; simpl; [done|]. eauto.
  - assert (forall x, (pre ++ e :: es) !! length pre = Some x <-> x = e) as Hat.
    { intros x. rewrite lookup_app_r, Nat.sub_diag by done. simpl. naive_solver. }
    destruct (add_dup mm e) eqn:Hd; [simpl; exists e; by rewrite Hat|].
    destruct (add_claiming mm e) eqn:Hc.
    { simpl. exists (length pre), e. by rewrite Hat. }
    replace (pre ++ e :: es) with ((pre ++ [e]) ++ es) by by rewrite <- app_assoc.
    replace (S (length pre)) with (length (pre ++ [e]))
      by (rewrite length_app; simpl; lia).
    apply IH.
    + intros i x. rewrite lookup_app_Some.
      intros [?|[_ ?%list_lookup_singleton_Some]]; [by eapply Hl|].
      unfold live. destruct_and!. subst. by rewrite Hd, Hc.
    + destruct slot as [i|].
      * destruct Hs as (x & Hx & Hf). exists x. split; [|done].
        by apply lookup_app_l_Some.
      * destruct (add_free e) eqn:Hf.
        -- exists e. rewrite lookup_app_r, Nat.sub_diag by done. done.
        -- intros i x. rewrite lookup_app_Some.
           intros [?|[_ ?%list_lookup_singleton_Some]]; [by eapply Hs|].
           destruct_and!. by subst.
Qed.

Lemma add_scan_spec mm es : scan_spec mm es (add_scan mm es 0 None).
Proof.
  apply (add_scan_gen mm [] es None); intros i e; by rewrite lookup_nil.
Qed.

Lemma prots_total st i e :
  ac_prots st !! i = Some e -> ac_prots st !!! i = e.
Proof. apply list_lookup_total_correct. Qed.

(** ** Sequential behaviour

    With no thread in flight the registry is a finite map from address spaces
    to their display data and JIT flag, of at most [AC_PROT_MAX] keys. *)

Definition published (e : ac_prot_entry) : bool :=
  negb (pe_mm e =? NULL) && negb (pe_mm e =? AC_PROT_RESERVED).

Definition item_of (e : ac_prot_entry) : ac_prot_item :=
  mk_prot_item (pe_pid e) (pe_jit_allowed e) (pe_comm e).

Record settled (st : reg_st) : Prop := {
  set_len : length (ac_prots st) = AC_PROT_MAX;
  set_idle : forall i e, ac_prots st !! i = Some e ->
    pe_removing e = false /\ (pe_mm e = NULL \/ 1 < pe_mm e);
  set_unique : forall i j e e', ac_prots st !! i = Some e ->
    ac_prots st !! j = Some e' -> published e = true -> pe_mm e = pe_mm e' ->
    i = j;
  set_count :
    ac_prot_count st = Z.of_nat (count_if published (ac_prots st));
  set_comm : forall i e, ac_prots st !! i = Some e ->
    (length (pe_comm e) < AC_MAX_COMM)%nat;
}.

(** The map: [has st mm x] when [mm] is protected with data [x]. *)
Definition has (st : reg_st) (mm : Z) (x : ac_prot_item) : Prop :=
  exists i e, ac_prots st !! i = Some e /\ pe_mm e = mm /\ item_of e = x.

Lemma published_mm e mm : 1 < mm -> pe_mm e = mm -> published e = true.
Proof.
  intros H He. unfold published, NULL, AC_PROT_RESERVED. rewrite He.
  destruct (Z.eqb_spec mm 0), (Z.eqb_spec mm 1); (done || lia).
Qed.

(** Replacing the entry of one slot. *)
Lemma settled_insert st i e e' c :
  settled st -> ac_prots st !! i = Some e ->
  pe_removing e' = false -> (pe_mm e' = NULL \/ 1 < pe_mm e') ->
  (length (pe_comm e') < AC_MAX_COMM)%nat ->
  (published e' = true -> pe_mm e' = pe_mm e \/
     forall j ej, ac_prots st !! j = Some ej -> pe_mm ej <> pe_mm e') ->
  c = ac_prot_count st + (if published e' then 1 else 0)
      - (if published e then 1 else 0) ->
  settled (mk_reg (<[i := e']> (ac_prots st)) c).
Proof.
  intros [Hlen Hidle Huniq Hcount Hcomm] He Hr Hm Hcl Hfresh ->. split; simpl.
  - by rewrite length_insert.
  - intros j ej [(-> & -> & _)|[_ Hj]]%list_lookup_insert_case; [done|eauto].
  - intros j1 j2 e1 e2 [(-> & -> & _)|[N1 H1]]%list_lookup_insert_case
      [(-> & -> & _)|[N2 H2]]%list_lookup_insert_case Hp Heq; try done.
    + destruct (Hfresh Hp) as [Hs|Hs].
      * apply (Huniq _ _ e e2 He H2); [|congruence].
        unfold published in *. by rewrite <- Hs.
      * exfalso. by apply (Hs _ _ H2).
    + assert (published e' = true) as Hp'.
      { unfold published in *. by rewrite <- Heq. }
      destruct (Hfresh Hp') as [Hs|Hs].
      * by apply (Huniq _ _ e1 e H1 He Hp); congruence.
      * exfalso. by apply (Hs _ _ H1).
    + by apply (Huniq _ _ e1 e2).
  - pose proof (count_if_insert published _ i e e' He) as Hc.
    rewrite Hcount. destruct (published e), (published e'); lia.
  - intros j ej [(-> & -> & _)|[_ Hj]]%list_lookup_insert_case; [done|eauto].
Qed.

Lemma has_insert st i e e' c m x :
  1 < m -> ac_prots st !! i = Some e ->
  has (mk_reg (<[i := e']> (ac_prots st)) c) m x <->
  (pe_mm e' = m /\ item_of e' = x) \/
  exists j ej, j <> i /\ ac_prots st !! j = Some ej /\ pe_mm ej = m /\
               item_of ej = x.
Proof.
  intros Hm He. unfold has. simpl. split.
  - intros (j & ej & [(-> & -> & _)|[Hne Hj]]%list_lookup_insert_case & H1 & H2);
      [by left|right; eauto 10].
  - intros [[H1 H2]|(j & ej & Hne & Hj & H1 & H2)].
    + exists i, e'. rewrite list_lookup_insert_eq by (by eapply lookup_lt_Some).
      done.
    + exists j, ej. by rewrite list_lookup_insert_ne.
Qed.

Lemma has_unique st mm x y :
  settled st -> 1 < mm -> has st mm x -> has st mm y -> x = y.
Proof.
  intros S Hmm (i & e & He & Hm & <-) (j & e' & He' & Hm' & <-).
  assert (i = j) as <-.
  { apply (set_unique _ S i j e e' He He'); [by eapply published_mm|congruence]. }
  congruence.
Qed.

(** What [has] becomes when slot [i], which held [e], holds [e']. *)
Lemma has_replaced st i e e' c m x :
  settled st -> 1 < m -> ac_prots st !! i = Some e ->
  has (mk_reg (<[i := e']> (ac_prots st)) c) m x <->
  (pe_mm e' = m /\ item_of e' = x) \/ (pe_mm e <> m /\ has st m x).
Proof.
  intros S Hm He. rewrite (has_insert st i e) by done. split.
  - intros [?|(j & ej & Hne & Hj & H1 & H2)]; [by left|right]. split.
    + intros Hem. apply Hne. apply (set_unique _ S j i ej e); try done.
      * by eapply published_mm.
      * congruence.
    + exists j, ej. done.
  - intros [?|[Hne (j & ej & Hj & H1 & H2)]]; [by left|right].
    exists j, ej. split; [|done]. intros ->. congruence.
Qed.

Lemma settled_not_live st mm i e :
  settled st -> 1 < mm -> ac_prots st !! i = Some e ->
  live mm e = true <-> pe_mm e = mm.
Proof.
  intros S Hmm He. destruct (set_idle _ S i e He) as [Hr Hm].
  unfold live, add_dup, add_claiming, AC_PROT_RESERVED, NULL in *. rewrite Hr.
  destruct (Z.eqb_spec (pe_mm e) 1); [lia|]. simpl.
  rewrite andb_true_r, orb_false_r. apply Z.eqb_eq.
Qed.

Lemma settled_full st :
  settled st -> (forall i e, ac_prots st !! i = Some e -> add_free e = false) ->
  ac_prot_count st = Z.of_nat AC_PROT_MAX.
Proof.
  intros S Hf. rewrite (set_count _ S), <- (set_len _ S). f_equal.
  rewrite (count_if_ext _ (fun _ => true)).
  - clear. induction (ac_prots st); simpl; congruence.
  - intros i e He. specialize (Hf i e He).
    destruct (set_idle _ S i e He) as [Hr Hm].
    unfold add_free, published, NULL, AC_PROT_RESERVED in *.
    rewrite Hr, andb_true_r in Hf.
    destruct (Z.eqb_spec (pe_mm e) 0), (Z.eqb_spec (pe_mm e) 1); (done || lia).
Qed.

Lemma settled_room st i e :
  settled st -> ac_prots st !! i = Some e -> add_free e = true ->
  ac_prot_count st < Z.of_nat AC_PROT_MAX /\ published e = false /\
  pe_mm e = NULL.
Proof.
  intros S He Hf. assert (published e = false /\ pe_mm e = NULL) as [Hp Hm].
  { unfold add_free, published in *. boolp. destruct Hf as [-> _]. auto. }
  split; [|done]. rewrite (set_count _ S), <- (set_len _ S).
  pose proof (count_if_le published (ac_prots st)) as Hle.
  destruct (decide (count_if published (ac_prots st) = length (ac_prots st)))
    as [E|]; [|lia].
  by rewrite (count_if_full _ _ E i e He) in Hp.
Qed.

Definition add_outcome (st st' : reg_st) (mm pid : Z) (comm : list Z)
    (jit : bool) (reg ret : Z) : Prop :=
  (exists x, has st mm x /\ ret = 0 /\
     forall m y, 1 < m -> has st' m y <->
       if decide (m = mm) then y = mk_prot_item (pi_pid x) jit (pi_comm x)
       else has st m y) \/
  ((forall x, ~ has st mm x) /\
   ((ac_prot_count st = Z.of_nat AC_PROT_MAX /\ ret = - ENOSPC /\ st' = st) \/
    (ac_prot_count st < Z.of_nat AC_PROT_MAX /\ ret = reg /\
     forall m y, 1 < m -> has st' m y <->
       if decide (m = mm /\ reg = 0)
       then y = mk_prot_item pid jit (strscpy AC_MAX_COMM comm)
       else has st m y))).

Lemma settled_absent st mm x :
  settled st -> 1 < mm ->
  (forall j e, ac_prots st !! j = Some e -> live mm e = false) ->
  ~ has st mm x.
Proof.
  intros S Hmm Hnone (j & ej & Hj & Hmj & _).
  apply (settled_not_live st mm j ej S Hmm Hj) in Hmj.
  by rewrite (Hnone j ej Hj) in Hmj.
Qed.

(** The JIT flag of a protected address space is overwritten. *)
Lemma jit_refines st i e jit :
  settled st -> ac_prots st !! i = Some e -> 1 < pe_mm e ->
  settled (set_prots st i (set_jit e jit)) /\
  forall m y, 1 < m -> has (set_prots st i (set_jit e jit)) m y <->
    if decide (m = pe_mm e) then y = mk_prot_item (pe_pid e) jit (pe_comm e)
    else has st m y.
Proof.
  intros S He Hm. destruct (set_idle _ S i e He) as [Hr Hi]. split.
  - apply (settled_insert st i e); try done.
    + by apply (set_comm _ S i e).
    + by left.
    + unfold published, set_jit. simpl. lia.
  - intros m y Hm1. unfold set_prots.
    rewrite (has_replaced st i e) by done. simpl.
    destruct (decide (m = pe_mm e)) as [->|]; [|naive_solver].
    unfold item_of at 1. simpl. naive_solver.
Qed.

(** A claimed slot is published. *)
Lemma publish_refines st i e e' mm :
  settled st -> ac_prots st !! i = Some e -> add_free e = true -> 1 < mm ->
  (forall x, ~ has st mm x) -> pe_mm e' = mm -> pe_removing e' = false ->
  (length (pe_comm e') < AC_MAX_COMM)%nat ->
  let st' := mk_reg (<[i := e']> (ac_prots st)) (u32 (ac_prot_count st + 1)) in
  settled st' /\
  forall m y, 1 < m -> has st' m y <->
    if decide (m = mm) then y = item_of e' else has st m y.
Proof.
  intros S He Hf Hmm Hno Hme' Hr' Hc'.
  destruct (settled_room st i e S He Hf) as (Hroom & Hpe & Hne).
  assert (published e' = true) as Hpe' by by apply (published_mm e' mm).
  split.
  - apply (settled_insert st i e); try done.
    + right. lia.
    + intros _. right. intros j ej Hj Hmj. apply (Hno (item_of ej)).
      exists j, ej. split; [done|]. split; [congruence|done].
    + rewrite Hpe, Hpe', (set_count _ S) in *.
      unfold AC_PROT_MAX in Hroom. rewrite u32_id; lia.
  - intros m y Hm1. rewrite (has_replaced st i e) by done.
    destruct (decide (m = mm)) as [->|Hd].
    + split; [|by intros ->; left].
      intros [[_ <-]|[_ Hy]]; [done|by destruct (Hno y)].
    + split; [|intros; right; split; [unfold NULL in *; lia|done]].
      intros [[Hm2 _]|[_ Hy]]; [congruence|done].
Qed.

(** A slot that held nothing holds nothing. *)
Lemma unclaim_refines st i e e' :
  settled st -> ac_prots st !! i = Some e -> pe_mm e = NULL ->
  pe_mm e' = NULL -> pe_removing e' = false ->
  (length (pe_comm e') < AC_MAX_COMM)%nat ->
  let st' := set_prots st i e' in
  settled st' /\ forall m y, 1 < m -> has st' m y <-> has st m y.
Proof.
  intros S He Hm Hm' Hr Hc. split.
  - apply (settled_insert st i e); try done; [by left|by left; congruence|].
    unfold published. rewrite Hm, Hm'. simpl. lia.
  - intros m y Hm1. unfold set_prots. rewrite (has_replaced st i e) by done.
    unfold NULL in *. simpl. naive_solver lia.
Qed.

(** Protecting an address space, with no other operation in flight, acts
    on the map from address spaces to display data: an already protected one
    only has its JIT flag overwritten; otherwise a full registry answers
    -ENOSPC and is unchanged, a failed notifier registration returns its error
    and leaves the map as it was, and a successful one adds exactly the new
    key with the given pid, JIT flag and truncated name. *)
Lemma add_refines st mm pid comm jit reg :
  settled st -> 1 < mm ->
  let '(ret, st') := ac_add_prot_mm st mm pid comm jit reg in
  settled st' /\ add_outcome st st' mm pid comm jit reg ret.
Proof.
  intros S Hmm. unfold ac_add_prot_mm, add_claim.
  pose proof (add_scan_spec mm (ac_prots st)) as Hsc.
  destruct (add_scan _ _ _ _) as [i| |[i|]]; simpl in Hsc.
  - destruct Hsc as (e & He & Hd). rewrite (prots_total _ _ _ He).
    assert (pe_mm e = mm) as <- by (unfold add_dup in Hd; boolp; tauto).
    destruct (jit_refines st i e jit S He Hmm) as [S' Hh]. split; [done|].
    left. exists (item_of e). split; [by exists i, e|done].
  - destruct Hsc as (i & e & He & Hc). exfalso.
    destruct (set_idle _ S i e He) as [_ Hm].
    unfold add_claiming, AC_PROT_RESERVED, NULL in *. boolp. lia.
  - destruct Hsc as ((e & He & Hf) & Hnone). rewrite (prots_total _ _ _ He).
    destruct (settled_room st i e S He Hf) as (Hroom & _ & Hne).
    destruct (set_idle _ S i e He) as [Hr _].
    assert (forall x, ~ has st mm x) as Hno by (intros x; by apply settled_absent).
    assert ((i < length (ac_prots st))%nat) as Hlt by by eapply lookup_lt_Some.
    unfold add_finish. cbn [set_prots ac_prots ac_prot_count].
    rewrite list_lookup_total_insert_eq by done. cbn [claim_entry pe_cancel].
    destruct (Z.eqb_spec reg 0) as [->|Hreg]; cbn [negb].
    + rewrite list_insert_insert_eq. set (e' := publish_entry _ _ _ _ _).
      destruct (publish_refines st i e e' mm) as [S' Hh]; try done.
      { pose proof (length_strscpy AC_MAX_COMM comm). simpl.
        unfold AC_MAX_COMM in *. lia. }
      split; [done|]. right. split; [done|right]. do 2 (split; [done|]).
      intros m y Hm1. rewrite Hh by done.
      destruct (decide (m = mm)), (decide (m = mm /\ 0 = 0)); tauto.
    + unfold set_prots at 1 3. cbn [ac_prots ac_prot_count set_prots].
      rewrite list_insert_insert_eq.
      destruct (unclaim_refines st i e
        (unclaim_entry (claim_entry e mm) (pe_removing e))) as [S' Hh]; try done.
      { by apply (set_comm _ S i e). }
      split; [done|]. right. split; [done|right]. do 2 (split; [done|]).
      intros m y Hm1. rewrite decide_False by tauto. by apply Hh.
  - split; [done|]. right. split.
    + intros x. apply settled_absent; [done..|]. intros j e Hj. by apply (Hsc j).
    + left. split; [|done]. apply settled_full; [done|].
      intros j ej Hj. by apply (Hsc j ej).
Qed.

(** A published slot is emptied. *)
Lemma remove_refines st i e e' :
  settled st -> ac_prots st !! i = Some e -> 1 < pe_mm e ->
  pe_mm e' = NULL -> pe_removing e' = false -> pe_comm e' = pe_comm e ->
  let st' := mk_reg (<[i := e']> (ac_prots st)) (u32 (ac_prot_count st - 1)) in
  settled st' /\
  forall m y, 1 < m -> has st' m y <-> m <> pe_mm e /\ has st m y.
Proof.
  intros S He Hm Hm' Hr Hc.
  assert (published e = true) as Hpe by by eapply published_mm.
  assert (published e' = false) as Hpe' by (unfold published; by rewrite Hm').
  split.
  - apply (settled_insert st i e); try done; [by left|..].
    + rewrite Hc. by apply (set_comm _ S i).
    + congruence.
    + pose proof (count_if_insert published _ i e e' He) as Hn.
      pose proof (count_if_le published (ac_prots st)) as Hl.
      rewrite (set_len _ S) in Hl. unfold AC_PROT_MAX in Hl.
      rewrite Hpe, Hpe', (set_count _ S) in *. rewrite u32_id; lia.
  - intros m y Hm1. rewrite (has_replaced st i e) by done.
    unfold NULL in *. split; [|intros []; right; split; congruence].
    intros [[? _]|[? ?]]; [lia|]. split; congruence.
Qed.

(** Marking a slot, the release callback and the end of the unregistration,
    one after the other. *)
Lemma unregister_refines st i e :
  settled st -> ac_prots st !! i = Some e -> 1 < pe_mm e ->
  let '(_, st2) :=
    release_cs (set_prots st i (set_removing e true)) i (pe_mm e) in
  let st' := unreg_done st2 i in
  settled st' /\
  (forall m y, 1 < m -> has st' m y <-> m <> pe_mm e /\ has st m y) /\
  (forall j, ac_prots st' !! j =
     if decide (j = i) then Some (set_removing (release_entry e) false)
     else ac_prots st !! j).
Proof.
  intros S He Hm.
  assert ((i < length (ac_prots st))%nat) as Hlt by by eapply lookup_lt_Some.
  unfold release_cs, unreg_done, set_prots. cbn [ac_prots ac_prot_count].
  rewrite list_lookup_total_insert_eq by done.
  cbn [set_removing pe_mm pe_removing]. rewrite Z.eqb_refl.
  cbn [ac_prots ac_prot_count].
  rewrite list_lookup_total_insert_eq by (by rewrite length_insert).
  rewrite !list_insert_insert_eq.
  assert (forall j, <[i := set_removing (release_entry e) false]> (ac_prots st) !! j =
    if decide (j = i) then Some (set_removing (release_entry e) false)
    else ac_prots st !! j) as Hj.
  { intros j. case_decide; [subst; by apply list_lookup_insert_eq|].
    by apply list_lookup_insert_ne. }
  edestruct (remove_refines st i e (set_removing (release_entry e) false))
    as [S' Hh]; try done.
Qed.

(** Unprotecting an address space removes exactly its key: afterwards no
    slot carries it, and every other address space keeps its data.  An address
    space that was not protected changes nothing. *)
Lemma del_refines st mm :
  settled st -> 1 < mm ->
  settled (ac_del_prot_mm st mm) /\
  forall m y, 1 < m ->
    has (ac_del_prot_mm st mm) m y <-> m <> mm /\ has st m y.
Proof.
  intros S Hmm. unfold ac_del_prot_mm, del_mark.
  destruct (find_index _ _) as [i|] eqn:Ef.
  - apply find_index_Some in Ef as [(e & He & Hd) _].
    assert (pe_mm e = mm) as <- by (unfold del_match in Hd; boolp; tauto).
    rewrite (prots_total _ _ _ He).
    pose proof (unregister_refines st i e S He Hmm) as Hu.
    destruct (release_cs _ _ _) as [o st2]. by destruct Hu as (? & ? & _).
  - rewrite find_index_None in Ef.
    assert (flag_cancel mm <$> ac_prots st = ac_prots st) as ->.
    { rewrite <- (list_fmap_id (ac_prots st)) at 2. apply list_fmap_ext.
      intros i e He. destruct (set_idle _ S i e He) as [_ Hm].
      unfold flag_cancel, AC_PROT_RESERVED, NULL in *.
      destruct (Z.eqb_spec (pe_mm e) 1); [lia|done]. }
    destruct st as [es c]. cbn [ac_prots ac_prot_count] in *.
    split; [done|]. intros m y Hm. split; [|tauto]. intros Hh. split; [|done].
    intros ->. destruct Hh as (i & e & He & Hme & _). specialize (Ef i e He).
    destruct (set_idle _ S i e He) as [Hr _].
    unfold del_match in Ef. rewrite Hr, Hme, Z.eqb_refl in Ef. done.
Qed.

Lemma clear_step_settled st i e :
  settled st -> ac_prots st !! i = Some e ->
  settled (clear_step st i) /\
  forall j ej, ac_prots (clear_step st i) !! j = Some ej ->
    if decide (j = i) then pe_mm ej = NULL else ac_prots st !! j = Some ej.
Proof.
  intros S He. destruct (set_idle _ S i e He) as [Hr Hm].
  unfold clear_step, clear_mark. rewrite (prots_total _ _ _ He), Hr.
  destruct (Z.eqb_spec (pe_mm e) NULL) as [E|]; simpl.
  { split; [done|]. intros j ej Hj. case_decide; [|done]. congruence. }
  destruct (Z.eqb_spec (pe_mm e) AC_PROT_RESERVED) as [E|]; simpl.
  { unfold AC_PROT_RESERVED, NULL in *. lia. }
  pose proof (unregister_refines st i e S He ltac:(tauto)) as Hu.
  destruct (release_cs _ _ _) as [o st2]. destruct Hu as (? & _ & Hj).
  split; [done|]. intros j ej. rewrite Hj. case_decide; [|done].
  by intros [= <-].
Qed.

(** Clearing the registry leaves nothing protected and a zero count,
    whatever it held. *)
Lemma clear_refines st :
  settled st ->
  settled (ac_clear_protected st) /\ ac_protected_count (ac_clear_protected st) = 0 /\
  forall mm, ac_is_protected_mm (ac_clear_protected st) mm = false.
Proof.
  intros S. unfold ac_clear_protected.
  assert (forall n, (n <= AC_PROT_MAX)%nat ->
    let st' := foldl clear_step st (seq 0 n) in settled st' /\
    forall j ej, (j < n)%nat -> ac_prots st' !! j = Some ej -> pe_mm ej = NULL)
    as Hn.
  { induction n as [|n IH]; intros Hle; [simpl; split; [done|lia]|].
    rewrite seq_S, foldl_app. destruct IH as [S' Hj]; [lia|]. simpl in *.
    destruct (lookup_lt_is_Some_list (ac_prots (foldl clear_step st (seq 0 n))) n)
      as [e He]; [rewrite (set_len _ S'); lia|].
    destruct (clear_step_settled _ n e S' He) as [S'' Hj']. split; [done|].
    intros j ej Hlt Hl. specialize (Hj' j ej Hl). case_decide; [done|].
    apply (Hj j); [lia|done]. }
  destruct (Hn AC_PROT_MAX) as [S' Hj]; [done|]. clear Hn.
  assert (forall j ej, ac_prots (foldl clear_step st (seq 0 AC_PROT_MAX)) !! j =
    Some ej -> pe_mm ej = NULL) as Hall.
  { intros j ej Hl. apply (Hj j); [|done]. rewrite <- (set_len _ S').
    by eapply lookup_lt_Some. }
  split; [done|]. split.
  - unfold ac_protected_count. rewrite (set_count _ S'), count_if_0; [done|].
    intros j ej Hl. unfold published. by rewrite (Hall j ej Hl).
  - intros mm. unfold ac_is_protected_mm. destruct (Z.eqb_spec mm NULL); [done|].
    apply not_true_is_false. rewrite existsb_exists.
    intros (e & (j & Hl)%list_elem_of_In%list_elem_of_lookup & Hm).
    rewrite (Hall j e Hl) in Hm. boolp. congruence.
Qed.

(** ** Queries *)

Lemma is_protected_has st mm :
  1 < mm -> ac_is_protected_mm st mm = true <-> exists x, has st mm x.
Proof.
  intros Hmm. unfold ac_is_protected_mm, NULL.
  destruct (Z.eqb_spec mm 0); [lia|]. rewrite existsb_exists. split.
  - intros (e & (i & Hi)%list_elem_of_In%list_elem_of_lookup & Hm).
    boolp. by exists (item_of e), i, e.
  - intros (x & i & e & Hi & Hm & _). exists e. split; [|by boolp].
    apply list_elem_of_In. by eapply list_elem_of_lookup_2.
Qed.

Lemma jit_loop mm es found jit :
  foldl (fun '(found, jit) e =>
      if pe_mm e =? mm then (true, jit && pe_jit_allowed e) else (found, jit))
    (found, jit) es =
  (found || existsb (fun e => pe_mm e =? mm) es,
   jit && forallb (fun e => negb (pe_mm e =? mm) || pe_jit_allowed e) es).
Proof.
  revert found jit. induction es as [|e es IH]; intros found jit; simpl.
  - by rewrite orb_false_r, andb_true_r.
  - destruct (pe_mm e =? mm); rewrite IH; simpl; [|done].
    by rewrite orb_true_r, andb_assoc.
Qed.

Lemma jit_allowed_has st mm :
  1 < mm ->
  ac_prot_jit_allowed_mm st mm = true <->
  (exists x, has st mm x) /\
  forall x, has st mm x -> pi_jit_allowed x = true.
Proof.
  intros Hmm. unfold ac_prot_jit_allowed_mm. rewrite jit_loop. simpl.
  rewrite andb_true_iff, forallb_forall.
  rewrite <- (is_protected_has st mm Hmm). unfold ac_is_protected_mm, NULL.
  destruct (Z.eqb_spec mm 0); [lia|]. apply and_iff_compat_l. split.
  - intros Hf x (i & e & Hi & Hm & <-). simpl.
    specialize (Hf e). rewrite Hm, Z.eqb_refl in Hf. apply Hf.
    apply list_elem_of_In. by eapply list_elem_of_lookup_2.
  - intros Hf e (i & Hi)%list_elem_of_In%list_elem_of_lookup.
    destruct (Z.eqb_spec (pe_mm e) mm) as [Hm|]; [|done]. simpl.
    apply (Hf (item_of e)). by exists i, e.
Qed.

Lemma list_loop_spec es n :
  (length es + n <= AC_MAX_PROTS)%nat ->
  (forall i e, es !! i = Some e -> (length (pe_comm e) < AC_MAX_COMM)%nat) ->
  list_loop es n = item_of <$> filter published es /\
  length (list_loop es n) = count_if published es.
Proof.
  revert n. induction es as [|e es IH]; intros n Hn Hc; simpl; [done|].
  simpl in Hn. destruct (Nat.ltb_spec n AC_MAX_PROTS); [|lia].
  assert (published e = negb ((pe_mm e =? NULL) || (pe_mm e =? AC_PROT_RESERVED)))
    as Hp by (unfold published; by rewrite negb_orb).
  destruct ((pe_mm e =? NULL) || (pe_mm e =? AC_PROT_RESERVED)); simpl in Hp.
  - rewrite filter_cons_False by (rewrite Hp; tauto). rewrite Hp.
    apply IH; [lia|]. intros i. apply (Hc (S i)).
  - rewrite filter_cons_True by (rewrite Hp; exact I). rewrite Hp. csimpl.
    destruct (IH (S n)) as [-> ->]; [lia|intros i; apply (Hc (S i))|].
    split; [|done]. f_equal. unfold item_of. f_equal. apply strscpy_id.
    specialize (Hc O e eq_refl). lia.
Qed.

(** The queries agree with the map: the handlers' membership test holds
    exactly for the protected address spaces, the JIT exemption holds exactly
    when the address space is protected and every record of it allows JIT, and
    the listing handed to user space has one item per protected address space,
    as many as the reported count. *)
Theorem queries_exact st :
  settled st ->
  (forall mm, 1 < mm ->
     (ac_is_protected_mm st mm = true <-> exists x, has st mm x) /\
     (ac_prot_jit_allowed_mm st mm = true <->
      exists x, has st mm x /\ pi_jit_allowed x = true)) /\
  (forall y, y ∈ ac_list_protected st <-> exists mm, 1 < mm /\ has st mm y) /\
  Z.of_nat (length (ac_list_protected st)) = ac_protected_count st.
Proof.
  intros S. destruct (list_loop_spec (ac_prots st) 0) as [Hl Hc].
  { rewrite (set_len _ S). by vm_compute. } { apply (set_comm _ S). }
  unfold ac_list_protected, ac_protected_count. rewrite Hc, Hl, (set_count _ S).
  split; [|split; [|done]].
  - intros mm Hmm. rewrite is_protected_has, jit_allowed_has by done.
    split; [done|]. split; [naive_solver|]. intros (x & Hx & Hj).
    split; [by exists x|]. intros y Hy. by rewrite (has_unique st mm y x).
  - intros y. rewrite list_elem_of_fmap. split.
    + intros (e & -> & [Hp (i & Hi)%list_elem_of_lookup]%list_elem_of_filter).
      exists (pe_mm e). destruct (set_idle _ S i e Hi) as [_ Hm].
      split; [|by exists i, e]. unfold published in Hp.
      destruct Hm as [Hm|]; [by rewrite Hm in Hp|done].
    + intros (mm & Hmm & i & e & Hi & Hm & <-). exists e. split; [done|].
      apply list_elem_of_filter. split; [|by eapply list_elem_of_lookup_2].
      apply Is_true_true. by eapply published_mm.
Qed.

(** What a protect does to the membership test. *)
Lemma add_protects st mm pid comm jit reg ret st' :
  settled st -> 1 < mm ->
  ac_add_prot_mm st mm pid comm jit reg = (ret, st') ->
  settled st' /\
  (forall m, 1 < m ->
     ac_is_protected_mm st' m = ac_is_protected_mm st m || ((m =? mm) && (ret =? 0))).
Proof.
  intros S Hmm E. pose proof (add_refines st mm pid comm jit reg S Hmm) as Ha.
  rewrite E in Ha. destruct Ha as [S' Ha]. split; [done|]. intros m Hm.
  apply eq_true_iff_eq. rewrite orb_true_iff, andb_true_iff, !is_protected_has by done.
  rewrite !Z.eqb_eq. destruct Ha as [(x & Hx & -> & Hh)|[Hno Hc]].
  - setoid_rewrite Hh; [|done..]. destruct (decide (m = mm)) as [->|]; naive_solver.
  - destruct Hc as [(_ & -> & ->)|(_ & -> & Hh)].
    + unfold ENOSPC. split; [by left|]. intros [?|[_ ?]]; [done|lia].
    + setoid_rewrite Hh; [|done..].
      destruct (decide (m = mm /\ reg = 0)) as [[-> ->]|]; naive_solver.
Qed.

Lemma del_unprotects st mm :
  settled st -> 1 < mm ->
  settled (ac_del_prot_mm st mm) /\
  (forall m, 1 < m -> ac_is_protected_mm (ac_del_prot_mm st mm) m =
     ac_is_protected_mm st m && negb (m =? mm)).
Proof.
  intros S Hmm. destruct (del_refines st mm S Hmm) as [S' Hh]. split; [done|].
  intros m Hm. apply eq_true_iff_eq.
  rewrite andb_true_iff, negb_true_iff, Z.eqb_neq, !is_protected_has by done.
  setoid_rewrite Hh; [|done]. naive_solver.
Qed.

(** ** The empty registry, and one with a protected game *)

Lemma settled_init : settled reg_init.
Proof.
  split; cbn [reg_init ac_prots ac_prot_count].
  - done.
  - intros i e [-> _]%lookup_replicate. split; [done|by left].
  - intros i j e e' [-> _]%lookup_replicate. done.
  - done.
  - intros i e [-> _]%lookup_replicate. simpl. unfold AC_MAX_COMM. lia.
Qed.

Definition one_game : reg_st :=
  mk_reg (<[0%nat := mk_entry 4096 42 true false 0 false 0 (lit "game")]>
            (ac_prots reg_init)) 1.

Lemma settled_one_game : settled one_game.
Proof.
  apply (publish_refines reg_init 0 free_entry
    (mk_entry 4096 42 true false 0 false 0 (lit "game")) 4096);
    try done; [apply settled_init| |simpl; unfold AC_MAX_COMM; lia].
  intros x (i & e & [-> _]%lookup_replicate & Hm & _). done.
Qed.

Lemma queries_exact_witness :
  ac_list_protected one_game = [mk_prot_item 42 true (lit "game")] /\
  Z.of_nat (length (ac_list_protected one_game)) = ac_protected_count one_game.
Proof.
  split; [reflexivity|]. apply (queries_exact one_game settled_one_game).
Defined.

(** ** Refinement of a bounded finite map *)

Inductive reg_op :=
  | OpAdd (mm pid : Z) (comm : list Z) (jit : bool) (reg : Z)
  | OpDel (mm : Z)
  | OpClear.

Definition run_op (st : reg_st) (o : reg_op) : Z * reg_st :=
  match o with
  | OpAdd mm pid comm jit reg => ac_add_prot_mm st mm pid comm jit reg
  | OpDel mm => (0, ac_del_prot_mm st mm)
  | OpClear => (0, ac_clear_protected st)
  end.

Definition spec_op (m : gmap Z ac_prot_item) (o : reg_op)
    : Z * gmap Z ac_prot_item :=
  match o with
  | OpAdd mm pid comm jit reg =>
      match m !! mm with
      | Some x => (0, <[mm := mk_prot_item (pi_pid x) jit (pi_comm x)]> m)
      | None =>
          if (AC_PROT_MAX <=? size m)%nat then (- ENOSPC, m)
          else if reg =? 0
          then (0, <[mm := mk_prot_item pid jit (strscpy AC_MAX_COMM comm)]> m)
          else (reg, m)
      end
  | OpDel mm => (0, delete mm m)
  | OpClear => (0, ∅)
  end.

(** Address spaces are neither NULL nor the reservation mark. *)
Definition op_ok (o : reg_op) : Prop :=
  match o with OpAdd mm _ _ _ _ | OpDel mm => 1 < mm | OpClear => True end.

Fixpoint run_ops {S} (f : S -> reg_op -> Z * S) (st : S) (os : list reg_op)
    : list Z * S :=
  match os with
  | [] => ([], st)
  | o :: os' =>
      let '(r, st1) := f st o in
      let '(rs, st2) := run_ops f st1 os' in (r :: rs, st2)
  end.

Record repr (st : reg_st) (m : gmap Z ac_prot_item) : Prop := {
  repr_settled : settled st;
  repr_keys : forall mm x, m !! mm = Some x -> 1 < mm;
  repr_has : forall mm x, 1 < mm -> has st mm x <-> m !! mm = Some x;
}.

Lemma filter_keys_NoDup es :
  (forall i j e e', es !! i = Some e -> es !! j = Some e' ->
     published e = true -> pe_mm e = pe_mm e' -> i = j) ->
  NoDup (pe_mm <$> filter published es).
Proof.
  induction es as [|e es IH]; intros Hu; [constructor|].
  assert (NoDup (pe_mm <$> filter published es)) as Hn.
  { apply IH. intros i j e1 e2 H1 H2 Hp He.
    specialize (Hu (S i) (S j) e1 e2 H1 H2 Hp He). congruence. }
  destruct (decide (published e)) as [Hp|Hp].
  - rewrite filter_cons_True by done. csimpl. apply NoDup_cons. split; [|done].
    rewrite list_elem_of_fmap.
    intros (e' & He & [_ (j & Hj)%list_elem_of_lookup]%list_elem_of_filter).
    apply Is_true_true in Hp. by specialize (Hu O (S j) e e' eq_refl Hj Hp He).
  - by rewrite filter_cons_False.
Qed.

Lemma repr_size st m : repr st m -> Z.of_nat (size m) = ac_prot_count st.
Proof.
  intros [S Hk Hh]. set (l := (fun e => (pe_mm e, item_of e)) <$>
    filter published (ac_prots st)).
  assert (NoDup l.*1) as Hn.
  { subst l. rewrite <- list_fmap_compose. apply filter_keys_NoDup, (set_unique _ S). }
  assert (m = list_to_map l) as ->.
  { apply map_eq. intros mm. apply option_eq. intros x.
    rewrite <- elem_of_list_to_map by done. unfold l. rewrite list_elem_of_fmap.
    split.
    - intros Hx. pose proof (Hk mm x Hx) as Hmm.
      apply Hh in Hx as (i & e & Hi & Hm & <-); [|done]. exists e.
      split; [congruence|]. apply list_elem_of_filter.
      split; [|by eapply list_elem_of_lookup_2].
      apply Is_true_true. by eapply published_mm.
    - intros (e & [= -> ->] & [Hp (i & Hi)%list_elem_of_lookup]%list_elem_of_filter).
      destruct (set_idle _ S i e Hi) as [_ [Hm|Hm]].
      + unfold published in Hp. by rewrite Hm in Hp.
      + apply Hh; [done|]. by exists i, e. }
  rewrite <- length_map_to_list, map_to_list_to_map by done.
  rewrite (set_count _ S). unfold l. rewrite length_fmap. f_equal.
  destruct (list_loop_spec (ac_prots st) 0) as [Hl Hc].
  { rewrite (set_len _ S). by vm_compute. } { apply (set_comm _ S). }
  by rewrite <- Hc, Hl, length_fmap.
Qed.

Lemma repr_lookup_None st m mm :
  repr st m -> 1 < mm -> (forall x, ~ has st mm x) -> m !! mm = None.
Proof.
  intros R Hmm Hno. apply eq_None_not_Some. intros (x & Hx).
  apply (Hno x). by apply (repr_has _ _ R).
Qed.

Lemma run_op_repr st m o :
  op_ok o -> repr st m ->
  fst (run_op st o) = fst (spec_op m o) /\
  repr (snd (run_op st o)) (snd (spec_op m o)).
Proof.
  intros Ho R. pose proof R as [S Hk Hh].
  destruct o as [mm pid comm jit reg|mm|]; cbn [run_op spec_op op_ok] in *.
  - pose proof (add_refines st mm pid comm jit reg S Ho) as Ha.
    destruct (ac_add_prot_mm _ _ _ _ _ _) as [ret st'].
    destruct Ha as [S' [(x & Hx & -> & Hm)|[Hno Hc]]].
    + apply Hh in Hx as Hx'; [|done]. rewrite Hx'. split; [done|]. split; [done|..].
      * intros m' y. cbn [snd]. rewrite lookup_insert_Some. naive_solver.
      * intros m' y Hm'. cbn [snd]. rewrite Hm, lookup_insert_Some by done.
        destruct (decide (m' = mm)) as [->|]; [naive_solver|].
        rewrite Hh by done. naive_solver.
    + rewrite (repr_lookup_None st m mm R Ho Hno).
      pose proof (repr_size st m R) as Hsz.
      destruct Hc as [(Hfull & -> & ->)|(Hroom & -> & Hm)].
      * destruct (Nat.leb_spec AC_PROT_MAX (size m)); [|lia]. by split.
      * destruct (Nat.leb_spec AC_PROT_MAX (size m)); [lia|].
        destruct (Z.eqb_spec reg 0) as [->|]; (split; [done|]); split; try done.
        -- intros m' y. cbn [snd]. rewrite lookup_insert_Some. naive_solver.
        -- intros m' y Hm'. cbn [snd]. rewrite Hm, lookup_insert_Some by done.
           destruct (decide (m' = mm)) as [->|Hd].
           ++ rewrite decide_True by done. naive_solver.
           ++ rewrite decide_False by tauto. rewrite Hh by done. naive_solver.
        -- intros m' y Hm'. cbn [snd]. rewrite Hm, decide_False by tauto.
           by apply Hh.
  - destruct (del_refines st mm S Ho) as [S' Hm]. split; [done|].
    split; cbn [snd]; [done|..].
    + intros m' y Hy. apply lookup_delete_Some in Hy as [_ Hy]. by eapply Hk.
    + intros m' y Hm'. rewrite Hm, lookup_delete_Some, Hh by done. naive_solver.
  - destruct (clear_refines st S) as (S' & _ & Hp). split; [done|].
    split; cbn [snd]; [done|..].
    + intros m' y Hy. by rewrite lookup_empty in Hy.
    + intros m' y Hm'. rewrite lookup_empty. split; [|done]. intros Hy.
      specialize (Hp m'). assert (ac_is_protected_mm (ac_clear_protected st) m' = true)
        as E by (apply is_protected_has; [done|by exists y]). congruence.
Qed.

Lemma settled_repr_init : repr reg_init ∅.
Proof.
  split; [apply settled_init|..].
  - intros mm x Hx. by rewrite lookup_empty in Hx.
  - intros mm x Hmm. rewrite lookup_empty. split; [|done].
    intros (i & e & [-> _]%lookup_replicate & Hm & _). unfold free_entry in Hm.
    simpl in Hm. lia.
Qed.

(** C4: With one operation at a time the registry is a finite map of at most
    64 address spaces to their display data: any sequence of protect,
    unprotect and clear operations, with any results of the notifier
    registrations, returns what the map operations return and represents the
    map they produce.  In particular a second protect only overwrites the JIT
    flag, a full registry answers -ENOSPC, a failed registration returns its
    error and changes nothing, and unprotecting affects no other entry. *)
Theorem registry_refines_map ops :
  Forall op_ok ops ->
  let '(rs, st) := run_ops run_op reg_init ops in
  let '(rs', m) := run_ops spec_op ∅ ops in
  rs = rs' /\ repr st m.
Proof.
  intros Hok. assert (repr reg_init ∅) as R by apply settled_repr_init.
  revert R. generalize reg_init as st, (∅ : gmap Z ac_prot_item) as m.
  induction Hok as [|o ops Ho _ IH]; intros st m R; cbn [run_ops]; [done|].
  destruct (run_op_repr st m o Ho R) as [Hr R'].
  destruct (run_op st o) as [r st1], (spec_op m o) as [r' m1]. simpl in *.
  specialize (IH st1 m1 R').
  destruct (run_ops run_op st1 ops) as [rs st2].
  destruct (run_ops spec_op m1 ops) as [rs' m2].
  destruct IH as [-> R2]. by subst.
Qed.

Lemma registry_refines_map_witness :
  let ops := [OpAdd 4096 42 (lit "game") true 0; OpAdd 8192 43 (lit "tool") false 0;
              OpAdd 4096 44 (lit "again") false 0; OpDel 8192;
              OpAdd 12288 45 (lit "late") false (- ENOMEM)] in
  fst (run_ops run_op reg_init ops) = [0; 0; 0; 0; - ENOMEM] /\
  repr (snd (run_ops run_op reg_init ops)) (snd (run_ops spec_op ∅ ops)).
Proof.
  intros ops. split; [by vm_compute|].
  assert (Forall op_ok ops) as Hok by (repeat constructor).
  pose proof (registry_refines_map ops Hok) as Hw.
  destruct (run_ops run_op reg_init ops) as [rs st].
  destruct (run_ops spec_op ∅ ops) as [rs' m]. apply Hw.
Defined.
End Reg.
