(* ===== verification/RegistryConc.v ===== *)
(** The registry under concurrency.

    Any number of threads add, delete and clear while address spaces exit.
    Between the critical sections of Registry a thread is inside the kernel's
    notifier functions, whose documented behaviour the step relation spells
    out: [mmu_notifier_register] may fail; when it succeeds the notifier is
    hashed on the address space and holds a reference on it;
    [mmu_notifier_unregister] calls the release callback if the notifier is
    still hashed, unhashes it, waits for callbacks in progress and drops the
    reference; [exit_mmap] calls the callback and then unhashes. *)

From stdpp Require Import sets.
From S2P Require Import Prelude CText Abi Ring Registry.
Import Ring Reg.

#[local] Open Scope Z_scope.

Module RegConc.

(** ** The system *)

(** The notifier of a slot: where it is hashed, and the address space it
    holds a reference on. *)
Record kslot := mk_k { k_hashed : option Z; k_reg : option Z }.
Definition k_none : kslot := mk_k None None.

#[global] Instance kslot_inhabited : Inhabited kslot := populate k_none.

Inductive ukind := UCancel | UDel | UClear | UWork.

(** Where a thread that works on a slot stands between critical sections. *)
Inductive pc :=
  | PAddReg (mm pid : Z) (comm : list Z) (jit : bool)
      (** in [ac_add_prot_mm], about to register *)
  | PAddFin (mm pid : Z) (comm : list Z) (jit : bool) (ret : Z)
      (** registered, or refused, with [ret] *)
  | PUnreg (k : ukind) (mm : Z)
      (** about to unregister *)
  | PUnhash (k : ukind) (mm : Z)
      (** in [mmu_notifier_unregister], the callback has returned *)
  | PDone (k : ukind) (mm : Z)
      (** [mmu_notifier_unregister] has returned *)
  | PQueue (mm pid : Z) (comm : list Z).
      (** in [ac_mmu_release] for an exiting address space, lock dropped *)

Definition pc_mm (p : pc) : Z :=
  match p with
  | PAddReg mm _ _ _ | PAddFin mm _ _ _ _ | PUnreg _ mm | PUnhash _ mm
  | PDone _ mm | PQueue mm _ _ => mm
  end.

(** The thread's caller holds a user reference on the address space. *)
Definition pinned (p : pc) : bool :=
  match p with
  | PAddReg _ _ _ _ | PAddFin _ _ _ _ _ => true
  | PUnreg k _ | PUnhash k _ | PDone k _ =>
      match k with UCancel | UDel => true | UClear | UWork => false end
  | PQueue _ _ _ => false
  end.

Definition is_queue (p : pc) : bool :=
  match p with PQueue _ _ _ => true | _ => false end.

(** [s_pc] lists, per slot, the threads working on it; [s_dying] the address
    spaces without users; [s_log] the events emitted. *)
Record sys := mk_sys {
  s_reg : reg_st;
  s_k : list kslot;
  s_pc : list (list pc);
  s_dying : list Z;
  s_log : list emission;
}.

Definition sys_init : sys :=
  mk_sys reg_init (replicate AC_PROT_MAX k_none) (replicate AC_PROT_MAX [])
    [] [].

Definition add_pc (s : sys) (i : nat) (p : pc) : list (list pc) :=
  <[i := (s_pc s !!! i) ++ [p]]> (s_pc s).

(** A call of [ac_mmu_release], up to the end of its critical section. *)
Definition call_release (s : sys) (i : nat) (mm : Z) : sys :=
  let '(o, r) := release_cs (s_reg s) i mm in
  mk_sys r (s_k s)
    (match o with
     | Some (pid, comm) => add_pc s i (PQueue mm pid comm)
     | None => s_pc s
     end) (s_dying s) (s_log s).

Definition set_pc (s : sys) (i : nat) (ps : list pc) : sys :=
  mk_sys (s_reg s) (s_k s) (<[i := ps]> (s_pc s)) (s_dying s) (s_log s).

Inductive label :=
  | LAdd (mm : Z) (r : add_result)
  | LRegFail (mm : Z)
  | LDel (mm : Z)
  | LClear (mm : Z)
  | LDie (mm : Z)
  | LRecycle (mm : Z)
  | LTau.

Inductive step : label -> sys -> sys -> Prop :=
  | st_add s mm pid comm jit r reg' :
      1 < mm -> mm ∉ s_dying s ->
      add_claim (s_reg s) mm jit = (r, reg') ->
      step (LAdd mm r) s
        (mk_sys reg' (s_k s)
           (match r with
            | AddClaimed i => add_pc s i (PAddReg mm pid comm jit)
            | AddRet _ => s_pc s
            end) (s_dying s) (s_log s))
  | st_register s i l1 l2 mm pid comm jit ret :
      s_pc s !! i = Some (l1 ++ PAddReg mm pid comm jit :: l2) ->
      step LTau s
        (mk_sys (s_reg s)
           (if ret =? 0 then <[i := mk_k (Some mm) (Some mm)]> (s_k s)
            else s_k s)
           (<[i := l1 ++ PAddFin mm pid comm jit ret :: l2]> (s_pc s))
           (s_dying s) (s_log s))
  | st_finish s i l1 l2 mm pid comm jit ret r reg' :
      s_pc s !! i = Some (l1 ++ PAddFin mm pid comm jit ret :: l2) ->
      add_finish (s_reg s) i mm pid comm jit ret = (r, reg') ->
      step (if ret =? 0 then LTau else LRegFail mm) s
        (mk_sys reg' (s_k s)
           (<[i := match r with
                   | FinRet _ => l1 ++ l2
                   | FinCancelled => l1 ++ PUnreg UCancel mm :: l2
                   end]> (s_pc s)) (s_dying s) (s_log s))
  | st_del s mm o reg' :
      1 < mm -> mm ∉ s_dying s ->
      del_mark (s_reg s) mm = (o, reg') ->
      step (LDel mm) s
        (mk_sys reg' (s_k s)
           (match o with
            | Some i => add_pc s i (PUnreg UDel mm)
            | None => s_pc s
            end) (s_dying s) (s_log s))
  | st_clear s i mm reg' :
      (i < AC_PROT_MAX)%nat ->
      clear_mark (s_reg s) i = (Some mm, reg') ->
      step (LClear mm) s
        (mk_sys reg' (s_k s) (add_pc s i (PUnreg UClear mm)) (s_dying s)
           (s_log s))
  | st_unreg s i l1 l2 k mm :
      s_pc s !! i = Some (l1 ++ PUnreg k mm :: l2) ->
      step LTau s
        (let s1 := set_pc s i (l1 ++ PUnhash k mm :: l2) in
         match k_hashed (s_k s !!! i) with
         | Some _ => call_release s1 i mm
         | None => s1
         end)
  | st_unhash s i l1 l2 k mm :
      s_pc s !! i = Some (l1 ++ PUnhash k mm :: l2) ->
      existsb is_queue (l1 ++ l2) = false ->
      step LTau s
        (mk_sys (s_reg s) (<[i := k_none]> (s_k s))
           (<[i := l1 ++ PDone k mm :: l2]> (s_pc s)) (s_dying s) (s_log s))
  | st_done s i l1 l2 k mm :
      s_pc s !! i = Some (l1 ++ PDone k mm :: l2) ->
      step LTau s
        (mk_sys (match k with
                 | UWork => release_worker_done (s_reg s) i
                 | _ => unreg_done (s_reg s) i
                 end) (s_k s) (<[i := l1 ++ l2]> (s_pc s)) (s_dying s) (s_log s))
  | st_queue s i l1 l2 mm pid comm :
      s_pc s !! i = Some (l1 ++ PQueue mm pid comm :: l2) ->
      step LTau s
        (mk_sys (release_queue (s_reg s) i mm) (s_k s)
           (<[i := l1 ++ PUnreg UWork mm :: l2]> (s_pc s)) (s_dying s)
           (s_log s ++ [exit_event pid comm]))
  | st_die s mm :
      1 < mm -> mm ∉ s_dying s ->
      (forall i ps p, s_pc s !! i = Some ps -> p ∈ ps -> pinned p = true ->
         pc_mm p <> mm) ->
      step (LDie mm) s
        (mk_sys (s_reg s) (s_k s) (s_pc s) (mm :: s_dying s) (s_log s))
  | st_exit_release s i mm :
      (i < AC_PROT_MAX)%nat -> mm ∈ s_dying s ->
      k_hashed (s_k s !!! i) = Some mm ->
      step LTau s (call_release s i mm)
  | st_exit_unhash s i mm :
      (i < AC_PROT_MAX)%nat -> mm ∈ s_dying s ->
      k_hashed (s_k s !!! i) = Some mm ->
      pe_mm (ac_prots (s_reg s) !!! i) <> mm ->
      existsb is_queue (s_pc s !!! i) = false ->
      step LTau s
        (mk_sys (s_reg s) (<[i := mk_k None (k_reg (s_k s !!! i))]> (s_k s))
           (s_pc s) (s_dying s) (s_log s))
  | st_recycle s mm :
      mm ∈ s_dying s ->
      (forall i, (i < AC_PROT_MAX)%nat -> k_reg (s_k s !!! i) <> Some mm) ->
      step (LRecycle mm) s
        (mk_sys (s_reg s) (s_k s) (s_pc s)
           (filter (fun m => m <> mm) (s_dying s)) (s_log s)).

(** Some step, whatever its label. *)
Definition any_step (s s' : sys) : Prop := exists l, step l s s'.

(** ** Invariant *)

(** What a slot's entry, notifier and threads look like together. *)
Definition slot_ok (e : ac_prot_entry) (k : kslot) (ps : list pc) : Prop :=
  match ps with
  | [] =>
      pe_claiming e = NULL /\ pe_cancel e = false /\ pe_removing e = false /\
      ((pe_mm e = NULL /\ k = k_none) \/
       (1 < pe_mm e /\ k = mk_k (Some (pe_mm e)) (Some (pe_mm e))))
  | [PAddReg mm _ _ _] =>
      1 < mm /\ pe_mm e = AC_PROT_RESERVED /\ pe_claiming e = mm /\
      pe_removing e = false /\ k = k_none
  | [PAddFin mm _ _ _ ret] =>
      1 < mm /\ pe_mm e = AC_PROT_RESERVED /\ pe_claiming e = mm /\
      pe_removing e = false /\
      k = (if ret =? 0 then mk_k (Some mm) (Some mm) else k_none)
  | [PUnreg kd mm] =>
      1 < mm /\ pe_removing e = true /\ pe_claiming e = NULL /\
      pe_cancel e = false /\ k_reg k = Some mm /\
      (k_hashed k = Some mm \/ k_hashed k = None) /\
      (pe_mm e = NULL \/
       (pe_mm e = mm /\ k_hashed k = Some mm /\ (kd = UDel \/ kd = UClear)))
  | [PUnhash kd mm] =>
      1 < mm /\ pe_removing e = true /\ pe_claiming e = NULL /\
      pe_cancel e = false /\ k_reg k = Some mm /\
      (k_hashed k = Some mm \/ k_hashed k = None) /\ pe_mm e = NULL
  | [PDone kd mm] =>
      1 < mm /\ pe_removing e = true /\ pe_claiming e = NULL /\
      pe_cancel e = false /\ k = k_none /\ pe_mm e = NULL
  | [PQueue mm _ _] =>
      1 < mm /\ pe_removing e = true /\ pe_claiming e = NULL /\
      pe_cancel e = false /\ k = mk_k (Some mm) (Some mm) /\ pe_mm e = NULL
  | _ => False
  end.

Definition slots_ok (es : list ac_prot_entry) (ks : list kslot)
    (pss : list (list pc)) : Prop :=
  forall i e k ps, es !! i = Some e -> ks !! i = Some k ->
    pss !! i = Some ps -> slot_ok e k ps.

Record inv (s : sys) : Prop := {
  inv_len_e : length (ac_prots (s_reg s)) = AC_PROT_MAX;
  inv_len_k : length (s_k s) = AC_PROT_MAX;
  inv_len_p : length (s_pc s) = AC_PROT_MAX;
  inv_slots : slots_ok (ac_prots (s_reg s)) (s_k s) (s_pc s);
  inv_count : ac_prot_count (s_reg s) =
    Z.of_nat (count_if published (ac_prots (s_reg s)));
  inv_pinned : forall i ps p, s_pc s !! i = Some ps -> p ∈ ps ->
    pinned p = true -> pc_mm p ∉ s_dying s;
  inv_live : forall i j e e' mm, 1 < mm ->
    ac_prots (s_reg s) !! i = Some e -> ac_prots (s_reg s) !! j = Some e' ->
    live mm e = true -> live mm e' = true -> i = j;
  inv_dying : forall mm, mm ∈ s_dying s -> 1 < mm;
}.

(** ** Steps on one slot *)

Lemma slot_ok_single e k l1 p l2 :
  slot_ok e k (l1 ++ p :: l2) -> l1 = [] /\ l2 = [].
Proof.
  destruct l1 as [|q l1]; simpl.
  - by destruct l2 as [|q l2]; [|destruct p].
  - by destruct q, l1.
Qed.

Section at_slot.
Context (s : sys) (I : inv s) (i : nat) (Hi : (i < AC_PROT_MAX)%nat).

Lemma slot_lookup : exists e k ps,
  ac_prots (s_reg s) !! i = Some e /\ s_k s !! i = Some k /\
  s_pc s !! i = Some ps /\ slot_ok e k ps /\
  ac_prots (s_reg s) !!! i = e /\ s_k s !!! i = k /\ s_pc s !!! i = ps.
Proof.
  destruct (lookup_lt_is_Some_list (ac_prots (s_reg s)) i) as [e He];
    [by rewrite (inv_len_e _ I)|].
  destruct (lookup_lt_is_Some_list (s_k s) i) as [k Hk];
    [by rewrite (inv_len_k _ I)|].
  destruct (lookup_lt_is_Some_list (s_pc s) i) as [ps Hps];
    [by rewrite (inv_len_p _ I)|].
  exists e, k, ps. split_and!; try done; [by eapply (inv_slots _ I)|..];
    by apply list_lookup_total_correct.
Qed.
End at_slot.

Lemma pc_slot s i ps : inv s -> s_pc s !! i = Some ps -> (i < AC_PROT_MAX)%nat.
Proof. intros I H. rewrite <- (inv_len_p _ I). by eapply lookup_lt_Some. Qed.

(** A step that rewrites one slot. *)
Lemma inv_slot_step s s' i e k ps e' k' ps' :
  inv s ->
  ac_prots (s_reg s) !! i = Some e -> s_k s !! i = Some k ->
  s_pc s !! i = Some ps ->
  ac_prots (s_reg s') = <[i := e']> (ac_prots (s_reg s)) ->
  s_k s' = <[i := k']> (s_k s) -> s_pc s' = <[i := ps']> (s_pc s) ->
  s_dying s' = s_dying s ->
  slot_ok e' k' ps' ->
  ac_prot_count (s_reg s') = ac_prot_count (s_reg s) +
    (if published e' then 1 else 0) - (if published e then 1 else 0) ->
  (forall p, p ∈ ps' -> pinned p = true -> pc_mm p ∉ s_dying s) ->
  (forall mm, 1 < mm -> live mm e' = true -> live mm e = true \/
     forall j ej, ac_prots (s_reg s) !! j = Some ej -> live mm ej = false) ->
  inv s'.
Proof.
  intros I He Hk Hp Ee Ek Ep Ed Hok Hc Hpin Hlive. split.
  - by rewrite Ee, length_insert, (inv_len_e _ I).
  - by rewrite Ek, length_insert, (inv_len_k _ I).
  - by rewrite Ep, length_insert, (inv_len_p _ I).
  - rewrite Ee, Ek, Ep. intros j ej kj pj
      [(-> & -> & _)|[? Hej]]%list_lookup_insert_case
      [(? & -> & _)|[? Hkj]]%list_lookup_insert_case
      [(? & -> & _)|[? Hpj]]%list_lookup_insert_case; try done.
    by apply (inv_slots _ I j).
  - rewrite Hc, Ee, (inv_count _ I).
    pose proof (count_if_insert published _ i e e' He) as Hci.
    destruct (published e), (published e'); lia.
  - rewrite Ep, Ed. intros j pj p
      [(-> & -> & _)|[? Hpj]]%list_lookup_insert_case; [apply Hpin|].
    by apply (inv_pinned _ I j).
  - rewrite Ee. intros j1 j2 e1 e2 mm Hmm
      [(-> & -> & _)|[Hj1 H1]]%list_lookup_insert_case
      [(-> & -> & _)|[Hj2 H2]]%list_lookup_insert_case L1 L2; try done.
    + destruct (Hlive mm Hmm L1) as [L|L].
      * by apply (inv_live _ I _ _ _ _ mm Hmm He H2).
      * by rewrite (L _ _ H2) in L2.
    + destruct (Hlive mm Hmm L2) as [L|L].
      * by apply (inv_live _ I _ _ _ _ mm Hmm H1 He).
      * by rewrite (L _ _ H1) in L1.
    + by apply (inv_live _ I _ _ _ _ mm Hmm H1 H2).
  - rewrite Ed. apply I.
Qed.

(** The list of a slot's threads after one was appended. *)
Lemma add_pc_at s i ps p :
  s_pc s !! i = Some ps -> add_pc s i p = <[i := ps ++ [p]]> (s_pc s).
Proof. intros H. unfold add_pc. by rewrite (list_lookup_total_correct _ _ _ H). Qed.

Lemma add_free_owner e k ps :
  slot_ok e k ps -> add_free e = true -> ps = [] /\ k = k_none.
Proof.
  unfold add_free, NULL. intros Hok Hf. boolp. destruct Hf as [Hm Hr].
  destruct ps as [|[] [|]]; simpl in Hok;
    unfold AC_PROT_RESERVED, NULL in *; try done; destruct_and?; try congruence.
  destruct_or?; destruct_and?; [done|lia].
Qed.

Lemma add_dup_owner mm e k ps :
  1 < mm -> slot_ok e k ps -> add_dup mm e = true -> ps = [].
Proof.
  unfold add_dup. intros Hmm Hok Hf. boolp. destruct Hf as [Hm Hr].
  destruct ps as [|[] [|]]; simpl in Hok;
    unfold AC_PROT_RESERVED, NULL in *; try done; destruct_and?;
    (congruence || lia).
Qed.

(** ** Every step preserves the invariant *)

Ltac unfold_entry :=
  unfold live, add_dup, add_claiming, published, claim_entry, unclaim_entry,
    publish_entry, set_removing, set_jit, release_entry, set_release_mm,
    NULL, AC_PROT_RESERVED in *;
  cbn [pe_mm pe_pid pe_jit_allowed pe_removing pe_claiming pe_cancel
       pe_release_mm pe_comm] in *.

(** Contradictory facts about one slot. *)
Ltac by_cases :=
  repeat (progress destruct_and? || destruct_or?);
  first [done | congruence | lia].

Lemma same_inv s s' :
  s_reg s' = s_reg s -> s_k s' = s_k s -> s_pc s' = s_pc s ->
  s_dying s' = s_dying s -> inv s -> inv s'.
Proof.
  intros Er Ek Ep Ed []. split; rewrite ?Er, ?Ek, ?Ep, ?Ed; done.
Qed.

(** A thread's pin carries over to its next point. *)
Lemma pin_next s i l1 p l2 :
  inv s -> s_pc s !! i = Some (l1 ++ p :: l2) -> pinned p = true ->
  pc_mm p ∉ s_dying s.
Proof.
  intros I Hp. apply (inv_pinned _ I i _ p Hp). set_solver.
Qed.

Lemma add_step_inv s mm pid comm jit r reg' :
  inv s -> 1 < mm -> mm ∉ s_dying s ->
  add_claim (s_reg s) mm jit = (r, reg') ->
  inv (mk_sys reg' (s_k s)
         (match r with
          | AddClaimed i => add_pc s i (PAddReg mm pid comm jit)
          | AddRet _ => s_pc s
          end) (s_dying s) (s_log s)).
Proof.
  intros I Hmm Hd Hadd. unfold add_claim in Hadd.
  pose proof (add_scan_spec mm (ac_prots (s_reg s))) as Hs.
  destruct (add_scan _ _ _ _) as [i| |[i|]]; simpl in Hs.
  - destruct Hs as (e & He & Hdup). rewrite (prots_total _ _ _ He) in Hadd.
    injection Hadd as <- <-.
    destruct (slot_lookup s I i) as (e0 & k & ps & He0 & Hk & Hp & Hok & _).
    { rewrite <- (inv_len_e _ I). by eapply lookup_lt_Some. }
    assert (e0 = e) as -> by congruence.
    eapply (inv_slot_step s _ i e k ps); try done; simpl.
    + symmetry. by apply list_insert_id.
    + symmetry. by apply list_insert_id.
    + unfold_entry. lia.
    + intros p. by apply (inv_pinned _ I i).
    + by left.
  - injection Hadd as <- <-. by apply (same_inv s).
  - destruct Hs as ((e & He & Hf) & Hnone).
    rewrite (prots_total _ _ _ He) in Hadd. injection Hadd as <- <-.
    destruct (slot_lookup s I i) as (e0 & k & ps & He0 & Hk & Hp & Hok & _).
    { rewrite <- (inv_len_e _ I). by eapply lookup_lt_Some. }
    assert (e0 = e) as -> by congruence.
    destruct (add_free_owner e k ps Hok Hf) as [-> ->].
    rewrite (add_pc_at _ _ _ _ Hp).
    eapply (inv_slot_step s _ i e); try done; simpl.
    + symmetry. by apply list_insert_id.
    + simpl in Hok. destruct_and?. by unfold_entry.
    + unfold add_free in Hf. unfold_entry. boolp.
      destruct Hf as [-> _]. simpl. lia.
    + intros p ->%list_elem_of_singleton _. done.
    + intros m Hm Hl. right. intros j ej Hj. apply (Hnone j ej) in Hj.
      assert (m = mm) as ->; [|done].
      unfold_entry. destruct (Z.eqb_spec 1 m); [lia|].
      destruct (Z.eqb_spec mm m); [done|]. by rewrite ?andb_false_r in Hl.
  - injection Hadd as <- <-. by apply (same_inv s).
Qed.

Lemma register_step_inv s i l1 l2 mm pid comm jit ret :
  inv s -> s_pc s !! i = Some (l1 ++ PAddReg mm pid comm jit :: l2) ->
  inv (mk_sys (s_reg s)
         (if ret =? 0 then <[i := mk_k (Some mm) (Some mm)]> (s_k s)
          else s_k s)
         (<[i := l1 ++ PAddFin mm pid comm jit ret :: l2]> (s_pc s))
         (s_dying s) (s_log s)).
Proof.
  intros I Hp. destruct (slot_lookup s I i) as
    (e & k & ps & He & Hk & Hp' & Hok & _); [by eapply pc_slot|].
  rewrite Hp in Hp'. injection Hp' as <-.
  destruct (slot_ok_single _ _ _ _ _ Hok) as [-> ->]. simpl in Hok.
  eapply (inv_slot_step s _ i e k _ e
    (if ret =? 0 then mk_k (Some mm) (Some mm) else k)); try done; simpl.
  - symmetry. by apply list_insert_id.
  - destruct (ret =? 0); [done|]. symmetry. by apply list_insert_id.
  - destruct_and?. subst. by destruct (ret =? 0).
  - lia.
  - intros p ->%list_elem_of_singleton _.
    by apply (pin_next s i [] (PAddReg mm pid comm jit) []).
  - by left.
Qed.

Lemma finish_step_inv s i l1 l2 mm pid comm jit ret r reg' :
  inv s -> s_pc s !! i = Some (l1 ++ PAddFin mm pid comm jit ret :: l2) ->
  add_finish (s_reg s) i mm pid comm jit ret = (r, reg') ->
  inv (mk_sys reg' (s_k s)
         (<[i := match r with
                 | FinRet _ => l1 ++ l2
                 | FinCancelled => l1 ++ PUnreg UCancel mm :: l2
                 end]> (s_pc s)) (s_dying s) (s_log s)).
Proof.
  intros I Hp Hfin. destruct (slot_lookup s I i) as
    (e & k & ps & He & Hk & Hp' & Hok & Te & _); [by eapply pc_slot|].
  rewrite Hp in Hp'. injection Hp' as <-.
  destruct (slot_ok_single _ _ _ _ _ Hok) as [-> ->]. simpl in Hok.
  destruct Hok as (Hmm & Hm & Hcl & Hr & ->).
  unfold add_finish in Hfin. rewrite Te in Hfin.
  pose proof (pin_next s i [] _ [] I Hp eq_refl) as Hpin. simpl in Hpin.
  destruct (Z.eqb_spec ret 0) as [->|Hret]; simpl negb in Hfin; cbv iota in Hfin;
    [destruct (pe_cancel e) eqn:Hc|]; injection Hfin as <- <-.
  - eapply (inv_slot_step s _ i e _ _ (unclaim_entry e true)); try done; simpl.
    + symmetry. by apply list_insert_id.
    + unfold_entry. naive_solver.
    + unfold_entry. rewrite Hm. simpl. lia.
    + by intros p ->%list_elem_of_singleton _.
    + intros m Hm0. unfold_entry. destruct (Z.eqb_spec 0 m); [lia|done].
  - eapply (inv_slot_step s _ i e _ _ (publish_entry e mm pid jit comm));
      try done; simpl.
    + symmetry. by apply list_insert_id.
    + unfold_entry. rewrite Hc, Hr. naive_solver.
    + rewrite (inv_count _ I). pose proof (count_if_le published
        (ac_prots (s_reg s))) as Hle. rewrite (inv_len_e _ I) in Hle.
      unfold AC_PROT_MAX in Hle. rewrite u32_id by lia.
      unfold_entry. rewrite Hm.
      destruct (Z.eqb_spec mm 0), (Z.eqb_spec mm 1); simpl; lia.
    + intros p Hp0. by apply elem_of_nil in Hp0.
    + intros m Hm0. unfold_entry. rewrite Hm, Hr, Hcl, Hc. simpl.
      destruct (Z.eqb_spec mm 1); [lia|]. simpl. rewrite orb_false_r.
      intros ?. left. boolp. naive_solver.
  - eapply (inv_slot_step s _ i e _ _ (unclaim_entry e (pe_removing e)));
      try done; simpl.
    + symmetry. by apply list_insert_id.
    + unfold_entry. naive_solver.
    + unfold_entry. rewrite Hm. simpl. lia.
    + intros p Hp0. by apply elem_of_nil in Hp0.
    + intros m Hm0. unfold_entry. destruct (Z.eqb_spec 0 m); [lia|done].
Qed.

(** Starting to unregister a published slot. *)
Lemma mark_step_inv s i e mm kd :
  inv s -> 1 < mm -> ac_prots (s_reg s) !! i = Some e -> pe_mm e = mm ->
  pe_removing e = false -> kd = UDel \/ kd = UClear ->
  (kd = UDel -> mm ∉ s_dying s) ->
  inv (mk_sys (set_prots (s_reg s) i (set_removing e true)) (s_k s)
         (add_pc s i (PUnreg kd mm)) (s_dying s) (s_log s)).
Proof.
  intros I Hmm He Hm Hr Hkd Hd.
  destruct (slot_lookup s I i) as (e0 & k & ps & He0 & Hk & Hp & Hok & _).
  { rewrite <- (inv_len_e _ I). by eapply lookup_lt_Some. }
  assert (e0 = e) as -> by congruence.
  assert (ps = []) as ->.
  { apply (add_dup_owner mm e k ps Hmm Hok). unfold add_dup.
    rewrite Hm, Hr, Z.eqb_refl. done. }
  rewrite (add_pc_at _ _ _ _ Hp).
  eapply (inv_slot_step s _ i e k [] (set_removing e true)); try done; simpl.
  - symmetry. by apply list_insert_id.
  - simpl in Hok. destruct Hok as (Hcl & Hca & _ & [[H0 _]|[_ ->]]).
    { unfold NULL in *. lia. }
    unfold_entry. rewrite Hm. naive_solver.
  - unfold_entry. lia.
  - intros p ->%list_elem_of_singleton. by destruct Hkd as [-> | ->]; auto.
  - intros m Hm0. unfold_entry. rewrite andb_false_r. simpl.
    intros H. left. by rewrite H, orb_true_r.
Qed.

Lemma flag_cancel_fields mm e :
  pe_mm (flag_cancel mm e) = pe_mm e /\
  pe_removing (flag_cancel mm e) = pe_removing e /\
  pe_claiming (flag_cancel mm e) = pe_claiming e /\
  (pe_mm e <> AC_PROT_RESERVED -> flag_cancel mm e = e).
Proof.
  unfold flag_cancel. destruct (Z.eqb_spec (pe_mm e) AC_PROT_RESERVED);
    [|done]. by destruct (pe_claiming e =? mm).
Qed.

Lemma flag_cancel_ok mm e k ps : slot_ok e k ps -> slot_ok (flag_cancel mm e) k ps.
Proof.
  destruct (flag_cancel_fields mm e) as (E1 & E2 & E3 & E4). intros Hok.
  destruct (decide (pe_mm e = AC_PROT_RESERVED)) as [Er|Er];
    [|by rewrite (E4 Er)].
  destruct ps as [|[] [|]]; simpl in *; rewrite ?E1, ?E2, ?E3; try done;
    unfold AC_PROT_RESERVED, NULL in *; destruct_and?; destruct_or?;
    destruct_and?; (congruence || lia).
Qed.

Lemma flag_cancel_live mm m e :
  live m (flag_cancel mm e) = true -> live m e = true.
Proof.
  unfold flag_cancel. destruct (_ && _); [|done]. unfold_entry.
  rewrite andb_false_r, orb_false_r. intros ->. done.
Qed.

Lemma cancel_step_inv s mm :
  inv s ->
  inv (mk_sys (mk_reg (flag_cancel mm <$> ac_prots (s_reg s))
                 (ac_prot_count (s_reg s))) (s_k s) (s_pc s) (s_dying s)
         (s_log s)).
Proof.
  intros I. split; try apply I; simpl.
  - by rewrite length_fmap, (inv_len_e _ I).
  - intros j ej kj pj Hej Hkj Hpj. rewrite list_lookup_fmap in Hej.
    destruct (ac_prots (s_reg s) !! j) as [e|] eqn:He; [|done].
    injection Hej as <-. apply flag_cancel_ok. by apply (inv_slots _ I j).
  - rewrite (inv_count _ I), count_if_fmap. f_equal. apply count_if_ext.
    intros j e _. unfold published, compose.
    by destruct (flag_cancel_fields mm e) as (-> & _).
  - intros j1 j2 e1 e2 m Hm. rewrite !list_lookup_fmap.
    destruct (ac_prots (s_reg s) !! j1) as [x1|] eqn:H1; [|done].
    destruct (ac_prots (s_reg s) !! j2) as [x2|] eqn:H2; [|done].
    intros [= <-] [= <-] L1%flag_cancel_live L2%flag_cancel_live.
    by apply (inv_live _ I _ _ _ _ m Hm H1 H2).
Qed.

Lemma del_step_inv s mm o reg' :
  inv s -> 1 < mm -> mm ∉ s_dying s -> del_mark (s_reg s) mm = (o, reg') ->
  inv (mk_sys reg' (s_k s)
         (match o with
          | Some i => add_pc s i (PUnreg UDel mm)
          | None => s_pc s
          end) (s_dying s) (s_log s)).
Proof.
  intros I Hmm Hd. unfold del_mark.
  destruct (find_index _ _) as [i|] eqn:Hf.
  - apply find_index_Some in Hf as [(e & He & Hm) _].
    rewrite (prots_total _ _ _ He). intros [= <- <-].
    unfold del_match in Hm. boolp. apply mark_step_inv; auto; tauto.
  - intros [= <- <-]. by apply cancel_step_inv.
Qed.

Lemma clear_step_inv s i mm reg' :
  inv s -> (i < AC_PROT_MAX)%nat -> clear_mark (s_reg s) i = (Some mm, reg') ->
  inv (mk_sys reg' (s_k s) (add_pc s i (PUnreg UClear mm)) (s_dying s)
         (s_log s)).
Proof.
  intros I Hi. destruct (slot_lookup s I i Hi) as
    (e & k & ps & He & Hk & Hp & Hok & Te & _).
  unfold clear_mark. rewrite Te. destruct (_ && _) eqn:Hb; [|done].
  intros [= <- <-]. unfold NULL, AC_PROT_RESERVED in Hb. boolp.
  apply mark_step_inv; try done; [|tauto|auto].
  destruct ps as [|[] [|]]; simpl in Hok; unfold NULL, AC_PROT_RESERVED in *;
    destruct_and?; destruct_or?; destruct_and?; (done || lia || congruence).
Qed.

(** The release callback on a slot whose notifier is hashed: an unowned slot
    passes to its [PQueue] thread, an owned one is only cleared. *)
Lemma release_call_inv s i mm e k ps ps0 :
  inv s -> 1 < mm -> ac_prots (s_reg s) !! i = Some e -> s_k s !! i = Some k ->
  s_pc s !! i = Some ps0 ->
  slot_ok e k ps0 ->
  (ps = ps0 /\ (mm ∈ s_dying s) /\ k_hashed k = Some mm \/
   exists kd, ps0 = [PUnreg kd mm] /\ ps = [PUnhash kd mm]) ->
  inv (call_release (set_pc s i ps) i mm).
Proof.
  intros I Hmm He Hk Hp Hok Hcase. unfold call_release, release_cs.
  cbn [set_pc s_reg]. rewrite (prots_total _ _ _ He).
  assert (forall p, p ∈ ps -> pinned p = true -> pc_mm p ∉ s_dying s) as Hpin.
  { intros p Hin Hpn. destruct Hcase as [(-> & _)|(kd & -> & ->)].
    - by apply (inv_pinned _ I i ps0).
    - apply list_elem_of_singleton in Hin as ->.
      by apply (inv_pinned _ I i _ (PUnreg kd mm) Hp); [left|]. }
  destruct (Z.eqb_spec (pe_mm e) mm) as [Em|Em].
  - (* the entry is cleared *)
    assert (published e = true) as Hpub.
    { unfold published, NULL, AC_PROT_RESERVED.
      destruct (Z.eqb_spec (pe_mm e) 0), (Z.eqb_spec (pe_mm e) 1);
        (done || lia). }
    assert (1 <= Z.of_nat (count_if published (ac_prots (s_reg s))) <= 64)
      as Hcnt.
    { pose proof (count_if_insert published _ i e free_entry He) as H0.
      pose proof (count_if_le published (ac_prots (s_reg s))) as H1.
      rewrite (inv_len_e _ I) in H1. unfold AC_PROT_MAX in H1.
      rewrite Hpub in H0. simpl in H0. lia. }
    assert (exists ps', (if pe_removing e then ps
              else ps ++ [PQueue mm (pe_pid e) (strscpy AC_MAX_COMM (pe_comm e))])
              = ps' /\ slot_ok (release_entry e) k ps') as (ps' & Eps & Hok').
    { eexists. split; [done|].
      destruct Hcase as [(-> & Hdy & Hh)|(kd & -> & ->)].
      - destruct ps0 as [|[] [|]]; simpl in Hok |- *;
          unfold_entry; destruct_and?; destruct_or?; destruct_and?;
          try done; try lia; try congruence; subst; simplify_eq/=;
          repeat match goal with H : pe_removing e = _ |- _ => rewrite H end;
          try (simpl; split_and!; (done || lia || congruence || auto)).
      - simpl in Hok. destruct_and?. subst. unfold_entry.
        replace (pe_removing e) with true. simpl. naive_solver. }
    eapply (inv_slot_step s _ i e k ps0 (release_entry e) k ps'); try done;
      simpl.
    + symmetry. by apply list_insert_id.
    + rewrite <- Eps. destruct (pe_removing e); [done|].
      unfold add_pc. cbn [set_pc s_pc].
      rewrite list_lookup_total_insert_eq by (by eapply lookup_lt_Some).
      by rewrite list_insert_insert_eq.
    + rewrite (inv_count _ I), u32_id, Hpub by lia.
      unfold_entry. simpl. lia.
    + intros p. rewrite <- Eps. destruct (pe_removing e); [apply Hpin|].
      rewrite elem_of_app. intros [?| ->%list_elem_of_singleton]; [by auto|done].
    + intros m Hm. unfold_entry. destruct (Z.eqb_spec 0 m); [lia|done].
  - (* nothing to clear *)
    eapply (inv_slot_step s _ i e k ps0 e k ps); try done; simpl.
    + symmetry. by apply list_insert_id.
    + symmetry. by apply list_insert_id.
    + destruct Hcase as [(-> & _)|(kd & -> & ->)]; [done|].
      simpl in *. destruct_and?. destruct_or?; destruct_and?; naive_solver.
    + lia.
    + by left.
Qed.

(** A thread moves on without touching its entry. *)
Lemma move_step_inv s i k' p p' k ps e :
  inv s -> ac_prots (s_reg s) !! i = Some e -> s_k s !! i = Some k ->
  s_pc s !! i = Some ps -> ps = [p] -> slot_ok e k' [p'] ->
  (pinned p' = true -> pinned p = true /\ pc_mm p' = pc_mm p) ->
  inv (mk_sys (s_reg s) (<[i := k']> (s_k s)) (<[i := [p']]> (s_pc s))
         (s_dying s) (s_log s)).
Proof.
  intros I He Hk Hp -> Hok Hpin.
  eapply (inv_slot_step s _ i e k [p] e k'); try done; simpl.
  - symmetry. by apply list_insert_id.
  - lia.
  - intros q ->%list_elem_of_singleton Hq. destruct (Hpin Hq) as [H1 ->].
    apply (inv_pinned _ I i [p]); [done|by left|done].
  - by left.
Qed.

Lemma unreg_step_inv s i l1 l2 k mm :
  inv s -> s_pc s !! i = Some (l1 ++ PUnreg k mm :: l2) ->
  inv (let s1 := set_pc s i (l1 ++ PUnhash k mm :: l2) in
       match k_hashed (s_k s !!! i) with
       | Some _ => call_release s1 i mm
       | None => s1
       end).
Proof.
  intros I Hp. destruct (slot_lookup s I i) as
    (e & ks & ps & He & Hk & Hp' & Hok & _ & Tk & _); [by eapply pc_slot|].
  rewrite Hp in Hp'. injection Hp' as <-.
  destruct (slot_ok_single _ _ _ _ _ Hok) as [-> ->]. simpl in Hok.
  destruct Hok as (Hmm & Hr & Hcl & Hca & Hreg & Hh & Hm). rewrite Tk.
  cbv zeta. simpl app in *. destruct (k_hashed ks) as [m|] eqn:Ek.
  - apply (release_call_inv s i mm e ks _ [PUnreg k mm]); try done.
    + simpl. rewrite Ek. done.
    + right. eauto.
  - unfold set_pc. rewrite <- (list_insert_id (s_k s) i ks Hk) at 1.
    eapply (move_step_inv s i ks (PUnreg k mm)); try done.
    simpl. rewrite Ek. destruct_or?; destruct_and?; naive_solver.
Qed.

Lemma unhash_step_inv s i l1 l2 k mm :
  inv s -> s_pc s !! i = Some (l1 ++ PUnhash k mm :: l2) ->
  inv (mk_sys (s_reg s) (<[i := k_none]> (s_k s))
         (<[i := l1 ++ PDone k mm :: l2]> (s_pc s)) (s_dying s) (s_log s)).
Proof.
  intros I Hp. destruct (slot_lookup s I i) as
    (e & ks & ps & He & Hk & Hp' & Hok & _ & Tk & _); [by eapply pc_slot|].
  rewrite Hp in Hp'. injection Hp' as <-.
  destruct (slot_ok_single _ _ _ _ _ Hok) as [-> ->]. simpl in Hok.
  eapply (move_step_inv s i k_none (PUnhash k mm)); try done.
  simpl. destruct_and?. done.
Qed.

Lemma done_step_inv s i l1 l2 k mm :
  inv s -> s_pc s !! i = Some (l1 ++ PDone k mm :: l2) ->
  inv (mk_sys (match k with
               | UWork => release_worker_done (s_reg s) i
               | _ => unreg_done (s_reg s) i
               end) (s_k s) (<[i := l1 ++ l2]> (s_pc s)) (s_dying s) (s_log s)).
Proof.
  intros I Hp. destruct (slot_lookup s I i) as
    (e & ks & ps & He & Hk & Hp' & Hok & Te & _); [by eapply pc_slot|].
  rewrite Hp in Hp'. injection Hp' as <-.
  destruct (slot_ok_single _ _ _ _ _ Hok) as [-> ->]. simpl in Hok.
  destruct Hok as (Hmm & Hr & Hcl & Hca & -> & Hm).
  assert (exists e', (match k with
      | UWork => release_worker_done (s_reg s) i
      | _ => unreg_done (s_reg s) i end) = set_prots (s_reg s) i e' /\
    pe_mm e' = NULL /\ pe_removing e' = false /\ pe_claiming e' = NULL /\
    pe_cancel e' = false) as (e' & -> & H1 & H2 & H3 & H4).
  { unfold release_worker_done, unreg_done. rewrite Te.
    destruct k; eexists; split; try done; unfold_entry; done. }
  eapply (inv_slot_step s _ i e _ _ e'); try done; simpl.
  - symmetry. by apply list_insert_id.
  - naive_solver.
  - unfold published. rewrite H1, Hm. simpl. lia.
  - intros p H0. by apply elem_of_nil in H0.
  - intros m Hm0. unfold live, add_dup, add_claiming. rewrite H1.
    unfold NULL, AC_PROT_RESERVED. destruct (Z.eqb_spec 0 m); [lia|done].
Qed.

Lemma queue_step_inv s i l1 l2 mm pid comm log' :
  inv s -> s_pc s !! i = Some (l1 ++ PQueue mm pid comm :: l2) ->
  inv (mk_sys (release_queue (s_reg s) i mm) (s_k s)
         (<[i := l1 ++ PUnreg UWork mm :: l2]> (s_pc s)) (s_dying s) log').
Proof.
  intros I Hp. destruct (slot_lookup s I i) as
    (e & ks & ps & He & Hk & Hp' & Hok & Te & _); [by eapply pc_slot|].
  rewrite Hp in Hp'. injection Hp' as <-.
  destruct (slot_ok_single _ _ _ _ _ Hok) as [-> ->]. simpl in Hok.
  destruct Hok as (Hmm & Hr & Hcl & Hca & -> & Hm).
  unfold release_queue. rewrite Te.
  eapply (inv_slot_step s _ i e _ _ (set_release_mm e mm)); try done; simpl.
  - symmetry. by apply list_insert_id.
  - unfold_entry. naive_solver.
  - unfold_entry. lia.
  - by intros p ->%list_elem_of_singleton.
  - intros m Hm0. unfold_entry. by left.
Qed.

Lemma exit_release_inv s i mm :
  inv s -> (i < AC_PROT_MAX)%nat -> mm ∈ s_dying s ->
  k_hashed (s_k s !!! i) = Some mm -> inv (call_release s i mm).
Proof.
  intros I Hi Hd Hh. destruct (slot_lookup s I i Hi) as
    (e & ks & ps & He & Hk & Hp & Hok & _ & Tk & _). rewrite Tk in Hh.
  assert (1 < mm) as Hmm.
  { destruct ps as [|[] [|]]; simpl in Hok; try done; destruct_and?;
      repeat case_match; destruct_or?; destruct_and?; simplify_eq/=;
      (congruence || lia). }
  assert (s = set_pc s i ps) as ->.
  { unfold set_pc. rewrite list_insert_id by done. by destruct s. }
  apply (release_call_inv s i mm e ks ps ps); try done. by left.
Qed.

Lemma exit_unhash_inv s i mm :
  inv s -> (i < AC_PROT_MAX)%nat -> mm ∈ s_dying s ->
  k_hashed (s_k s !!! i) = Some mm ->
  pe_mm (ac_prots (s_reg s) !!! i) <> mm ->
  existsb is_queue (s_pc s !!! i) = false ->
  inv (mk_sys (s_reg s) (<[i := mk_k None (k_reg (s_k s !!! i))]> (s_k s))
         (s_pc s) (s_dying s) (s_log s)).
Proof.
  intros I Hi Hd Hh Hne Hq. destruct (slot_lookup s I i Hi) as
    (e & ks & ps & He & Hk & Hp & Hok & Te & Tk & Tp).
  rewrite Te in Hne. rewrite Tk in Hh |- *. rewrite Tp in Hq.
  eapply (inv_slot_step s _ i e ks ps e _ ps); try done; simpl.
  - symmetry. by apply list_insert_id.
  - symmetry. by apply list_insert_id.
  - assert (forall p, p ∈ ps -> pinned p = true -> pc_mm p <> mm) as Hpn.
    { intros p H1 H2 <-. by destruct (inv_pinned _ I i ps p Hp H1 H2). }
    destruct ps as [|[] [|]]; simpl in Hok |- *; try done; destruct_and?.
    + destruct_or?; destruct_and?; simplify_eq/=; congruence.
    + subst. done.
    + subst. destruct (ret =? 0); [|done]. simplify_eq/=.
      by destruct (Hpn _ (list_elem_of_here _ _)).
    + destruct_or?; destruct_and?; simplify_eq/=; naive_solver.
    + destruct_or?; destruct_and?; simplify_eq/=; naive_solver.
    + subst. done.
  - lia.
  - intros p Hin. by apply (inv_pinned _ I i ps).
  - by left.
Qed.

Lemma reg_step_inv l s s' : step l s s' -> inv s -> inv s'.
Proof.
  intros Hs I. destruct Hs.
  - by eapply add_step_inv.
  - by apply register_step_inv.
  - by eapply finish_step_inv.
  - by apply del_step_inv.
  - by apply clear_step_inv.
  - by apply unreg_step_inv.
  - by apply unhash_step_inv.
  - by eapply done_step_inv.
  - by eapply queue_step_inv.
  - split; try apply I.
    + simpl. intros i ps p P1 P2 P3. rewrite not_elem_of_cons.
      split; [by eauto|]. by apply (inv_pinned _ I i ps).
    + simpl. intros m [-> | Hm]%elem_of_cons; [done|by apply I].
  - by apply exit_release_inv.
  - by eapply exit_unhash_inv.
  - split; try apply I.
    + simpl. intros i ps p P1 P2 P3 P4.
      apply list_elem_of_filter in P4 as [_ P4].
      by apply (inv_pinned _ I i ps p P1 P2 P3).
    + simpl. intros m [_ Hm]%list_elem_of_filter. by apply I.
Qed.

Lemma reg_sys_init_inv : inv sys_init.
Proof.
  split; try done; cbn [sys_init s_reg s_k s_pc reg_init ac_prots].
  - intros i e k ps [-> _]%lookup_replicate [-> _]%lookup_replicate
      [-> _]%lookup_replicate. simpl. split_and!; try done. by left.
  - intros i ps p [-> _]%lookup_replicate H. by apply elem_of_nil in H.
  - intros i j e e' mm Hmm [-> _]%lookup_replicate [-> _]%lookup_replicate.
    unfold live, add_dup, add_claiming, NULL, AC_PROT_RESERVED. simpl.
    destruct mm; (done || lia).
  - intros mm H. by apply elem_of_nil in H.
Qed.

Lemma reg_reachable_inv s : rtc any_step sys_init s -> inv s.
Proof.
  intros H. apply (rtc_invariant _ _ _ _ H reg_sys_init_inv).
  intros a b [l Hs]. by apply reg_step_inv with l.
Qed.

(** ** Liveness of an entry, step by step *)

Lemma pc_entry s i l1 p l2 :
  inv s -> s_pc s !! i = Some (l1 ++ p :: l2) ->
  exists e k, ac_prots (s_reg s) !! i = Some e /\ s_k s !! i = Some k /\
    ac_prots (s_reg s) !!! i = e /\ s_k s !!! i = k /\ slot_ok e k [p] /\
    l1 = [] /\ l2 = [].
Proof.
  intros I Hp. destruct (slot_lookup s I i) as
    (e & k & ps & He & Hk & Hp' & Hok & Te & Tk & _); [by eapply pc_slot|].
  rewrite Hp in Hp'. injection Hp' as <-.
  destruct (slot_ok_single _ _ _ _ _ Hok) as [-> ->]. by exists e, k.
Qed.

(** The entries a call of the release callback leaves. *)
Lemma call_release_prots s i m :
  ac_prots (s_reg (call_release s i m)) =
  let e := ac_prots (s_reg s) !!! i in
  if pe_mm e =? m then <[i := release_entry e]> (ac_prots (s_reg s))
  else ac_prots (s_reg s).
Proof.
  unfold call_release, release_cs. by destruct (pe_mm _ =? m).
Qed.

Lemma released_dead mm e : 1 < mm -> live mm (release_entry e) = false.
Proof. intros H. unfold_entry. by destruct mm; try lia; destruct p. Qed.

Definition claims (mm : Z) (l : label) : bool :=
  match l with LAdd m (AddClaimed _) => m =? mm | _ => false end.

Lemma insert_live (es : list ac_prot_entry) i x j e' mm :
  (i < length es)%nat ->
  (live mm x = true -> live mm (es !!! i) = true) ->
  <[i := x]> es !! j = Some e' -> live mm e' = true ->
  exists e, es !! j = Some e /\ live mm e = true.
Proof.
  intros Hi Hx [(-> & -> & _)|[_ Hj]]%list_lookup_insert_case Hl; [|eauto].
  exists (es !!! j). split; [by apply list_lookup_lookup_total_lt|auto].
Qed.

(** Only claiming a slot for [mm] makes a slot live for it. *)
Lemma live_mono l s s' mm i e' :
  inv s -> step l s s' -> 1 < mm -> claims mm l = false ->
  ac_prots (s_reg s') !! i = Some e' -> live mm e' = true ->
  exists e, ac_prots (s_reg s) !! i = Some e /\ live mm e = true.
Proof.
  intros I Hs Hmm Hl. pose proof (inv_len_e _ I) as Hlen.
  assert (forall j m, (j < AC_PROT_MAX)%nat ->
    ac_prots (s_reg (call_release s j m)) !! i = Some e' -> live mm e' = true ->
    exists e, ac_prots (s_reg s) !! i = Some e /\ live mm e = true) as Hrel.
  { intros j m Hj. rewrite call_release_prots. cbv zeta.
    destruct (pe_mm _ =? m); [|eauto].
    apply insert_live; [lia|]. by rewrite released_dead. }
  destruct Hs as [s m pid comm jit r reg' Hm Hd Hadd| | s j l1 l2 m pid comm jit
    ret r reg' Hp Hfin|s m o reg' Hm Hd Hdel|s j m reg' Hj Hcl|s j l1 l2 k m Hp
    | |s j l1 l2 k m Hp|s j l1 l2 m pid comm Hp| |s j m Hj Hd Hh| | ];
    cbn [s_reg]; eauto.
  - (* add *)
    unfold add_claim in Hadd. pose proof (add_scan_spec m (ac_prots (s_reg s))) as Hsc.
    destruct (add_scan _ _ _ _) as [j| |[j|]]; simplify_eq/=; eauto.
    + destruct Hsc as (e & He & _). apply insert_live; [by eapply lookup_lt_Some|].
      by unfold_entry.
    + destruct Hsc as ((e & He & _) & _).
      apply insert_live; [by eapply lookup_lt_Some|]. unfold_entry.
      destruct (Z.eqb_spec 1 mm); [lia|]. by destruct (Z.eqb_spec m mm).
  - (* finish *)
    destruct (pc_entry _ _ _ _ _ I Hp) as (e & k & He & _ & Te & _ & Hok & _).
    unfold add_finish in Hfin. rewrite Te in Hfin.
    destruct Hok as (_ & H1 & H2 & H3 & _).
    assert (j < length (ac_prots (s_reg s)))%nat by by eapply lookup_lt_Some.
    destruct (ret =? 0); simpl negb in Hfin; cbv iota in Hfin;
      [destruct (pe_cancel e) eqn:Hc|]; injection Hfin as <- <-;
      apply insert_live; try done; rewrite ?Te; unfold_entry;
      try (by destruct mm; try lia).
    rewrite H1, H2, Hc, H3. destruct (Z.eqb_spec m 1), (Z.eqb_spec m mm); try lia;
      by rewrite ?andb_false_r.
  - (* del *)
    unfold del_mark in Hdel. destruct (find_index _ _) as [j|] eqn:Hf;
      simplify_eq/=.
    + apply find_index_lt in Hf. apply insert_live; [done|]. unfold_entry.
      rewrite andb_false_r. simpl. intros ->. by rewrite orb_true_r.
    + rewrite list_lookup_fmap.
      destruct (ac_prots (s_reg s) !! i) as [x|]; [|done].
      intros [= <-] ?%flag_cancel_live. eauto.
  - (* clear *)
    unfold clear_mark in Hcl. case_match; [|done]. simplify_eq/=.
    apply insert_live; [lia|]. unfold_entry. rewrite andb_false_r. simpl.
    intros ->. by rewrite orb_true_r.
  - (* unreg *)
    pose proof (pc_slot _ _ _ I Hp) as Hj. case_match; [|by eauto].
    pose proof (Hrel j m Hj) as Hr. rewrite call_release_prots in Hr |- *. done.
  - (* done *)
    destruct (pc_entry _ _ _ _ _ I Hp) as (e & ? & He & _ & Te & _ & Hok & _).
    assert (j < length (ac_prots (s_reg s)))%nat by by eapply lookup_lt_Some.
    destruct Hok as (_ & _ & _ & _ & _ & H1). rewrite <- Te in H1.
    destruct k; apply insert_live; try done; unfold_entry; rewrite H1;
      by destruct mm; try lia.
  - (* queue *)
    destruct (pc_entry _ _ _ _ _ I Hp) as (e & ? & He & _ & Te & _ & Hok & _).
    apply insert_live; [by eapply lookup_lt_Some|]. by unfold_entry.
Qed.

Definition removes (mm : Z) (l : label) : bool :=
  match l with
  | LDel m | LClear m | LRegFail m | LDie m => m =? mm
  | _ => false
  end.

Lemma insert_kept (es : list ac_prot_entry) j x i e mm :
  es !! i = Some e -> live mm e = true ->
  (i = j -> live mm x = true) ->
  exists e', <[j := x]> es !! i = Some e' /\ live mm e' = true.
Proof.
  intros He Hl Hx. destruct (decide (i = j)) as [->|Hne].
  - exists x. rewrite list_lookup_insert_eq by (by eapply lookup_lt_Some). auto.
  - exists e. by rewrite list_lookup_insert_ne.
Qed.

Lemma live_cases mm e :
  live mm e = true ->
  (pe_mm e = mm /\ pe_removing e = false) \/
  (pe_mm e = AC_PROT_RESERVED /\ pe_claiming e = mm /\ pe_cancel e = false).
Proof. unfold live, add_dup, add_claiming. intros H. boolp. naive_solver. Qed.

(** A thread that unregisters owns a dead slot. *)
Lemma unregistering_dead mm e k p :
  1 < mm -> slot_ok e k [p] ->
  match p with PAddReg _ _ _ _ | PAddFin _ _ _ _ _ => False | _ => True end ->
  live mm e = false.
Proof.
  intros Hmm Hok Hp. destruct (live mm e) eqn:Hl; [|done].
  apply live_cases in Hl. destruct p; simpl in Hok; try done;
    unfold AC_PROT_RESERVED, NULL in *; by_cases.
Qed.

Lemma live_kept l s s' mm i e :
  inv s -> step l s s' -> 1 < mm -> mm ∉ s_dying s -> removes mm l = false ->
  ac_prots (s_reg s) !! i = Some e -> live mm e = true ->
  exists e', ac_prots (s_reg s') !! i = Some e' /\ live mm e' = true.
Proof.
  intros I Hs Hmm Hdy Hl He Hlive. pose proof (live_cases _ _ Hlive) as Hc.
  assert (forall j x, ac_prots (s_reg s) !!! j = x -> i = j -> x = e) as Hat.
  { intros j x <- ->. by apply list_lookup_total_correct. }
  destruct Hs as [s m pid comm jit r reg' Hm Hd Hadd| | s j l1 l2 m pid comm jit
    ret r reg' Hp Hfin|s m o reg' Hm Hd Hdel|s j m reg' Hj Hcl|s j l1 l2 k m Hp
    | |s j l1 l2 k m Hp|s j l1 l2 m pid comm Hp| |s j m Hj Hd Hh| | ];
    cbn [s_reg]; eauto.
  - unfold add_claim in Hadd. pose proof (add_scan_spec m (ac_prots (s_reg s))) as Hsc.
    destruct (add_scan _ _ _ _) as [j| |[j|]]; simplify_eq/=; eauto.
    + apply (insert_kept _ _ _ _ e); [done..|]. intros Hij.
      rewrite (Hat j _ eq_refl Hij). by unfold_entry.
    + destruct Hsc as ((x & Hx & Hf) & _).
      apply (insert_kept _ _ _ _ e); [done..|]. intros ->.
      assert (x = e) as -> by congruence. unfold add_free in Hf. exfalso.
      unfold AC_PROT_RESERVED, NULL in *. boolp. by_cases.
  - destruct (pc_entry _ _ _ _ _ I Hp) as (x & k & Hx & _ & Te & _ & Hok & _).
    destruct Hok as (_ & H1 & H2 & H3 & _).
    unfold add_finish in Hfin. rewrite Te in Hfin. cbn [claims] in Hl.
    destruct (decide (i = j)) as [->|Hne]; cycle 1.
    { exists e. split; [|done]. rewrite <- He.
      repeat case_match; injection Hfin as <- <-; simpl;
        by rewrite list_lookup_insert_ne. }
    assert (x = e) as -> by congruence.
    assert (m = mm /\ pe_cancel e = false) as [-> Hca].
    { unfold AC_PROT_RESERVED in *.
      destruct Hc as [[? ?]|(? & ? & ?)]; [lia|split; congruence]. }
    destruct (ret =? 0); [|simpl in Hl; by rewrite Z.eqb_refl in Hl].
    rewrite Hca in Hfin. injection Hfin as <- <-. simpl.
    apply (insert_kept _ _ _ _ e); [done..|]. intros _. unfold_entry.
    by rewrite H3, Z.eqb_refl.
  - simpl in Hl. apply Z.eqb_neq in Hl. unfold del_mark in Hdel.
    destruct (find_index _ _) as [j|] eqn:Hf; simplify_eq/=.
    + apply find_index_Some in Hf as [(x & Hx & Hdm) _].
      apply (insert_kept _ _ _ _ e); [done..|]. intros ->.
      assert (x = e) as -> by congruence. exfalso.
      unfold del_match, AC_PROT_RESERVED in *. boolp. by_cases.
    + exists (flag_cancel m e). rewrite list_lookup_fmap, He. split; [done|].
      unfold flag_cancel. destruct (_ && _) eqn:Hb; [|done]. exfalso.
      unfold AC_PROT_RESERVED in *. boolp. by_cases.
  - simpl in Hl. apply Z.eqb_neq in Hl. unfold clear_mark in Hcl.
    destruct (_ && _) eqn:Hb; [|done]. injection Hcl as <- <-.
    apply (insert_kept _ _ _ _ e); [done..|]. intros Hij. exfalso.
    rewrite (Hat j _ eq_refl Hij) in *. boolp. naive_solver.
  - destruct (pc_entry _ _ _ _ _ I Hp) as (x & ? & Hx & _ & Te & _ & Hok & _).
    assert (i <> j) as Hij.
    { intros ->. assert (x = e) as -> by congruence.
      by rewrite (unregistering_dead mm e _ _ Hmm Hok) in Hlive. }
    case_match; [|by eauto]. rewrite call_release_prots. cbv zeta.
    case_match; [|by eauto]. exists e. by rewrite list_lookup_insert_ne.
  - destruct (pc_entry _ _ _ _ _ I Hp) as (x & ? & Hx & _ & Te & _ & Hok & _).
    assert (i <> j) as Hij.
    { intros ->. assert (x = e) as -> by congruence.
      by rewrite (unregistering_dead mm e _ _ Hmm Hok) in Hlive. }
    exists e. destruct k; simpl; by rewrite list_lookup_insert_ne.
  - destruct (pc_entry _ _ _ _ _ I Hp) as (x & ? & Hx & _ & Te & _ & Hok & _).
    assert (i <> j) as Hij.
    { intros ->. assert (x = e) as -> by congruence.
      by rewrite (unregistering_dead mm e _ _ Hmm Hok) in Hlive. }
    exists e. simpl. by rewrite list_lookup_insert_ne.
  - rewrite call_release_prots. cbv zeta.
    destruct (Z.eqb_spec (pe_mm (ac_prots (s_reg s) !!! j)) m) as [Em|]; [|by eauto].
    apply (insert_kept _ _ _ _ e); [done..|]. intros Hij. exfalso.
    rewrite (Hat j _ eq_refl Hij) in Em. pose proof (inv_dying _ I m Hd).
    unfold AC_PROT_RESERVED in *. destruct Hc as [[? ?]|(? & ? & ?)].
    + congruence.
    + lia.
Qed.

(** ** Consequences *)

Definition quiescent (s : sys) : Prop :=
  forall i ps, s_pc s !! i = Some ps -> ps = [].

Lemma protected_spec st mm :
  1 < mm ->
  ac_is_protected_mm st mm = true <->
  exists i e, ac_prots st !! i = Some e /\ pe_mm e = mm.
Proof.
  intros Hmm. unfold ac_is_protected_mm, NULL.
  destruct (Z.eqb_spec mm 0); [lia|]. rewrite existsb_exists. split.
  - intros (e & Hin & He%Z.eqb_eq).
    apply list_elem_of_In, list_elem_of_lookup in Hin as [i Hi]. eauto.
  - intros (i & e & Hi & He). exists e. split; [|by apply Z.eqb_eq].
    by apply list_elem_of_In, (list_elem_of_lookup_2 _ i).
Qed.

(** With no thread in flight, protected and live are the same. *)
Lemma quiescent_protected s mm :
  inv s -> quiescent s -> 1 < mm ->
  ac_is_protected_mm (s_reg s) mm = true <->
  exists i e, ac_prots (s_reg s) !! i = Some e /\ live mm e = true.
Proof.
  intros I Hq Hmm. rewrite protected_spec by done.
  assert (forall i e, ac_prots (s_reg s) !! i = Some e ->
    pe_removing e = false /\ pe_mm e <> AC_PROT_RESERVED) as Hslot.
  { intros i e He. destruct (slot_lookup s I i) as
      (e0 & k & ps & He0 & Hk & Hp & Hok & _).
    { rewrite <- (inv_len_e _ I). by eapply lookup_lt_Some. }
    assert (e0 = e) as -> by congruence. rewrite (Hq i ps Hp) in Hok.
    simpl in Hok. unfold NULL, AC_PROT_RESERVED in *. by_cases || split; by_cases. }
  split; intros (i & e & He & H); exists i, e; (split; [done|]);
    destruct (Hslot i e He) as [Hr Hn].
  - unfold live, add_dup. by rewrite H, Hr, Z.eqb_refl.
  - apply live_cases in H. by_cases.
Qed.

(** No thread is working on [mm]. *)
Definition idle (mm : Z) (s : sys) : Prop :=
  forall i ps p, s_pc s !! i = Some ps -> p ∈ ps -> pc_mm p <> mm.

Lemma idle_protected s mm :
  inv s -> 1 < mm -> idle mm s -> ac_is_protected_mm (s_reg s) mm = true ->
  exists i e, ac_prots (s_reg s) !! i = Some e /\ live mm e = true.
Proof.
  intros I Hmm Hidle (i & e & He & Em)%protected_spec; [|done].
  exists i, e. split; [done|]. destruct (slot_lookup s I i) as
    (e0 & k & ps & He0 & Hk & Hp & Hok & _).
  { rewrite <- (inv_len_e _ I). by eapply lookup_lt_Some. }
  assert (e0 = e) as -> by congruence.
  destruct ps as [|p [|q ps]]; [| |by destruct p].
  - destruct Hok as (_ & _ & Hr & _). unfold live, add_dup. by rewrite Em, Hr, Z.eqb_refl.
  - pose proof (Hidle i _ p Hp ltac:(by left)) as Hne. destruct p; cbn in Hok, Hne;
      unfold NULL, AC_PROT_RESERVED in *; by_cases.
Qed.

Lemma step_del_inv s s' mm :
  step (LDel mm) s s' ->
  exists o, s_reg s' = snd (del_mark (s_reg s) mm) /\
            o = fst (del_mark (s_reg s) mm).
Proof.
  intros Hs. remember (LDel mm) as l eqn:El. destruct Hs; try discriminate.
  - by destruct (ret =? 0).
  - injection El as ->. simpl. exists o. by rewrite H1.
Qed.

Lemma step_add_inv s s' mm r :
  step (LAdd mm r) s s' ->
  1 < mm /\ mm ∉ s_dying s /\ s_dying s' = s_dying s /\
  exists jit, add_claim (s_reg s) mm jit = (r, s_reg s').
Proof.
  intros Hs. remember (LAdd mm r) as l eqn:El. destruct Hs; try discriminate.
  - injection El as -> ->. simpl. eauto.
  - by destruct (ret =? 0).
Qed.

Lemma del_kills s s' mm :
  inv s -> step (LDel mm) s s' -> 1 < mm ->
  forall i e, ac_prots (s_reg s') !! i = Some e -> live mm e = false.
Proof.
  intros I Hs Hmm i e He. destruct (live mm e) eqn:Hl; [|done].
  destruct (live_mono (LDel mm) s s' mm i e I Hs Hmm eq_refl He Hl)
    as (e0 & He0 & Hl0).
  destruct (step_del_inv s s' mm Hs) as (_ & Hdel & _). rewrite Hdel in He.
  unfold del_mark in He. destruct (find_index _ _) as [j|] eqn:Hf; simpl in He.
  - apply find_index_Some in Hf as [(x & Hx & Hdm) _].
    assert (i = j) as ->.
    { apply (inv_live _ I i j e0 x mm Hmm He0 Hx Hl0). unfold live.
      unfold add_dup, del_match in *. by rewrite Hdm. }
    rewrite list_lookup_insert_eq in He by (by eapply lookup_lt_Some).
    injection He as <-. rewrite (prots_total _ _ _ Hx) in Hl.
    apply live_cases in Hl. unfold del_match in Hdm. unfold_entry. boolp.
    by_cases.
  - rewrite list_lookup_fmap, He0 in He. injection He as <-.
    rewrite find_index_None in Hf. specialize (Hf i e0 He0).
    unfold flag_cancel in Hl. unfold del_match in Hf.
    apply live_cases in Hl0 as [[H1 H2]|(H1 & H2 & H3)].
    + by rewrite H1, H2, Z.eqb_refl in Hf.
    + rewrite H1, H2, !Z.eqb_refl in Hl. apply live_cases in Hl.
      simpl in Hl. unfold AC_PROT_RESERVED in *. by_cases.
Qed.

Lemma add_lives s s' mm r :
  inv s -> step (LAdd mm r) s s' -> r <> AddRet (- ENOSPC) ->
  1 < mm /\ mm ∉ s_dying s' /\
  exists i e, ac_prots (s_reg s') !! i = Some e /\ live mm e = true.
Proof.
  intros I Hs Hr.
  destruct (step_add_inv s s' mm r Hs) as (Hm & Hd & -> & jit & Hadd).
  split; [done|]. split; [done|]. unfold add_claim in Hadd.
  pose proof (add_scan_spec mm (ac_prots (s_reg s))) as Hsc.
  destruct (add_scan _ _ _ _) as [j| |[j|]]; injection Hadd as <- <-; simpl in *.
  - destruct Hsc as (e & He & Hdup). exists j, (set_jit e jit).
    rewrite (prots_total _ _ _ He), list_lookup_insert_eq
      by (by eapply lookup_lt_Some). split; [done|].
    unfold live. change (add_dup mm (set_jit e jit)) with (add_dup mm e).
    by rewrite Hdup.
  - destruct Hsc as (j & e & He & Hc). exists j, e. split; [done|].
    unfold live. by rewrite Hc, orb_true_r.
  - destruct Hsc as ((e & He & _) & _).
    exists j, (claim_entry e mm). rewrite (prots_total _ _ _ He),
      list_lookup_insert_eq by (by eapply lookup_lt_Some). split; [done|].
    unfold_entry. rewrite !Z.eqb_refl. simpl. by rewrite orb_true_r.
  - done.
Qed.

Lemma dying_kept l s s' mm :
  step l s s' -> removes mm l = false -> mm ∉ s_dying s -> mm ∉ s_dying s'.
Proof.
  intros Hs Hl Hd. destruct Hs; try done; simpl in *.
  - case_match; [|done]. unfold call_release. by destruct (release_cs _ _ _).
  - rewrite not_elem_of_cons. split; [|done]. intros ->.
    by rewrite Z.eqb_refl in Hl.
  - unfold call_release. by destruct (release_cs _ _ _).
  - intros [_ ?]%list_elem_of_filter. done.
Qed.

(** ** Progress *)

Definition rank (p : pc) : nat :=
  match p with
  | PAddReg _ _ _ _ => 5
  | PAddFin _ _ _ _ _ => 4
  | PQueue _ _ _ => 4
  | PUnreg _ _ => 3
  | PUnhash _ _ => 2
  | PDone _ _ => 1
  end.

Definition ranks (ps : list pc) : nat := sum_list_with rank ps.
Definition work_left (s : sys) : nat := sum_list_with ranks (s_pc s).

Lemma sum_insert {A} (f : A -> nat) (l : list A) i x y :
  l !! i = Some x ->
  (sum_list_with f (<[i := y]> l) + f x = sum_list_with f l + f y)%nat.
Proof.
  revert i. induction l as [|a l IH]; intros [|i] H; simplify_eq/=; [lia|].
  specialize (IH i H). lia.
Qed.

(** A step of a thread already in flight: not a new request, not an exit. *)
Definition internal (l : label) : Prop :=
  l = LTau \/ exists mm, l = LRegFail mm.

(** The thread on a slot can always take its next step. *)
Lemma thread_progress s i p ps :
  inv s -> s_pc s !! i = Some (p :: ps) ->
  exists l s' ps', internal l /\
    (step l s s' /\ s_pc s' = <[i := ps']> (s_pc s)) /\
    (ranks ps' < ranks (p :: ps))%nat.
Proof.
  intros I Hp. destruct (pc_entry s i [] p ps I Hp) as
    (e & k & He & Hk & Te & Tk & Hok & _ & ->).
  destruct p as [mm pid comm jit|mm pid comm jit ret|kd mm|kd mm|kd mm|mm pid comm].
  - eexists LTau, _, [_]. split; [by left|]. split.
    { split; [apply (st_register s i [] [] mm pid comm jit 0 Hp)|].
      reflexivity. }
    simpl. lia.
  - destruct (add_finish (s_reg s) i mm pid comm jit ret) as [r reg'] eqn:Hf.
    eexists (if ret =? 0 then LTau else LRegFail mm), _, _.
    split; [|split].
    { unfold internal. destruct (ret =? 0); [by left|right; eauto]. }
    { split; [apply (st_finish s i [] [] mm pid comm jit ret r reg' Hp Hf)|].
      reflexivity. }
    destruct r; simpl; lia.
  - simpl in Hok. destruct Hok as (_ & Hr & _).
    eexists LTau, _, [PUnhash kd mm]. split; [by left|]. split.
    { split; [apply (st_unreg s i [] [] kd mm Hp)|]. rewrite Tk.
      destruct (k_hashed k); [|done].
      unfold call_release, release_cs. simpl. rewrite Te, Hr.
      by destruct (pe_mm e =? mm). }
    simpl. lia.
  - eexists LTau, _, [PDone kd mm]. split; [by left|]. split.
    { by split; [apply (st_unhash s i [] [] kd mm Hp)|]. }
    simpl. lia.
  - eexists LTau, _, []. split; [by left|]. split.
    { by split; [apply (st_done s i [] [] kd mm Hp)|]. }
    simpl. lia.
  - eexists LTau, _, [PUnreg UWork mm]. split; [by left|]. split.
    { by split; [apply (st_queue s i [] [] mm pid comm Hp)|]. }
    simpl. lia.
Qed.

Lemma drains n s :
  inv s -> (work_left s <= n)%nat ->
  exists s', rtc (fun a b => exists l, internal l /\ step l a b) s s' /\
    quiescent s'.
Proof.
  revert s. induction n as [|n IH]; intros s I Hn.
  all: destruct (decide (Forall (fun ps => ps = []) (s_pc s))) as [Hq|Hq].
  1, 3: exists s; split; [constructor|]; intros i ps Hps;
    by rewrite Forall_lookup in Hq; apply (Hq i).
  all: apply not_Forall_Exists, Exists_exists in Hq as (ps & Hin & Hne);
    [|apply _]; apply list_elem_of_lookup in Hin as [i Hi];
    destruct ps as [|p ps]; [by destruct Hne|].
  all: destruct (thread_progress s i p ps I Hi)
    as (l & s1 & ps' & Hint & [Hs Epc] & Hlt).
  all: pose proof (sum_insert ranks (s_pc s) i (p :: ps) ps' Hi) as Hsum;
    unfold work_left in *.
  - lia.
  - destruct (IH s1) as (s' & Hrtc & Hq').
    + by apply reg_step_inv with l s.
    + rewrite Epc. lia.
    + exists s'. split; [|done]. eapply rtc_l; [|done]. eauto.
Qed.

(** ** Properties *)

(** A slot protects [mm] for good, or is about to: its entry is published and
    nobody is removing it, or an addition that nobody cancelled has claimed
    it. *)
Definition holds (mm : Z) (e : ac_prot_entry) : Prop :=
  (pe_mm e = mm /\ pe_removing e = false) \/
  (pe_mm e = AC_PROT_RESERVED /\ pe_claiming e = mm /\ pe_cancel e = false).

Lemma holds_live mm e : holds mm e -> live mm e = true.
Proof.
  unfold live, add_dup, add_claiming. intros [(-> & ->)|(-> & -> & ->)];
    by rewrite ?Z.eqb_refl, ?orb_true_r.
Qed.

(** What a reachable state guarantees for each slot and for the count. *)
Record registry_safe (s : sys) : Prop := {
  safe_owner : forall i ps, s_pc s !! i = Some ps -> (length ps <= 1)%nat;
  safe_register : forall i mm pid comm jit,
    PAddReg mm pid comm jit ∈ s_pc s !!! i -> (i < AC_PROT_MAX)%nat ->
    s_k s !!! i = k_none;
  safe_unregister : forall i kd mm,
    PUnreg kd mm ∈ s_pc s !!! i -> (i < AC_PROT_MAX)%nat ->
    k_reg (s_k s !!! i) = Some mm;
  safe_published : forall i e, ac_prots (s_reg s) !! i = Some e ->
    published e = true ->
    k_hashed (s_k s !!! i) = Some (pe_mm e) /\
    k_reg (s_k s !!! i) = Some (pe_mm e);
  safe_free : forall i e, ac_prots (s_reg s) !! i = Some e ->
    add_free e = true -> s_k s !!! i = k_none /\ s_pc s !!! i = [];
  safe_one_slot : forall mm i j e e', 1 < mm ->
    ac_prots (s_reg s) !! i = Some e -> ac_prots (s_reg s) !! j = Some e' ->
    holds mm e -> holds mm e' -> i = j;
  safe_count : ac_prot_count (s_reg s) =
    Z.of_nat (count_if published (ac_prots (s_reg s)));
}.

(** C2: under every interleaving of additions, deletions, clearing and
    exits, each slot has at most one thread working on it; a notifier is
    registered only while it is not registered and unregistered only for the
    address space it is registered on; a published entry is registered and
    hashed; a slot free for reuse holds no reference; an address space has at
    most one slot that is published and not being removed or claimed and not
    cancelled; and [ac_prot_count] is the number of published entries. *)
Theorem registry_never_corrupt s :
  rtc any_step sys_init s -> registry_safe s.
Proof.
  intros Hr. pose proof (reg_reachable_inv s Hr) as I. split.
  - intros i ps Hp. destruct (slot_lookup s I i) as
      (e & k & ps' & _ & _ & Hp' & Hok & _); [by eapply pc_slot|].
    rewrite Hp in Hp'. injection Hp' as <-.
    by destruct ps as [|p [|]]; simpl in *; [lia..|destruct p].
  - intros i mm pid comm jit Hin Hi. destruct (slot_lookup s I i Hi) as
      (e & k & ps & _ & _ & Hp & Hok & _ & -> & Tp). rewrite Tp in Hin.
    apply list_elem_of_split in Hin as (l1 & l2 & ->).
    destruct (slot_ok_single _ _ _ _ _ Hok) as [-> ->]. by apply Hok.
  - intros i kd mm Hin Hi. destruct (slot_lookup s I i Hi) as
      (e & k & ps & _ & _ & Hp & Hok & _ & -> & Tp). rewrite Tp in Hin.
    apply list_elem_of_split in Hin as (l1 & l2 & ->).
    destruct (slot_ok_single _ _ _ _ _ Hok) as [-> ->]. by apply Hok.
  - intros i e He Hpub. destruct (slot_lookup s I i) as
      (e0 & k & ps & He0 & _ & Hp & Hok & _ & -> & _).
    { rewrite <- (inv_len_e _ I). by eapply lookup_lt_Some. }
    assert (e0 = e) as -> by congruence.
    unfold published, NULL, AC_PROT_RESERVED in Hpub. boolp.
    destruct ps as [|[] [|]]; simpl in Hok; try done;
      unfold NULL, AC_PROT_RESERVED in *; destruct_and?; destruct_or?;
      destruct_and?; subst; simpl; try done; try congruence; naive_solver.
  - intros i e He Hf. destruct (slot_lookup s I i) as
      (e0 & k & ps & He0 & _ & Hp & Hok & _ & -> & ->).
    { rewrite <- (inv_len_e _ I). by eapply lookup_lt_Some. }
    assert (e0 = e) as -> by congruence.
    by destruct (add_free_owner e k ps Hok Hf).
  - intros mm i j e e' Hmm Hi Hj Hh%holds_live Hh'%holds_live.
    by apply (inv_live _ I i j e e' mm).
  - apply I.
Qed.

(** Steps that do not claim a slot for [mm]; steps that do not end its
    protection. *)
Definition step_no_claim (mm : Z) (a b : sys) : Prop :=
  exists l, step l a b /\ claims mm l = false.
Definition step_no_remove (mm : Z) (a b : sys) : Prop :=
  exists l, step l a b /\ removes mm l = false.

(** C5: no deletion is lost.  Once the deletion of [mm] has passed its
    critical section, even while an addition or another deletion of [mm] was in
    flight, [mm] is unprotected at every moment at which no thread is working
    on [mm] (whatever other threads do to other address spaces), unless a later
    addition claims a slot for it. *)
Theorem delete_not_lost s s1 s2 mm :
  rtc any_step sys_init s -> step (LDel mm) s s1 -> 1 < mm ->
  rtc (step_no_claim mm) s1 s2 -> idle mm s2 ->
  ac_is_protected_mm (s_reg s2) mm = false.
Proof.
  intros Hr Hd Hmm Hsteps Hq. pose proof (reg_reachable_inv s Hr) as I.
  assert (inv s2 /\ forall i e, ac_prots (s_reg s2) !! i = Some e ->
    live mm e = false) as [I2 Hdead].
  { apply (rtc_invariant _ (fun s => inv s /\ forall i e,
      ac_prots (s_reg s) !! i = Some e -> live mm e = false) _ _ Hsteps).
    - split; [by eapply reg_step_inv|by eapply del_kills].
    - intros a b (l & Hs & Hl) [Ia Ha]. split; [by eapply reg_step_inv|].
      intros i e He. destruct (live mm e) eqn:E; [|done].
      destruct (live_mono _ _ _ _ _ _ Ia Hs Hmm Hl He E) as (e0 & He0 & E0).
      by rewrite (Ha i e0 He0) in E0. }
  destruct (ac_is_protected_mm _ _) eqn:E; [|done].
  apply (idle_protected s2 mm I2 Hmm Hq) in E as (i & e & He & Hl).
  by rewrite (Hdead i e He) in Hl.
Qed.

(** No addition is lost.  Once an addition of [mm] has claimed a slot or
    found one (the registry was not full), [mm] is protected whenever the
    threads in flight have finished, unless it is deleted or cleared, its
    notifier could not be registered, or its last user exits. *)
Theorem add_not_lost s s1 s2 mm r :
  rtc any_step sys_init s -> step (LAdd mm r) s s1 ->
  r <> AddRet (- ENOSPC) ->
  rtc (step_no_remove mm) s1 s2 -> quiescent s2 ->
  ac_is_protected_mm (s_reg s2) mm = true.
Proof.
  intros Hr Ha Hne Hsteps Hq. pose proof (reg_reachable_inv s Hr) as I.
  destruct (add_lives s s1 mm r I Ha Hne) as (Hmm & Hdy & Hlive).
  assert (inv s2 /\ mm ∉ s_dying s2 /\ exists i e,
    ac_prots (s_reg s2) !! i = Some e /\ live mm e = true) as (I2 & _ & Hl2).
  { apply (rtc_invariant _ (fun s => inv s /\ mm ∉ s_dying s /\ exists i e,
      ac_prots (s_reg s) !! i = Some e /\ live mm e = true) _ _ Hsteps).
    - split; [by eapply reg_step_inv|done].
    - intros a b (l & Hs & Hl) (Ia & Hda & i & e & He & E).
      split; [by eapply reg_step_inv|]. split; [by eapply dying_kept|].
      destruct (live_kept _ _ _ _ _ _ Ia Hs Hmm Hda Hl He E) as (e' & ? & ?).
      by exists i, e'. }
  by apply (quiescent_protected s2 mm I2 Hq Hmm).
Qed.

(** An address that the kernel may hand out again is not protected.
    When the last reference on a dead address space is gone, no entry names
    it, so a new process that gets the address does not inherit protection,
    and a release work item never runs for a freed address space. *)
Theorem recycled_not_protected s s' mm :
  rtc any_step sys_init s -> step (LRecycle mm) s s' ->
  ac_is_protected_mm (s_reg s') mm = false /\
  forall i ps kd, s_pc s' !! i = Some ps -> PUnreg kd mm ∉ ps.
Proof.
  intros Hr Hs. pose proof (reg_reachable_inv s Hr) as I.
  remember (LRecycle mm) as l eqn:El. destruct Hs; try discriminate.
  { by destruct (ret =? 0). }
  injection El as ->. simpl. rename H0 into Hk. pose proof (inv_dying _ I mm H) as Hmm.
  split.
  - destruct (ac_is_protected_mm _ _) eqn:E; [|done].
    apply protected_spec in E as (i & e & He & Hm); [|done].
    destruct (slot_lookup s I i) as (e0 & k & ps & He0 & _ & _ & Hok & _ & Tk & _).
    { rewrite <- (inv_len_e _ I). by eapply lookup_lt_Some. }
    assert (e0 = e) as -> by congruence. exfalso. apply (Hk i).
    { rewrite <- (inv_len_e _ I). by eapply lookup_lt_Some. }
    rewrite Tk. destruct ps as [|[] [|]]; simpl in Hok;
      unfold NULL, AC_PROT_RESERVED in *; destruct_and?; destruct_or?;
      destruct_and?; subst; simpl; try done; try congruence; lia.
  - intros i ps kd Hp Hin. pose proof (pc_slot s i ps I Hp) as Hi.
    destruct (slot_lookup s I i Hi) as
      (e0 & k & ps' & _ & _ & Hp' & Hok & _ & Tk & _).
    rewrite Hp in Hp'. injection Hp' as <-.
    apply list_elem_of_split in Hin as (l1 & l2 & ->).
    destruct (slot_ok_single _ _ _ _ _ Hok) as [-> ->].
    apply (Hk i Hi). rewrite Tk. by apply Hok.
Qed.

(** No slot is pinned for ever.  From every reachable state the threads
    in flight can finish, in a bounded number of their own steps, leaving
    every slot either free for reuse or published. *)
Theorem registry_drains s :
  rtc any_step sys_init s ->
  exists s', rtc (fun a b => exists l, internal l /\ step l a b) s s' /\
    quiescent s' /\
    forall i e, ac_prots (s_reg s') !! i = Some e ->
      add_free e = true \/ published e = true.
Proof.
  intros Hr. pose proof (reg_reachable_inv s Hr) as I.
  destruct (drains (work_left s) s I (le_n _)) as (s' & Hs & Hq).
  exists s'. split; [done|]. split; [done|].
  assert (inv s') as I'.
  { apply (rtc_invariant _ _ _ _ Hs I). intros a b (l & _ & Hl).
    by apply reg_step_inv with l. }
  intros i e He. destruct (slot_lookup s' I' i) as
    (e0 & k & ps & He0 & _ & Hp & Hok & _).
  { rewrite <- (inv_len_e _ I'). by eapply lookup_lt_Some. }
  assert (e0 = e) as -> by congruence. rewrite (Hq i ps Hp) in Hok.
  simpl in Hok. unfold add_free, published, NULL, AC_PROT_RESERVED in *.
  destruct Hok as (_ & _ & -> & [[-> _]|[Hm _]]); [by left|right].
  destruct (Z.eqb_spec (pe_mm e) 0), (Z.eqb_spec (pe_mm e) 1); (done || lia).
Qed.

(** ** A run: an addition of address space 100 is in flight when the same
    address space is deleted. *)
Module RunDemo.
Definition g : list Z := lit "game".

Definition claimed : sys :=
  mk_sys (snd (add_claim reg_init 100 false)) (s_k sys_init)
    (add_pc sys_init 0 (PAddReg 100 7 g false)) [] [].

Lemma to_claimed : step (LAdd 100 (AddClaimed 0)) sys_init claimed.
Proof.
  apply (st_add sys_init 100 7 g false (AddClaimed 0)); [lia|set_solver|].
  reflexivity.
Qed.

Lemma reach_claimed : rtc any_step sys_init claimed.
Proof. eapply rtc_l; [|constructor]. eexists. apply to_claimed. Qed.

Lemma quiescent_test s :
  forallb (fun ps => match ps with [] => true | _ => false end) (s_pc s) = true ->
  quiescent s.
Proof.
  intros H i ps Hp. rewrite forallb_forall in H. specialize (H ps).
  destruct ps; [done|]. assert (false = true) as [=]. apply H.
  apply list_elem_of_In. by apply (list_elem_of_lookup_2 _ i).
Qed.

Lemma quiescent_idle mm s : quiescent s -> idle mm s.
Proof. intros Hq i ps p Hp Hin. rewrite (Hq i ps Hp) in Hin. by apply elem_of_nil in Hin. Qed.

(** The claimed slot registered and published. *)
Lemma publish_run :
  exists s, rtc (step_no_remove 100) claimed s /\ quiescent s.
Proof.
  eexists. split.
  { eapply rtc_l.
    { eexists. split; [apply (st_register _ 0 [] [] 100 7 g false 0)|];
        reflexivity. }
    eapply rtc_l; [|constructor].
    eexists. split; [eapply (st_finish _ 0 [] [] 100 7 g false 0)|]; reflexivity. }
  apply quiescent_test. vm_compute. reflexivity.
Qed.

Lemma add_not_lost_witness : exists s,
  ac_is_protected_mm (s_reg s) 100 = true.
Proof.
  destruct publish_run as (s & Hs & Hq). exists s.
  apply (add_not_lost sys_init claimed s 100 (AddClaimed 0)); try done.
  apply to_claimed.
Defined.

(** The deletion cancels the claim; the adding thread undoes its own
    registration. *)
Lemma delete_not_lost_witness : exists s1 s2,
  step (LDel 100) claimed s1 /\ rtc (step_no_claim 100) s1 s2 /\
  ac_is_protected_mm (s_reg s2) 100 = false.
Proof.
  assert (exists s1 s2, step (LDel 100) claimed s1 /\
    rtc (step_no_claim 100) s1 s2 /\ idle 100 s2) as (s1 & s2 & H1 & H2 & H3).
  { eexists _, _. split; [eapply st_del; [lia|set_solver|reflexivity]|]. split.
    { eapply rtc_l.
      { eexists. split; [apply (st_register _ 0 [] [] 100 7 g false 0)|];
          reflexivity. }
      eapply rtc_l.
      { eexists. split; [eapply (st_finish _ 0 [] [] 100 7 g false 0)|];
          reflexivity. }
      eapply rtc_l.
      { eexists. split; [apply (st_unreg _ 0 [] [] UCancel 100)|];
          reflexivity. }
      eapply rtc_l.
      { eexists. split; [apply (st_unhash _ 0 [] [] UCancel 100)|];
          reflexivity. }
      eapply rtc_l; [|constructor].
      eexists. split; [apply (st_done _ 0 [] [] UCancel 100)|]; reflexivity. }
    apply quiescent_idle, quiescent_test. vm_compute. reflexivity. }
  exists s1, s2. split; [done|]. split; [done|].
  apply (delete_not_lost claimed s1 s2 100); try done. apply reach_claimed.
Defined.

(** The published address space exits; its slot is released and the address
    is reused.  States of the run, evaluated. *)
Lemma step_eq l a b c : step l a b -> b = c -> step l a c.
Proof. by intros ? <-. Qed.

Definition upd (s : sys) (k : kslot) (ps : list pc) : sys :=
  mk_sys (s_reg s) (<[0%nat := k]> (s_k s)) (<[0%nat := ps]> (s_pc s))
    (s_dying s) (s_log s).

Definition run1 : sys := Eval vm_compute in
  upd claimed (mk_k (Some 100) (Some 100)) [PAddFin 100 7 g false 0].
Definition run2 : sys := Eval vm_compute in
  mk_sys (snd (add_finish (s_reg run1) 0 100 7 g false 0)) (s_k run1)
    (<[0%nat := []]> (s_pc run1)) [] [].
Definition run3 : sys := Eval vm_compute in
  mk_sys (s_reg run2) (s_k run2) (s_pc run2) [100] [].
Definition run4 : sys := Eval vm_compute in call_release run3 0 100.
Definition run5 : sys := Eval vm_compute in
  mk_sys (release_queue (s_reg run4) 0 100) (s_k run4)
    (<[0%nat := [PUnreg UWork 100]]> (s_pc run4)) [100] [exit_event 7 g].
Definition run6 : sys := Eval vm_compute in
  upd run5 (mk_k (Some 100) (Some 100)) [PUnhash UWork 100].
Definition run7 : sys := Eval vm_compute in upd run6 k_none [PDone UWork 100].
Definition run8 : sys := Eval vm_compute in
  mk_sys (release_worker_done (s_reg run7) 0) (s_k run7)
    (<[0%nat := []]> (s_pc run7)) [100] [exit_event 7 g].

Lemma reach_run8 : rtc any_step sys_init run8.
Proof.
  eapply rtc_l; [eexists; apply to_claimed|].
  apply (rtc_l _ _ run1); [eexists; eapply step_eq;
    [apply (st_register _ 0 [] [] 100 7 g false 0)|]; reflexivity|].
  apply (rtc_l _ _ run2); [eexists; eapply step_eq;
    [eapply (st_finish _ 0 [] [] 100 7 g false 0)|]; reflexivity|].
  apply (rtc_l _ _ run3); [eexists; eapply step_eq;
    [apply (st_die _ 100); [lia|set_solver|]|reflexivity]|].
  { intros i ps p Hp Hin. rewrite (quiescent_test run2 eq_refl i ps Hp) in Hin.
    by apply elem_of_nil in Hin. }
  apply (rtc_l _ _ run4); [eexists; eapply step_eq;
    [apply (st_exit_release _ 0 100); [|by left|]|]; (reflexivity||
      unfold AC_PROT_MAX; lia)|].
  apply (rtc_l _ _ run5); [eexists; eapply step_eq;
    [apply (st_queue _ 0 [] [] 100 7 g)|]; reflexivity|].
  apply (rtc_l _ _ run6); [eexists; eapply step_eq;
    [apply (st_unreg _ 0 [] [] UWork 100)|]; reflexivity|].
  apply (rtc_l _ _ run7); [eexists; eapply step_eq;
    [apply (st_unhash _ 0 [] [] UWork 100)|]; reflexivity|].
  apply (rtc_l _ _ run8); [eexists; eapply step_eq;
    [apply (st_done _ 0 [] [] UWork 100)|]; reflexivity|].
  constructor.
Qed.

Lemma recycled_not_protected_witness : exists s',
  step (LRecycle 100) run8 s' /\ ac_is_protected_mm (s_reg s') 100 = false.
Proof.
  assert (exists s', step (LRecycle 100) run8 s') as [s' Hs].
  { eexists. apply (st_recycle run8 100); [by left|]. intros i Hi Hk.
    assert (Forall (fun k => k_reg k = None) (s_k run8)) as Hall
      by (repeat constructor).
    rewrite Forall_lookup in Hall.
    destruct (lookup_lt_is_Some_list (s_k run8) i Hi) as [k Hki].
    rewrite (list_lookup_total_correct _ _ _ Hki), (Hall i k Hki) in Hk. done. }
  exists s'. split; [done|].
  apply (recycled_not_protected run8 s' 100 reach_run8 Hs).
Defined.

Lemma registry_never_corrupt_witness : registry_safe claimed.
Proof. apply (registry_never_corrupt claimed reach_claimed). Defined.

Lemma registry_drains_witness :
  exists s', rtc (fun a b => exists l, internal l /\ step l a b) claimed s' /\
    quiescent s' /\
    forall i e, ac_prots (s_reg s') !! i = Some e ->
      add_free e = true \/ published e = true.
Proof. apply (registry_drains claimed reach_claimed). Defined.
End RunDemo.
End RegConc.
