(* ===== verification/Handlers.v ===== *)
(** The deny kprobes (src/anticheat_module.c, [ac_ptrace_pre],
    [ac_process_vm_pre], [ac_skip_syscall], [ac_schedule_kill]): what a
    ptrace, process_vm_readv or process_vm_writev call aimed at a protected
    process ends in. *)

From S2P Require Import Prelude CText Abi Ring DenyLimit Registry.
Import Ring.Ring DenyLimit.DenyLimit Registry.Reg.

#[local] Open Scope Z_scope.

Module Handlers.

(** ** What the handlers see of the kernel *)

(** A task: its ids, its [signal] struct (one per thread group), its [mm]
    ([NULL] for a kernel thread), its [struct pid] and its name. *)
Record task := mk_task {
  tk_pid : Z;
  tk_tgid : Z;
  tk_signal : Z;
  tk_mm : Z;
  tk_spid : Z;
  tk_comm : list Z;
}.

#[global] Instance task_eq_dec : EqDecision task.
Proof. solve_decision. Defined.

Definition same_thread_group (t c : task) : bool := tk_signal t =? tk_signal c.

(** The slots of a system call's [pt_regs] frame the handlers touch, and the
    memory holding such frames: [None] where a read faults. *)
Inductive preg := BX | CX | SI | DI.

#[global] Instance preg_eq_dec : EqDecision preg.
Proof. solve_decision. Defined.

Definition kmem := Z -> preg -> option Z.

(** The registers at the probed instruction. *)
Record pt_regs := mk_regs { r_di : Z; r_ax : Z; r_ip : Z }.

(** The probes of [ac_kprobes]. *)
Inductive kprobe :=
  | ac_kp_ptrace | ac_kp_ptrace32 | ac_kp_ptrace_x32
  | ac_kp_process_vm_readv | ac_kp_process_vm_readv32
  | ac_kp_process_vm_writev | ac_kp_process_vm_writev32.

#[global] Instance kprobe_eq_dec : EqDecision kprobe.
Proof. solve_decision. Defined.

Definition PTRACE_TRACEME : Z := 0.

(** ** Shared state of the handlers *)

Record kp_st := mk_kp {
  k_mem : kmem;
  k_regs : pt_regs;
  k_rl_ptrace : ac_deny_rl;
  k_rl_vm : ac_deny_rl;
  k_kills : list Z;          (** queued [ac_kill_req]s, by their [pid] *)
  ac_kill_dropped : Z;
}.

Definition set_mem (k : kp_st) (m : kmem) : kp_st :=
  mk_kp m (k_regs k) (k_rl_ptrace k) (k_rl_vm k) (k_kills k)
    (ac_kill_dropped k).
Definition set_regs (k : kp_st) (r : pt_regs) : kp_st :=
  mk_kp (k_mem k) r (k_rl_ptrace k) (k_rl_vm k) (k_kills k)
    (ac_kill_dropped k).
Definition set_rl_ptrace (k : kp_st) (rl : ac_deny_rl) : kp_st :=
  mk_kp (k_mem k) (k_regs k) rl (k_rl_vm k) (k_kills k) (ac_kill_dropped k).
Definition set_rl_vm (k : kp_st) (rl : ac_deny_rl) : kp_st :=
  mk_kp (k_mem k) (k_regs k) (k_rl_ptrace k) rl (k_kills k)
    (ac_kill_dropped k).

Section handlers.
(** Code of the kernel: the two halves of the pid lookup, whether a nofault
    write to a frame slot succeeds, the tick rate and the address of the [ret]
    stub. *)
Context (find_get_pid : Z -> option Z) (get_pid_task : Z -> option task)
  (wr : Z -> preg -> bool) (HZ : Z) (ac_ret_stub : Z).
(** The registry, the calling task, the policy parameter, and what this
    invocation gets from the clock and the kill pool. *)
Context (reg : reg_st) (current : task) (ac_policy : Z) (j1 j2 : Z)
  (pool_ok : bool).

(** The reference on the [struct pid] is dropped before returning. *)
Definition ac_find_task (pid : Z) : option task :=
  match find_get_pid pid with
  | None => None
  | Some pidp => get_pid_task pidp
  end.

Definition ac_kread (k : kp_st) (args : Z) (f : preg) : option Z :=
  k_mem k args f.

Definition ac_kwrite_long (k : kp_st) (args : Z) (f : preg) (val : Z)
    : Z * kp_st :=
  if wr args f then
    (0, set_mem k (fun a g =>
          if decide (a = args /\ g = f) then Some val else k_mem k a g))
  else (- EFAULT, k).

Definition ac_skip_syscall (k : kp_st) (err : Z) : kp_st :=
  set_regs k (mk_regs (r_di (k_regs k)) (u64 err) ac_ret_stub).

Definition ac_schedule_kill (k : kp_st) (victim : option task) : kp_st :=
  match victim with
  | None => k
  | Some v =>
      if pool_ok then
        mk_kp (k_mem k) (k_regs k) (k_rl_ptrace k) (k_rl_vm k)
          (k_kills k ++ [tk_spid v]) (ac_kill_dropped k)
      else
        mk_kp (k_mem k) (k_regs k) (k_rl_ptrace k) (k_rl_vm k) (k_kills k)
          (s32 (ac_kill_dropped k + 1))
  end.

Definition ac_is_protected_current : bool :=
  ac_is_protected_mm reg (tk_mm current).

(** [get_task_mm] gives the task's [mm]; the reference taken is dropped
    before returning. *)
Definition ac_is_protected_task_mm (t : task) : bool :=
  if tk_mm t =? NULL then false else ac_is_protected_mm reg (tk_mm t).

(** The (rate-limited) events of a denial. *)
Definition deny_events (ty tgt : Z) (tcomm : list Z) (ok : bool)
    (suppressed : Z) (kind msg : list Z) : list emission :=
  if ok then
    (if suppressed =? 0 then [] else
       [mk_emission ty tgt (Some tcomm)
          (fmt_u suppressed ++ lit " further " ++ kind ++
           lit " denial(s) not logged (rate limit)")]) ++
    [mk_emission ty tgt (Some tcomm) msg]
  else [].

(** The neutralisation and, when it fails, the fallback. *)
Definition neutralise (k : kp_st) (args : Z) (f : preg) (killed : bool)
    (err : Z) : Z * kp_st :=
  let '(rc, k1) := ac_kwrite_long k args f (u64 (-1)) in
  if rc =? 0 then (0, k1)
  else
    let k2 := if killed then k1 else ac_schedule_kill k1 (Some current) in
    (1, ac_skip_syscall k2 err).

(** Whom a ptrace request is denied for: target as logged, name, kill. *)
Definition ptrace_decide (request target : Z)
    : option (Z * list Z * bool) :=
  if request =? PTRACE_TRACEME then
    if ac_is_protected_current
    then Some (tk_pid current, strscpy AC_MAX_COMM (tk_comm current), false)
    else None
  else if 0 <? target then
    match ac_find_task (s32 target) with
    | Some t =>
        if negb (same_thread_group t current) && ac_is_protected_task_mm t
        then Some (target, strscpy AC_MAX_COMM (tk_comm t), true)
        else None
    | None => None
    end
  else None.

Definition ptrace_slots (p : kprobe) : preg * preg :=
  if decide (p = ac_kp_ptrace32) then (BX, CX) else (DI, SI).

Definition ac_ptrace_pre (p : kprobe) (k : kp_st)
    : Z * kp_st * list emission :=
  let args := r_di (k_regs k) in
  let '(rslot, tslot) := ptrace_slots p in
  match ac_kread k args rslot, ac_kread k args tslot with
  | Some request, Some target =>
      match ptrace_decide (s64 request) (s64 target) with
      | None => (0, k, [])
      | Some (target', tcomm, kill) =>
          let ccomm := strscpy AC_MAX_COMM (tk_comm current) in
          let '(ok, suppressed, rl) :=
            ac_deny_event_allowed HZ j1 j2 (k_rl_ptrace k) in
          let evs := deny_events AC_EV_PTRACE (s32 target') tcomm ok suppressed
            (lit "ptrace")
            (lit "ptrace req " ++ fmt_d (s64 request) ++ lit " by pid " ++
             fmt_d (tk_pid current) ++ lit " (" ++ ccomm ++ lit ") DENIED") in
          let k1 := set_rl_ptrace k rl in
          let killed := kill && Z.testbit ac_policy 0 in
          let k2 := if killed then ac_schedule_kill k1 (Some current) else k1 in
          let '(rc, k3) := neutralise k2 args rslot killed (- EIO) in
          (rc, k3, evs)
      end
  | _, _ => (0, k, [])
  end.

Definition vm_slot (p : kprobe) : preg :=
  if decide (p = ac_kp_process_vm_readv32 \/ p = ac_kp_process_vm_writev32)
  then BX else DI.

Definition vm_is_readv (p : kprobe) : bool :=
  bool_decide (p = ac_kp_process_vm_readv32 \/ p = ac_kp_process_vm_readv).

Definition ac_process_vm_pre (p : kprobe) (k : kp_st)
    : Z * kp_st * list emission :=
  let args := r_di (k_regs k) in
  match ac_kread k args (vm_slot p) with
  | None => (0, k, [])
  | Some raw_target =>
      let target := s32 raw_target in
      if target <=? 0 then (0, k, []) else
      match ac_find_task target with
      | None => (0, k, [])
      | Some t =>
          if same_thread_group t current then (0, k, []) else
          if negb (ac_is_protected_task_mm t) then (0, k, []) else
          let tcomm := strscpy AC_MAX_COMM (tk_comm t) in
          let ccomm := strscpy AC_MAX_COMM (tk_comm current) in
          let '(ok, suppressed, rl) :=
            ac_deny_event_allowed HZ j1 j2 (k_rl_vm k) in
          let evs := deny_events AC_EV_PROCESS_VM target tcomm ok suppressed
            (lit "process_vm")
            (lit "process_vm_" ++
             (if vm_is_readv p then lit "readv" else lit "writev") ++
             lit " by pid " ++ fmt_d (tk_pid current) ++ lit " (" ++ ccomm ++
             lit ") DENIED") in
          let k1 := set_rl_vm k rl in
          let killed := Z.testbit ac_policy 0 in
          let k2 := if killed then ac_schedule_kill k1 (Some current) else k1 in
          let '(rc, k3) := neutralise k2 args (vm_slot p) killed (- ESRCH) in
          (rc, k3, evs)
      end
  end.
End handlers.

(** The deferred kill: the signals it sends, by task.  [get_pid_task] is the
    kernel's, and yields nothing once the process is gone. *)
Definition SIGKILL : Z := 9.

Definition ac_kill_worker (get_pid_task : Z -> option task) (r : Z)
    : list (Z * task) :=
  match get_pid_task r with
  | Some t => [(SIGKILL, t)]
  | None => []
  end.

(** ** The probed system call

    kprobes runs the pre-handler at the entry of the system call's wrapper.
    If it returns 0 the wrapper runs on the frame as it is now; otherwise
    execution resumes at the instruction pointer the handler left, which for
    the [ret] stub returns [%rax] to the caller.  [wrapper] is the kernel's
    wrapper: its return value and the pids of the processes it acted on. *)
Section probed.
Context (find_get_pid : Z -> option Z) (get_pid_task : Z -> option task)
  (wr : Z -> preg -> bool) (HZ : Z) (ac_ret_stub : Z).
Context (wrapper : (preg -> option Z) -> Z * list Z).
Context (reg : reg_st) (current : task) (ac_policy : Z) (j1 j2 : Z)
  (pool_ok : bool).

Definition resume (args : Z) (r : Z * kp_st * list emission)
    : option (Z * list Z) :=
  let '(rc, k, _) := r in
  if rc =? 0 then Some (wrapper (k_mem k args))
  else if r_ip (k_regs k) =? ac_ret_stub
       then Some (s64 (r_ax (k_regs k)), [])
       else None.

Let find := ac_find_task find_get_pid get_pid_task.
Let ptrace := ac_ptrace_pre find_get_pid get_pid_task wr HZ ac_ret_stub reg
  current ac_policy j1 j2 pool_ok.
Let vm := ac_process_vm_pre find_get_pid get_pid_task wr HZ ac_ret_stub reg
  current ac_policy j1 j2 pool_ok.

(** Where the system call wrapper behind a probe takes its first two arguments
    from: the registers of the 32-bit convention on the compat entry points,
    those of the 64-bit one on the others (x32 included). *)
Definition arg_regs (p : kprobe) : preg * preg :=
  match p with
  | ac_kp_ptrace32 | ac_kp_process_vm_readv32 | ac_kp_process_vm_writev32 => (BX, CX)
  | ac_kp_ptrace | ac_kp_ptrace_x32 | ac_kp_process_vm_readv
  | ac_kp_process_vm_writev => (DI, SI)
  end.

Definition on_ptrace (p : kprobe) : bool :=
  match p with ac_kp_ptrace | ac_kp_ptrace32 | ac_kp_ptrace_x32 => true | _ => false end.

Lemma ptrace_slots_args p : on_ptrace p = true -> ptrace_slots p = arg_regs p.
Proof. by destruct p. Qed.

Lemma vm_slot_args p : on_ptrace p = false -> vm_slot p = fst (arg_regs p).
Proof. by destruct p. Qed.

(** The calling process is an attacker: in another thread group, aiming at a
    task whose address space is protected. *)
Definition attacks (t : task) : Prop :=
  tk_signal t <> tk_signal current /\
  ac_is_protected_task_mm reg t = true.

Definition queued_kill (k k' : kp_st) : Prop :=
  if pool_ok
  then k_kills k' = k_kills k ++ [tk_spid current] /\
       ac_kill_dropped k' = ac_kill_dropped k
  else k_kills k' = k_kills k /\
       ac_kill_dropped k' = s32 (ac_kill_dropped k + 1).

Definition no_kill (k k' : kp_st) : Prop :=
  k_kills k' = k_kills k /\ ac_kill_dropped k' = ac_kill_dropped k.

(** The neutralisation stops the call whether or not the write works. *)
Lemma neutralise_spec k args f killed err :
  -9223372036854775808 <= err < 9223372036854775808 ->
  let '(rc, k') := neutralise wr ac_ret_stub current pool_ok k args f killed err in
  (rc = 0 /\ wr args f = true /\ k_mem k' args f = Some (u64 (-1)) /\
   no_kill k k') \/
  (rc = 1 /\ wr args f = false /\ r_ip (k_regs k') = ac_ret_stub /\
   s64 (r_ax (k_regs k')) = err /\
   if killed then no_kill k k' else queued_kill k k').
Proof.
  intros Herr. unfold neutralise, ac_kwrite_long.
  destruct (wr args f) eqn:Hw; simpl.
  - left. split_and!; [done..| |done]. by rewrite decide_True.
  - right. split_and!; try done.
    + simpl. by apply s64_u64.
    + unfold queued_kill, no_kill, ac_schedule_kill.
      destruct killed, pool_ok; done.
Qed.

(** The common tail of the two handlers: optional kill, then neutralise. *)
Definition kill_and_neutralise (k : kp_st) (args : Z) (f : preg)
    (killed : bool) (err : Z) : Z * kp_st :=
  neutralise wr ac_ret_stub current pool_ok
    (if killed then ac_schedule_kill pool_ok k (Some current) else k)
    args f killed err.

(** The call ends in the wrapper's answer to the argument -1, or, when the
    write failed, in [err] without running the wrapper at all. *)
Lemma denied_ends k args f killed err evs :
  -9223372036854775808 <= err < 9223372036854775808 ->
  let '(rc, k') := kill_and_neutralise k args f killed err in
  (if wr args f
   then exists fr, fr f = Some (u64 (-1)) /\ resume args (rc, k', evs) = Some (wrapper fr)
   else resume args (rc, k', evs) = Some (err, [])) /\
  if killed || negb (wr args f) then queued_kill k k' else no_kill k k'.
Proof.
  intros Herr. unfold kill_and_neutralise.
  pose proof (neutralise_spec
    (if killed then ac_schedule_kill pool_ok k (Some current) else k)
    args f killed err Herr) as Hn.
  destruct (neutralise _ _ _ _ _ _ _ _ _) as [rc k'].
  destruct Hn as [(-> & -> & Hm & Hk)|(-> & -> & Hip & Hax & Hk)];
    unfold resume; simpl.
  - split; [by eexists|]. rewrite orb_false_r.
    unfold queued_kill, no_kill, ac_schedule_kill in *.
    destruct killed, pool_ok; simpl in *; destruct Hk as [-> ->]; done.
  - rewrite Hip, Z.eqb_refl, Hax. split; [done|]. rewrite orb_true_r.
    unfold queued_kill, no_kill, ac_schedule_kill in *.
    destruct killed, pool_ok; simpl in *; destruct Hk as [-> ->]; done.
Qed.

Lemma deny_tail k args f killed err evs :
  -9223372036854775808 <= err < 9223372036854775808 ->
  (forall fr, fr f = Some (u64 (-1)) -> wrapper fr = (err, [])) ->
  let '(rc, k') := kill_and_neutralise k args f killed err in
  resume args (rc, k', evs) = Some (err, []) /\
  if killed || negb (wr args f) then queued_kill k k' else no_kill k k'.
Proof.
  intros Herr Hw. pose proof (denied_ends k args f killed err evs Herr) as Hd.
  destruct (kill_and_neutralise _ _ _ _ _) as [rc k']. destruct Hd as [Hr Hk].
  split; [|done]. destruct (wr args f); [|done].
  destruct Hr as (fr & Hfr & ->). by rewrite (Hw fr Hfr).
Qed.

(** The system call refuses the invalid request -1 (whether because the target
    is not its tracee, ESRCH, or because there is no such request, EIO), and
    acts on no process. *)
Definition refuses (rslot : preg) : Prop :=
  forall fr, fr rslot = Some (u64 (-1)) -> exists e, wrapper fr = (e, []) /\ e < 0.

Lemma refused_tail k args rslot killed evs :
  refuses rslot ->
  let '(rc, k') := kill_and_neutralise k args rslot killed (- EIO) in
  (exists e, resume args (rc, k', evs) = Some (e, []) /\ e < 0 /\
     (wr args rslot = false -> e = - EIO)) /\
  if killed || negb (wr args rslot) then queued_kill k k' else no_kill k k'.
Proof.
  intros Hw. pose proof (denied_ends k args rslot killed (- EIO) evs ltac:(unfold EIO; lia)) as Hd.
  destruct (kill_and_neutralise _ _ _ _ _) as [rc k']. destruct Hd as [Hr Hk].
  split; [|done]. destruct (wr args rslot).
  - destruct Hr as (fr & Hfr & ->). destruct (Hw fr Hfr) as (e & -> & He). by exists e.
  - exists (- EIO). by unfold EIO.
Qed.

(** C8: a ptrace request (other than PTRACE_TRACEME) whose pid argument is
    positive as a 64-bit value and names a task of another thread group with a
    protected address space fails and acts on no process, on every probe and
    whatever the policy, the state of the kill pool and the outcome of the
    neutralising write; when that write fails the error is -EIO and the
    kernel's ptrace does not run.  The caller's kill is queued (or, with the
    pool exhausted, counted as dropped) exactly when the policy asks for it or
    the write failed.  The kernel's part is that ptrace refuses the invalid
    request -1 with an error and no side effect. *)
Theorem ptrace_attack_denied p k request target t :
  let args := r_di (k_regs k) in
  let rslot := fst (arg_regs p) in
  on_ptrace p = true ->
  k_mem k args rslot = Some request ->
  k_mem k args (snd (arg_regs p)) = Some target ->
  s64 request <> PTRACE_TRACEME -> 0 < s64 target ->
  find (s32 target) = Some t -> attacks t -> refuses rslot ->
  (exists e, resume args (ptrace p k) = Some (e, []) /\ e < 0 /\
     (wr args rslot = false -> e = - EIO)) /\
  let '(_, k', _) := ptrace p k in
  if Z.testbit ac_policy 0 || negb (wr args rslot)
  then queued_kill k k' else no_kill k k'.
Proof.
  intros args rslot Hon Hr Ht Hreq Hpos Hf [Hg Hp] Hw. subst ptrace.
  unfold ac_ptrace_pre, ac_kread, ptrace_decide.
  rewrite (ptrace_slots_args p Hon), (surjective_pairing (arg_regs p)). fold args rslot.
  rewrite Hr, Ht, s32_s64. subst find. rewrite Hf.
  destruct (Z.eqb_spec (s64 request) PTRACE_TRACEME); [done|].
  destruct (Z.ltb_spec 0 (s64 target)); [|lia].
  unfold same_thread_group. destruct (Z.eqb_spec (tk_signal t) (tk_signal current));
    [done|]. rewrite Hp. cbn [negb andb].
  destruct (ac_deny_event_allowed _ _ _ _) as [[ok sup] rl].
  change (neutralise _ _ _ _ _ _ _ _ _) with (kill_and_neutralise
    (set_rl_ptrace k rl) args rslot (Z.testbit ac_policy 0) (- EIO)).
  match goal with |- context [(_, _, ?evs)] =>
    pose proof (refused_tail (set_rl_ptrace k rl) args rslot
      (Z.testbit ac_policy 0) evs Hw) as Hd end.
  by destruct (kill_and_neutralise _ _ _ _ _) as [rc k'].
Qed.

(** A protected process asking to be traced is refused, and is never killed
    for it unless the neutralising write failed. *)
Theorem traceme_denied p k request target :
  let args := r_di (k_regs k) in
  let rslot := fst (arg_regs p) in
  on_ptrace p = true ->
  k_mem k args rslot = Some request ->
  k_mem k args (snd (arg_regs p)) = Some target ->
  s64 request = PTRACE_TRACEME ->
  ac_is_protected_mm reg (tk_mm current) = true -> refuses rslot ->
  (exists e, resume args (ptrace p k) = Some (e, []) /\ e < 0 /\
     (wr args rslot = false -> e = - EIO)) /\
  let '(_, k', _) := ptrace p k in
  if wr args rslot then no_kill k k' else queued_kill k k'.
Proof.
  intros args rslot Hon Hr Ht Hreq Hp Hw. subst ptrace.
  unfold ac_ptrace_pre, ac_kread, ptrace_decide, ac_is_protected_current.
  rewrite (ptrace_slots_args p Hon), (surjective_pairing (arg_regs p)). fold args rslot.
  rewrite Hr, Ht, Hreq, Hp, Z.eqb_refl. cbn [andb].
  destruct (ac_deny_event_allowed _ _ _ _) as [[ok sup] rl].
  change (neutralise _ _ _ _ _ _ _ _ _) with (kill_and_neutralise
    (set_rl_ptrace k rl) args rslot false (- EIO)).
  match goal with |- context [(_, _, ?evs)] =>
    pose proof (refused_tail (set_rl_ptrace k rl) args rslot false evs Hw) as Hd end.
  destruct (kill_and_neutralise _ _ _ _ _) as [rc k']. simpl in Hd.
  by destruct (wr args rslot).
Qed.


End probed.

(** ** A protected game and an attacker *)
Module HandlersDemo.

Definition game : task := mk_task 5 5 50 4096 500 (lit "game").
Definition cheat : task := mk_task 9 9 90 8192 900 (lit "cheat").

Definition find_get_pid (pid : Z) : option Z :=
  if pid =? 5 then Some 500 else if pid =? 9 then Some 900 else None.
Definition get_pid_task (sp : Z) : option task :=
  if sp =? 500 then Some game else if sp =? 900 then Some cheat else None.

(** A kernel that carries out every request but -1 on the pid in [si]; it
    looks the process up first, and its tracee is process 9. *)
Definition sys_ptrace (fr : preg -> option Z) : Z * list Z :=
  match fr DI, fr SI with
  | Some r, Some p =>
      if r =? u64 (-1) then (if s32 p =? 9 then - EIO else - ESRCH, []) else (0, [s32 p])
  | Some r, None => if r =? u64 (-1) then (- EIO, []) else (0, [])
  | None, _ => (0, [])
  end.
Definition sys_process_vm (fr : preg -> option Z) : Z * list Z :=
  match fr DI with
  | Some p => if p =? u64 (-1) then (- ESRCH, []) else (8, [s32 p])
  | None => (0, [])
  end.

Definition frame (di si : Z) : kmem := fun a f =>
  if a =? 1000 then match f with DI => Some di | SI => Some si | _ => None end
  else None.
Definition start (di si : Z) : kp_st :=
  mk_kp (frame di si) (mk_regs 1000 0 77) rl_init rl_init [] 0.

(** The frame cannot be written, so the fallback is taken. *)
Definition stuck : Z -> preg -> bool := fun _ _ => false.
Definition writable : Z -> preg -> bool := fun _ _ => true.

Lemma game_attacked : attacks one_game cheat game.
Proof. split; [by vm_compute|reflexivity]. Qed.

Lemma sys_ptrace_refuses : refuses sys_ptrace DI.
Proof.
  intros fr Hfr. unfold sys_ptrace. rewrite Hfr, Z.eqb_refl.
  destruct (fr SI) as [p|]; [destruct (s32 p =? 9)|]; by eexists.
Qed.

Lemma ptrace_attack_denied_witness :
  exists e, resume 300 sys_ptrace 1000
    (ac_ptrace_pre find_get_pid get_pid_task stuck 250 300 one_game cheat 0
       10 10 true ac_kp_ptrace (start 16 5)) = Some (e, []) /\ e < 0 /\
    (stuck 1000 DI = false -> e = - EIO).
Proof.
  refine (proj1 (ptrace_attack_denied find_get_pid get_pid_task stuck 250 300
    sys_ptrace one_game cheat 0 10 10 true ac_kp_ptrace (start 16 5) 16 5 game
    eq_refl eq_refl eq_refl _ _ eq_refl game_attacked sys_ptrace_refuses));
    by vm_compute.
Defined.

Lemma traceme_denied_witness :
  exists e, resume 300 sys_ptrace 1000
    (ac_ptrace_pre find_get_pid get_pid_task writable 250 300 one_game game 1
       10 10 true ac_kp_ptrace (start 0 0)) = Some (e, []) /\ e < 0 /\
    (writable 1000 DI = false -> e = - EIO).
Proof.
  exact (proj1 (traceme_denied find_get_pid get_pid_task writable 250 300
    sys_ptrace one_game game 1 10 10 true ac_kp_ptrace (start 0 0) 0 0
    eq_refl eq_refl eq_refl eq_refl eq_refl sys_ptrace_refuses)).
Defined.



(** The pid argument of ptrace is tested as a 64-bit value before it is
    narrowed: with the upper half set, a request whose low 32 bits name the
    protected game passes, although the kernel narrows the argument too. *)
Example ptrace_high_half_not_denied :
  resume 300 sys_ptrace 1000
    (ac_ptrace_pre find_get_pid get_pid_task writable 250 300 one_game cheat 1
       10 10 true ac_kp_ptrace (start 16 (18446744069414584320 + 5)))
  = Some (0, [5]).
Proof. reflexivity. Qed.

(** The same argument does not get past the process_vm handler. *)
Example process_vm_high_half_denied :
  resume 300 sys_process_vm 1000
    (ac_process_vm_pre find_get_pid get_pid_task writable 250 300 one_game cheat
       1 10 10 true ac_kp_process_vm_readv (start (18446744069414584320 + 5) 0))
  = Some (- ESRCH, []).
Proof. reflexivity. Qed.
End HandlersDemo.
End Handlers.
