(* ===== verification/Inherit.v ===== *)
(** Inheritance of protection across fork and exec
    (src/anticheat_module.c, [ac_clone_ret], [ac_exec_entry], [ac_exec_ret],
    [ac_schedule_prot_add_req], [ac_prot_add_worker], [ac_exec_pins]): the
    request handed from the probes to the worker, the handoff of the post-exec
    image, and the references on address spaces they hold. *)

From S2P Require Import Prelude CText Abi Ring Registry Handlers.
Import Ring.Ring Registry.Reg Handlers.Handlers.

#[local] Open Scope Z_scope.

Module Inherit.

Definition AC_EXEC_MAXACTIVE : nat := 64.
Definition AC_EXEC_PIN_MAX : nat := 6 * AC_EXEC_MAXACTIVE.

(** Where the worker stands on a request; the local variables it carries
    across its lock sections are the arguments. *)
Inductive wpc :=
  | WQueued
  | WWaiting                                   (** saw the claim *)
  | WHandoff (post : Z)                        (** unlinked, [post] taken *)
  | WAdding                                    (** no claim seen *)
  | WAdded (ret : Z)                           (** [mm] registered: [ret] *)
  | WResolved (ret post post_pid : Z) (post_comm : list Z).

Record ac_prot_add_req := mk_req {
  rq_work : wpc;
  rq_linked : bool;            (** linked into [ac_pending_forks] *)
  rq_mm : Z;
  rq_old_mm : Z;
  rq_new_pid : Z;
  rq_new_comm : list Z;
  rq_src_pid : Z;
  rq_src_comm : list Z;
  rq_jit_allowed : bool;
  rq_claimed : bool;
  rq_done : nat;               (** [handoff_done.done] *)
  rq_post_mm : Z;
  rq_post_pid : Z;
  rq_post_comm : list Z;
  rq_req_id : Z;
}.

(** References on address spaces taken and dropped, in order. *)
Inductive refop := Get (mm : Z) | Put (mm : Z).

(** [in_reqs]: every allocated request with its address, newest first, so that
    [ac_pending_forks] is its linked part in order. *)
Record inh_st := mk_inh {
  in_reqs : list (Z * ac_prot_add_req);
  ac_exec_pins : list Z;
  ac_prot_req_seq : Z;
}.

Definition inh_init : inh_st := mk_inh [] (replicate AC_EXEC_PIN_MAX NULL) 0.

Definition set_reqs (st : inh_st) (l : list (Z * ac_prot_add_req)) : inh_st :=
  mk_inh l (ac_exec_pins st) (ac_prot_req_seq st).
Definition set_pins (st : inh_st) (ps : list Z) : inh_st :=
  mk_inh (in_reqs st) ps (ac_prot_req_seq st).

(** [list_for_each_entry(pr, &ac_pending_forks, ...) if (f) { g; break; }] *)
Fixpoint pend_update (f : Z -> ac_prot_add_req -> bool)
    (g : ac_prot_add_req -> ac_prot_add_req)
    (l : list (Z * ac_prot_add_req))
    : option (Z * ac_prot_add_req) * list (Z * ac_prot_add_req) :=
  match l with
  | [] => (None, [])
  | (p, r) :: l' =>
      if rq_linked r && f p r then (Some (p, r), (p, g r) :: l')
      else let '(o, l'') := pend_update f g l' in (o, (p, r) :: l'')
  end.

(** ** Queueing *)

(** [alloc] is what [mempool_alloc] returns. *)
Definition ac_schedule_prot_add_req (st : inh_st) (alloc : option Z)
    (mm old_mm new_pid : Z) (new_comm : list Z) (src_pid : Z)
    (src_comm : list Z) (jit_allowed : bool)
    : bool * inh_st * list refop :=
  match alloc with
  | None =>
      (false, st, Put mm :: if old_mm =? NULL then [] else [Put old_mm])
  | Some p =>
      let fork := old_mm =? NULL in
      let seq := if fork then s32 (ac_prot_req_seq st + 1)
                 else ac_prot_req_seq st in
      let r := mk_req WQueued fork mm old_mm new_pid
        (strscpy AC_MAX_COMM new_comm) src_pid (strscpy AC_MAX_COMM src_comm)
        jit_allowed false 0 NULL 0 [] (if fork then seq else 0) in
      (true, mk_inh ((p, r) :: in_reqs st) (ac_exec_pins st) seq, [])
  end.

Definition ac_schedule_prot_add (st : inh_st) (alloc : option Z)
    (mm new_pid : Z) (new_comm : list Z) (parent_pid : Z)
    (parent_comm : list Z) (jit_allowed : bool) : bool * inh_st * list refop :=
  ac_schedule_prot_add_req st alloc mm NULL new_pid new_comm parent_pid
    parent_comm jit_allowed.

Definition ac_schedule_prot_rekey (st : inh_st) (alloc : option Z)
    (old_mm new_mm pid : Z) (comm : list Z) (jit_allowed : bool)
    : bool * inh_st * list refop :=
  ac_schedule_prot_add_req st alloc new_mm old_mm pid comm pid comm
    jit_allowed.

(** ** Fork *)

Definition child_of (pid : Z) (comm rest : list Z) : list Z :=
  lit "child of protected pid " ++ fmt_d pid ++ lit " (" ++ comm ++
  lit ")" ++ rest.

(** [find] is [ac_find_task]; [get_task_mm] takes a reference on a non-NULL
    [mm]. *)
Definition ac_clone_ret (find : Z -> option task) (reg : reg_st)
    (current : task) (alloc : option Z) (retval : Z) (st : inh_st)
    : inh_st * list refop * list emission :=
  let child_pid := s64 retval in
  if child_pid <=? 0 then (st, [], []) else
  if negb (ac_is_protected_current reg current) then (st, [], []) else
  match find (s32 child_pid) with
  | None => (st, [], [])
  | Some child =>
      let child_mm := tk_mm child in
      let ccomm := strscpy AC_MAX_COMM (tk_comm child) in
      if child_mm =? NULL then (st, [], []) else
      if child_mm =? tk_mm current then (st, [Get child_mm; Put child_mm], [])
      else
        let pcomm := strscpy AC_MAX_COMM (tk_comm current) in
        let '(ok, st1, ops) :=
          ac_schedule_prot_add st alloc child_mm (tk_pid child) ccomm
            (tk_pid current) pcomm
            (ac_prot_jit_allowed_mm reg (tk_mm current)) in
        (st1, Get child_mm :: ops,
         if ok then [] else
           [mk_emission AC_EV_INFO (tk_pid child) (Some ccomm)
              (child_of (tk_pid current) pcomm
                 (lit " NOT protected: registration request dropped (alloc failure)"))])
  end.

(** ** The pins of execs in flight *)

Definition ac_exec_pin_track (st : inh_st) (mm : Z) : option nat * inh_st :=
  match find_index (fun x => x =? NULL) (ac_exec_pins st) with
  | Some i => (Some i, set_pins st (<[i := mm]> (ac_exec_pins st)))
  | None => (None, st)
  end.

Definition ac_exec_pin_untrack (st : inh_st) (slot : option nat) : inh_st :=
  match slot with
  | None => st
  | Some i => set_pins st (<[i := NULL]> (ac_exec_pins st))
  end.

Definition ac_exec_pins_drop_all (st : inh_st) : inh_st * list refop :=
  (set_pins st ((fun _ => NULL) <$> ac_exec_pins st),
   Put <$> filter (fun mm => mm <> NULL) (ac_exec_pins st)).

(** ** Exec *)

Record ac_exec_entry_data := mk_data {
  d_old_mm : Z;
  d_pin_slot : option nat;     (** [None] for -1 *)
  d_fork_race_inherit : bool;
  d_pending_req : Z;
  d_pending_id : Z;
  d_jit_allowed : bool;
  d_parent_pid : Z;
  d_parent_comm : list Z;
}.

Definition claim_match (current : task) (r : ac_prot_add_req) : bool :=
  ((rq_mm r =? tk_mm current) && (rq_new_pid r =? tk_tgid current)) ||
  (rq_claimed r && (rq_post_mm r =? tk_mm current) &&
   (rq_post_pid r =? tk_tgid current)).

Definition set_claimed (r : ac_prot_add_req) : ac_prot_add_req :=
  mk_req (rq_work r) (rq_linked r) (rq_mm r) (rq_old_mm r) (rq_new_pid r)
    (rq_new_comm r) (rq_src_pid r) (rq_src_comm r) (rq_jit_allowed r) true
    (rq_done r) (rq_post_mm r) (rq_post_pid r) (rq_post_comm r) (rq_req_id r).

(** [d0] is what the instance's data held before. *)
Definition ac_exec_entry (reg : reg_st) (current : task)
    (d0 : ac_exec_entry_data) (st : inh_st)
    : ac_exec_entry_data * inh_st * list refop * list emission :=
  if negb (tk_mm current =? NULL) && ac_is_protected_mm reg (tk_mm current)
  then
    let '(slot, st1) := ac_exec_pin_track st (tk_mm current) in
    (mk_data (tk_mm current) slot false NULL 0 (d_jit_allowed d0)
       (d_parent_pid d0) (d_parent_comm d0),
     st1, [Get (tk_mm current)],
     [mk_emission AC_EV_INFO (tk_pid current)
        (Some (strscpy AC_MAX_COMM (tk_comm current)))
        (lit "execve() invoked (path is a user pointer, not resolved)")])
  else
    match pend_update (fun _ => claim_match current) set_claimed (in_reqs st)
    with
    | (Some (p, r), l) =>
        (mk_data NULL None true p (rq_req_id r) (rq_jit_allowed r)
           (rq_src_pid r) (strscpy AC_MAX_COMM (rq_src_comm r)),
         set_reqs st l, [], [])
    | (None, _) =>
        (mk_data NULL None false NULL 0 (d_jit_allowed d0) (d_parent_pid d0)
           (d_parent_comm d0), st, [], [])
    end.

Definition complete (r : ac_prot_add_req) : ac_prot_add_req :=
  mk_req (rq_work r) (rq_linked r) (rq_mm r) (rq_old_mm r) (rq_new_pid r)
    (rq_new_comm r) (rq_src_pid r) (rq_src_comm r) (rq_jit_allowed r)
    (rq_claimed r) (S (rq_done r)) (rq_post_mm r) (rq_post_pid r)
    (rq_post_comm r) (rq_req_id r).

Definition post_handoff (current : task) (r : ac_prot_add_req)
    : ac_prot_add_req :=
  complete
    (mk_req (rq_work r) (rq_linked r) (rq_mm r) (rq_old_mm r) (rq_new_pid r)
       (rq_new_comm r) (rq_src_pid r) (rq_src_comm r) (rq_jit_allowed r)
       (rq_claimed r) (rq_done r) (tk_mm current) (tk_pid current)
       (strscpy AC_MAX_COMM (tk_comm current)) (rq_req_id r)).

Definition is_pending (d : ac_exec_entry_data) (p : Z)
    (r : ac_prot_add_req) : bool :=
  (p =? d_pending_req d) && (rq_req_id r =? d_pending_id d).

Definition drop_of (mm : Z) : list refop := if mm =? NULL then [] else [Put mm].

Definition ac_exec_ret (reg : reg_st) (current : task) (alloc : option Z)
    (retval : Z) (d : ac_exec_entry_data) (st : inh_st)
    : inh_st * list refop * list emission :=
  let rc := s64 retval in
  let cur_comm := strscpy AC_MAX_COMM (tk_comm current) in
  let new_mm := tk_mm current in
  if d_fork_race_inherit d then
    if negb (new_mm =? NULL) then
      match pend_update (is_pending d) (post_handoff current) (in_reqs st) with
      | (Some (_, r), l) =>
          (set_reqs st l, Get new_mm :: drop_of (rq_post_mm r), [])
      | (None, _) =>
          let '(ok, st1, ops) :=
            ac_schedule_prot_add st alloc new_mm (tk_pid current) cur_comm
              (d_parent_pid d) (d_parent_comm d) (d_jit_allowed d) in
          (st1, Get new_mm :: ops,
           if ok then [] else
             [mk_emission AC_EV_INFO (tk_pid current) (Some cur_comm)
                (child_of (d_parent_pid d) (d_parent_comm d)
                   (lit " exec'd but new image NOT protected: registration request dropped (alloc failure)"))])
      end
    else
      (set_reqs st (snd (pend_update (is_pending d) complete (in_reqs st))),
       [], [])
  else if d_old_mm d =? NULL then (st, [], [])
  else
    let st0 := ac_exec_pin_untrack st (d_pin_slot d) in
    if negb (rc =? 0) then (st0, [Put (d_old_mm d)], [])
    else if new_mm =? NULL then (st0, [Put (d_old_mm d)], [])
    else if new_mm =? d_old_mm d then
      (st0, [Get new_mm; Put (d_old_mm d); Put new_mm], [])
    else
      let '(ok, st1, ops) :=
        ac_schedule_prot_rekey st0 alloc (d_old_mm d) new_mm (tk_pid current)
          cur_comm (ac_prot_jit_allowed_mm reg (d_old_mm d)) in
      (st1, Get new_mm :: ops,
       if ok then [] else
         [mk_emission AC_EV_INFO (tk_pid current) (Some cur_comm)
            (lit "protected pid " ++ fmt_d (tk_pid current) ++
             lit " re-exec'd but new image NOT protected: registration request dropped (alloc failure); old entry retained")]).

(** ** The worker, by lock sections

    [rgret] is what [mmu_notifier_register] returns to a registration. *)

Definition set_work (r : ac_prot_add_req) (w : wpc) : ac_prot_add_req :=
  mk_req w (rq_linked r) (rq_mm r) (rq_old_mm r) (rq_new_pid r)
    (rq_new_comm r) (rq_src_pid r) (rq_src_comm r) (rq_jit_allowed r)
    (rq_claimed r) (rq_done r) (rq_post_mm r) (rq_post_pid r)
    (rq_post_comm r) (rq_req_id r).

(** First section: read the claim of a fork-inherit request. *)
Definition worker_start (r : ac_prot_add_req) : ac_prot_add_req :=
  set_work r
    (if (rq_old_mm r =? NULL) && rq_claimed r then WWaiting else WAdding).

(** After the bounded wait, whose result is not looked at: take the handoff
    and unlink. *)
Definition worker_take_claimed (r : ac_prot_add_req) : ac_prot_add_req :=
  let post := rq_post_mm r in
  let '(pid, comm) :=
    if post =? NULL then (rq_new_pid r, rq_new_comm r)
    else (rq_post_pid r, strscpy AC_MAX_COMM (rq_post_comm r)) in
  mk_req (WHandoff post) false (rq_mm r) (rq_old_mm r) pid comm (rq_src_pid r)
    (rq_src_comm r) (rq_jit_allowed r) (rq_claimed r) (pred (rq_done r)) NULL
    (rq_post_pid r) (rq_post_comm r) (rq_req_id r).

(** The rest of the claimed branch; the request is freed. *)
Definition worker_handoff (reg : reg_st) (rgret : Z) (r : ac_prot_add_req)
    (post : Z) : reg_st * list refop * list emission :=
  let text rest := child_of (rq_src_pid r) (rq_src_comm r) rest in
  let ev ty rest := mk_emission ty (rq_new_pid r) (Some (rq_new_comm r)) (text rest) in
  if negb (post =? NULL) then
    let '(ret, reg1) := ac_add_prot_mm reg post (rq_new_pid r) (rq_new_comm r)
                          (rq_jit_allowed r) rgret in
    (reg1, [Put (rq_mm r); Put post],
     [if ret =? 0 then
        ev AC_EV_FORK (lit " exec'd before fork-inherit landed; protection transferred to the new image")
      else
        ev AC_EV_INFO (lit " exec'd before fork-inherit landed but new image NOT protected: " ++ fmt_d ret)])
  else
    let '(ret, reg1) := ac_add_prot_mm reg (rq_mm r) (rq_new_pid r)
                          (rq_new_comm r) (rq_jit_allowed r) rgret in
    (reg1, [Put (rq_mm r)],
     [ev AC_EV_INFO (lit " exec handoff lost; registered pre-exec image instead (post-exec image may be unprotected): " ++ fmt_d ret)]).

(** The registration of the request's own [mm]. *)
Definition worker_add (reg : reg_st) (rgret : Z) (r : ac_prot_add_req)
    : reg_st * ac_prot_add_req :=
  let '(ret, reg1) := ac_add_prot_mm reg (rq_mm r) (rq_new_pid r)
                        (rq_new_comm r) (rq_jit_allowed r) rgret in
  (reg1, set_work r (WAdded ret)).

(** Take a handoff that landed meanwhile, and unlink. *)
Definition worker_take_late (r : ac_prot_add_req) (ret : Z)
    : ac_prot_add_req :=
  if rq_old_mm r =? NULL then
    mk_req (WResolved ret (rq_post_mm r) (rq_post_pid r)
              (strscpy AC_MAX_COMM (rq_post_comm r)))
      false (rq_mm r) (rq_old_mm r) (rq_new_pid r) (rq_new_comm r)
      (rq_src_pid r) (rq_src_comm r) (rq_jit_allowed r) (rq_claimed r)
      (rq_done r) NULL (rq_post_pid r) (rq_post_comm r) (rq_req_id r)
  else set_work r (WResolved ret NULL 0 []).

(** A late handoff is registered too, unless it is the same [mm]. *)
Definition worker_late (reg : reg_st) (rgret : Z) (r : ac_prot_add_req)
    (post post_pid : Z) (post_comm : list Z)
    : reg_st * list refop * list emission :=
  if post =? NULL then (reg, [], [])
  else if post =? rq_mm r then (reg, [Put post], [])
  else
    let '(ret2, reg1) := ac_add_prot_mm reg post post_pid post_comm
                           (rq_jit_allowed r) rgret in
    let ev ty rest := mk_emission ty post_pid (Some post_comm)
                        (child_of (rq_src_pid r) (rq_src_comm r) rest) in
    (reg1, [Put post],
     [if ret2 =? 0 then
        ev AC_EV_FORK (lit " exec'd during fork-inherit registration; protection carried to the new image")
      else
        ev AC_EV_INFO (lit " exec'd during fork-inherit registration but new image NOT protected: " ++ fmt_d ret2)]).

(** The end of an exec rekey; [still_shared] is whether [old_mm] has users
    besides the pin. *)
Definition worker_rekey (reg : reg_st) (still_shared : bool)
    (r : ac_prot_add_req) (ret : Z) : reg_st * list refop * list emission :=
  let pid_text rest := fmt_d (rq_src_pid r) ++ rest in
  if (ret =? 0) && still_shared then
    (reg, [Put (rq_old_mm r)],
     [mk_emission AC_EV_FORK (rq_new_pid r) (Some (rq_new_comm r))
        (lit "pid " ++ pid_text (lit " exec'd out of a protected address space still in use; new image protected, existing entry kept"))])
  else if ret =? 0 then
    (ac_del_prot_mm reg (rq_old_mm r), [Put (rq_old_mm r)],
     [mk_emission AC_EV_EXEC (rq_new_pid r) (Some (rq_new_comm r))
        (lit "protected pid " ++ pid_text (lit " re-exec'd; protection carried to new image"))])
  else
    (reg, [Put (rq_old_mm r)],
     [mk_emission AC_EV_INFO (rq_src_pid r) (Some (rq_src_comm r))
        (lit "protected pid " ++ pid_text (lit " re-exec'd but NOT re-registered: " ++ fmt_d ret))]).

(** The rest of the worker after the last lock section; the request is
    freed. *)
Definition worker_finish (reg : reg_st) (rgret : Z) (still_shared : bool)
    (r : ac_prot_add_req) (ret post post_pid : Z) (post_comm : list Z)
    : reg_st * list refop * list emission :=
  let '(reg1, ops1, evs1) := worker_late reg rgret r post post_pid post_comm in
  let '(reg2, ops2, evs2) :=
    if negb (rq_old_mm r =? NULL) then worker_rekey reg1 still_shared r ret
    else
      let ev ty rest := mk_emission ty (rq_new_pid r) (Some (rq_new_comm r))
                          (child_of (rq_src_pid r) (rq_src_comm r) rest) in
      (reg1, [],
       [if ret =? 0 then ev AC_EV_FORK (lit "; protection inherited")
        else ev AC_EV_INFO (lit " NOT protected: " ++ fmt_d ret)]) in
  (reg2, ops1 ++ ops2 ++ [Put (rq_mm r)], evs1 ++ evs2).

(** The sections composed, from the point the worker stands at to its end,
    when no handler touches the request meanwhile; [rg1] and [rg2] answer its
    registrations. *)
Definition worker_from_added (reg : reg_st) (rg2 : Z) (still_shared : bool)
    (r : ac_prot_add_req) (ret : Z) : reg_st * list refop * list emission :=
  let r1 := worker_take_late r ret in
  match rq_work r1 with
  | WResolved ret' post pid comm =>
      worker_finish reg rg2 still_shared r1 ret' post pid comm
  | _ => (reg, [], [])
  end.

Definition worker_from_adding (reg : reg_st) (rg1 rg2 : Z)
    (still_shared : bool) (r : ac_prot_add_req)
    : reg_st * list refop * list emission :=
  let '(reg1, r1) := worker_add reg rg1 r in
  match rq_work r1 with
  | WAdded ret => worker_from_added reg1 rg2 still_shared r1 ret
  | _ => (reg1, [], [])
  end.

Definition worker_from_waiting (reg : reg_st) (rg1 : Z)
    (r : ac_prot_add_req) : reg_st * list refop * list emission :=
  let r1 := worker_take_claimed r in
  match rq_work r1 with
  | WHandoff post => worker_handoff reg rg1 r1 post
  | _ => (reg, [], [])
  end.

Definition ac_prot_add_worker (reg : reg_st) (rg1 rg2 : Z)
    (still_shared : bool) (r : ac_prot_add_req)
    : reg_st * list refop * list emission :=
  let r1 := worker_start r in
  match rq_work r1 with
  | WWaiting => worker_from_waiting reg rg1 r1
  | _ => worker_from_adding reg rg1 rg2 still_shared r1
  end.

(** ** The fork and exec machinery as a transition system *)

(** [s_refs m] is the number of references on [m] the module holds, from its
    gets and puts; [s_execs] the execs between their entry and return
    probes. *)
Record sys := mk_sys {
  s_inh : inh_st;
  s_reg : reg_st;
  s_execs : list ac_exec_entry_data;
  s_refs : Z -> Z;
  s_events : list emission;
}.

Definition op_net (m : Z) (o : refop) : Z :=
  match o with
  | Get x => if x =? m then 1 else 0
  | Put x => if x =? m then -1 else 0
  end.
Definition net (m : Z) (ops : list refop) : Z := foldr Z.add 0 (op_net m <$> ops).

Definition after (s : sys) (st : inh_st) (reg : reg_st)
    (execs : list ac_exec_entry_data) (ops : list refop) (evs : list emission)
    : sys :=
  mk_sys st reg execs (fun m => s_refs s m + net m ops) (s_events s ++ evs).

(** What a step was: the entry or the return of an exec by a task, or another
    one. *)
Inductive label :=
  | LEntry (current : task) (d : ac_exec_entry_data)
  | LRet (current : task) (d : ac_exec_entry_data)
  | LOther.

Inductive lstep (find : Z -> option task) : label -> sys -> sys -> Prop :=
  | st_clone s current alloc rv st ops evs :
      ac_clone_ret find (s_reg s) current alloc rv (s_inh s) = (st, ops, evs) ->
      lstep find LOther s (after s st (s_reg s) (s_execs s) ops evs)
  | st_exec_entry s current d0 d st ops evs :
      (length (s_execs s) < AC_EXEC_PIN_MAX)%nat ->
      ac_exec_entry (s_reg s) current d0 (s_inh s) = (d, st, ops, evs) ->
      lstep find (LEntry current d) s (after s st (s_reg s) (d :: s_execs s) ops evs)
  | st_exec_ret s current alloc rv d e1 e2 st ops evs :
      s_execs s = e1 ++ d :: e2 ->
      ac_exec_ret (s_reg s) current alloc rv d (s_inh s) = (st, ops, evs) ->
      lstep find (LRet current d) s (after s st (s_reg s) (e1 ++ e2) ops evs)
  | st_start s l1 p r l2 :
      in_reqs (s_inh s) = l1 ++ (p, r) :: l2 -> rq_work r = WQueued ->
      lstep find LOther s (after s (set_reqs (s_inh s) (l1 ++ (p, worker_start r) :: l2))
                     (s_reg s) (s_execs s) [] [])
  | st_take_claimed s l1 p r l2 :
      in_reqs (s_inh s) = l1 ++ (p, r) :: l2 -> rq_work r = WWaiting ->
      lstep find LOther s
        (after s (set_reqs (s_inh s) (l1 ++ (p, worker_take_claimed r) :: l2))
           (s_reg s) (s_execs s) [] [])
  | st_handoff s l1 p r l2 post rgret reg ops evs :
      in_reqs (s_inh s) = l1 ++ (p, r) :: l2 -> rq_work r = WHandoff post ->
      worker_handoff (s_reg s) rgret r post = (reg, ops, evs) ->
      lstep find LOther s (after s (set_reqs (s_inh s) (l1 ++ l2)) reg (s_execs s) ops evs)
  | st_add s l1 p r l2 rgret reg r' :
      in_reqs (s_inh s) = l1 ++ (p, r) :: l2 -> rq_work r = WAdding ->
      worker_add (s_reg s) rgret r = (reg, r') ->
      lstep find LOther s (after s (set_reqs (s_inh s) (l1 ++ (p, r') :: l2))
                     reg (s_execs s) [] [])
  | st_take_late s l1 p r l2 ret :
      in_reqs (s_inh s) = l1 ++ (p, r) :: l2 -> rq_work r = WAdded ret ->
      lstep find LOther s
        (after s (set_reqs (s_inh s) (l1 ++ (p, worker_take_late r ret) :: l2))
           (s_reg s) (s_execs s) [] [])
  | st_finish s l1 p r l2 rgret shared ret post pid comm reg ops evs :
      in_reqs (s_inh s) = l1 ++ (p, r) :: l2 ->
      rq_work r = WResolved ret post pid comm ->
      worker_finish (s_reg s) rgret shared r ret post pid comm = (reg, ops, evs) ->
      lstep find LOther s (after s (set_reqs (s_inh s) (l1 ++ l2)) reg (s_execs s) ops evs)
  | st_registry s reg :       (** any other change of the registry *)
      lstep find LOther s (after s (s_inh s) reg (s_execs s) [] [])
  | st_unload s st ops :      (** the probes are gone, with their instances *)
      ac_exec_pins_drop_all (s_inh s) = (st, ops) ->
      lstep find LOther s (after s st (s_reg s) [] ops []).

Definition step (find : Z -> option task) (s s' : sys) : Prop :=
  exists l, lstep find l s s'.

(** ** Who holds a reference *)

Definition one_if (x m : Z) : Z := if x =? m then 1 else 0.

Definition local_holds (m : Z) (w : wpc) : Z :=
  match w with
  | WHandoff post => one_if post m
  | WResolved _ post _ _ => one_if post m
  | _ => 0
  end.

Definition req_holds (m : Z) (r : ac_prot_add_req) : Z :=
  one_if (rq_mm r) m + one_if (rq_old_mm r) m + one_if (rq_post_mm r) m +
  local_holds m (rq_work r).

Fixpoint reqs_hold (m : Z) (l : list (Z * ac_prot_add_req)) : Z :=
  match l with
  | [] => 0
  | (_, r) :: l' => req_holds m r + reqs_hold m l'
  end.

Definition holders (s : sys) (m : Z) : Z :=
  reqs_hold m (in_reqs (s_inh s)) +
  Z.of_nat (count_if (fun d => d_old_mm d =? m) (s_execs s)).

Lemma reqs_hold_app m l1 l2 :
  reqs_hold m (l1 ++ l2) = reqs_hold m l1 + reqs_hold m l2.
Proof. induction l1 as [|[p r] l1 IH]; simpl; lia. Qed.

Lemma net_app m o1 o2 : net m (o1 ++ o2) = net m o1 + net m o2.
Proof. unfold net. induction o1 as [|o o1 IH]; csimpl; lia. Qed.

Lemma is_null m : m <> NULL -> one_if NULL m = 0.
Proof. intros H. unfold one_if. by destruct (Z.eqb_spec NULL m). Qed.

Lemma net_get m x ops : net m (Get x :: ops) = one_if x m + net m ops.
Proof. done. Qed.
Lemma net_put m x ops : net m (Put x :: ops) = net m ops - one_if x m.
Proof. unfold net, one_if. csimpl. destruct (x =? m); lia. Qed.
Lemma net_nil m : net m [] = 0.
Proof. done. Qed.

Lemma net_drop m x : m <> NULL -> net m (drop_of x) = - one_if x m.
Proof.
  intros Hm. unfold drop_of. destruct (Z.eqb_spec x NULL) as [->|].
  - by rewrite is_null.
  - by rewrite net_put, net_nil.
Qed.

(** What the requests satisfy at every point of the worker. *)
Definition req_ok (r : ac_prot_add_req) : Prop :=
  (rq_linked r = true -> rq_old_mm r = NULL) /\
  (rq_old_mm r <> NULL -> rq_post_mm r = NULL) /\
  match rq_work r with
  | WWaiting => rq_old_mm r = NULL
  | WHandoff _ =>
      rq_linked r = false /\ rq_post_mm r = NULL /\ rq_old_mm r = NULL
  | WResolved _ post _ _ =>
      rq_linked r = false /\ rq_post_mm r = NULL /\
      (rq_old_mm r <> NULL -> post = NULL)
  | _ => True
  end.

Definition reqs_ok (l : list (Z * ac_prot_add_req)) : Prop :=
  Forall (fun pr => req_ok (snd pr)) l.

(** The pins are those of the execs in flight. *)
Definition pins_ok (pins : list Z) (execs : list ac_exec_entry_data) : Prop :=
  length pins = AC_EXEC_PIN_MAX /\
  NoDup (omap d_pin_slot execs) /\
  Forall (fun d =>
    match d_pin_slot d with
    | Some i => pins !! i = Some (d_old_mm d) /\ d_old_mm d <> NULL
    | None => d_old_mm d = NULL
    end /\ (d_fork_race_inherit d = true -> d_old_mm d = NULL)) execs /\
  forall P : Z -> bool, P NULL = false ->
    count_if P pins = count_if (fun d => P (d_old_mm d)) execs.

Record inv (s : sys) : Prop := {
  inv_reqs : reqs_ok (in_reqs (s_inh s));
  inv_pins : pins_ok (ac_exec_pins (s_inh s)) (s_execs s);
  inv_refs : forall m, m <> NULL -> s_refs s m = holders s m;
}.

Lemma pend_update_spec f g l :
  match pend_update f g l with
  | (None, l') => l' = l
  | (Some (p, r), l') => exists l1 l2, l = l1 ++ (p, r) :: l2 /\
      l' = l1 ++ (p, g r) :: l2 /\ rq_linked r = true /\ f p r = true
  end.
Proof.
  induction l as [|[p r] l IH]; simpl; [done|].
  destruct (rq_linked r && f p r) eqn:E.
  - exists [], l. boolp. tauto.
  - destruct (pend_update f g l) as [[[q r']|] l'].
    + destruct IH as (l1 & l2 & -> & -> & ? & ?). by exists ((p, r) :: l1), l2.
    + by subst.
Qed.

(** A request is replaced by one with the same holdings up to [ops]. *)
Lemma replace_req m l1 p r r' l2 ops :
  req_holds m r' = req_holds m r + net m ops ->
  reqs_hold m (l1 ++ (p, r') :: l2) =
  reqs_hold m (l1 ++ (p, r) :: l2) + net m ops.
Proof. intros H. rewrite !reqs_hold_app. simpl. lia. Qed.

Lemma replace_ok l1 p r r' l2 :
  reqs_ok (l1 ++ (p, r) :: l2) -> (req_ok r -> req_ok r') ->
  reqs_ok (l1 ++ (p, r') :: l2).
Proof.
  unfold reqs_ok. rewrite !Forall_app, !Forall_cons. simpl. tauto.
Qed.

Lemma free_ok l1 p r l2 :
  reqs_ok (l1 ++ (p, r) :: l2) -> req_ok r /\ reqs_ok (l1 ++ l2).
Proof. unfold reqs_ok. rewrite !Forall_app, !Forall_cons. simpl. tauto. Qed.

(** Queueing a request moves the caller's references into it. *)
Lemma schedule_spec st alloc mm old np nc sp sc jit ok st' ops :
  ac_schedule_prot_add_req st alloc mm old np nc sp sc jit = (ok, st', ops) ->
  ac_exec_pins st' = ac_exec_pins st /\
  (reqs_ok (in_reqs st) -> reqs_ok (in_reqs st')) /\
  forall m, m <> NULL ->
    reqs_hold m (in_reqs st') = reqs_hold m (in_reqs st) + one_if mm m + one_if old m +
                                net m ops.
Proof.
  unfold ac_schedule_prot_add_req. destruct alloc as [p|]; intros [= <- <- <-].
  - split; [done|]. split.
    + intros Hl. apply Forall_cons. split; [|done]. unfold req_ok. simpl.
      split; [|done]. by destruct (Z.eqb_spec old NULL).
    + intros m Hm. simpl. unfold req_holds. simpl. rewrite is_null by done.
      rewrite net_nil. lia.
  - split; [done|]. split; [done|]. intros m Hm.
    change (if old =? NULL then [] else [Put old]) with (drop_of old).
    rewrite net_put, net_drop by done. lia.
Qed.

Lemma inv_after s st reg execs ops evs :
  inv s -> reqs_ok (in_reqs st) -> pins_ok (ac_exec_pins st) execs ->
  (forall m, m <> NULL ->
     reqs_hold m (in_reqs st) +
     Z.of_nat (count_if (fun d => d_old_mm d =? m) execs) =
     holders s m + net m ops) ->
  inv (after s st reg execs ops evs).
Proof.
  intros I Hr Hp Hh. split; simpl; try done.
  intros m Hm. rewrite (inv_refs _ I m Hm). unfold holders at 2. simpl.
  by rewrite Hh.
Qed.

(** A step that works on the requests only. *)
Lemma inv_reqs_step s st reg ops evs :
  inv s -> ac_exec_pins st = ac_exec_pins (s_inh s) ->
  reqs_ok (in_reqs st) ->
  (forall m, m <> NULL ->
     reqs_hold m (in_reqs st) = reqs_hold m (in_reqs (s_inh s)) + net m ops) ->
  inv (after s st reg (s_execs s) ops evs).
Proof.
  intros I Hp Hr Hh. apply inv_after; try done.
  - rewrite Hp. apply (inv_pins _ I).
  - intros m Hm. unfold holders. rewrite Hh by done. lia.
Qed.

(** A step of the worker on one request. *)
Lemma inv_worker_step s l1 p r r' l2 reg evs :
  inv s -> in_reqs (s_inh s) = l1 ++ (p, r) :: l2 ->
  (req_ok r -> req_ok r') ->
  (forall m, m <> NULL -> req_ok r -> req_holds m r' = req_holds m r) ->
  inv (after s (set_reqs (s_inh s) (l1 ++ (p, r') :: l2)) reg (s_execs s) [] evs).
Proof.
  intros I El Hok Hh. pose proof (inv_reqs _ I) as Hr. rewrite El in Hr.
  apply inv_reqs_step; try done; simpl.
  - by eapply replace_ok.
  - intros m Hm. rewrite El. apply replace_req. rewrite net_nil.
    rewrite Hh; [lia|done|]. by apply free_ok in Hr as [].
Qed.

(** The last step on a request drops what it holds. *)
Lemma inv_free_step s l1 p r l2 reg ops evs :
  inv s -> in_reqs (s_inh s) = l1 ++ (p, r) :: l2 ->
  (forall m, m <> NULL -> req_ok r -> net m ops = - req_holds m r) ->
  inv (after s (set_reqs (s_inh s) (l1 ++ l2)) reg (s_execs s) ops evs).
Proof.
  intros I El Hh. pose proof (inv_reqs _ I) as Hr. rewrite El in Hr.
  apply free_ok in Hr as [Hok Hr]. apply inv_reqs_step; try done; simpl.
  intros m Hm. rewrite El, Hh, !reqs_hold_app by done. simpl. lia.
Qed.

Lemma clone_inv find s current alloc rv st ops evs :
  inv s ->
  ac_clone_ret find (s_reg s) current alloc rv (s_inh s) = (st, ops, evs) ->
  inv (after s st (s_reg s) (s_execs s) ops evs).
Proof.
  intros I. assert (inv (after s (s_inh s) (s_reg s) (s_execs s) [] [])) as I0.
  { apply inv_reqs_step; try done; [apply (inv_reqs _ I)|].
    intros m Hm. rewrite net_nil. lia. }
  unfold ac_clone_ret. case_test; [by intros [= <- <- <-]|].
  destruct (ac_is_protected_current _ _); [|by intros [= <- <- <-]]. simpl.
  destruct (find _) as [child|]; [|by intros [= <- <- <-]].
  case_test; [by intros [= <- <- <-]|]. case_test.
  - intros [= <- <- <-]. apply inv_reqs_step; try done; [apply (inv_reqs _ I)|].
    intros m Hm. rewrite net_get, net_put, net_nil. lia.
  - unfold ac_schedule_prot_add.
    destruct (ac_schedule_prot_add_req _ _ _ _ _ _ _ _ _) as [[ok st1] ops1]
      eqn:Es.
    apply schedule_spec in Es as (Hp & Hr & Hh). intros [= <- <- <-].
    apply inv_reqs_step; [done..|apply Hr, (inv_reqs _ I)|].
    intros m Hm. rewrite net_get, Hh, is_null by done. lia.
Qed.

(** ** The pins *)

Lemma pins_skip pins execs d :
  pins_ok pins execs -> d_pin_slot d = None -> d_old_mm d = NULL ->
  pins_ok pins (d :: execs).
Proof.
  intros (Hl & Hn & Hf & Hc) Hs Ho. split; [done|]. split; [|split].
  - csimpl. by rewrite Hs.
  - apply Forall_cons. by rewrite Hs.
  - intros P HP. simpl. by rewrite Ho, HP, Hc.
Qed.

Lemma pins_track pins execs d i :
  pins_ok pins execs -> pins !! i = Some NULL -> d_pin_slot d = Some i ->
  d_old_mm d <> NULL -> d_fork_race_inherit d = false ->
  pins_ok (<[i := d_old_mm d]> pins) (d :: execs).
Proof.
  intros (Hl & Hn & Hf & Hc) Hi Hs Ho Hfr.
  assert (i ∉ omap d_pin_slot execs) as Hni.
  { rewrite list_elem_of_omap. intros (e & He & Hse).
    rewrite Forall_forall in Hf. specialize (Hf e He). rewrite Hse in Hf.
    destruct Hf as [[Hf ?] _]. congruence. }
  split; [by rewrite length_insert|]. split; [|split].
  - csimpl. rewrite Hs. by apply NoDup_cons.
  - apply Forall_cons. rewrite Hs. split.
    + rewrite list_lookup_insert_eq by (by eapply lookup_lt_Some).
      by rewrite Hfr.
    + apply Forall_forall. intros e He. rewrite Forall_forall in Hf.
      specialize (Hf e He). destruct (d_pin_slot e) as [j|] eqn:Ej; [|done].
      rewrite list_lookup_insert_ne; [done|]. intros ->. apply Hni.
      apply list_elem_of_omap. by exists e.
  - intros P HP. pose proof (count_if_insert P pins i NULL (d_old_mm d) Hi) as Hci.
    simpl. rewrite HP in Hci. rewrite <- Hc by done. lia.
Qed.

Lemma pins_untrack pins e1 d e2 :
  pins_ok pins (e1 ++ d :: e2) ->
  pins_ok (match d_pin_slot d with
           | Some i => <[i := NULL]> pins | None => pins end) (e1 ++ e2).
Proof.
  intros (Hl & Hn & Hf & Hc).
  rewrite omap_app in Hn. csimpl in Hn.
  rewrite Forall_app, Forall_cons in Hf.
  destruct Hf as (Hf1 & [Hd _] & Hf2).
  destruct (d_pin_slot d) as [i|] eqn:Es.
  - destruct Hd as [Hi Ho].
    apply NoDup_app in Hn as (Hn1 & Hdis & [Hni Hn2]%NoDup_cons).
    assert (i ∉ omap d_pin_slot e1) as Hn1i.
    { intros H1. apply (Hdis i H1). by left. }
    split; [by rewrite length_insert|]. split; [|split].
    + rewrite omap_app. apply NoDup_app. split; [done|]. split; [|done].
      intros j Hj1 Hj2. apply (Hdis j Hj1). by right.
    + assert (forall e, e ∈ e1 ++ e2 -> d_pin_slot e <> Some i) as Hne.
      { intros e He Hse. apply elem_of_app in He as [He|He].
        - apply Hn1i, list_elem_of_omap. by exists e.
        - apply Hni, list_elem_of_omap. by exists e. }
      apply Forall_forall. intros e He. pose proof (Hne e He) as Hni'.
      assert (match d_pin_slot e with
        | Some j => pins !! j = Some (d_old_mm e) /\ d_old_mm e <> NULL
        | None => d_old_mm e = NULL end /\
        (d_fork_race_inherit e = true -> d_old_mm e = NULL)) as Hfe.
      { apply elem_of_app in He as [He|He].
        - by apply (proj1 (Forall_forall _ _) Hf1).
        - by apply (proj1 (Forall_forall _ _) Hf2). }
      destruct (d_pin_slot e) as [j|]; [|done].
      rewrite list_lookup_insert_ne; [done|congruence].
    + intros P HP. pose proof (count_if_insert P pins i _ NULL Hi) as Hci.
      rewrite HP in Hci. specialize (Hc P HP).
      rewrite count_if_app in Hc |- *. simpl in Hc. lia.
  - split; [done|]. split; [by rewrite omap_app|]. split; [by apply Forall_app|].
    intros P HP. specialize (Hc P HP). rewrite count_if_app in Hc |- *.
    simpl in Hc. by rewrite Hd, HP in Hc.
Qed.

Lemma free_pin pins execs :
  pins_ok pins execs -> (length execs < AC_EXEC_PIN_MAX)%nat ->
  exists i, find_index (fun x => x =? NULL) pins = Some i /\
            pins !! i = Some NULL.
Proof.
  intros (Hl & _ & _ & Hc) Hlt.
  destruct (find_index (fun x => x =? NULL) pins) as [i|] eqn:Ef.
  - apply find_index_Some in Ef as [(x & Hx & Hz) _]. boolp. exists i.
    split; [done|congruence].
  - exfalso. rewrite find_index_None in Ef.
    specialize (Hc (fun x => negb (x =? NULL)) eq_refl).
    rewrite (count_if_ext _ (fun _ => true)) in Hc
      by (intros i x Hx; by rewrite (Ef i x Hx)).
    assert (forall (l : list Z), count_if (fun _ => true) l = length l) as Hall
      by (induction l; simpl; congruence).
    rewrite Hall, Hl in Hc.
    pose proof (count_if_le (fun d => negb (d_old_mm d =? NULL)) execs). lia.
Qed.

Lemma exec_entry_inv s current d0 d st ops evs :
  inv s -> (length (s_execs s) < AC_EXEC_PIN_MAX)%nat ->
  ac_exec_entry (s_reg s) current d0 (s_inh s) = (d, st, ops, evs) ->
  inv (after s st (s_reg s) (d :: s_execs s) ops evs).
Proof.
  intros I Hlt. unfold ac_exec_entry.
  destruct (negb (tk_mm current =? NULL) && _) eqn:Ep.
  - unfold ac_exec_pin_track.
    destruct (free_pin _ _ (inv_pins _ I) Hlt) as (i & -> & Hi).
    intros [= <- <- <- <-]. boolp. destruct Ep as [Hnn _].
    apply inv_after; simpl; try done.
    + apply (inv_reqs _ I).
    + by apply (pins_track _ _ (mk_data (tk_mm current) (Some i) _ _ _ _ _ _));
        [apply (inv_pins _ I)|..].
    + intros m Hm. rewrite net_get, net_nil. unfold holders, one_if.
      destruct (tk_mm current =? m); lia.
  - pose proof (pend_update_spec (fun _ => claim_match current) set_claimed
      (in_reqs (s_inh s))) as Hu.
    assert (forall m d', m <> NULL -> d_old_mm d' = NULL ->
      count_if (fun d => d_old_mm d =? m) (d' :: s_execs s) =
      count_if (fun d => d_old_mm d =? m) (s_execs s)) as Hc.
    { intros m d' Hm Hd. simpl. rewrite Hd.
      by destruct (Z.eqb_spec NULL m). }
    destruct (pend_update _ _ _) as [[[p r]|] l]; intros [= <- <- <- <-].
    + destruct Hu as (l1 & l2 & El & -> & _). pose proof (inv_reqs _ I) as Hr.
      rewrite El in Hr. apply inv_after; simpl; try done.
      * by eapply replace_ok.
      * by apply pins_skip; [apply (inv_pins _ I)|..].
      * intros m Hm. rewrite (replace_req m l1 p r (set_claimed r) l2 [])
          by (rewrite net_nil; unfold req_holds; simpl; lia).
        pose proof (Hc m (mk_data NULL None true p (rq_req_id r) true 0 []) Hm
          eq_refl) as Hc'. simpl in Hc'. unfold holders. rewrite El, Hc', net_nil.
        lia.
    + apply inv_after; try done.
      * apply (inv_reqs _ I).
      * by apply pins_skip; [apply (inv_pins _ I)|..].
      * intros m Hm. rewrite Hc by done. unfold holders. rewrite net_nil. lia.
Qed.

Lemma exec_leave m e1 d e2 :
  Z.of_nat (count_if (fun d => d_old_mm d =? m) (e1 ++ d :: e2)) =
  Z.of_nat (count_if (fun d => d_old_mm d =? m) (e1 ++ e2)) + one_if (d_old_mm d) m.
Proof.
  rewrite !count_if_app. simpl. unfold one_if. destruct (d_old_mm d =? m); lia.
Qed.

(** The return probe of an exec of a protected process. *)
Lemma rekey_ret_refs current alloc rv d st st' ops evs reg :
  d_fork_race_inherit d = false -> d_old_mm d <> NULL ->
  ac_exec_ret reg current alloc rv d st = (st', ops, evs) ->
  ac_exec_pins st' = ac_exec_pins (ac_exec_pin_untrack st (d_pin_slot d)) /\
  (reqs_ok (in_reqs st) -> reqs_ok (in_reqs st')) /\
  forall m, m <> NULL ->
    reqs_hold m (in_reqs st') =
    reqs_hold m (in_reqs st) + one_if (d_old_mm d) m + net m ops.
Proof.
  intros Hf Ho. unfold ac_exec_ret. rewrite Hf.
  destruct (Z.eqb_spec (d_old_mm d) NULL); [done|].
  set (st0 := ac_exec_pin_untrack st (d_pin_slot d)).
  assert (in_reqs st0 = in_reqs st) as E0
    by (subst st0; by destruct (d_pin_slot d)).
  case_test; [|case_test; [|case_test]].
  - intros [= <- <- <-]. rewrite E0. split_and!; [done..|].
    intros m Hm. rewrite net_put, net_nil. lia.
  - intros [= <- <- <-]. rewrite E0. split_and!; [done..|].
    intros m Hm. rewrite net_put, net_nil. lia.
  - intros [= <- <- <-]. rewrite E0. split_and!; [done..|].
    intros m Hm. rewrite net_get, !net_put, net_nil. lia.
  - unfold ac_schedule_prot_rekey.
    destruct (ac_schedule_prot_add_req _ _ _ _ _ _ _ _ _) as [[ok st1] ops1]
      eqn:Es.
    apply schedule_spec in Es as (Hp & Hr & Hh). rewrite E0 in Hr, Hh.
    intros [= <- <- <-]. split; [done|]. split; [done|].
    intros m Hm. rewrite net_get, Hh by done. lia.
Qed.

(** The return probe of an exec that claimed a pending request, or of one the
    module has nothing to do with. *)
Lemma claimed_ret_refs current alloc rv d st st' ops evs reg :
  d_old_mm d = NULL ->
  ac_exec_ret reg current alloc rv d st = (st', ops, evs) ->
  ac_exec_pins st' = ac_exec_pins st /\
  (reqs_ok (in_reqs st) -> reqs_ok (in_reqs st')) /\
  forall m, m <> NULL ->
    reqs_hold m (in_reqs st') = reqs_hold m (in_reqs st) + net m ops.
Proof.
  intros Ho. unfold ac_exec_ret. rewrite Ho, Z.eqb_refl.
  destruct (d_fork_race_inherit d); [|by intros [= <- <- <-]; split_and!; try done;
    intros m Hm; rewrite net_nil; lia].
  case_test.
  - pose proof (pend_update_spec (is_pending d) (post_handoff current)
      (in_reqs st)) as Hu.
    destruct (pend_update _ _ _) as [[[p r]|] l].
    + destruct Hu as (l1 & l2 & El & -> & Hl & _). intros [= <- <- <-]. rewrite El.
      simpl. split; [done|]. split.
      * intros Hr. eapply replace_ok; [done|]. intros (H1 & H2 & H3).
        unfold req_ok. simpl. rewrite Hl in *. specialize (H1 eq_refl).
        split; [done|]. split; [by rewrite H1|].
        destruct (rq_work r); try done; destruct H3; done.
      * intros m Hm. apply replace_req. rewrite net_get, net_drop by done.
        unfold req_holds. simpl. lia.
    + unfold ac_schedule_prot_add.
      destruct (ac_schedule_prot_add_req _ _ _ _ _ _ _ _ _) as [[ok st1] ops1]
        eqn:Es.
      apply schedule_spec in Es as (Hp & Hr & Hh). intros [= <- <- <-].
      split; [done|]. split; [done|].
      intros m Hm. rewrite net_get, Hh, is_null by done. lia.
  - intros [= <- <- <-]. simpl.
    pose proof (pend_update_spec (is_pending d) complete (in_reqs st)) as Hu.
    destruct (pend_update _ _ _) as [[[p r]|] l]; simpl.
    + destruct Hu as (l1 & l2 & -> & -> & _). split; [done|]. split.
      * intros Hr. by eapply replace_ok.
      * intros m Hm. apply replace_req. rewrite net_nil. unfold req_holds. simpl. lia.
    + subst. split_and!; try done. intros m Hm. rewrite net_nil. lia.
Qed.

Lemma exec_ret_inv s current alloc rv d e1 e2 st ops evs :
  inv s -> s_execs s = e1 ++ d :: e2 ->
  ac_exec_ret (s_reg s) current alloc rv d (s_inh s) = (st, ops, evs) ->
  inv (after s st (s_reg s) (e1 ++ e2) ops evs).
Proof.
  intros I Ee Er. pose proof (inv_pins _ I) as Hp. rewrite Ee in Hp.
  pose proof (pins_untrack _ _ _ _ Hp) as Hu.
  destruct (decide (d_old_mm d = NULL)) as [Ho|Ho].
  - destruct (claimed_ret_refs _ _ _ _ _ _ _ _ _ Ho Er) as (Hpin & Hr & Hh).
    assert (d_pin_slot d = None) as Hs.
    { destruct Hp as (_ & _ & Hf & _). rewrite Forall_app, Forall_cons in Hf.
      destruct Hf as (_ & [Hd _] & _). by destruct (d_pin_slot d), Hd. }
    rewrite Hs in Hu. apply inv_after; [done|apply Hr, (inv_reqs _ I)|by rewrite Hpin|].
    intros m Hm. unfold holders. rewrite Ee, exec_leave, Ho, is_null, Hh by done.
    lia.
  - assert (d_fork_race_inherit d = false) as Hf.
    { destruct Hp as (_ & _ & Hf & _). rewrite Forall_app, Forall_cons in Hf.
      destruct Hf as (_ & [_ Hd] & _).
      destruct (d_fork_race_inherit d); [|done]. by destruct (Ho (Hd eq_refl)). }
    destruct (rekey_ret_refs _ _ _ _ _ _ _ _ _ Hf Ho Er) as (Hpin & Hr & Hh).
    apply inv_after; [done|apply Hr, (inv_reqs _ I)|..].
    + rewrite Hpin. by destruct (d_pin_slot d).
    + intros m Hm. unfold holders. rewrite Ee, exec_leave, Hh by done. lia.
Qed.

Lemma unload_inv s st ops :
  inv s -> ac_exec_pins_drop_all (s_inh s) = (st, ops) ->
  inv (after s st (s_reg s) [] ops []).
Proof.
  intros I [= <- <-]. destruct (inv_pins _ I) as (Hl & _ & _ & Hc).
  apply inv_after; simpl; [done|apply (inv_reqs _ I)|..].
  - split; [by rewrite length_fmap|]. split; [constructor|]. split; [done|].
    intros P HP. apply count_if_0. intros i x Hx.
    rewrite list_lookup_fmap in Hx. by apply fmap_Some in Hx as (y & _ & ->).
  - intros m Hm. unfold holders.
    assert (m =? NULL = false) as Hz by lia.
    rewrite <- (Hc (fun x => x =? m)) by (rewrite Z.eqb_sym; done).
    assert (forall l, net m (Put <$> filter (fun mm => mm <> NULL) l) =
      - Z.of_nat (count_if (fun x => x =? m) l)) as Hnet.
    { induction l as [|x l IH]; [done|]. simpl.
      destruct (decide (x = NULL)) as [->|Hx].
      - rewrite filter_cons_False by tauto. rewrite IH, Z.eqb_sym, Hz. lia.
      - rewrite filter_cons_True by done. csimpl. rewrite net_put, IH.
        unfold one_if. destruct (x =? m); lia. }
    rewrite Hnet. lia.
Qed.

(** Unfold the holdings of the requests before and after a worker step. *)
Ltac holds := unfold req_holds, req_ok in *; simpl in *;
  rewrite ?is_null by done; try lia.

Lemma handoff_refs reg rgret r post reg' ops evs m :
  m <> NULL -> rq_work r = WHandoff post -> req_ok r ->
  worker_handoff reg rgret r post = (reg', ops, evs) ->
  net m ops = - req_holds m r.
Proof.
  intros Hm Hw (_ & _ & Hok). unfold req_holds. rewrite Hw in *.
  destruct Hok as (_ & -> & ->). unfold worker_handoff. simpl.
  rewrite is_null by done. destruct (Z.eqb_spec post NULL) as [->|]; simpl;
    destruct (ac_add_prot_mm _ _ _ _ _ _) as [ret reg1]; intros [= <- <- <-];
    rewrite !net_put, net_nil, ?is_null by done; lia.
Qed.

Lemma finish_refs reg rgret sh r ret post pid comm reg' ops evs m :
  m <> NULL -> rq_work r = WResolved ret post pid comm -> req_ok r ->
  worker_finish reg rgret sh r ret post pid comm = (reg', ops, evs) ->
  net m ops = - req_holds m r.
Proof.
  intros Hm Hw (_ & _ & Hok). unfold req_holds. rewrite Hw in *.
  destruct Hok as (_ & -> & Ho). unfold worker_finish. simpl.
  assert (forall reg1 ops1 evs1,
    worker_late reg rgret r post pid comm = (reg1, ops1, evs1) ->
    net m ops1 = - one_if post m) as Hlate.
  { intros reg1 ops1 evs1. unfold worker_late.
    destruct (Z.eqb_spec post NULL) as [->|]; simpl;
      [intros [= <- <- <-]; by rewrite is_null|].
    destruct (post =? rq_mm r); [intros [= <- <- <-]; by rewrite net_put|].
    destruct (ac_add_prot_mm _ _ _ _ _ _) as [ret2 reg2]; intros [= <- <- <-].
    by rewrite net_put. }
  destruct (worker_late _ _ _ _ _ _) as [[reg1 ops1] evs1].
  specialize (Hlate _ _ _ eq_refl). rewrite is_null by done.
  destruct (Z.eqb_spec (rq_old_mm r) NULL) as [->|Hold]; simpl.
  - intros [= <- <- <-]. rewrite net_app, net_put, net_nil, Hlate, is_null by done.
    lia.
  - destruct (worker_rekey reg1 sh r ret) as [[reg2 ops2] evs2] eqn:Er.
    assert (ops2 = [Put (rq_old_mm r)]) as ->.
    { unfold worker_rekey in Er. repeat case_test_in Er; by simplify_eq. }
    intros [= <- <- <-]. rewrite net_app, Hlate. simpl.
    rewrite !net_put, net_nil. lia.
Qed.

Lemma inherit_step_inv find s s' : step find s s' -> inv s -> inv s'.
Proof.
  intros [l Hst] I. destruct Hst as
    [s current alloc rv st ops evs Hc
    |s current d0 d st ops evs Hlt He
    |s current alloc rv d e1 e2 st ops evs Ee Hr
    |s l1 p r l2 El Hw
    |s l1 p r l2 El Hw
    |s l1 p r l2 post rgret reg ops evs El Hw Hh
    |s l1 p r l2 rgret reg r' El Hw Ha
    |s l1 p r l2 ret El Hw
    |s l1 p r l2 rgret sh ret post pid comm reg ops evs El Hw Hf
    |s reg
    |s st ops Hu].
  - by eapply clone_inv.
  - by eapply exec_entry_inv.
  - by eapply exec_ret_inv.
  - eapply inv_worker_step; [done..| |].
    + intros (H1 & H2 & _). unfold worker_start, req_ok. simpl.
      split_and!; [done..|]. destruct (Z.eqb_spec (rq_old_mm r) NULL); [|done].
      by destruct (rq_claimed r).
    + intros m Hm _. unfold worker_start, req_holds. simpl. rewrite Hw.
      destruct (_ && _); simpl; lia.
  - eapply inv_worker_step; [done..| |].
    + intros (H1 & H2 & H3). rewrite Hw in H3. unfold worker_take_claimed, req_ok.
      by destruct (Z.eqb_spec (rq_post_mm r) NULL); simpl.
    + intros m Hm _. unfold worker_take_claimed, req_holds. rewrite Hw.
      destruct (Z.eqb_spec (rq_post_mm r) NULL); simpl; rewrite is_null by done; lia.
  - eapply inv_free_step; [done..|]. intros m Hm Hok. by eapply handoff_refs.
  - unfold worker_add in Ha. destruct (ac_add_prot_mm _ _ _ _ _ _) as [ret reg1].
    simplify_eq. eapply inv_worker_step; [done..| |].
    + intros (H1 & H2 & _). done.
    + intros m Hm _. unfold req_holds. simpl. rewrite Hw. simpl. lia.
  - eapply inv_worker_step; [done..| |].
    + intros (H1 & H2 & _). unfold worker_take_late, req_ok.
      destruct (Z.eqb_spec (rq_old_mm r) NULL) as [E|E]; simpl; [done|].
      split_and!; try done; [|by apply H2].
      destruct (rq_linked r); [|done]. by destruct (E (H1 eq_refl)).
    + intros m Hm _. unfold worker_take_late, req_holds. rewrite Hw.
      destruct (rq_old_mm r =? NULL); simpl; rewrite is_null by done; lia.
  - eapply inv_free_step; [done..|]. intros m Hm Hok. by eapply finish_refs.
  - apply inv_reqs_step; try done; [apply (inv_reqs _ I)|].
    intros m Hm. rewrite net_nil. lia.
  - by apply unload_inv.
Qed.

Definition sys_init (reg : reg_st) : sys := mk_sys inh_init reg [] (fun _ => 0) [].

Lemma inherit_init_inv reg : inv (sys_init reg).
Proof.
  split; [constructor| |done].
  cbn [sys_init inh_init s_inh s_execs ac_exec_pins].
  split; [by vm_compute|]. split; [constructor|]. split; [constructor|].
  intros P HP. transitivity O; [|done].
  apply count_if_0. by intros i x [-> _]%lookup_replicate.
Qed.

(** C6: The references the module holds on address spaces balance: under
    every interleaving of fork and exec probes, worker sections and unload,
    each reference taken is held by exactly one pending request, worker or
    exec in flight, and once none is left (every request processed, no exec in
    flight) the module holds no reference at all.  A chained exec, a failed
    exec, a late handoff, an exhausted pool and an unload in the middle of an
    exec are all covered. *)
Theorem mm_references_balance find reg s m :
  rtc (step find) (sys_init reg) s -> m <> NULL ->
  s_refs s m = holders s m /\
  (in_reqs (s_inh s) = [] -> s_execs s = [] -> s_refs s m = 0).
Proof.
  intros Hr Hm.
  assert (inv s) as I.
  { eapply rtc_invariant; [done|apply inherit_init_inv|]. intros a b. apply inherit_step_inv. }
  split; [by apply (inv_refs _ I)|]. intros E1 E2.
  rewrite (inv_refs _ I m Hm). unfold holders. by rewrite E1, E2.
Qed.

(** ** Exec of a protected process *)

Definition reports (ty : Z) (evs : list emission) : Prop :=
  exists e, e ∈ evs /\ em_type e = ty.

(** The exec of a protected process carries its protection over: when the
    new image could be registered it is protected, and the old address space
    stays protected exactly when someone else still runs in it; when it could
    not, nothing changes and the failure is reported.  No other address space
    is affected. *)
Theorem rekey_carries_protection reg rg1 rg2 shared r :
  settled reg -> 1 < rq_mm r -> 1 < rq_old_mm r -> rq_mm r <> rq_old_mm r ->
  let ret := fst (ac_add_prot_mm reg (rq_mm r) (rq_new_pid r) (rq_new_comm r)
                    (rq_jit_allowed r) rg1) in
  let '(reg', _, evs) := ac_prot_add_worker reg rg1 rg2 shared r in
  settled reg' /\
  (forall m, 1 < m -> ac_is_protected_mm reg' m =
     if ret =? 0 then
       (m =? rq_mm r) ||
       (ac_is_protected_mm reg m && (shared || negb (m =? rq_old_mm r)))
     else ac_is_protected_mm reg m) /\
  reports (if ret =? 0 then if shared then AC_EV_FORK else AC_EV_EXEC
           else AC_EV_INFO) evs.
Proof.
  intros S Hmm Hold Hne. unfold ac_prot_add_worker, worker_start. cbn [rq_work set_work].
  assert (rq_old_mm r =? NULL = false) as E0 by (unfold NULL; lia).
  rewrite E0. cbn [andb]. unfold worker_from_adding, worker_add. simpl.
  destruct (ac_add_prot_mm _ _ _ _ _ _) as [ret reg1] eqn:Ea.
  destruct (add_protects _ _ _ _ _ _ _ _ S Hmm Ea) as [S1 Hp]. simpl.
  unfold worker_from_added, worker_take_late. cbn [rq_old_mm set_work]. rewrite E0.
  unfold worker_finish, worker_late, worker_rekey. simpl. rewrite E0. simpl.
  destruct (Z.eqb_spec ret 0) as [->|Hret]; simpl.
  - destruct shared; simpl.
    + split; [done|]. split; [|by eexists; split; [left|]].
      intros m Hm. rewrite Hp, andb_true_r by done. by rewrite !andb_true_r, orb_comm.
    + destruct (del_unprotects reg1 (rq_old_mm r) S1 Hold) as [S2 Hd].
      split; [done|]. split; [|by eexists; split; [left|]].
      intros m Hm. rewrite Hd, Hp by done. rewrite andb_true_r.
      destruct (Z.eqb_spec m (rq_mm r)), (Z.eqb_spec m (rq_old_mm r)), (ac_is_protected_mm reg m);
        simpl; congruence.
  - split; [done|]. split; [|by eexists; split; [left|]].
    intros m Hm. rewrite Hp by done. by rewrite andb_false_r, orb_false_r.
Qed.

(** ** A fork whose child execs before its registration is done *)

Lemma pend_update_at f g l1 p r l2 :
  Forall (fun x => rq_linked (snd x) && f (fst x) (snd x) = false) l1 ->
  rq_linked r = true -> f p r = true ->
  pend_update f g (l1 ++ (p, r) :: l2) = (Some (p, r), l1 ++ (p, g r) :: l2).
Proof.
  intros Hl Hr Hf. induction Hl as [|[q x] l1 Hx _ IH]; simpl in *.
  - by rewrite Hr, Hf.
  - by rewrite Hx, IH.
Qed.

(** A warning that an image is not protected. *)
Definition warning (e : emission) : Prop :=
  em_type e = AC_EV_INFO /\ exists a b, em_text e = a ++ lit "NOT protected: " ++ b.

Lemma child_warning pid comm sp sc x y :
  warning (mk_emission AC_EV_INFO pid comm (child_of sp sc (x ++ lit "NOT protected: " ++ y))).
Proof.
  split; [done|].
  exists (lit "child of protected pid " ++ fmt_d sp ++ lit " (" ++ sc ++ lit ")" ++ x), y.
  unfold child_of. cbn [em_text]. by rewrite <- !app_assoc.
Qed.

(** A request owes a registration of [mm], the image of the task [pid]: it was
    handed that image and has not registered it, or it was queued for it.
    [q] is the pid the request was queued for; [was] holds when [mm] has been
    protected. *)
Definition owes (mm pid q : Z) (was : Prop) (r : ac_prot_add_req) : Prop :=
  rq_old_mm r = NULL /\
  (match rq_work r with
   | WHandoff post => post = mm /\ rq_new_pid r = pid
   | WResolved ret post ppid _ =>
       post = mm /\ ppid = pid /\ rq_new_pid r = q /\ (ret = 0 -> rq_mm r = mm -> was)
   | WAdded ret =>
       rq_post_mm r = mm /\ rq_post_pid r = pid /\ rq_new_pid r = q /\
       (ret = 0 -> rq_mm r = mm -> was)
   | _ => rq_post_mm r = mm /\ rq_post_pid r = pid /\ rq_new_pid r = q
   end \/
   rq_mm r = mm /\ rq_new_pid r = pid /\ rq_claimed r = false /\ rq_post_mm r = NULL /\
   match rq_work r with
   | WQueued | WAdding => True
   | WAdded ret => ret = 0 -> was
   | WResolved ret post _ _ => post = NULL /\ (ret = 0 -> was)
   | _ => False
   end).

(** The last section protects the image or warns. *)
Definition settles (mm pid q : Z) (was : Prop) (reg : reg_st) (evs : list emission) : Prop :=
  was \/ ac_is_protected_mm reg mm = true \/
  exists e, e ∈ evs /\ warning e /\ (em_pid e = pid \/ em_pid e = q).

Lemma owes_mono mm pid q (was was' : Prop) r :
  (was -> was') -> owes mm pid q was r -> owes mm pid q was' r.
Proof. intros Hw [Ho H]. split; [done|]. destruct (rq_work r); naive_solver. Qed.

Section owing.
Context (mm pid q : Z) (was : Prop) (Hmm : 1 < mm).

Lemma owes_start r :
  rq_work r = WQueued -> owes mm pid q was r -> owes mm pid q was (worker_start r).
Proof.
  intros Hw (Ho & H). rewrite Hw in H. unfold worker_start. rewrite Ho. cbn.
  split; [done|]. cbn. destruct (rq_claimed r) eqn:Hc; cbn; [left|]; destruct H as [?|(?&?&?&?&?)];
    try done; [by left|by right; split_and!].
Qed.

Lemma owes_take_claimed r :
  rq_work r = WWaiting -> owes mm pid q was r -> owes mm pid q was (worker_take_claimed r).
Proof.
  intros Hw (Ho & H). rewrite Hw in H. destruct H as [(<- & <- & <-)|(_ & _ & _ & _ & [])].
  unfold worker_take_claimed. destruct (Z.eqb_spec (rq_post_mm r) NULL) as [E|E];
    [unfold NULL in E; lia|]. split; [done|]. by left.
Qed.

Lemma owes_add reg rgret r reg' r' :
  settled reg -> (ac_is_protected_mm reg' mm = true -> was) ->
  rq_work r = WAdding -> worker_add reg rgret r = (reg', r') ->
  owes mm pid q was r -> owes mm pid q was r'.
Proof.
  intros S Hp Hw Ha (Ho & H). rewrite Hw in H. unfold worker_add in Ha.
  destruct (ac_add_prot_mm _ _ _ _ _ _) as [ret reg1] eqn:Ea. injection Ha as <- <-.
  assert (ret = 0 -> rq_mm r = mm -> was) as Hwas.
  { intros -> Em. apply Hp. rewrite Em in Ea.
    destruct (add_protects _ _ _ _ _ _ _ _ S Hmm Ea) as [_ ->]; [|done].
    rewrite !Z.eqb_refl. apply orb_true_r. }
  split; [done|]. cbn. destruct H as [(?&?&?)|(?&?&?&?&_)]; [left|right]; split_and!; auto.
Qed.

Lemma owes_take_late r ret :
  rq_work r = WAdded ret -> owes mm pid q was r ->
  owes mm pid q was (worker_take_late r ret).
Proof.
  intros Hw (Ho & H). rewrite Hw in H. unfold worker_take_late. rewrite Ho, Z.eqb_refl.
  split; [done|]. cbn. destruct H as [(?&?&?&?)|(?&?&?&?&?)]; [left|right]; split_and!; auto.
Qed.

Lemma handoff_settles reg rgret r post reg' ops evs :
  settled reg -> rq_work r = WHandoff post ->
  worker_handoff reg rgret r post = (reg', ops, evs) ->
  owes mm pid q was r -> settles mm pid q was reg' evs.
Proof.
  intros S Hw Hh (Ho & H). rewrite Hw in H. destruct H as [[-> <-]|(_&_&_&_&[])].
  unfold worker_handoff in Hh. destruct (Z.eqb_spec mm NULL) as [E|_]; [unfold NULL in E; lia|].
  cbn in Hh. destruct (ac_add_prot_mm _ _ _ _ _ _) as [ret reg1] eqn:Ea. injection Hh as <- <- <-.
  destruct (add_protects _ _ _ _ _ _ _ _ S Hmm Ea) as [_ Hpr].
  destruct (Z.eqb_spec ret 0) as [->|]; [right; left|right; right].
  - rewrite Hpr, !Z.eqb_refl by done. apply orb_true_r.
  - eexists. split; [by left|]. split; [|by left].
    apply (child_warning _ _ _ _ (lit " exec'd before fork-inherit landed but new image ")).
Qed.

Lemma finish_settles reg rgret sh r ret post ppid comm reg' ops evs :
  settled reg -> rq_work r = WResolved ret post ppid comm ->
  worker_finish reg rgret sh r ret post ppid comm = (reg', ops, evs) ->
  owes mm pid q was r -> settles mm pid q was reg' evs.
Proof.
  intros S Hw Hf (Ho & H). rewrite Hw in H. unfold worker_finish in Hf.
  destruct (worker_late _ _ _ _ _ _) as [[reg1 ops1] evs1] eqn:El.
  rewrite Ho, Z.eqb_refl in Hf. cbn in Hf. injection Hf as <- <- <-.
  assert (rq_new_pid r = pid \/ rq_new_pid r = q -> ret <> 0 ->
    settles mm pid q was reg1 (evs1 ++ [if ret =? 0 then
      mk_emission AC_EV_FORK (rq_new_pid r) (Some (rq_new_comm r))
        (child_of (rq_src_pid r) (rq_src_comm r) (lit "; protection inherited"))
    else mk_emission AC_EV_INFO (rq_new_pid r) (Some (rq_new_comm r))
        (child_of (rq_src_pid r) (rq_src_comm r) (lit " NOT protected: " ++ fmt_d ret))])) as Hown.
  { intros Hq Hret. right; right. rewrite (proj2 (Z.eqb_neq ret 0) Hret).
    eexists. split; [apply elem_of_app; right; by left|]. split; [|done].
    apply (child_warning _ _ _ _ (lit " ")). }
  destruct H as [(-> & -> & Hq & Hwas)|(Em & Hp & _ & _ & -> & Hwas)]; cycle 1.
  { destruct (decide (ret = 0)); [left; auto|auto]. }
  unfold worker_late in El. destruct (Z.eqb_spec mm NULL) as [E|_]; [unfold NULL in E; lia|].
  destruct (Z.eqb_spec mm (rq_mm r)) as [Em|_].
  - destruct (decide (ret = 0)); [left; auto|auto].
  - destruct (ac_add_prot_mm _ _ _ _ _ _) as [ret2 reg2] eqn:Ea. injection El as <- <- <-.
    destruct (add_protects _ _ _ _ _ _ _ _ S Hmm Ea) as [_ Hpr].
    destruct (Z.eqb_spec ret2 0) as [->|]; [right; left|right; right].
    + rewrite Hpr, !Z.eqb_refl by done. apply orb_true_r.
    + eexists. split; [by left|]. split; [|by left].
      apply (child_warning _ _ _ _ (lit " exec'd during fork-inherit registration but new image ")).
Qed.
End owing.

(** What the probes do to the requests: nothing, queue one, or mark or complete
    a linked one. *)
Inductive probed (d : ac_exec_entry_data) (l : list (Z * ac_prot_add_req))
    : list (Z * ac_prot_add_req) -> Prop :=
  | probed_same : probed d l l
  | probed_queued p r :
      rq_work r = WQueued -> rq_claimed r = false -> rq_post_mm r = NULL ->
      probed d l ((p, r) :: l)
  | probed_marked l1 p r r' l2 :
      l = l1 ++ (p, r) :: l2 -> d_fork_race_inherit d = true -> p = d_pending_req d ->
      rq_work r' = rq_work r -> rq_mm r' = rq_mm r ->
      probed d l (l1 ++ (p, r') :: l2).

Lemma schedule_reqs st alloc mm old np nc sp sc jit ok st' ops :
  ac_schedule_prot_add_req st alloc mm old np nc sp sc jit = (ok, st', ops) ->
  (ok = false /\ st' = st) \/
  (ok = true /\ exists p r, in_reqs st' = (p, r) :: in_reqs st /\ rq_work r = WQueued /\
    rq_mm r = mm /\ rq_old_mm r = old /\ rq_new_pid r = np /\ rq_claimed r = false /\
    rq_post_mm r = NULL).
Proof.
  unfold ac_schedule_prot_add_req. destruct alloc as [p|]; intros [= <- <- <-]; [right|by left].
  split; [done|]. by eexists p, _.
Qed.

Lemma schedule_probed d st alloc mm old np nc sp sc jit ok st' ops :
  ac_schedule_prot_add_req st alloc mm old np nc sp sc jit = (ok, st', ops) ->
  probed d (in_reqs st) (in_reqs st').
Proof.
  intros [[_ ->]|(_ & p & r & -> & ? & _ & _ & _ & ? & ?)]%schedule_reqs;
    [apply probed_same|by apply probed_queued].
Qed.

Lemma clone_probed d find reg c alloc rv st st' ops evs :
  ac_clone_ret find reg c alloc rv st = (st', ops, evs) ->
  probed d (in_reqs st) (in_reqs st').
Proof.
  unfold ac_clone_ret. intros H. repeat case_match; simplify_eq/=; try apply probed_same.
  all: by eapply schedule_probed.
Qed.

Lemma entry_probed reg c d0 st d st' ops evs :
  ac_exec_entry reg c d0 st = (d, st', ops, evs) -> probed d (in_reqs st) (in_reqs st').
Proof.
  unfold ac_exec_entry. case_match.
  - unfold ac_exec_pin_track. destruct (find_index _ _); intros [= <- <- <- <-]; apply probed_same.
  - pose proof (pend_update_spec (fun _ => claim_match c) set_claimed (in_reqs st)) as Hp.
    destruct (pend_update _ _ _) as [[[p r]|] l]; intros [= <- <- <- <-]; [|apply probed_same].
    destruct Hp as (l1 & l2 & E & -> & _ & _). by eapply probed_marked.
Qed.

Lemma ret_probed reg c alloc rv d st st' ops evs :
  ac_exec_ret reg c alloc rv d st = (st', ops, evs) -> probed d (in_reqs st) (in_reqs st').
Proof.
  unfold ac_exec_ret. destruct (d_fork_race_inherit d) eqn:Hd.
  - assert (forall g, (forall r, rq_work (g r) = rq_work r /\ rq_mm (g r) = rq_mm r) ->
      probed d (in_reqs st) (snd (pend_update (is_pending d) g (in_reqs st)))) as Hm.
    { intros g Hg. pose proof (pend_update_spec (is_pending d) g (in_reqs st)) as Hp.
      destruct (pend_update _ _ _) as [[[p r]|] l]; cbn; [|subst; apply probed_same].
      destruct Hp as (l1 & l2 & E & -> & _ & Hpd). unfold is_pending in Hpd. boolp.
      destruct (Hg r). apply (probed_marked _ _ l1 p r (g r) l2); (done || lia). }
    case_match; [|by intros [= <- <- <-]; apply Hm].
    specialize (Hm (post_handoff c) (fun _ => conj eq_refl eq_refl)).
    destruct (pend_update _ _ _) as [[[p r]|] l]; [by intros [= <- <- <-]|].
    unfold ac_schedule_prot_add. destruct (ac_schedule_prot_add_req _ _ _ _ _ _ _ _ _)
      as [[ok st1] ops1] eqn:Es. intros [= <- <- <-]. by eapply schedule_probed.
  - case_match; [intros [= <- <- <-]; apply probed_same|].
    assert (in_reqs (ac_exec_pin_untrack st (d_pin_slot d)) = in_reqs st) as Eu
      by by destruct (d_pin_slot d).
    case_match; [intros [= <- <- <-]; rewrite Eu; apply probed_same|].
    case_match; [intros [= <- <- <-]; rewrite Eu; apply probed_same|].
    case_match; [intros [= <- <- <-]; rewrite Eu; apply probed_same|].
    unfold ac_schedule_prot_rekey. destruct (ac_schedule_prot_add_req _ _ _ _ _ _ _ _ _)
      as [[ok st1] ops1] eqn:Es. intros [= <- <- <-]. rewrite <- Eu. by eapply schedule_probed.
Qed.

(** A step leaves the request at [p] alone. *)
Definition spares (p : Z) (l : label) : Prop :=
  match l with
  | LEntry _ d | LRet _ d => d_fork_race_inherit d = true -> d_pending_req d <> p
  | LOther => True
  end.

Lemma probed_kept d l l' p r :
  probed d l l' -> (d_fork_race_inherit d = true -> d_pending_req d <> p) ->
  (p, r) ∈ l -> (p, r) ∈ l'.
Proof.
  intros [|p0 r0|l1 p0 r0 r' l2 ->] Hs Hin; [done|by right|].
  rewrite !elem_of_app, !elem_of_cons in *. naive_solver.
Qed.

(** Steps of a run in which registrations are whole operations. *)
Definition calm (find : Z -> option task) (s s' : sys) : Prop :=
  step find s s' /\ settled (s_reg s').
Definition calm_sparing (find : Z -> option task) (p : Z) (s s' : sys) : Prop :=
  exists l, lstep find l s s' /\ spares p l /\ settled (s_reg s').

(** [mm] was protected at some moment between [s1] and [s]. *)
Definition since (find : Z -> option task) (s1 s : sys) (mm : Z) : Prop :=
  exists s', rtc (step find) s1 s' /\ rtc (step find) s' s /\
    ac_is_protected_mm (s_reg s') mm = true.

Lemma since_step find s1 s s' mm : since find s1 s mm -> step find s s' -> since find s1 s' mm.
Proof. intros (x & ? & ? & ?) ?. exists x. split_and!; try done. by eapply rtc_r. Qed.

(** The state of a request that owes [mm], one step later. *)
Lemma owes_step find l s1 s s' p r mm pid q :
  1 < mm -> settled (s_reg s) -> rtc (step find) s1 s' -> lstep find l s s' -> spares p l ->
  (p, r) ∈ in_reqs (s_inh s) -> owes mm pid q (since find s1 s mm) r ->
  (exists r', (p, r') ∈ in_reqs (s_inh s') /\ owes mm pid q (since find s1 s' mm) r') \/
  since find s1 s' mm \/
  exists e evs, s_events s' = s_events s ++ evs /\ e ∈ evs /\ warning e /\
    (em_pid e = pid \/ em_pid e = q).
Proof.
  intros Hmm S Hr1 Hst Hsp Hin How.
  assert (since find s1 s mm -> since find s1 s' mm) as Hmono
    by (intros H; eapply since_step; [done|by exists l]).
  assert (ac_is_protected_mm (s_reg s') mm = true -> since find s1 s' mm) as Hnow
    by (intros H; by exists s').
  assert (forall evs, s_events s' = s_events s ++ evs ->
    settles mm pid q (since find s1 s' mm) (s_reg s') evs ->
    since find s1 s' mm \/ exists e evs, s_events s' = s_events s ++ evs /\ e ∈ evs /\
      warning e /\ (em_pid e = pid \/ em_pid e = q)) as Hset.
  { intros evs Ev [?|[?|(e & ?)]]; [by left|left; auto|right]. by exists e, evs. }
  assert (owes mm pid q (since find s1 s' mm) r) as Hkeep
    by exact (owes_mono _ _ _ _ _ r Hmono How).
  destruct Hst as
    [s current alloc rv st ops evs Hc |s current d0 d st ops evs Hlt He
    |s current alloc rv d e1 e2 st ops evs Ee Hr |s l1 p0 r0 l2 El Hw |s l1 p0 r0 l2 El Hw
    |s l1 p0 r0 l2 post rgret reg ops evs El Hw Hh |s l1 p0 r0 l2 rgret reg r' El Hw Ha
    |s l1 p0 r0 l2 ret El Hw |s l1 p0 r0 l2 rgret sh ret post ppid comm reg ops evs El Hw Hf
    |s reg |s st ops Hu]; cbn [after s_inh s_reg s_events set_reqs in_reqs] in *.
  1: left; exists r; split; [|done]; eapply (probed_kept _ _ _ _ _ (clone_probed
       (mk_data 0 None false 0 0 false 0 []) _ _ _ _ _ _ _ _ _ Hc)); done.
  1: left; exists r; split; [|done]; by eapply probed_kept; [eapply entry_probed| |].
  1: left; exists r; split; [|done]; by eapply probed_kept; [eapply ret_probed| |].
  all: try (rewrite El in Hin; apply elem_of_app in Hin as [Hin|[[= <- <-]|Hin]%elem_of_cons];
    [left; exists r; split; [apply elem_of_app; by left|done]| 
    |left; exists r; split; [apply elem_of_app; right; first [by right|done]|done]]).
  - left. exists (worker_start r). split; [apply elem_of_app; right; by left|by apply owes_start].
  - left. exists (worker_take_claimed r).
    split; [apply elem_of_app; right; by left|by apply owes_take_claimed].
  - right. eapply Hset; [done|]. by eapply handoff_settles.
  - left. exists r'. split; [apply elem_of_app; right; by left|by eapply owes_add].
  - left. exists (worker_take_late r ret).
    split; [apply elem_of_app; right; by left|by apply owes_take_late].
  - right. eapply Hset; [done|]. by eapply finish_settles.
  - left. by exists r.
  - left. exists r. split; [|done]. by injection Hu as <- <-.
Qed.

(** The request at [p] whose own image was registered: it was since [s1]. *)
Definition added_since (find : Z -> option task) (s1 : sys) (p : Z) (s : sys) : Prop :=
  forall r, (p, r) ∈ in_reqs (s_inh s) -> rq_work r = WAdded 0 -> 1 < rq_mm r ->
    since find s1 s (rq_mm r).

Lemma probed_added d l l' p r' :
  probed d l l' -> (p, r') ∈ l' -> rq_work r' <> WQueued ->
  exists r, (p, r) ∈ l /\ rq_work r = rq_work r' /\ rq_mm r = rq_mm r'.
Proof.
  intros [|p0 r0 Hq|l1 p0 r0 r1 l2 -> _ _ Hw Hm]; [by eauto|..].
  - rewrite elem_of_cons. naive_solver.
  - intros [Hin|[[= <- <-]|Hin]%elem_of_cons]%elem_of_app _; [exists r'|exists r0|exists r'];
      (split; [apply elem_of_app; rewrite ?elem_of_cons; naive_solver|done]).
Qed.

Lemma added_step find s1 s s' p :
  settled (s_reg s) -> rtc (step find) s1 s' -> step find s s' ->
  added_since find s1 p s -> added_since find s1 p s'.
Proof.
  intros S Hr1 Hstep Hs r' Hin Hw' Hmm.
  assert (forall r, (p, r) ∈ in_reqs (s_inh s) -> rq_work r = rq_work r' ->
    rq_mm r = rq_mm r' -> since find s1 s' (rq_mm r')) as Hold.
  { intros r Hr E Em. rewrite <- Em. eapply since_step; [|done]. apply Hs; congruence. }
  assert (forall l1 q x y l2, in_reqs (s_inh s) = l1 ++ (q, x) :: l2 ->
    (p, r') ∈ l1 ++ (q, y) :: l2 -> rq_work y <> WAdded 0 -> since find s1 s' (rq_mm r')) as Hwk.
  { intros l1 q x y l2 El Hin' Hy. apply (Hold r'); [|done..]. rewrite El.
    rewrite elem_of_app, elem_of_cons in *. naive_solver. }
  destruct Hstep as [l Hst]. destruct Hst as
    [s current alloc rv st ops evs Hc |s current d0 d st ops evs Hlt He
    |s current alloc rv d e1 e2 st ops evs Ee Hr |s l1 p0 r0 l2 El Hw |s l1 p0 r0 l2 El Hw
    |s l1 p0 r0 l2 post rgret reg ops evs El Hw Hh |s l1 p0 r0 l2 rgret reg r1 El Hw Ha
    |s l1 p0 r0 l2 ret El Hw |s l1 p0 r0 l2 rgret sh ret post ppid comm reg ops evs El Hw Hf
    |s reg |s st ops Hu]; cbn [after s_inh s_reg s_events set_reqs in_reqs] in *.
  - destruct (probed_added _ _ _ _ _ (clone_probed (mk_data 0 None false 0 0 false 0 [])
      _ _ _ _ _ _ _ _ _ Hc) Hin) as (r & ? & ? & ?); [by rewrite Hw'|by apply (Hold r)].
  - destruct (probed_added _ _ _ _ _ (entry_probed _ _ _ _ _ _ _ _ He) Hin)
      as (r & ? & ? & ?); [by rewrite Hw'|by apply (Hold r)].
  - destruct (probed_added _ _ _ _ _ (ret_probed _ _ _ _ _ _ _ _ _ Hr) Hin)
      as (r & ? & ? & ?); [by rewrite Hw'|by apply (Hold r)].
  - apply (Hwk _ _ _ _ _ El Hin). unfold worker_start. cbn. by destruct (_ && _).
  - apply (Hwk _ _ _ _ _ El Hin). unfold worker_take_claimed. by destruct (_ =? _).
  - apply (Hold r'); [rewrite El|done..]. rewrite elem_of_app, elem_of_cons in *. naive_solver.
  - apply elem_of_app in Hin as [Hin|[[= <- <-]|Hin]%elem_of_cons];
      [apply (Hold r'); [rewrite El, elem_of_app; by left|done..]|
      |apply (Hold r'); [rewrite El, elem_of_app, elem_of_cons; by right; right|done..]].
    unfold worker_add in Ha. destruct (ac_add_prot_mm _ _ _ _ _ _) as [ret reg1] eqn:Ea.
    injection Ha as <- <-. cbn in Hw', Hmm |- *. injection Hw' as ->.
    destruct (add_protects _ _ _ _ _ _ _ _ S Hmm Ea) as [_ Hp].
    eexists. split; [exact Hr1|]. split; [done|]. cbn.
    rewrite Hp, !Z.eqb_refl by done. apply orb_true_r.
  - apply (Hwk _ _ _ _ _ El Hin). unfold worker_take_late. by destruct (_ =? _).
  - apply (Hold r'); [rewrite El|done..]. rewrite elem_of_app, elem_of_cons in *. naive_solver.
  - by apply (Hold r').
  - injection Hu as <- <-. by apply (Hold r').
Qed.

(** Where the return of a claimed exec leaves the new image. *)
Lemma ret_hands find s1 s s' c' d :
  reqs_ok (in_reqs (s_inh s)) -> d_fork_race_inherit d = true -> 1 < tk_mm c' ->
  added_since find s1 (d_pending_req d) s -> step find s s' -> 
  lstep find (LRet c' d) s s' ->
  (exists e evs, s_events s' = s_events s ++ evs /\ e ∈ evs /\ warning e /\ em_pid e = tk_pid c') \/
  exists p r, (p, r) ∈ in_reqs (s_inh s') /\
    owes (tk_mm c') (tk_pid c') (rq_new_pid r) (since find s1 s' (tk_mm c')) r.
Proof.
  intros Hok Hd Hmm Hadd Hst Hs. remember (LRet c' d) as l eqn:El.
  destruct Hs as [| |s current alloc rv d' e1 e2 st ops evs Ee Hr| | | | | | | |]; try done.
  injection El as -> ->. unfold ac_exec_ret in Hr. rewrite Hd in Hr.
  destruct (Z.eqb_spec (tk_mm c') NULL) as [E|_]; [unfold NULL in E; lia|]. cbn [negb] in Hr.
  pose proof (pend_update_spec (is_pending d) (post_handoff c') (in_reqs (s_inh s))) as Hp.
  destruct (pend_update _ _ _) as [[[p r]|] l].
  - injection Hr as <- <- <-. destruct Hp as (l1 & l2 & E & -> & Hl & Hpd).
    unfold is_pending in Hpd. boolp. assert (p = d_pending_req d) as Ep by lia. subst p.
    right. exists (d_pending_req d), (post_handoff c' r).
    split; [cbn; rewrite elem_of_app, elem_of_cons; auto|].
    assert ((d_pending_req d, r) ∈ in_reqs (s_inh s)) as Hin
      by (rewrite E, elem_of_app, elem_of_cons; auto).
    unfold reqs_ok in Hok. rewrite list.Forall_forall in Hok.
    destruct (Hok _ Hin) as (Ho & _ & Hw). cbn [snd] in *.
    split; [cbn; auto|]. left. cbn [post_handoff complete rq_work rq_post_mm rq_post_pid rq_new_pid rq_mm].
    destruct (rq_work r) eqn:Er; try done; try (destruct Hw; congruence).
    split_and!; try done. intros -> Em. eapply since_step; [|exact Hst].
    rewrite <- Em. apply (Hadd r Hin Er). lia.
  - unfold ac_schedule_prot_add in Hr.
    destruct (ac_schedule_prot_add_req _ _ _ _ _ _ _ _ _) as [[ok st1] ops1] eqn:Es.
    injection Hr as <- <- <-.
    apply schedule_reqs in Es as [[-> _]|(_ & p & r & Er & Hw & Hm & Ho & Hn & Hc & Hpo)].
    + left. eexists _, _. split; [done|]. split; [by left|]. split; [|done].
      eapply (child_warning _ _ _ _ (lit " exec'd but new image ")).
    + right. exists p, r. cbn. rewrite Er. split; [by left|]. split; [done|]. right.
      by rewrite Hw.
Qed.

(** Sections the worker still has to run. *)
Definition sections_left (w : wpc) : nat :=
  match w with
  | WQueued => 5 | WAdding => 4 | WAdded _ => 3 | WWaiting | WResolved _ _ _ _ => 2
  | WHandoff _ => 1
  end.
Definition work_left (l : list (Z * ac_prot_add_req)) : nat :=
  sum_list_with (fun x => sections_left (rq_work x.2)) l.

(** The worker can always run its next section. *)
Lemma worker_enabled find s l1 p r l2 :
  in_reqs (s_inh s) = l1 ++ (p, r) :: l2 ->
  exists s', step find s s' /\
    (work_left (in_reqs (s_inh s')) < work_left (in_reqs (s_inh s)))%nat.
Proof.
  intros El. unfold work_left. rewrite El. destruct (rq_work r) eqn:Hw.
  - eexists. split; [eexists; by eapply st_start|]. cbn. rewrite !sum_list_with_app. cbn.
    rewrite Hw. destruct (_ && _); cbn; lia.
  - eexists. split; [eexists; by eapply st_take_claimed|]. cbn. rewrite !sum_list_with_app. cbn.
    rewrite Hw. unfold worker_take_claimed. destruct (_ =? _); cbn; lia.
  - destruct (worker_handoff (s_reg s) 0 r post) as [[reg ops] evs] eqn:Eh.
    eexists. split; [eexists; by eapply st_handoff|]. cbn. rewrite !sum_list_with_app. cbn.
    rewrite Hw. cbn. lia.
  - destruct (worker_add (s_reg s) 0 r) as [reg r'] eqn:Ea.
    eexists. split; [eexists; by eapply st_add|]. cbn. rewrite !sum_list_with_app. cbn.
    unfold worker_add in Ea. destruct (ac_add_prot_mm _ _ _ _ _ _). injection Ea as <- <-.
    rewrite Hw. cbn. lia.
  - eexists. split; [eexists; by eapply st_take_late|]. cbn. rewrite !sum_list_with_app. cbn.
    rewrite Hw. unfold worker_take_late. destruct (_ =? _); cbn; lia.
  - destruct (worker_finish (s_reg s) 0 false r ret post post_pid post_comm) as [[reg ops] evs] eqn:Ef.
    eexists. split; [eexists; by eapply st_finish|]. cbn. rewrite !sum_list_with_app. cbn.
    rewrite Hw. cbn. lia.
Qed.

Lemma requests_finish find s :
  exists s', rtc (step find) s s' /\ in_reqs (s_inh s') = [].
Proof.
  remember (work_left (in_reqs (s_inh s))) as n eqn:En. revert s En.
  induction (lt_wf n) as [n _ IH]. intros s ->.
  destruct (in_reqs (s_inh s)) as [|[p r] l] eqn:El; [by exists s|].
  destruct (worker_enabled find s [] p r l El) as (s1 & Hs & Hlt). rewrite El in Hlt.
  destruct (IH _ Hlt s1 eq_refl) as (s' & Hr & E). exists s'. split; [|done].
  by eapply rtc_l.
Qed.

Lemma calm_step find s s' : rtc (calm find) s s' -> rtc (step find) s s'.
Proof. apply rtc_subrel. by intros ? ? []. Qed.

Lemma step_reqs_ok find reg0 s : rtc (step find) (sys_init reg0) s -> reqs_ok (in_reqs (s_inh s)).
Proof.
  intros Hr. apply inv_reqs.
  apply (rtc_invariant (step find) inv _ _ Hr (inherit_init_inv reg0)).
  intros x y Hxy. by apply inherit_step_inv with find.
Qed.

Lemma lstep_events find l s s' :
  lstep find l s s' -> exists evs, s_events s' = s_events s ++ evs.
Proof. intros []; by eexists. Qed.

(** The claim at the entry, and any steps of worker and probes up to the
    return. *)
Lemma entry_to_ret find s0 c d s1 s2 :
  settled (s_reg s0) -> lstep find (LEntry c d) s0 s1 ->
  (forall r, (d_pending_req d, r) ∈ in_reqs (s_inh s0) -> rq_work r <> WAdded 0) ->
  rtc (calm find) s1 s2 ->
  settled (s_reg s2) /\ added_since find s1 (d_pending_req d) s2.
Proof.
  intros S0 He Hna Hr.
  assert (settled (s_reg s1) /\ added_since find s1 (d_pending_req d) s1) as H1.
  { remember (LEntry c d) as l eqn:El.
    destruct He as [|s current d0 d' st ops evs Hlt He| | | | | | | | |]; try done.
    injection El as -> ->. split; [done|]. intros r Hin Hw.
    destruct (probed_added _ _ _ _ _ (entry_probed _ _ _ _ _ _ _ _ He) Hin) as (r0 & H0 & Hw0 & _);
      [by rewrite Hw|]. by destruct (Hna r0 H0); congruence. }
  enough (rtc (step find) s1 s2 /\ settled (s_reg s2) /\ added_since find s1 (d_pending_req d) s2)
    as (_ & ? & ?) by done.
  apply (rtc_invariant (calm find)
    (fun s => rtc (step find) s1 s /\ settled (s_reg s) /\
       added_since find s1 (d_pending_req d) s) _ _ Hr).
  - split; [done|exact H1].
  - intros x y [Hxy Sy] (Hx & Sx & Hax). assert (rtc (step find) s1 y) by by eapply rtc_r.
    split_and!; try done. by eapply added_step.
Qed.

(** What becomes of an image that a request owes. *)
Lemma owed_settles find s1 s3 s4 p r mm pid q :
  1 < mm -> settled (s_reg s3) -> rtc (step find) s1 s3 ->
  (p, r) ∈ in_reqs (s_inh s3) -> owes mm pid q (since find s1 s3 mm) r ->
  rtc (calm_sparing find p) s3 s4 ->
  (forall r', (p, r') ∉ in_reqs (s_inh s4)) ->
  since find s1 s4 mm \/
  exists e evs, s_events s4 = s_events s3 ++ evs /\ e ∈ evs /\ warning e /\
    (em_pid e = pid \/ em_pid e = q).
Proof.
  intros Hmm S3 Hr3 Hin How Hr4 Hgone.
  enough (settled (s_reg s4) /\ rtc (step find) s1 s4 /\ exists evs0,
    s_events s4 = s_events s3 ++ evs0 /\
    ((exists r', (p, r') ∈ in_reqs (s_inh s4) /\ owes mm pid q (since find s1 s4 mm) r') \/
     since find s1 s4 mm \/
     exists e, e ∈ evs0 /\ warning e /\ (em_pid e = pid \/ em_pid e = q)))
    as (_ & _ & evs0 & Ev & [(r' & ? & _)|[?|(e & ?)]]).
  { by destruct (Hgone r'). } { by left. } { right. by exists e, evs0. }
  apply (rtc_invariant (calm_sparing find p) (fun s => settled (s_reg s) /\ rtc (step find) s1 s /\
    exists evs0, s_events s = s_events s3 ++ evs0 /\
    ((exists r', (p, r') ∈ in_reqs (s_inh s) /\ owes mm pid q (since find s1 s mm) r') \/
     since find s1 s mm \/
     exists e, e ∈ evs0 /\ warning e /\ (em_pid e = pid \/ em_pid e = q))) _ _ Hr4).
  - split_and!; [done..|]. exists []. rewrite app_nil_r. eauto 6.
  - intros x y (l & Hl & Hsp & Sy) (Sx & Hx & evs0 & Ev & H).
    assert (step find x y) as Hxy by by exists l.
    assert (rtc (step find) s1 y) as Hy by by eapply rtc_r.
    split_and!; [done..|].
    destruct (lstep_events find l x y Hl) as [evs1 Ev1].
    exists (evs0 ++ evs1). split; [by rewrite Ev1, Ev, app_assoc|].
    destruct H as [(r' & Hin' & How')|[H|(e & He & Hw)]].
    + destruct (owes_step find l s1 x y p r' mm pid q Hmm Sx Hy Hl Hsp Hin' How')
        as [H|[H|(e & evs2 & Ev2 & He & Hw)]]; [by left|by right; left|right; right].
      exists e. split; [|done]. apply elem_of_app. right.
      rewrite Ev1 in Ev2. by apply app_inv_head in Ev2 as ->.
    + right; left. by eapply since_step.
    + right; right. exists e. split; [|done]. apply elem_of_app. by left.
Qed.


(** ** A protected game that forks, its child execing at once *)
Module InheritDemo.

Definition game : task := mk_task 5 5 50 4096 500 (lit "game").
Definition child : task := mk_task 7 7 70 8192 700 (lit "game").
Definition child' : task := mk_task 7 7 70 12288 700 (lit "helper").
Definition find (pid : Z) : option task :=
  if pid =? 5 then Some game else if pid =? 7 then Some child else None.

Definition no_data : ac_exec_entry_data := mk_data 0 None false 0 0 false 0 [].

(** The fork queues a request... *)
Definition forked : sys :=
  let s := sys_init one_game in
  let '(st, ops, evs) := ac_clone_ret find one_game game (Some 1) 7 (s_inh s) in
  after s st one_game [] ops evs.

(** ... which the worker takes up while the child execs and returns. *)
Definition claimed : ac_exec_entry_data :=
  mk_data NULL None true 1 1 true 5 (lit "game").
Definition queued : ac_prot_add_req :=
  mk_req WQueued true 8192 NULL 7 (lit "game") 5 (lit "game") true false 0 NULL 0
    [] 1.

Lemma forked_reqs : in_reqs (s_inh forked) = [(1, queued)].
Proof. reflexivity. Qed.

Definition started : sys :=
  after forked (set_reqs (s_inh forked) [(1, worker_start queued)])
    (s_reg forked) (s_execs forked) [] [].
Definition execing : sys :=
  after started
    (set_reqs (s_inh started) [(1, set_claimed (worker_start queued))])
    (s_reg started) [claimed] [] [].
Definition handed : sys :=
  after execing
    (set_reqs (s_inh execing)
       [(1, post_handoff child' (set_claimed (worker_start queued)))])
    (s_reg execing) [] [Get 12288] [].

Lemma exec_enters : lstep find (LEntry child claimed) started execing.
Proof.
  apply (st_exec_entry find started child no_data claimed); [by vm_compute; lia|reflexivity].
Qed.

Lemma exec_returns : lstep find (LRet child' claimed) execing handed.
Proof. by apply (st_exec_ret find execing child' None 0 claimed [] []). Qed.

Lemma started_reachable : rtc (step find) (sys_init one_game) started.
Proof.
  apply (rtc_l _ _ forked).
  { eexists. by apply (st_clone find (sys_init one_game) game (Some 1) 7). }
  apply (rtc_l _ _ started).
  { eexists. by apply (st_start find forked [] 1 queued []). }
  done.
Qed.

Lemma handed_reachable : rtc (step find) (sys_init one_game) handed.
Proof.
  eapply rtc_r; [|eexists; apply exec_returns].
  eapply rtc_r; [apply started_reachable|eexists; apply exec_enters].
Qed.

(** The worker registers the old image, takes the new one over and registers
    it. *)
Definition posted : ac_prot_add_req := post_handoff child' (set_claimed (worker_start queued)).
Definition worked : sys :=
  let '(reg1, r1) := worker_add one_game 0 posted in
  let s1 := after handed (set_reqs (s_inh handed) [(1, r1)]) reg1 [] [] [] in
  let r2 := worker_take_late r1 0 in
  let s2 := after s1 (set_reqs (s_inh s1) [(1, r2)]) reg1 [] [] [] in
  let '(reg2, ops, evs) := worker_finish reg1 0 false r2 0 12288 7 (lit "helper") in
  after s2 (set_reqs (s_inh s2) []) reg2 [] ops evs.

Lemma worker_runs : rtc (calm_sparing find 1) handed worked.
Proof.
  unfold worked. destruct (worker_add one_game 0 posted) as [reg1 r1] eqn:Ea.
  assert (settled reg1) as S1.
  { unfold worker_add in Ea. destruct (ac_add_prot_mm _ _ _ _ _ _) as [ret reg] eqn:E.
    injection Ea as <- _.
    by destruct (add_protects one_game 8192 7 _ _ _ _ _ settled_one_game ltac:(lia) E). }
  assert (rq_work r1 = WAdded 0) as Hw1 by by vm_compute in Ea; injection Ea as _ <-.
  assert (worker_take_late r1 0 = worker_take_late (set_work posted (WAdded 0)) 0) as E2
    by by vm_compute in Ea; injection Ea as _ <-.
  cbv zeta. destruct (worker_finish _ _ _ _ _ _ _ _) as [[reg2 ops] evs] eqn:Ef.
  assert (settled reg2) as S2.
  { unfold worker_finish in Ef. rewrite E2 in Ef. unfold worker_late in Ef. cbn in Ef.
    destruct (ac_add_prot_mm _ _ _ _ _ _) as [ret reg] eqn:E. injection Ef as <- _ _.
    by destruct (add_protects reg1 12288 7 _ _ _ _ _ S1 ltac:(lia) E). }
  set (s1 := after handed _ reg1 [] [] []).
  set (s2 := after s1 _ reg1 [] [] []).
  apply (rtc_l _ _ s1); [|apply (rtc_l _ _ s2); [|apply rtc_once]]; exists LOther; split.
  - by apply (st_add find handed [] 1 posted [] 0 reg1 r1).
  - done.
  - by apply (st_take_late find s1 [] 1 r1 [] 0).
  - done.
  - eapply (st_finish find s2 [] 1 (worker_take_late r1 0) [] 0 false 0 12288 7 (lit "helper") reg2);
      [done|by rewrite E2|exact Ef].
  - done.
Qed.

Lemma mm_references_balance_witness :
  s_refs handed 12288 = holders handed 12288 /\ s_refs handed 12288 = 1.
Proof.
  split; [|reflexivity].
  by apply (mm_references_balance find one_game handed 12288 handed_reachable).
Defined.

Lemma rekey_carries_protection_witness :
  let r := mk_req WQueued false 8192 4096 5 (lit "game") 5 (lit "game") true
             false 0 NULL 0 [] 0 in
  let '(reg', _, _) := ac_prot_add_worker one_game 0 0 false r in
  settled reg' /\ ac_is_protected_mm reg' 8192 = true /\
  ac_is_protected_mm reg' 4096 = false.
Proof.
  intros r.
  pose proof (rekey_carries_protection one_game 0 0 false r settled_one_game
    ltac:(simpl; lia) ltac:(simpl; lia) ltac:(simpl; lia)) as Hw.
  destruct (ac_prot_add_worker _ _ _ _ _) as [[reg' ops] evs].
  destruct Hw as (S & Hp & _). split; [done|]. by rewrite !Hp by lia.
Defined.

End InheritDemo.
End Inherit.
