(* ===== verification/Scan.v ===== *)
(** The per-descriptor snapshots (src/anticheat_module.c, [ac_fd_state],
    [ac_build_vma_snapshot], [ac_build_mod_snapshot]): the mappings of a
    process and the module list, taken once and read back entry by entry. *)

From S2P Require Import Prelude CText Abi Ring Modules Handlers.
Import Ring.Ring Modules.Mods Handlers.Handlers.

#[local] Open Scope Z_scope.

(** Kernel functions the lookups of a process rest on. *)
Class TaskEnv := {
  find_get_pid : Z -> option Z;
  get_pid_task : Z -> option task;
  task_active_pid_ns : task -> option Z;
  find_pid_ns : Z -> Z -> option Z;
}.

(** A mapping as the kernel has it; [vm_file] carries the inode number, if the
    file has an inode, and the path [d_path] yields, if it does. *)
Record vm_area := mk_vma {
  vm_start : Z;
  vm_end : Z;
  vm_pgoff : Z;
  vm_flags : Z;
  vm_file : option (option Z * option (list Z));
}.

Module Scan.

Definition VM_WRITE : Z := 2.
Definition VM_EXEC : Z := 4.
Definition PAGE_SHIFT : Z := 12.

(** [vmas] and [mods] are the filled entries of the arrays, [None] when no
    array is allocated. *)
Record ac_fd_state := mk_fd {
  fd_vmas : option (list ac_vma_info);
  fd_resolved_pid : Z;
  fd_n_vmas : nat;
  fd_rwx_count : nat;
  fd_exec_count : nat;
  fd_anon_exec_count : nat;
  fd_truncated : bool;
  fd_mods : option (list ac_mod_info);
  fd_n_mods : nat;
}.

(** [kzalloc] *)
Definition fd_zero : ac_fd_state := mk_fd None 0 0 0 0 0 false None 0.

Definition fd_set_scan (st : ac_fd_state) (vmas : option (list ac_vma_info))
    (pid : Z) (n rwx exec anon : nat) (trunc : bool) : ac_fd_state :=
  mk_fd vmas pid n rwx exec anon trunc (fd_mods st) (fd_n_mods st).

Definition fd_clear_scan (st : ac_fd_state) : ac_fd_state :=
  fd_set_scan st None 0 0 0 0 0 false.

Definition fd_set_mods (st : ac_fd_state) (mods : option (list ac_mod_info))
    (n : nat) : ac_fd_state :=
  mk_fd (fd_vmas st) (fd_resolved_pid st) (fd_n_vmas st) (fd_rwx_count st)
    (fd_exec_count st) (fd_anon_exec_count st) (fd_truncated st) mods n.

(** [ac_get_fd_state]: the descriptor's state, allocated on first use;
    [alloc] is the outcome of [kzalloc]. *)
Definition ac_get_fd_state (pd : option ac_fd_state) (alloc : bool)
    : option ac_fd_state :=
  match pd with
  | Some st => Some st
  | None => if alloc then Some fd_zero else None
  end.

Section build.
Context `{!TaskEnv, !ModuleEnv}.

Definition ac_find_task_in_ns_of (nr ref_pid : Z) : option task :=
  match ac_find_task find_get_pid get_pid_task ref_pid with
  | None => None
  | Some ref_task =>
      match task_active_pid_ns ref_task with
      | None => None
      | Some ns =>
          match find_pid_ns nr ns with
          | None => None
          | Some pidp => get_pid_task pidp
          end
      end
  end.

(** [ref_pid > 0 ? ac_find_task_in_ns_of(pid, ref_pid) : ac_find_task(pid)] *)
Definition ac_resolve (pid ref_pid : Z) : option task :=
  if 0 <? ref_pid then ac_find_task_in_ns_of pid ref_pid
  else ac_find_task find_get_pid get_pid_task pid.

(** ** Mappings *)

Definition is_rwx (flags : Z) : bool :=
  Z.land flags (Z.lor VM_EXEC VM_WRITE) =? Z.lor VM_EXEC VM_WRITE.
Definition is_exec (flags : Z) : bool := negb (Z.land flags VM_EXEC =? 0).

(** One entry; [pathbuf] is whether the path buffer could be allocated. *)
Definition vma_entry (pathbuf : bool) (v : vm_area) : ac_vma_info :=
  mk_vma_info (vm_start v) (vm_end v) (u64 (Z.shiftl (vm_pgoff v) PAGE_SHIFT))
    (match vm_file v with Some (Some ino, _) => ino | _ => 0 end)
    (vm_flags v)
    (match vm_file v with Some _ => true | None => false end)
    (match vm_file v with
     | Some (_, Some p) => if pathbuf then strscpy AC_VMA_PATH p else []
     | _ => []
     end).

Record scan_acc := mk_scan {
  sa_vmas : list ac_vma_info;     (** [vmas[0..n)] *)
  sa_rwx : nat;
  sa_anon : nat;
  sa_exec : nat;
  sa_truncated : bool;
}.

(** [for_each_vma] with the cap, [AC_MAX_VMAS]. *)
Fixpoint scan_loop (cap : nat) (pathbuf : bool) (vs : list vm_area) (a : scan_acc)
    : scan_acc :=
  match vs with
  | [] => a
  | v :: vs' =>
      if (cap <=? length (sa_vmas a))%nat
      then mk_scan (sa_vmas a) (sa_rwx a) (sa_anon a) (sa_exec a) true
      else
        let vi := vma_entry pathbuf v in
        scan_loop cap pathbuf vs'
          (mk_scan (sa_vmas a ++ [vi])
             (if is_rwx (vm_flags v) then S (sa_rwx a) else sa_rwx a)
             (if negb (vi_is_file vi) && is_exec (vm_flags v)
              then S (sa_anon a) else sa_anon a)
             (if is_exec (vm_flags v) then S (sa_exec a) else sa_exec a)
             (sa_truncated a))
  end.

(** The deferred events of one entry. *)
Definition scan_events (pid : Z) (comm : list Z) (e : ac_vma_info)
    : list emission :=
  let range := lit "[0x" ++ fmt_x (vi_start e) ++ lit "-0x" ++
               fmt_x (vi_end e) ++ lit "]" in
  (if is_rwx (vi_flags e) then
     [mk_emission AC_EV_RWX pid (Some comm)
        (lit "RWX mapping " ++ range ++ lit " " ++
         match vi_path e with [] => lit "(anonymous)" | p => p end)]
   else []) ++
  (if negb (vi_is_file e) && is_exec (vi_flags e) then
     [mk_emission AC_EV_ANON_EXEC pid (Some comm)
        (lit "anonymous executable mapping " ++ range)]
   else []).

(** [vmas_of mm] are the mappings the iterator yields; [alloc] and [pathbuf]
    the outcomes of the two allocations. *)
Definition ac_build_vma_snapshot (vmas_of : Z -> list vm_area)
    (alloc pathbuf : bool) (st : ac_fd_state) (pid ref_pid emit_events : Z)
    : Z * ac_fd_state * list emission :=
  let st0 := fd_clear_scan st in
  match ac_resolve pid ref_pid with
  | None => (- ESRCH, st0, [])
  | Some t =>
      let st1 := fd_set_scan st0 None (tk_pid t) 0 0 0 0 false in
      if tk_mm t =? 0 then (- ESRCH, st1, []) else
      if negb alloc then (- ENOMEM, st1, []) else
      let tcomm := strscpy AC_MAX_COMM (tk_comm t) in
      let a := scan_loop AC_MAX_VMAS pathbuf (vmas_of (tk_mm t))
                 (mk_scan [] 0 0 0 false) in
      (0,
       fd_set_scan st1 (Some (sa_vmas a)) (tk_pid t) (length (sa_vmas a))
         (sa_rwx a) (sa_exec a) (sa_anon a) (sa_truncated a),
       if emit_events =? 0 then []
       else concat (scan_events (tk_pid t) tcomm <$> sa_vmas a))
  end.

(** ** Modules *)

(** The value of the enumerator. *)
Definition state_num (s : module_state) : Z :=
  match s with
  | MODULE_STATE_LIVE => 0
  | MODULE_STATE_COMING => 1
  | MODULE_STATE_GOING => 2
  | MODULE_STATE_UNFORMED => 3
  end.

Definition mod_entry (m : module) : ac_mod_info :=
  mk_mod_info (strscpy AC_MOD_NAME_LEN (m_name m)) (ac_module_size m)
    (state_num (m_state m)).

Fixpoint mods_loop (mods : list module) (acc : list ac_mod_info)
    : list ac_mod_info :=
  match mods with
  | [] => acc
  | m :: mods' =>
      if negb (ac_module_sane m) then mods_loop mods' acc
      else if (AC_MAX_MODS <=? length acc)%nat then acc
      else mods_loop mods' (acc ++ [mod_entry m])
  end.

Definition ac_build_mod_snapshot (mods : list module) (alloc : bool)
    (st : ac_fd_state) : Z * ac_fd_state :=
  let st0 := fd_set_mods st None 0 in
  if negb alloc then (- ENOMEM, st0)
  else let l := mods_loop mods [] in (0, fd_set_mods st0 (Some l) (length l)).

(** ** What a snapshot holds *)

(** A descriptor's state: the entries present are those announced. *)
Definition fd_ok (st : ac_fd_state) : Prop :=
  length (default [] (fd_vmas st)) = fd_n_vmas st /\
  (fd_n_vmas st <= AC_MAX_VMAS)%nat /\
  length (default [] (fd_mods st)) = fd_n_mods st /\
  (fd_n_mods st <= AC_MAX_MODS)%nat.

Lemma scan_loop_spec cap pathbuf vs a :
  (length (sa_vmas a) <= cap)%nat ->
  let kept := take (cap - length (sa_vmas a)) vs in
  scan_loop cap pathbuf vs a =
  mk_scan (sa_vmas a ++ (vma_entry pathbuf <$> kept))
    (sa_rwx a + count_if (fun v => is_rwx (vm_flags v)) kept)
    (sa_anon a + count_if (fun v => negb (vi_is_file (vma_entry pathbuf v)) &&
                                    is_exec (vm_flags v)) kept)
    (sa_exec a + count_if (fun v => is_exec (vm_flags v)) kept)
    (sa_truncated a ||
     (cap - length (sa_vmas a) <? length vs)%nat).
Proof.
  revert a. induction vs as [|v vs IH]; intros a Ha; cbn [scan_loop].
  - rewrite take_nil. cbn [fmap list_fmap count_if length].
    rewrite app_nil_r, !Nat.add_0_r. destruct a. simpl. by rewrite orb_false_r.
  - destruct (Nat.leb_spec cap (length (sa_vmas a))) as [Hc|Hc].
    + replace (cap - length (sa_vmas a))%nat with 0%nat by lia.
      cbn [take fmap list_fmap count_if length]. rewrite app_nil_r, !Nat.add_0_r.
      by rewrite orb_true_r.
    + rewrite IH; cbn [sa_vmas sa_rwx sa_anon sa_exec sa_truncated];
        rewrite length_app; cbn [length]; [|lia].
      replace (cap - length (sa_vmas a))%nat
        with (S (cap - (length (sa_vmas a) + 1))) by lia.
      rewrite firstn_cons. csimpl. cbn [count_if length].
      assert (forall x y, (S x <? S y) = (x <? y))%nat as -> by done.
      rewrite <- app_assoc. cbn [app]. f_equal; repeat case_test; lia.
Qed.

(** What one scan leaves in the descriptor's state. *)
Lemma scan_exact vmas_of alloc pathbuf st pid ref_pid emit :
  fd_ok st ->
  let '(ret, st', evs) :=
    ac_build_vma_snapshot vmas_of alloc pathbuf st pid ref_pid emit in
  fd_ok st' /\ fd_mods st' = fd_mods st /\
  if ret =? 0 then
    exists t, ac_resolve pid ref_pid = Some t /\ tk_mm t <> 0 /\
    let vs := vmas_of (tk_mm t) in
    let kept := take AC_MAX_VMAS vs in
    fd_resolved_pid st' = tk_pid t /\
    fd_vmas st' = Some (vma_entry pathbuf <$> kept) /\
    fd_rwx_count st' = count_if (fun v => is_rwx (vm_flags v)) kept /\
    fd_exec_count st' = count_if (fun v => is_exec (vm_flags v)) kept /\
    fd_anon_exec_count st' =
      count_if (fun v => bool_decide (vm_file v = None) && is_exec (vm_flags v)) kept /\
    fd_truncated st' = (AC_MAX_VMAS <? length vs)%nat /\
    evs = (if emit =? 0 then [] else
             concat (scan_events (tk_pid t) (strscpy AC_MAX_COMM (tk_comm t)) <$>
                       (vma_entry pathbuf <$> kept)))
  else fd_vmas st' = None /\ evs = [].
Proof.
  intros (Hv & Hvl & Hm & Hml). unfold ac_build_vma_snapshot.
  assert (forall p, fd_ok (fd_set_scan st None p 0 0 0 0 false)) as Hclear.
  { intros p. unfold fd_ok. cbn [fd_set_scan fd_vmas fd_n_vmas fd_mods fd_n_mods].
    split_and!; try done. lia. }
  destruct (ac_resolve pid ref_pid) as [t|] eqn:Er; [|split; [apply Hclear|done]].
  case_test; [split; [apply Hclear|done]|].
  destruct alloc; [|split; [apply Hclear|done]]. cbn [negb].
  rewrite scan_loop_spec by (simpl; lia).
  cbn [sa_vmas sa_rwx sa_anon sa_exec sa_truncated app length].
  rewrite Nat.sub_0_r. split; [|split; [done|]].
  - unfold fd_ok. cbn [fd_set_scan fd_clear_scan fd_vmas fd_n_vmas fd_mods fd_n_mods
      from_option id]. rewrite ?length_fmap, ?length_take. split_and!; [done|lia|exact Hm|exact Hml].
  - rewrite Z.eqb_refl. exists t. split_and!; try done.
    cbn [fd_set_scan fd_anon_exec_count]. rewrite Nat.add_0_l.
    apply count_if_ext. intros i v _. unfold vma_entry. simpl. f_equal.
    by destruct (vm_file v).
Qed.

Lemma mods_loop_spec mods acc :
  (length acc <= AC_MAX_MODS)%nat ->
  mods_loop mods acc =
  acc ++ (mod_entry <$> take (AC_MAX_MODS - length acc)
            (filter (fun m => ac_module_sane m) mods)).
Proof.
  revert acc. induction mods as [|m mods IH]; intros acc Ha; cbn [mods_loop].
  - by rewrite filter_nil, take_nil, app_nil_r.
  - destruct (ac_module_sane m) eqn:Es; cbn [negb].
    + rewrite filter_cons_True by (rewrite Es; exact I).
      destruct (Nat.leb_spec AC_MAX_MODS (length acc)) as [Hc|Hc].
      * replace (AC_MAX_MODS - length acc)%nat with 0%nat by lia. simpl.
        by rewrite app_nil_r.
      * rewrite IH; rewrite length_app; cbn [length]; [|lia].
        replace (AC_MAX_MODS - length acc)%nat
          with (S (AC_MAX_MODS - (length acc + 1))) by lia.
        rewrite firstn_cons. csimpl. by rewrite <- app_assoc.
    + rewrite filter_cons_False by (rewrite Es; tauto). by apply IH.
Qed.

Lemma mods_exact mods alloc st :
  fd_ok st ->
  let '(ret, st') := ac_build_mod_snapshot mods alloc st in
  fd_ok st' /\ fd_vmas st' = fd_vmas st /\
  if alloc
  then ret = 0 /\ fd_mods st' = Some (mod_entry <$>
         take AC_MAX_MODS (filter (fun m => ac_module_sane m) mods))
  else ret = - ENOMEM /\ fd_mods st' = None.
Proof.
  intros (Hv & Hvl & Hm & Hml). unfold ac_build_mod_snapshot.
  destruct alloc; cbn [negb].
  - rewrite mods_loop_spec by (simpl; lia). cbn [app length].
    rewrite Nat.sub_0_r. split; [|done]. unfold fd_ok.
    cbn [fd_set_mods fd_vmas fd_n_vmas fd_mods fd_n_mods from_option id].
    rewrite ?length_fmap, ?length_take. split_and!; [exact Hv|exact Hvl|done|lia].
  - split; [|done]. unfold fd_ok.
    cbn [fd_set_mods fd_vmas fd_n_vmas fd_mods fd_n_mods from_option id].
    split_and!; [exact Hv|exact Hvl|done|lia].
Qed.
End build.
End Scan.
