(* ===== verification/Ioctl.v ===== *)
(** The device's ioctl interface (src/anticheat_module.c, [ac_ioctl],
    [ac_open], [ac_release], [ac_compat_ioctl]): one definition per command,
    the dispatcher, and what every command keeps. *)

From S2P Require Import Prelude CText Abi Ring Modules SyscallTable.
From S2P Require Import SyscallCheck Registry Handlers Scan.
Import Ring.Ring Modules.Mods SyscallTable.Table SyscallCheck.Check
  Registry.Reg Handlers.Handlers Scan.Scan.

#[local] Open Scope Z_scope.

Module Ioctl.

Definition AC_LOCK_MAX : Z := 16.

(** The module's state behind the device.  [v_module_refs] are the references
    on the module itself taken by LOCK. *)
Record dev_st := mk_dev {
  v_reg : reg_st;
  v_ring : ring_st;
  v_sc : sc_st;
  ac_lock_count : Z;
  v_module_refs : Z;
  ac_last_hook_count : Z;
  v_kill_dropped : Z;
}.

Definition set_reg (v : dev_st) (x : reg_st) : dev_st :=
  mk_dev x (v_ring v) (v_sc v) (ac_lock_count v) (v_module_refs v)
    (ac_last_hook_count v) (v_kill_dropped v).
Definition set_ring (v : dev_st) (x : ring_st) : dev_st :=
  mk_dev (v_reg v) x (v_sc v) (ac_lock_count v) (v_module_refs v)
    (ac_last_hook_count v) (v_kill_dropped v).
Definition set_sc (v : dev_st) (x : sc_st) (hooks : Z) : dev_st :=
  mk_dev (v_reg v) (v_ring v) x (ac_lock_count v) (v_module_refs v) hooks
    (v_kill_dropped v).
Definition set_lock (v : dev_st) (count refs : Z) : dev_st :=
  mk_dev (v_reg v) (v_ring v) (v_sc v) count refs (ac_last_hook_count v)
    (v_kill_dropped v).

(** What [copy_from_user] yields for each argument type, [None] on a fault. *)
Record user_in := mk_in {
  u_proc : option ac_proc_id;
  u_scan : option ac_scan_begin;
  u_index : option Z;
  u_events : option ac_event_list;
}.

(** What [copy_to_user] writes. *)
Inductive reply :=
  | RStatus (s : ac_status)
  | RScan (b : ac_scan_begin)
  | RVma (index : Z) (v : ac_vma_info)
  | RCheck (c : ac_syscall_check)
  | RModCount (n : nat)
  | RMod (index : Z) (m : ac_mod_info)
  | REvents (el : ac_event_list)
  | RProts (items : list ac_prot_item)
  | RWild.                           (** memory past the end of an array *)

(** What one call gets from the rest of the kernel. *)
Record call_env := mk_env {
  capable : bool;                    (** CAP_SYS_ADMIN in the init namespace *)
  compat : bool;                     (** a 32-bit caller *)
  copy_to_ok : bool;
  alloc_fd : bool;                   (** the allocations, in order of use *)
  alloc_array : bool;
  alloc_path : bool;
  alloc_list : bool;
  notifier_ret : Z;                  (** [mmu_notifier_register] *)
  try_module_get : bool;
  wait_ret : Z;                      (** [wait_event_interruptible_timeout] *)
  clock : nat -> Z;
  vmas_of : Z -> list vm_area;
  walk : list module;                (** the modules the walk visits *)
  text : text_st;
  kread : Z -> option Z;
}.

Section commands.
Context `{!TaskEnv, !ModuleEnv, !KernelEnv}.

(** Every command returns its result, the device and descriptor state, and
    what it wrote to the caller. *)
Definition result : Type := Z * dev_st * option ac_fd_state * option reply.

(** [if (copy_to_user(...)) return -EFAULT; return 0;] *)
Definition reply_with (e : call_env) (v : dev_st) (pd : option ac_fd_state)
    (r : reply) : result :=
  if copy_to_ok e then (0, v, pd, Some r) else (- EFAULT, v, pd, None).

Definition do_status (e : call_env) (v : dev_st) (pd : option ac_fd_state)
    : result :=
  reply_with e v pd (RStatus (mk_status AC_IOCTL_VERSION
    (ac_syscall_table (v_sc v)) (ac_protected_count (v_reg v))
    (ac_dropped (v_ring v)) (if 0 <? ac_lock_count v then 1 else 0)
    (ac_last_hook_count v) (u32 (v_kill_dropped v)))).

Definition ac_add_prot_pid (reg : reg_st) (rgret pid ref_pid : Z)
    (jit_allowed : bool) : Z * reg_st :=
  match ac_resolve pid ref_pid with
  | None => (- ESRCH, reg)
  | Some t =>
      if tk_mm t =? NULL then (- ESRCH, reg)
      else ac_add_prot_mm reg (tk_mm t) (tk_pid t)
             (strscpy AC_MAX_COMM (tk_comm t)) jit_allowed rgret
  end.

Definition do_add_proc (e : call_env) (v : dev_st) (pd : option ac_fd_state)
    (u : user_in) : result :=
  match u_proc u with
  | None => (- EFAULT, v, pd, None)
  | Some a =>
      let '(ret, reg) := ac_add_prot_pid (v_reg v) (notifier_ret e) (pr_pid a)
                           (pr_ref_pid a) (negb (pr_jit_allowed a =? 0)) in
      (ret, set_reg v reg, pd, None)
  end.

Definition do_del_proc (v : dev_st) (pd : option ac_fd_state) (u : user_in)
    : result :=
  match u_proc u with
  | None => (- EFAULT, v, pd, None)
  | Some d =>
      match ac_resolve (pr_pid d) (pr_ref_pid d) with
      | None => (- ESRCH, v, pd, None)
      | Some t =>
          if tk_mm t =? NULL then (- ESRCH, v, pd, None)
          else (0, set_reg v (ac_del_prot_mm (v_reg v) (tk_mm t)), pd, None)
      end
  end.

Definition do_scan_begin (e : call_env) (v : dev_st)
    (pd : option ac_fd_state) (u : user_in) : result :=
  match u_scan u with
  | None => (- EFAULT, v, pd, None)
  | Some b =>
      match ac_get_fd_state pd (alloc_fd e) with
      | None => (- ENOMEM, v, pd, None)
      | Some st =>
          let '(ret, st', evs) :=
            ac_build_vma_snapshot (vmas_of e) (alloc_array e) (alloc_path e) st
              (sb_pid b) (sb_ref_pid b) (sb_emit_events b) in
          let v' := set_ring v (emit_all (clock e) (v_ring v) evs) in
          if negb (ret =? 0) then (ret, v', Some st', None)
          else reply_with e v' (Some st') (RScan (mk_scan_begin (sb_pid b)
                 (sb_ref_pid b) (sb_emit_events b) (fd_resolved_pid st')
                 (Z.of_nat (fd_n_vmas st')) (Z.of_nat (fd_rwx_count st'))
                 (Z.of_nat (fd_exec_count st'))
                 (Z.of_nat (fd_anon_exec_count st')) (fd_truncated st')))
      end
  end.

Definition do_scan_get (e : call_env) (v : dev_st) (pd : option ac_fd_state)
    (u : user_in) : result :=
  match u_index u with
  | None => (- EFAULT, v, pd, None)
  | Some i =>
      match pd with
      | None => (- EINVAL, v, pd, None)
      | Some st =>
          if Z.of_nat (fd_n_vmas st) <=? i then (- EINVAL, v, pd, None)
          else match default [] (fd_vmas st) !! Z.to_nat i with
               | Some vi => reply_with e v pd (RVma i vi)
               | None => reply_with e v pd RWild
               end
      end
  end.

Definition do_scan_end (v : dev_st) (pd : option ac_fd_state) : result :=
  (0, v, fd_clear_scan <$> pd, None).

Definition do_check (e : call_env) (v : dev_st) (pd : option ac_fd_state)
    : result :=
  let '(ret, c, sc, evs) :=
    ac_check_syscalls NR_syscalls (text e) (walk e) (alloc_array e) (kread e) (v_sc v) in
  let v' := set_ring v (emit_all (clock e) (v_ring v) evs) in
  if negb (ret =? 0) then (ret, set_sc v' sc (ac_last_hook_count v), pd, None)
  else reply_with e (set_sc v' sc (sc_hooked c)) pd (RCheck c).

Definition do_mods_begin (e : call_env) (v : dev_st)
    (pd : option ac_fd_state) : result :=
  match ac_get_fd_state pd (alloc_fd e) with
  | None => (- ENOMEM, v, pd, None)
  | Some st =>
      let '(ret, st') := ac_build_mod_snapshot (walk e) (alloc_array e) st in
      if negb (ret =? 0) then (ret, v, Some st', None)
      else reply_with e v (Some st') (RModCount (fd_n_mods st'))
  end.

Definition do_mods_get (e : call_env) (v : dev_st) (pd : option ac_fd_state)
    (u : user_in) : result :=
  match u_index u with
  | None => (- EFAULT, v, pd, None)
  | Some i =>
      match pd with
      | None => (- EINVAL, v, pd, None)
      | Some st =>
          if Z.of_nat (fd_n_mods st) <=? i then (- EINVAL, v, pd, None)
          else match default [] (fd_mods st) !! Z.to_nat i with
               | Some mi => reply_with e v pd (RMod i mi)
               | None => reply_with e v pd RWild
               end
      end
  end.

Definition do_mods_end (v : dev_st) (pd : option ac_fd_state) : result :=
  (0, v, (fun st => fd_set_mods st None 0) <$> pd, None).

Definition clamp_block_ms (ms : Z) : Z :=
  if AC_GET_EVENTS_MAX_BLOCK_MS <? ms then AC_GET_EVENTS_MAX_BLOCK_MS else ms.

Definition do_get_events (e : call_env) (v : dev_st)
    (pd : option ac_fd_state) (u : user_in) : result :=
  if negb (alloc_list e) then (- ENOMEM, v, pd, None) else
  match u_events u with
  | None => (- EFAULT, v, pd, None)
  | Some el =>
      let block_ms := clamp_block_ms (el_block_ms el) in
      if negb (block_ms =? 0) && (wait_ret e <? 0)
      then (wait_ret e, v, pd, None) else
      let '(out, before) := ac_peek_events (v_ring v) el in
      if negb (copy_to_ok e) then (- EFAULT, v, pd, None) else
      (0, set_ring v (ac_commit_events (v_ring v) (el_count out) before), pd,
       Some (REvents out))
  end.

Definition do_flush (v : dev_st) (pd : option ac_fd_state) : result :=
  (0, set_ring v (fst (ac_drain_events (v_ring v) None)), pd, None).

Definition do_list (e : call_env) (v : dev_st) (pd : option ac_fd_state)
    : result :=
  reply_with e v pd (RProts (ac_list_protected (v_reg v))).

(** The compare-and-exchange loop ends with the count it read raised by one,
    or at the ceiling with the reference handed back. *)
Definition do_lock (e : call_env) (v : dev_st) (pd : option ac_fd_state)
    : result :=
  if negb (try_module_get e) then (- EBUSY, v, pd, None) else
  let v1 := set_lock v (ac_lock_count v) (v_module_refs v + 1) in
  if AC_LOCK_MAX <=? ac_lock_count v1 then
    (- EBUSY, set_lock v1 (ac_lock_count v1) (v_module_refs v1 - 1), pd, None)
  else (0, set_lock v1 (ac_lock_count v1 + 1) (v_module_refs v1), pd, None).

(** [atomic_dec_if_positive] returns the old value minus one. *)
Definition do_unlock (v : dev_st) (pd : option ac_fd_state) : result :=
  if 0 <=? ac_lock_count v - 1
  then (0, set_lock v (ac_lock_count v - 1) (v_module_refs v - 1), pd, None)
  else (0, v, pd, None).

Definition ac_ioctl (e : call_env) (cmd : Z) (u : user_in) (v : dev_st)
    (pd : option ac_fd_state) : result :=
  if negb (capable e) then (- EPERM, v, pd, None) else
  if compat e then (- ENOTTY, v, pd, None) else
  if cmd =? AC_IOCTL_STATUS then do_status e v pd else
  if cmd =? AC_IOCTL_ADD_PROC then do_add_proc e v pd u else
  if cmd =? AC_IOCTL_DEL_PROC then do_del_proc v pd u else
  if cmd =? AC_IOCTL_SCAN_BEGIN then do_scan_begin e v pd u else
  if cmd =? AC_IOCTL_SCAN_GET then do_scan_get e v pd u else
  if cmd =? AC_IOCTL_SCAN_END then do_scan_end v pd else
  if cmd =? AC_IOCTL_CHECK_SYSCALLS then do_check e v pd else
  if cmd =? AC_IOCTL_MODS_BEGIN then do_mods_begin e v pd else
  if cmd =? AC_IOCTL_MODS_GET then do_mods_get e v pd u else
  if cmd =? AC_IOCTL_MODS_END then do_mods_end v pd else
  if cmd =? AC_IOCTL_GET_EVENTS then do_get_events e v pd u else
  if cmd =? AC_IOCTL_FLUSH_EVENTS then do_flush v pd else
  if cmd =? AC_IOCTL_LIST_PROTECTED then do_list e v pd else
  if cmd =? AC_IOCTL_LOCK then do_lock e v pd else
  if cmd =? AC_IOCTL_UNLOCK then do_unlock v pd else
  (- ENOTTY, v, pd, None).

Definition ac_open (e : call_env) (pd : option ac_fd_state)
    : Z * option ac_fd_state :=
  if negb (capable e) then (- EPERM, pd) else (0, None).

(** The state is freed with the descriptor. *)
Definition ac_release (pd : option ac_fd_state) : Z * option ac_fd_state :=
  (0, None).

Definition ac_compat_ioctl (cmd arg : Z) : Z := - ENOTTY.

(** ** What every command keeps *)

Definition dev_ok (v : dev_st) : Prop :=
  settled (v_reg v) /\ wf_ring (v_ring v) /\
  0 <= ac_lock_count v <= AC_LOCK_MAX /\ v_module_refs v = ac_lock_count v.

Definition pd_ok (pd : option ac_fd_state) : Prop :=
  match pd with Some st => fd_ok st | None => True end.

(** An address space is at an address, neither NULL nor the mark of a
    reserved registry slot. *)
Definition mm_addresses : Prop :=
  forall sp t, get_pid_task sp = Some t -> tk_mm t = NULL \/ 1 < tk_mm t.

(** [index] is an unsigned int. *)
Definition in_ok (u : user_in) : Prop :=
  match u_index u with Some i => 0 <= i | None => True end.

Definition keeps (r : result) : Prop :=
  let '(_, v, pd, rep) := r in
  dev_ok v /\ pd_ok pd /\ rep <> Some RWild.

Lemma reply_keeps e v pd r :
  dev_ok v -> pd_ok pd -> r <> RWild -> keeps (reply_with e v pd r).
Proof.
  intros Hv Hp Hr. unfold reply_with. destruct (copy_to_ok e); simpl;
    (split; [done|]); (split; [done|]); congruence.
Qed.

Lemma emit_all_wf cl r evs : wf_ring r -> wf_ring (emit_all cl r evs).
Proof.
  unfold emit_all. generalize 0%nat. revert r.
  induction evs as [|ev evs IH]; intros r k Hr; simpl; [done|].
  by apply IH, emit_wf.
Qed.

Lemma resolve_mm pid ref t :
  mm_addresses -> ac_resolve pid ref = Some t -> tk_mm t = NULL \/ 1 < tk_mm t.
Proof.
  intros Hmm. unfold ac_resolve, ac_find_task_in_ns_of, ac_find_task.
  case_test; repeat case_match; intros ?; simplify_eq; by eapply Hmm.
Qed.

Lemma add_proc_keeps e v pd u :
  mm_addresses -> dev_ok v -> pd_ok pd -> keeps (do_add_proc e v pd u).
Proof.
  intros Hmm Hv Hp. unfold do_add_proc, ac_add_prot_pid.
  destruct (u_proc u) as [a|]; [|done].
  destruct (ac_resolve _ _) as [t|] eqn:Er.
  2: { destruct v. done. }
  destruct (resolve_mm _ _ _ Hmm Er) as [E|Hlt].
  - rewrite E, Z.eqb_refl. destruct v. done.
  - destruct (Z.eqb_spec (tk_mm t) NULL); [unfold NULL in *; lia|].
    destruct (ac_add_prot_mm _ _ _ _ _ _) as [ret reg] eqn:Ea.
    destruct Hv as (Hs & Hr & Hl). split; [|done]. split; [|done].
    by eapply add_protects.
Qed.

Lemma del_proc_keeps v pd u :
  mm_addresses -> dev_ok v -> pd_ok pd -> keeps (do_del_proc v pd u).
Proof.
  intros Hmm Hv Hp. unfold do_del_proc. destruct (u_proc u) as [a|]; [|done].
  destruct (ac_resolve _ _) as [t|] eqn:Er; [|done].
  destruct (resolve_mm _ _ _ Hmm Er) as [E|Hlt]; [by rewrite E, Z.eqb_refl|].
  destruct (Z.eqb_spec (tk_mm t) NULL); [done|].
  destruct Hv as (Hs & Hr & Hl). split; [|done]. split; [|done].
  by apply del_unprotects.
Qed.

Lemma get_fd_ok pd alloc st :
  pd_ok pd -> ac_get_fd_state pd alloc = Some st -> fd_ok st.
Proof.
  unfold ac_get_fd_state. destruct pd as [x|]; [by intros ? [= <-]|].
  destruct alloc; [|done]. intros _ [= <-]. unfold fd_ok. simpl. lia.
Qed.

Lemma set_ring_ok v r : dev_ok v -> wf_ring r -> dev_ok (set_ring v r).
Proof. by intros (? & _ & ?) Hr. Qed.

Lemma scan_begin_keeps e v pd u :
  dev_ok v -> pd_ok pd -> keeps (do_scan_begin e v pd u).
Proof.
  intros Hv Hp. unfold do_scan_begin. destruct (u_scan u) as [b|]; [|done].
  destruct (ac_get_fd_state pd (alloc_fd e)) as [st|] eqn:Eg; [|done].
  pose proof (get_fd_ok _ _ _ Hp Eg) as Hst.
  pose proof (scan_exact (vmas_of e) (alloc_array e) (alloc_path e) st (sb_pid b)
    (sb_ref_pid b) (sb_emit_events b) Hst) as Hb.
  destruct (ac_build_vma_snapshot _ _ _ _ _ _ _) as [[ret st'] evs].
  destruct Hb as [Hst' _]. assert (dev_ok (set_ring v (emit_all (clock e) (v_ring v) evs)))
    by (apply set_ring_ok; [done|]; apply emit_all_wf, Hv).
  case_test; [done|]. by apply reply_keeps.
Qed.

Lemma scan_get_keeps e v pd u :
  in_ok u -> dev_ok v -> pd_ok pd -> keeps (do_scan_get e v pd u).
Proof.
  intros Hi Hv Hp. unfold do_scan_get, in_ok in *. destruct (u_index u) as [i|]; [|done].
  destruct pd as [st|]; [|done]. case_test; [done|].
  destruct Hp as (Hl & Hp). destruct (_ !! _) as [vi|] eqn:El; [by apply reply_keeps|].
  apply lookup_ge_None in El. lia.
Qed.

Lemma mods_get_keeps e v pd u :
  in_ok u -> dev_ok v -> pd_ok pd -> keeps (do_mods_get e v pd u).
Proof.
  intros Hi Hv Hp. unfold do_mods_get, in_ok in *. destruct (u_index u) as [i|]; [|done].
  destruct pd as [st|]; [|done]. case_test; [done|].
  pose proof Hp as (_ & _ & Hl & _).
  destruct (_ !! _) as [vi|] eqn:El; [by apply reply_keeps|].
  apply lookup_ge_None in El. lia.
Qed.

Lemma mods_begin_keeps e v pd :
  dev_ok v -> pd_ok pd -> keeps (do_mods_begin e v pd).
Proof.
  intros Hv Hp. unfold do_mods_begin.
  destruct (ac_get_fd_state pd (alloc_fd e)) as [st|] eqn:Eg; [|done].
  pose proof (mods_exact (walk e) (alloc_array e) st (get_fd_ok _ _ _ Hp Eg)) as Hb.
  destruct (ac_build_mod_snapshot _ _ _) as [ret st']. destruct Hb as [Hst' _].
  case_test; [done|]. by apply reply_keeps.
Qed.

Lemma ends_keep v pd :
  dev_ok v -> pd_ok pd -> keeps (do_scan_end v pd) /\ keeps (do_mods_end v pd).
Proof.
  intros Hv Hp. unfold do_scan_end, do_mods_end. destruct pd as [st|]; simpl.
  - destruct Hp as (Ha & Hb & Hc & Hd). split; (split; [done|]); (split; [|done]);
      split_and!; simpl; (done || lia).
  - done.
Qed.

Lemma check_keeps e v pd :
  dev_ok v -> pd_ok pd -> keeps (do_check e v pd).
Proof.
  intros Hv Hp. unfold do_check.
  destruct (ac_check_syscalls _ _ _ _ _ _) as [[[ret c] sc] evs].
  assert (wf_ring (emit_all (clock e) (v_ring v) evs)) by apply emit_all_wf, Hv.
  destruct Hv as (Hs & Hr & Hl). case_test; [done|]. by apply reply_keeps.
Qed.

Lemma get_events_keeps e v pd u :
  dev_ok v -> pd_ok pd -> keeps (do_get_events e v pd u).
Proof.
  intros Hv Hp. unfold do_get_events. case_test; [done|].
  destruct (u_events u) as [el|]; [|done]. case_test; [done|].
  destruct (ac_peek_events _ _) as [out before]. case_test; [done|].
  split; [|done]. apply set_ring_ok; [done|]. apply commit_wf, Hv.
Qed.

Lemma flush_keeps v pd : dev_ok v -> pd_ok pd -> keeps (do_flush v pd).
Proof.
  intros Hv Hp. unfold do_flush. destruct (flush_refines (v_ring v)) as [-> _]; [apply Hv|].
  split; [|done]. apply set_ring_ok; [done|]. apply advance_wf; [apply Hv|done].
Qed.

Lemma lock_keeps e v pd :
  dev_ok v -> pd_ok pd -> keeps (do_lock e v pd) /\ keeps (do_unlock v pd).
Proof.
  intros (Hs & Hr & Hl & He) Hp. unfold do_lock, do_unlock, AC_LOCK_MAX in *.
  split; repeat case_test; (split; [|done]); unfold dev_ok, AC_LOCK_MAX;
    simpl in *; split_and!; (done || lia).
Qed.

(** C18: Every ioctl, whatever its command, its argument, the faults of the
    user copies and the failures of the allocations, keeps the device sound:
    the registry and the event ring well formed, the module references taken
    by LOCK equal to the lock count and at most [AC_LOCK_MAX], each
    descriptor's snapshots as long as announced; and no reply carries memory
    past the end of a snapshot array. *)
Theorem ioctl_keeps_device e cmd u v pd :
  mm_addresses -> in_ok u -> dev_ok v -> pd_ok pd ->
  keeps (ac_ioctl e cmd u v pd).
Proof.
  intros Hmm Hu Hv Hp. unfold ac_ioctl.
  repeat case_test; try done.
  - by apply reply_keeps.
  - by apply add_proc_keeps.
  - by apply del_proc_keeps.
  - by apply scan_begin_keeps.
  - by apply scan_get_keeps.
  - by apply ends_keep.
  - by apply check_keeps.
  - by apply mods_begin_keeps.
  - by apply mods_get_keeps.
  - by apply ends_keep.
  - by apply get_events_keeps.
  - by apply flush_keeps.
  - by apply reply_keeps.
  - by apply lock_keeps.
  - by apply (lock_keeps e).
Qed.

(** The device answers only privileged native callers and only its own
    commands: without CAP_SYS_ADMIN in the initial namespace every ioctl and
    every open fails with -EPERM, a 32-bit caller or a command number that is
    not one of the fifteen gets -ENOTTY, and in each case nothing changes and
    nothing is written to the caller. *)
Theorem ioctl_rejects e cmd u v pd :
  (capable e = false ->
     ac_ioctl e cmd u v pd = (- EPERM, v, pd, None) /\
     ac_open e pd = (- EPERM, pd)) /\
  (capable e = true -> compat e = true \/ cmd ∉ ioctl_numbers ->
     ac_ioctl e cmd u v pd = (- ENOTTY, v, pd, None)).
Proof.
  unfold ac_ioctl, ac_open. split; [by intros ->|].
  intros -> [->|Hn]; [done|]. cbn [negb]. destruct (compat e); [done|].
  unfold ioctl_numbers in Hn. rewrite !not_elem_of_cons in Hn. destruct_and!.
  repeat (rewrite (proj2 (Z.eqb_neq cmd _)) by done). done.
Qed.

(** C38: A scan read back through the device is the scan of the process: the
    reply of a successful SCAN_BEGIN counts the writable-executable,
    executable and anonymous-executable mappings among the first
    [AC_MAX_VMAS] of the resolved process and tells whether there are more,
    and each later SCAN_GET on the same descriptor returns the mapping of that
    index, and -EINVAL from the announced number on. *)
Theorem scan_roundtrip e u v pd v' pd' b :
  pd_ok pd -> capable e = true -> compat e = false ->
  ac_ioctl e AC_IOCTL_SCAN_BEGIN u v pd = (0, v', pd', Some (RScan b)) ->
  exists t, ac_resolve (sb_pid b) (sb_ref_pid b) = Some t /\
  let vs := vmas_of e (tk_mm t) in
  let kept := take AC_MAX_VMAS vs in
  sb_resolved_pid b = tk_pid t /\ sb_n_vmas b = Z.of_nat (length kept) /\
  sb_rwx_count b = Z.of_nat (count_if (fun x => is_rwx (vm_flags x)) kept) /\
  sb_exec_count b = Z.of_nat (count_if (fun x => is_exec (vm_flags x)) kept) /\
  sb_anon_exec_count b = Z.of_nat (count_if (fun x =>
    bool_decide (vm_file x = None) && is_exec (vm_flags x)) kept) /\
  sb_truncated b = (AC_MAX_VMAS <? length vs)%nat /\
  forall e' i ui, capable e' = true -> compat e' = false ->
    copy_to_ok e' = true -> u_index ui = Some i -> 0 <= i ->
    ac_ioctl e' AC_IOCTL_SCAN_GET ui v' pd' =
    match kept !! Z.to_nat i with
    | Some x => (0, v', pd', Some (RVma i (vma_entry (alloc_path e) x)))
    | None => (- EINVAL, v', pd', None)
    end.
Proof.
  intros Hp Hc Hco. assert (ac_ioctl e AC_IOCTL_SCAN_BEGIN u v pd =
    do_scan_begin e v pd u) as -> by (unfold ac_ioctl; by rewrite Hc, Hco).
  unfold do_scan_begin. destruct (u_scan u) as [b0|]; [|done].
  destruct (ac_get_fd_state pd (alloc_fd e)) as [st|] eqn:Eg; [|done].
  pose proof (scan_exact (vmas_of e) (alloc_array e) (alloc_path e) st (sb_pid b0)
    (sb_ref_pid b0) (sb_emit_events b0) (get_fd_ok _ _ _ Hp Eg)) as Hb.
  destruct (ac_build_vma_snapshot _ _ _ _ _ _ _) as [[ret st'] evs].
  destruct Hb as [Hok [_ Hb]]. destruct (Z.eqb_spec ret 0) as [->|]; cbn [negb].
  2: { intros ?. simplify_eq. }
  unfold reply_with. destruct (copy_to_ok e); intros ?; simplify_eq.
  cbn [sb_pid sb_ref_pid sb_resolved_pid sb_n_vmas sb_rwx_count sb_exec_count
    sb_anon_exec_count sb_truncated].
  destruct Hb as (t & Ht & _ & Hpid & Hv & Hr & Hx & Ha & Htr & _).
  destruct Hok as (Hn & _). rewrite Hv in Hn. cbn [from_option id] in Hn.
  rewrite length_fmap in Hn. exists t. split; [done|]. cbv zeta.
  rewrite <- Hn, Hpid, Hr, Hx, Ha, Htr. do 6 (split; [done|]).
  intros e' i ui Hc' Hco' Hok' Hi Hi0.
  assert (ac_ioctl e' AC_IOCTL_SCAN_GET ui
    (set_ring v (emit_all (clock e) (v_ring v) evs)) (Some st') =
    do_scan_get e' (set_ring v (emit_all (clock e) (v_ring v) evs)) (Some st') ui)
    as -> by (unfold ac_ioctl; by rewrite Hc', Hco').
  unfold do_scan_get, reply_with. rewrite Hi, Hok', <- Hn, Hv. cbn [from_option id].
  rewrite list_lookup_fmap. destruct (_ !! Z.to_nat i) as [x|] eqn:El; simpl.
  - apply lookup_lt_Some in El.
    destruct (Z.leb_spec (Z.of_nat (length (take AC_MAX_VMAS (vmas_of e (tk_mm t))))) i);
      [lia|done].
  - apply lookup_ge_None in El.
    destruct (Z.leb_spec (Z.of_nat (length (take AC_MAX_VMAS (vmas_of e (tk_mm t))))) i);
      [done|lia].
Qed.

(** The module list read back through the device is the list of sane
    modules of the walk: MODS_BEGIN announces how many of them there are, up
    to [AC_MAX_MODS], and MODS_GET returns name, size and state of the one of
    that index, and -EINVAL from the announced number on. *)
Theorem mods_roundtrip e u v pd v' pd' n :
  pd_ok pd -> capable e = true -> compat e = false ->
  ac_ioctl e AC_IOCTL_MODS_BEGIN u v pd = (0, v', pd', Some (RModCount n)) ->
  let ms := take AC_MAX_MODS (filter (fun m => ac_module_sane m) (walk e)) in
  n = length ms /\
  forall e' i ui, capable e' = true -> compat e' = false ->
    copy_to_ok e' = true -> u_index ui = Some i -> 0 <= i ->
    ac_ioctl e' AC_IOCTL_MODS_GET ui v' pd' =
    match ms !! Z.to_nat i with
    | Some m => (0, v', pd', Some (RMod i (mod_entry m)))
    | None => (- EINVAL, v', pd', None)
    end.
Proof.
  intros Hp Hc Hco. assert (ac_ioctl e AC_IOCTL_MODS_BEGIN u v pd =
    do_mods_begin e v pd) as -> by (unfold ac_ioctl; by rewrite Hc, Hco).
  unfold do_mods_begin.
  destruct (ac_get_fd_state pd (alloc_fd e)) as [st|] eqn:Eg; [|done].
  pose proof (mods_exact (walk e) (alloc_array e) st (get_fd_ok _ _ _ Hp Eg)) as Hb.
  destruct (ac_build_mod_snapshot _ _ _) as [ret st']. destruct Hb as (Hok & _ & Hb).
  destruct (alloc_array e); destruct Hb as [-> Hm]; [|done]. cbn [Z.eqb negb].
  unfold reply_with. destruct (copy_to_ok e); intros ?; simplify_eq. cbv zeta.
  destruct Hok as (_ & _ & Hn & _). rewrite Hm in Hn. cbn [from_option id] in Hn.
  rewrite length_fmap in Hn. split; [done|].
  intros e' i ui Hc' Hco' Hok' Hi Hi0.
  assert (ac_ioctl e' AC_IOCTL_MODS_GET ui v' (Some st') =
    do_mods_get e' v' (Some st') ui) as -> by (unfold ac_ioctl; by rewrite Hc', Hco').
  unfold do_mods_get, reply_with. rewrite Hi, Hok', <- Hn, Hm. cbn [from_option id].
  rewrite list_lookup_fmap. destruct (_ !! Z.to_nat i) as [x|] eqn:El; simpl.
  - apply lookup_lt_Some in El. case_test; [lia|done].
  - apply lookup_ge_None in El. case_test; [done|lia].
Qed.

(** A fetch of events removes exactly what it delivered: on success the
    reply holds the oldest queued events, at most [AC_MAX_EVENTS], and the
    ring keeps the others; on any failure (no memory, a faulting copy in either
    direction, a signal during the wait) the ring is unchanged. *)
Theorem get_events_exact e u v pd :
  dev_ok v ->
  (forall el, u_events u = Some el -> length (el_events el) = AC_MAX_EVENTS) ->
  let '(ret, v', _, rep) := do_get_events e v pd u in
  match rep with
  | Some (REvents el) =>
      ret = 0 /\ contents (v_ring v) =
        take (el_count el) (el_events el) ++ contents (v_ring v') /\
      el_count el = (AC_MAX_EVENTS `min` length (contents (v_ring v)))%nat
  | _ => ret < 0 /\ v' = v
  end.
Proof.
  intros Hv Hu. unfold do_get_events. destruct (alloc_list e); [|done]. cbn [negb].
  destruct (u_events u) as [el|] eqn:Eu; [|done]. specialize (Hu el eq_refl).
  destruct (negb _ && _) eqn:Ew; [boolp; split; [lia|done]|].
  destruct Hv as (_ & Hr & _). rewrite peek_refines by done.
  destruct (copy_to_ok e); [|done]. cbn [negb].
  assert (length (take AC_MAX_EVENTS (contents (v_ring v))) =
    (AC_MAX_EVENTS `min` length (contents (v_ring v)))%nat) as Hlen
    by apply length_take.
  split; [done|]. split; [|done].
  cbn [q_fetch abs el_count el_events q_events q_removed set_ring v_ring].
  set (evs := take AC_MAX_EVENTS (contents (v_ring v))) in *.
  assert (el_events el = take (length evs) (el_events el) ++
    drop (length evs) (el_events el)) as Hel by by rewrite take_drop.
  rewrite Hel, list_inserts_0_r by (rewrite length_take; lia).
  rewrite take_app_length, commit_advance; [|done|apply Hr|lia].
  rewrite Z.sub_diag. change (Z.to_nat (u64 0)) with 0%nat. rewrite Nat.sub_0_r.
  rewrite <- length_contents, Hlen, Nat.min_r by lia.
  rewrite contents_advance by (rewrite <- length_contents; lia).
  rewrite <- (take_drop (AC_MAX_EVENTS `min` length (contents (v_ring v)))
    (contents (v_ring v))) at 1. f_equal. subst evs.
  destruct (Nat.min_spec AC_MAX_EVENTS (length (contents (v_ring v)))) as [[? ->]|[? ->]];
    [done|]. by rewrite !take_ge by lia.
Qed.
End commands.

(** ** A device with one protected process *)
Module IoctlDemo.

#[local] Instance demo_tasks : TaskEnv := {|
  find_get_pid := fun pid => if pid =? 5 then Some 500 else None;
  get_pid_task := fun sp => Some (mk_task 5 5 50 4096 sp (lit "game"));
  task_active_pid_ns := fun _ => Some 1;
  find_pid_ns := fun _ _ => None;
|}.
#[local] Instance demo_mods : ModuleEnv := {|
  is_vmalloc_or_module_addr := fun a => 1000 <=? a;
  within_module_core := fun _ _ => false;
  MOD_MEM_NUM_TYPES := 7;
|}.
#[local] Instance demo_kernel : KernelEnv := {|
  register_kprobe := fun _ => None;
  kread64 := fun _ => None;
  kread32 := fun _ => None;
  NR_syscalls := 4;
|}.

Definition maps (_ : Z) : list vm_area :=
  [ mk_vma 4096 8192 0 5 (Some (Some 11, Some (lit "/usr/bin/game")));
    mk_vma 16384 20480 0 7 None ].
Definition own : module :=
  mk_module 4096 (lit "anticheat") MODULE_STATE_LIVE [(8192, 4096)].
Definition root (ok : bool) : call_env :=
  mk_env ok false true true true true true 0 true 0 (fun _ => 0) maps [own]
    (mk_text 0 0 0 false 0) (fun _ => None).
Definition device : dev_st := mk_dev one_game ring_init (sc_init 4 0) 16 16 0 0.
Definition args : user_in :=
  mk_in (Some (mk_proc_id 5 0 0 [])) (Some (mk_scan_begin 5 0 1 0 0 0 0 0 false))
    (Some 1) (Some (mk_event_list 0 0 0 (replicate AC_MAX_EVENTS zero_event))).

Lemma device_ok : dev_ok device.
Proof.
  split; [apply settled_one_game|]. split; [apply ring_init_wf|].
  simpl. unfold AC_LOCK_MAX. lia.
Qed.

Lemma mms_ok : mm_addresses.
Proof. intros sp t [= <-]. right. simpl. lia. Qed.

Lemma ioctl_keeps_device_witness :
  keeps (ac_ioctl (root true) AC_IOCTL_LOCK args device None) /\
  fst (fst (fst (ac_ioctl (root true) AC_IOCTL_LOCK args device None))) = - EBUSY.
Proof.
  split; [|reflexivity].
  apply (ioctl_keeps_device (root true) AC_IOCTL_LOCK args device None mms_ok);
    [by unfold in_ok|apply device_ok|exact I].
Defined.

Lemma ioctl_rejects_witness :
  ac_ioctl (root false) AC_IOCTL_LOCK args device None = (- EPERM, device, None, None).
Proof.
  apply (ioctl_rejects (root false) AC_IOCTL_LOCK args device None). reflexivity.
Defined.

Lemma scan_roundtrip_witness :
  exists v' pd' b,
    ac_ioctl (root true) AC_IOCTL_SCAN_BEGIN args device None =
      (0, v', pd', Some (RScan b)) /\ sb_rwx_count b = 1 /\ sb_exec_count b = 2 /\
    ac_ioctl (root true) AC_IOCTL_SCAN_GET args v' pd' =
      (0, v', pd', Some (RVma 1 (mk_vma_info 16384 20480 0 0 7 false []))).
Proof.
  destruct (ac_ioctl (root true) AC_IOCTL_SCAN_BEGIN args device None)
    as [[[ret v'] pd'] rep] eqn:E.
  assert (ret = 0) as -> by (vm_compute in E; congruence).
  assert (exists b, rep = Some (RScan b)) as [b ->]
    by (vm_compute in E; eexists; by simplify_eq).
  exists v', pd', b. split; [done|].
  destruct (scan_roundtrip (root true) args device None v' pd' b I eq_refl eq_refl E)
    as (t & Ht & _ & _ & Hr & Hx & _ & _ & Hget).
  assert (b = mk_scan_begin 5 0 1 5 2 1 2 1 false) as ->
    by (vm_compute in E; congruence).
  vm_compute in Ht. simplify_eq. split; [done|]. split; [done|].
  by rewrite (Hget (root true) 1 args eq_refl eq_refl eq_refl eq_refl ltac:(lia)).
Defined.

Lemma mods_roundtrip_witness :
  exists v' pd',
    ac_ioctl (root true) AC_IOCTL_MODS_BEGIN args device None =
      (0, v', pd', Some (RModCount 1)) /\
    ac_ioctl (root true) AC_IOCTL_MODS_GET args v' pd' = (- EINVAL, v', pd', None).
Proof.
  destruct (ac_ioctl (root true) AC_IOCTL_MODS_BEGIN args device None)
    as [[[ret v'] pd'] rep] eqn:E.
  assert (ret = 0) as -> by (vm_compute in E; congruence).
  assert (rep = Some (RModCount 1)) as -> by (vm_compute in E; congruence).
  exists v', pd'. split; [done|].
  destruct (mods_roundtrip (root true) args device None v' pd' 1 I eq_refl eq_refl E)
    as [_ Hget].
  by rewrite (Hget (root true) 1 args eq_refl eq_refl eq_refl eq_refl ltac:(lia)).
Defined.

Lemma get_events_exact_witness :
  let v := set_ring device (ac_emit ring_init 0 AC_EV_INFO 5 None (lit "x")) in
  let '(ret, v', _, rep) := do_get_events (root true) v None args in
  contents (v_ring v) = [build_event 0 AC_EV_INFO 5 None (lit "x")] /\
  contents (v_ring v') = [].
Proof.
  intros v. assert (dev_ok v) as Hv.
  { split; [apply settled_one_game|]. split; [apply emit_wf, ring_init_wf|].
    simpl. unfold AC_LOCK_MAX. lia. }
  pose proof (get_events_exact (root true) args v None Hv) as Hw.
  assert (forall el, u_events args = Some el -> length (el_events el) = AC_MAX_EVENTS)
    as Hu by (by intros el [= <-]).
  specialize (Hw Hu).
  destruct (do_get_events (root true) v None args) as [[[ret v'] pd'] rep] eqn:E.
  split; [by vm_compute|].
  destruct rep as [[]|]; try (destruct Hw; vm_compute in E; congruence).
  destruct Hw as (_ & Hc & Hn).
  assert (length (contents (v_ring v)) = 1%nat) as Hl by by vm_compute.
  apply (f_equal length) in Hc. rewrite length_app, length_take, Hl in Hc.
  rewrite Hl in Hn. apply nil_length_inv.
  assert (length (el_events el) = AC_MAX_EVENTS) as He
    by (vm_compute in E; simplify_eq; by vm_compute).
  unfold AC_MAX_EVENTS in *. lia.
Defined.
End IoctlDemo.
End Ioctl.
