(* ===== verification/Lifecycle.v ===== *)
(** Loading and unloading (src/anticheat_module.c, [ac_register_kprobes],
    [ac_unregister_kprobes], [ac_missed_check_worker], [ac_init], [ac_exit]):
    which resources are held when, what is reported of missing probes, and the
    polling of missed probe hits. *)

From S2P Require Import Prelude CText Abi Ring.
Import Ring.Ring.

#[local] Open Scope Z_scope.

Module Lifecycle.

(** ** The probe tables *)

(** Symbol and whether the defense is essential; [x32] is whether the kernel
    has CONFIG_X86_X32_ABI. *)
Definition ac_kprobes : list (list Z) :=
  [ lit "__x64_sys_ptrace"; lit "__ia32_compat_sys_ptrace";
    lit "__x64_compat_sys_ptrace"; lit "__x64_sys_process_vm_readv";
    lit "__ia32_sys_process_vm_readv"; lit "__x64_sys_process_vm_writev";
    lit "__ia32_sys_process_vm_writev" ].
Definition ac_kp_essential (x32 : bool) : list bool :=
  [ true; false; x32; true; false; true; false ].

(** Symbol and [maxactive]. *)
Definition ac_kretprobes : list (list Z * Z) :=
  [ (lit "kernel_clone", 128); (lit "__x64_sys_execve", 64);
    (lit "__x64_sys_execveat", 64); (lit "__ia32_compat_sys_execve", 64);
    (lit "__ia32_compat_sys_execveat", 64); (lit "__x64_compat_sys_execve", 64);
    (lit "__x64_compat_sys_execveat", 64) ].
Definition ac_kretp_essential (x32 : bool) : list bool :=
  [ true; true; true; false; false; x32; x32 ].

(** ** Resources *)

Inductive resource :=
  | RWorkqueue | RAddPool | RKillPool | RPoller | RMisc
  | RKprobe (i : nat) | RKretprobe (i : nat).

#[global] Instance resource_eq_dec : EqDecision resource.
Proof. solve_decision. Defined.

Inductive lc_op :=
  | Acquire (r : resource)
  | Release (r : resource)
  | Flush                    (** [flush_workqueue] *)
  | ClearProtected           (** [ac_clear_protected] *)
  | DropPins.                (** [ac_exec_pins_drop_all], see [Inherit] *)

(** ** Registration *)

Record probe_st := mk_probes {
  ac_kp_ok : list bool;
  ac_kprobes_registered : Z;
  ac_kretp_ok : list bool;
  ac_kretprobes_registered : Z;
  ac_degraded_names : list (list Z);
}.

Definition probes_init : probe_st :=
  mk_probes (replicate 7 false) 0 (replicate 7 false) 0 [].

(** One of the two registration loops: outcomes [rets], names and essential
    flags by index; the resources acquired and the essential ones missing. *)
Fixpoint register_loop (mk : nat -> resource) (i : nat)
    (probes : list (list Z * bool)) (rets : nat -> Z)
    : list bool * list lc_op * list (list Z) :=
  match probes with
  | [] => ([], [], [])
  | (name, essential) :: probes' =>
      let '(oks, ops, names) := register_loop mk (S i) probes' rets in
      if rets i =? 0 then (true :: oks, Acquire (mk i) :: ops, names)
      else (false :: oks, ops, if essential then name :: names else names)
  end.

Definition ac_register_kprobes (x32 : bool) (kp_ret krp_ret : nat -> Z)
    (ps : probe_st) : probe_st * list lc_op :=
  let '(kok, kops, knames) :=
    register_loop RKprobe 0 (zip ac_kprobes (ac_kp_essential x32)) kp_ret in
  let '(rok, rops, rnames) :=
    register_loop RKretprobe 0
      (zip (fst <$> ac_kretprobes) (ac_kretp_essential x32)) krp_ret in
  (mk_probes kok
     (ac_kprobes_registered ps + Z.of_nat (count_if id kok)) rok
     (ac_kretprobes_registered ps + Z.of_nat (count_if id rok))
     (knames ++ rnames),
   kops ++ rops).

(** [for (i...) if (ok[i]) unregister(...)] *)
Fixpoint unregister_loop (mk : nat -> resource) (i : nat) (oks : list bool)
    : list lc_op :=
  match oks with
  | [] => []
  | ok :: oks' =>
      (if ok then [Release (mk i)] else []) ++ unregister_loop mk (S i) oks'
  end.

Definition ac_unregister_kprobes (ps : probe_st) : probe_st * list lc_op :=
  (mk_probes ((fun _ => false) <$> ac_kp_ok ps) 0
     ((fun _ => false) <$> ac_kretp_ok ps) 0 (ac_degraded_names ps),
   unregister_loop RKprobe 0 (ac_kp_ok ps) ++
   unregister_loop RKretprobe 0 (ac_kretp_ok ps) ++ [DropPins]).

(** ** Load and unload *)

(** What the kernel answers during the load. *)
Record load_env := mk_load {
  wq_ok : bool;
  add_pool_ok : bool;
  kill_pool_ok : bool;
  x32_abi : bool;
  kp_ret : nat -> Z;
  krp_ret : nat -> Z;
  misc_ret : Z;
  table_found : bool;
}.

Definition degraded_event (i n : nat) (name : list Z) : emission :=
  mk_emission AC_EV_INFO 0 (Some (lit "?"))
    (lit "module loaded DEGRADED (" ++ fmt_u (Z.of_nat (i + 1)) ++ lit "/" ++
     fmt_u (Z.of_nat n) ++ lit "): probe " ++ name ++
     lit " unavailable; corresponding defense inactive").

Definition no_table_event : emission :=
  mk_emission AC_EV_INFO 0 (Some (lit "?"))
    (lit "module loaded DEGRADED: syscall table not located; syscall integrity checks inactive").

Definition ac_init (e : load_env) : Z * probe_st * list lc_op * list emission :=
  if negb (wq_ok e) then (- ENOMEM, probes_init, [], []) else
  let ops0 := [Acquire RWorkqueue] in
  if negb (add_pool_ok e)
  then (- ENOMEM, probes_init, ops0 ++ [Release RWorkqueue], []) else
  let ops1 := ops0 ++ [Acquire RAddPool] in
  if negb (kill_pool_ok e)
  then (- ENOMEM, probes_init,
        ops1 ++ [Release RAddPool; Release RWorkqueue], []) else
  let '(ps, reg_ops) :=
    ac_register_kprobes (x32_abi e) (kp_ret e) (krp_ret e) probes_init in
  let ops2 := ops1 ++ [Acquire RKillPool] ++ reg_ops ++ [Acquire RPoller] in
  if negb (misc_ret e =? 0) then
    let '(ps', unreg_ops) := ac_unregister_kprobes ps in
    (misc_ret e, ps',
     ops2 ++ [Release RPoller] ++ unreg_ops ++
     [Flush; Release RKillPool; Release RAddPool; Release RWorkqueue], [])
  else
    let n := length (ac_degraded_names ps) in
    (0, ps, ops2 ++ [Acquire RMisc],
     imap (fun i name => degraded_event i n name) (ac_degraded_names ps) ++
     (if table_found e then [] else [no_table_event])).

Definition ac_exit (ps : probe_st) : list lc_op :=
  [Release RMisc; Release RPoller] ++ snd (ac_unregister_kprobes ps) ++
  [Flush; ClearProtected; Flush; Release RWorkqueue; Release RKillPool;
   Release RAddPool].

(** ** Polling of missed hits *)

(** One probe's turn: [missed] is the counter read, an [int]; the result is
    the new [ac_kretp_last_nmissed] and the number reported. *)
Definition missed_step (last missed : Z) : Z * option Z :=
  if missed =? last then (last, None) else
  let delta := u32 (missed - last) in
  if s32 delta <? 0 then (missed, None) else
  (missed, if delta =? 0 then None else Some delta).

Definition missed_event (name : list Z) (maxactive delta : Z) : emission :=
  mk_emission AC_EV_FORK_DROPPED (-1) (Some (lit "?"))
    (lit "kretprobe " ++ name ++ lit " missed " ++ fmt_u delta ++
     lit " invocation" ++ (if delta =? 1 then [] else lit "s") ++
     lit " (maxactive=" ++ fmt_d maxactive ++
     lit " exhausted) -- affected fork/exec was not registered").

(** The loop over the probes, as (name, maxactive), ok, last and counter. *)
Fixpoint missed_loop (probes : list (list Z * Z)) (oks : list bool)
    (lasts missed : list Z) : list Z * list emission :=
  match probes, oks, lasts, missed with
  | (name, maxactive) :: ps, ok :: oks', last :: lasts', m :: ms =>
      let '(rest, evs) := missed_loop ps oks' lasts' ms in
      if negb ok then (last :: rest, evs) else
      let '(last', rep) := missed_step last m in
      (last' :: rest,
       match rep with
       | Some d => missed_event name maxactive d :: evs
       | None => evs
       end)
  | _, _, _, _ => (lasts, [])
  end.

Definition ac_missed_check_worker (oks : list bool) (lasts missed : list Z)
    : list Z * list emission :=
  missed_loop ac_kretprobes oks lasts missed.

(** ** When an operation on the resources is safe *)

(** Resources whose handlers queue work. *)
Definition producer (r : resource) : bool :=
  match r with
  | RPoller | RMisc | RKprobe _ | RKretprobe _ => true
  | _ => false
  end.

(** [a] must not outlive [b]: the probes' handlers use the queue and the
    pools, the poller reads the return probes, the device reaches all. *)
Definition needs (a b : resource) : bool :=
  match a, b with
  | RKprobe _, (RWorkqueue | RKillPool) => true
  | RKretprobe _, (RWorkqueue | RAddPool) => true
  | RPoller, (RWorkqueue | RKretprobe _) => true
  | RMisc, (RWorkqueue | RAddPool | RKillPool | RPoller | RKprobe _ |
            RKretprobe _) => true
  | _, _ => false
  end.

(** What must be there before a resource is taken. *)
Definition requires (r : resource) : list resource :=
  match r with
  | RKprobe _ => [RWorkqueue; RKillPool]
  | RKretprobe _ => [RWorkqueue; RAddPool]
  | RPoller => [RWorkqueue]
  | RMisc => [RWorkqueue; RAddPool; RKillPool; RPoller]
  | _ => []
  end.

(** The handlers of the return probes use the table of exec pins. *)
Definition uses_pins (r : resource) : bool :=
  match r with RKretprobe _ => true | _ => false end.

(** [pending]: work may be queued. *)
Record lc_st := mk_lc { live : list resource; pending : bool }.

Definition lc_step (s : lc_st) (o : lc_op) : option lc_st :=
  match o with
  | Acquire r =>
      if bool_decide (r ∉ live s) &&
         forallb (fun b => bool_decide (b ∈ live s)) (requires r)
      then Some (mk_lc (r :: live s) (pending s || producer r)) else None
  | Release r =>
      if bool_decide (r ∈ live s) && forallb (fun a => negb (needs a r)) (live s) &&
         (producer r || negb (pending s))
      then Some (mk_lc (filter (.≠ r) (live s)) (pending s)) else None
  | Flush =>
      if bool_decide (RWorkqueue ∈ live s)
      then Some (mk_lc (live s) (existsb producer (live s))) else None
  | ClearProtected =>
      if bool_decide (RWorkqueue ∈ live s) && negb (existsb producer (live s))
      then Some (mk_lc (live s) true) else None
  | DropPins => if existsb uses_pins (live s) then None else Some s
  end.

Fixpoint lc_run (ops : list lc_op) (s : lc_st) : option lc_st :=
  match ops with
  | [] => Some s
  | o :: ops' => match lc_step s o with
                 | Some s' => lc_run ops' s'
                 | None => None
                 end
  end.

Lemma lc_run_app ops1 ops2 s :
  lc_run (ops1 ++ ops2) s = lc_run ops1 s ≫= lc_run ops2.
Proof.
  revert s. induction ops1 as [|o ops1 IH]; intros s; simpl; [done|].
  by destruct (lc_step s o).
Qed.

(** The probes registered, in order. *)
Fixpoint held (mk : nat -> resource) (i : nat) (oks : list bool)
    : list resource :=
  match oks with
  | [] => []
  | ok :: oks' => (if ok then [mk i] else []) ++ held mk (S i) oks'
  end.

Lemma unregister_held mk i oks :
  unregister_loop mk i oks = Release <$> held mk i oks.
Proof.
  revert i. induction oks as [|ok oks IH]; intros i; simpl; [done|].
  rewrite IH. by destruct ok.
Qed.

Lemma register_held mk i probes rets :
  let '(oks, ops, _) := register_loop mk i probes rets in
  ops = Acquire <$> held mk i oks.
Proof.
  revert i. induction probes as [|[name ess] probes IH]; intros i; simpl; [done|].
  specialize (IH (S i)). destruct (register_loop mk (S i) probes rets)
    as [[oks ops] names]. case_test; simpl; by subst.
Qed.

Lemma held_ge mk i oks r :
  r ∈ held mk i oks -> exists j, (i <= j)%nat /\ r = mk j.
Proof.
  revert i. induction oks as [|ok oks IH]; intros i; simpl; [by rewrite elem_of_nil|].
  rewrite elem_of_app. intros [Hr|Hr].
  - destruct ok; [|by apply elem_of_nil in Hr].
    apply list_elem_of_singleton in Hr. by exists i.
  - destruct (IH _ Hr) as (j & ? & ->). exists j. split; [lia|done].
Qed.

Lemma held_NoDup mk i oks :
  (forall x y, mk x = mk y -> x = y) -> NoDup (held mk i oks).
Proof.
  intros Hinj. revert i. induction oks as [|ok oks IH]; intros i; simpl;
    [constructor|].
  destruct ok; simpl; [|done]. apply NoDup_cons. split; [|done].
  intros (j & Hj & E%Hinj)%held_ge. lia.
Qed.

Lemma run_acquires rs s :
  NoDup rs -> (forall r, r ∈ rs -> r ∉ live s /\ producer r = true /\
    forall b, b ∈ requires r -> b ∈ live s) ->
  lc_run (Acquire <$> rs) s =
  Some (mk_lc (reverse rs ++ live s)
          (pending s || match rs with [] => false | _ => true end)).
Proof.
  intros Hn. revert s. induction Hn as [|r rs Hr Hn IH]; intros s Hs.
  - destruct s. simpl. by rewrite orb_false_r.
  - csimpl. destruct (Hs r) as (Hnl & Hp & Hq); [by left|].
    rewrite bool_decide_true by done. rewrite Hp.
    assert (forallb (fun b => bool_decide (b ∈ live s)) (requires r) = true) as ->.
    { apply forallb_forall. intros b Hb. apply bool_decide_true, Hq.
      by apply list_elem_of_In. }
    cbn [andb]. rewrite IH.
    + f_equal. f_equal; simpl; [by rewrite reverse_cons, <- app_assoc|].
      rewrite orb_true_r. by destruct (pending s).
    + intros r' Hr'. destruct (Hs r') as (Hnl' & Hp' & Hq'); [by right|]. simpl.
      split; [|split; [done|intros b Hb; right; by apply Hq']].
      intros [->|?]%elem_of_cons; done.
Qed.

Lemma run_releases rs s :
  NoDup rs -> (forall r, r ∈ rs -> r ∈ live s /\ producer r = true /\
    forall a, a ∈ live s -> needs a r = false) ->
  lc_run (Release <$> rs) s =
  Some (mk_lc (filter (fun x => x ∉ rs) (live s)) (pending s)).
Proof.
  intros Hn. revert s. induction Hn as [|r rs Hr Hn IH]; intros s Hs.
  - destruct s as [l p]. simpl. f_equal. f_equal. clear Hs.
    induction l as [|x l IHl]; [done|].
    rewrite filter_cons_True by (rewrite elem_of_nil; tauto). by f_equal.
  - csimpl. destruct (Hs r) as (Hl & Hp & Hq); [by left|].
    rewrite bool_decide_true by done. rewrite Hp.
    assert (forallb (fun a => negb (needs a r)) (live s) = true) as ->.
    { apply forallb_forall. intros a Ha. apply negb_true_iff, Hq.
      by apply list_elem_of_In. }
    cbn [andb orb]. rewrite IH.
    + f_equal. f_equal. simpl. rewrite list_filter_filter.
      apply list_filter_iff. intros x. rewrite not_elem_of_cons. tauto.
    + intros r' Hr'. destruct (Hs r') as (Hl' & Hp' & Hq'); [by right|]. simpl.
      split; [|split; [done|]].
      * apply list_elem_of_filter. split; [|done]. by intros ->.
      * intros a Ha. apply list_elem_of_filter in Ha as [_ Ha]. by apply Hq'.
Qed.

Definition is_probe (r : resource) : Prop :=
  match r with RKprobe _ | RKretprobe _ => True | _ => False end.

(** The queue and the pools, held whenever a probe is. *)
Definition base : list resource := [RKillPool; RAddPool; RWorkqueue].

Lemma filter_keep (P : resource -> Prop) `{!forall x, Decision (P x)}
    (l : list resource) :
  (forall x, x ∈ l -> P x) -> filter P l = l.
Proof.
  induction l as [|x l IH]; intros Hl; [done|].
  rewrite filter_cons_True by (apply Hl; by left). f_equal. apply IH.
  intros y Hy. apply Hl. by right.
Qed.

Lemma filter_drop_all (rs : list resource) :
  filter (fun x => x ∉ rs) (reverse rs) = [].
Proof.
  assert (forall l, (forall x, x ∈ l -> x ∈ rs) -> filter (fun x => x ∉ rs) l = [])
    as Hl.
  { induction l as [|x l IH]; intros Hl; [done|].
    rewrite filter_cons_False by (intros Hn; apply Hn, Hl; by left).
    apply IH. intros y Hy. apply Hl. by right. }
  apply Hl. intros x. by rewrite elem_of_reverse.
Qed.

(** Releasing the resource taken last. *)
Lemma release_head r l :
  producer r = true -> needs r r = false ->
  (forall x, x ∈ l -> x <> r /\ needs x r = false) ->
  lc_step (mk_lc (r :: l) true) (Release r) = Some (mk_lc l true).
Proof.
  intros Hp Hn Hl. cbn [lc_step live pending].
  rewrite bool_decide_true by (by left). rewrite Hp. cbn [andb orb].
  assert (forallb (fun a => negb (needs a r)) (r :: l) = true) as ->.
  { apply forallb_forall. intros x Hx%list_elem_of_In. apply negb_true_iff.
    apply elem_of_cons in Hx as [->|Hx]; [done|]. by apply Hl. }
  cbn [andb]. rewrite filter_cons_False by tauto.
  rewrite filter_keep; [done|]. intros x Hx. by apply Hl.
Qed.

Section probes.
Context (hs : list resource) (Hnd : NoDup hs)
  (Hprobe : forall r, r ∈ hs -> is_probe r).

Lemma base_no_probe r : r ∈ base -> r ∉ hs.
Proof.
  unfold base. rewrite !elem_of_cons, elem_of_nil.
  intros Hr Hin%Hprobe. naive_solver.
Qed.

Lemma run_register :
  exists p, lc_run (Acquire <$> hs) (mk_lc base false) =
            Some (mk_lc (reverse hs ++ base) p).
Proof.
  eexists. apply run_acquires; [done|]. intros r Hr. simpl.
  split; [intros Hb; by apply (base_no_probe r)|].
  specialize (Hprobe r Hr). split; [by destruct r|].
  intros b. destruct r; try done; simpl; unfold base;
    rewrite !elem_of_cons, elem_of_nil; tauto.
Qed.

(** Disabling the poller, unregistering the probes and dropping the pins. *)
Lemma run_unregister :
  lc_run (Release RPoller :: (Release <$> hs) ++ [DropPins])
    (mk_lc (RPoller :: reverse hs ++ base) true) = Some (mk_lc base true).
Proof.
  rewrite app_comm_cons, lc_run_app.
  assert (forall r, r ∈ reverse hs ++ base ->
    r <> RPoller /\ r <> RMisc) as Hne.
  { intros r. rewrite elem_of_app, elem_of_reverse. intros [Hr%Hprobe|Hr].
    - by destruct r.
    - unfold base in Hr. rewrite !elem_of_cons, elem_of_nil in Hr. naive_solver. }
  cbn [lc_run]. rewrite release_head; [|done..|].
  2: { intros r Hr. apply Hne in Hr as [? ?]. split; [done|]. by destruct r. }
  rewrite run_releases; [|done|].
  - cbn [live pending]. rewrite filter_app, filter_drop_all. cbn [app].
    rewrite filter_keep; [done|]. apply base_no_probe.
  - intros r Hr. cbn [live]. rewrite elem_of_app, elem_of_reverse.
    split; [by left|]. pose proof (Hprobe r Hr) as Hp. split; [by destruct r|].
    intros x. rewrite elem_of_app, elem_of_reverse. intros [Hx%Hprobe|Hx].
    + by destruct x, r.
    + unfold base in Hx. rewrite !elem_of_cons, elem_of_nil in Hx.
      by destruct Hx as [->|[->|[->|[]]]], r.
Qed.
End probes.

(** The probes a load registers. *)
Definition registered (ps : probe_st) : list resource :=
  held RKprobe 0 (ac_kp_ok ps) ++ held RKretprobe 0 (ac_kretp_ok ps).

Lemma registered_probes ps :
  NoDup (registered ps) /\ forall r, r ∈ registered ps -> is_probe r.
Proof.
  unfold registered. split.
  - apply NoDup_app. split; [apply held_NoDup; congruence|].
    split; [|apply held_NoDup; congruence].
    intros r (i & _ & ->)%held_ge (j & _ & E)%held_ge. done.
  - intros r. rewrite elem_of_app. intros [(i & _ & ->)%held_ge|(i & _ & ->)%held_ge];
      done.
Qed.

Lemma register_ops x32 kr rr :
  let '(ps, ops) := ac_register_kprobes x32 kr rr probes_init in
  ops = Acquire <$> registered ps.
Proof.
  unfold ac_register_kprobes.
  pose proof (register_held RKprobe 0 (zip ac_kprobes (ac_kp_essential x32)) kr) as Hk.
  destruct (register_loop _ _ _ _) as [[kok kops] kn].
  pose proof (register_held RKretprobe 0
    (zip (fst <$> ac_kretprobes) (ac_kretp_essential x32)) rr) as Hr.
  destruct (register_loop _ _ _ _) as [[rok rops] rn]. subst.
  unfold registered. simpl. by rewrite fmap_app.
Qed.

Lemma unregister_ops ps :
  snd (ac_unregister_kprobes ps) = (Release <$> registered ps) ++ [DropPins].
Proof.
  unfold ac_unregister_kprobes, registered. simpl.
  by rewrite !unregister_held, fmap_app, app_assoc.
Qed.

(** The state a load reaches with the poller running. *)
Lemma run_load ps :
  lc_run ((([Acquire RWorkqueue] ++ [Acquire RAddPool]) ++ [Acquire RKillPool] ++
           (Acquire <$> registered ps) ++ [Acquire RPoller])) (mk_lc [] false) =
  Some (mk_lc (RPoller :: reverse (registered ps) ++ base) true).
Proof.
  destruct (registered_probes ps) as [Hn Hp].
  destruct (run_register _ Hn Hp) as [p Hr].
  transitivity (lc_run ((Acquire <$> registered ps) ++ [Acquire RPoller])
    (mk_lc base false)); [reflexivity|].
  rewrite lc_run_app, Hr. cbn [mbind option_bind lc_run lc_step live pending].
  rewrite bool_decide_true.
  - cbn [requires forallb]. rewrite bool_decide_true; [by rewrite orb_true_r|].
    apply elem_of_app. right. unfold base. rewrite !elem_of_cons. tauto.
  - rewrite elem_of_app, elem_of_reverse. intros [Hx%Hp|Hx]; [done|].
    unfold base in Hx. by rewrite !elem_of_cons, elem_of_nil in Hx; naive_solver.
Qed.

(** C26: Loading and unloading keep the resources in order, whatever the
    kernel answers: a failed load releases everything it took, an unload after
    a successful load releases everything, each exactly once; no resource is
    taken before, or released while, another one relies on it (the probes'
    handlers use the queue and the pools, the poller reads the return probes,
    the device reaches all of them), the pins of execs under way are dropped
    only when no return probe is left, and the queue and the pools go only when
    no work can be queued any more. *)
Theorem load_unload_balanced e :
  let '(ret, ps, ops, _) := ac_init e in
  exists s, lc_run ops (mk_lc [] false) = Some s /\
  (ret <> 0 -> live s = []) /\
  (ret = 0 -> exists s', lc_run (ac_exit ps) s = Some s' /\ live s' = []).
Proof.
  unfold ac_init. destruct (wq_ok e); cbn [negb]; [|by exists (mk_lc [] false)].
  destruct (add_pool_ok e); cbn [negb]; [|by exists (mk_lc [] false)].
  destruct (kill_pool_ok e); cbn [negb]; [|by exists (mk_lc [] false)].
  pose proof (register_ops (x32_abi e) (kp_ret e) (krp_ret e)) as Hreg.
  destruct (ac_register_kprobes _ _ _ _) as [ps ops]. subst ops.
  destruct (registered_probes ps) as [Hn Hp].
  pose proof (run_unregister _ Hn Hp) as Hu. pose proof (run_load ps) as Hl.
  destruct (Z.eqb_spec (misc_ret e) 0) as [Hm|Hm]; cbn [negb].
  - exists (mk_lc (RMisc :: RPoller :: reverse (registered ps) ++ base) true).
    split; [|split; [done|intros _]].
    + rewrite lc_run_app, Hl. cbn [mbind option_bind lc_run lc_step live pending].
      assert (forall x, x ∈ base -> x ∈ RPoller :: reverse (registered ps) ++ base)
        as Hb by (intros x Hx; right; apply elem_of_app; by right).
      rewrite bool_decide_true.
      * cbn [requires forallb].
        rewrite !bool_decide_true; [done|by left|apply Hb; unfold base..];
          rewrite !elem_of_cons; tauto.
      * rewrite elem_of_cons, elem_of_app, elem_of_reverse.
        intros [?|[Hx%Hp|Hx]]; [done..|].
        unfold base in Hx. rewrite !elem_of_cons, elem_of_nil in Hx. naive_solver.
    + unfold ac_exit. rewrite unregister_ops.
      change ([Release RMisc; Release RPoller] ++ ((Release <$> registered ps) ++ [DropPins]) ++ ?x)
        with ([Release RMisc] ++
              (Release RPoller :: (Release <$> registered ps) ++ [DropPins]) ++ x).
      rewrite lc_run_app. cbn [lc_run]. rewrite release_head; [|done..|].
      2: { intros x Hx. apply elem_of_cons in Hx as [->|Hx]; [done|].
           apply elem_of_app in Hx as [Hx%elem_of_reverse%Hp|Hx]; [by destruct x|].
           unfold base in Hx. rewrite !elem_of_cons, elem_of_nil in Hx. naive_solver. }
      exists (mk_lc [] false). split; [|done]. cbn [mbind option_bind].
      rewrite lc_run_app, Hu. reflexivity.
  - assert (snd (ac_unregister_kprobes ps) = (Release <$> registered ps) ++ [DropPins]) as Hur
      by apply unregister_ops.
    destruct (ac_unregister_kprobes ps) as [ps' uops]. simpl in Hur. subst uops.
    exists (mk_lc [] false). split; [|done].
    rewrite lc_run_app, Hl. cbn [mbind option_bind app].
    rewrite (app_comm_cons (_ ++ [DropPins])), lc_run_app, Hu. reflexivity.
Qed.

(** ** What is reported of missing probes *)

Fixpoint missing (i : nat) (probes : list (list Z * bool)) (rets : nat -> Z)
    : list (list Z) :=
  match probes with
  | [] => []
  | (name, essential) :: probes' =>
      (if essential && negb (rets i =? 0) then [name] else []) ++
      missing (S i) probes' rets
  end.

Lemma register_missing mk i probes rets :
  let '(_, _, names) := register_loop mk i probes rets in
  names = missing i probes rets.
Proof.
  revert i. induction probes as [|[name ess] probes IH]; intros i; simpl; [done|].
  specialize (IH (S i)). destruct (register_loop mk (S i) probes rets)
    as [[oks ops] names]. subst. case_test; simpl; [by rewrite andb_false_r|].
  by destruct ess.
Qed.

Lemma missing_sub i probes rets name :
  name ∈ missing i probes rets -> name ∈ probes.*1.
Proof.
  revert i. induction probes as [|[n ess] probes IH]; intros i; simpl;
    [by rewrite elem_of_nil|]. csimpl.
  rewrite elem_of_app, elem_of_cons. intros [Hn|Hn]; [left|right; by eapply IH].
  destruct (ess && _); [by apply list_elem_of_singleton in Hn|].
  by apply elem_of_nil in Hn.
Qed.

Lemma length_missing i probes rets :
  (length (missing i probes rets) <= length probes)%nat.
Proof.
  revert i. induction probes as [|[n ess] probes IH]; intros i; simpl; [lia|].
  rewrite length_app. specialize (IH (S i)). destruct (ess && _); simpl; lia.
Qed.

(** The essential probes the kernel refused. *)
Definition missing_all (e : load_env) : list (list Z) :=
  missing 0 (zip ac_kprobes (ac_kp_essential (x32_abi e))) (kp_ret e) ++
  missing 0 (zip (fst <$> ac_kretprobes) (ac_kretp_essential (x32_abi e)))
    (krp_ret e).

Lemma missing_all_bounds e :
  (length (missing_all e) <= 14)%nat /\
  forall name, name ∈ missing_all e -> (length name <= 28)%nat.
Proof.
  unfold missing_all. split.
  - rewrite length_app.
    assert (forall i (probes : list (list Z * bool)) rets, length probes = 7%nat ->
      (length (missing i probes rets) <= 7)%nat) as Hm.
    { intros i probes rets <-. apply length_missing. }
    apply (Nat.add_le_mono _ 7 _ 7); by apply Hm.
  - assert (Forall (fun name => (length name <= 28)%nat)
      (ac_kprobes ++ (fst <$> ac_kretprobes))) as Hall
      by (apply (bool_decide_unpack _); by vm_compute).
    rewrite Forall_forall in Hall. intros name. rewrite elem_of_app.
    intros [Hn|Hn]; apply missing_sub in Hn; apply Hall, elem_of_app; [left|right];
      destruct (x32_abi e); exact Hn.
Qed.

Lemma degraded_event_fits i n name :
  (i < n <= 14)%nat -> (length name <= 28)%nat ->
  (length (em_text (degraded_event i n name)) < AC_EVENT_DATA)%nat.
Proof.
  intros Hi Hn.
  assert (forall k, (k <= 14)%nat -> (length (fmt_u (Z.of_nat k)) <= 2)%nat) as Hf.
  { intros k Hk. do 15 (destruct k as [|k]; [vm_compute; lia|]). lia. }
  pose proof (Hf (i + 1)%nat ltac:(lia)). pose proof (Hf n ltac:(lia)).
  cbn [degraded_event em_text]. rewrite !length_app.
  change (length (lit "module loaded DEGRADED (")) with 24%nat.
  change (length (lit "/")) with 1%nat.
  change (length (lit "): probe ")) with 9%nat.
  change (length (lit " unavailable; corresponding defense inactive")) with 44%nat.
  unfold AC_EVENT_DATA. lia.
Qed.

(** A load that lacks defenses says so: a successful load emits exactly
    one event per essential probe the kernel refused, numbered and in table
    order, and one more when the system call table was not found; nothing is
    emitted when all is in place, and no event is cut short by the event
    size. *)
Theorem degraded_load_reported e :
  let '(ret, _, _, evs) := ac_init e in
  (ret = 0 ->
   evs = imap (fun i name => degraded_event i (length (missing_all e)) name)
           (missing_all e) ++ (if table_found e then [] else [no_table_event])) /\
  Forall (fun ev => (length (em_text ev) < AC_EVENT_DATA)%nat) evs.
Proof.
  unfold ac_init. destruct (wq_ok e); [|done].
  destruct (add_pool_ok e); [|done]. destruct (kill_pool_ok e); [|done]. cbn [negb].
  unfold ac_register_kprobes.
  pose proof (register_missing RKprobe 0
    (zip ac_kprobes (ac_kp_essential (x32_abi e))) (kp_ret e)) as Hk.
  destruct (register_loop _ _ _ _) as [[kok kops] kn].
  pose proof (register_missing RKretprobe 0
    (zip (fst <$> ac_kretprobes) (ac_kretp_essential (x32_abi e))) (krp_ret e)) as Hr.
  destruct (register_loop _ _ _ _) as [[rok rops] rn]. cbn [ac_degraded_names].
  destruct (Z.eqb_spec (misc_ret e) 0) as [_|Hm]; cbn [negb];
    [|split; [tauto|constructor]].
  subst kn rn. fold (missing_all e). split; [done|].
  destruct (missing_all_bounds e) as [Hlen Hname].
  apply Forall_app. split.
  - apply Forall_lookup. intros i ev Hev. apply list_lookup_imap_Some in Hev
      as (name & Hi & ->). apply degraded_event_fits.
    + apply lookup_lt_Some in Hi. lia.
    + apply Hname. by eapply list_elem_of_lookup_2.
  - destruct (table_found e); [done|]. repeat constructor; by vm_compute; lia.
Qed.

(** ** What is reported of missed hits *)

(** A counter that moved forward by [d] is reported as [d], across the wrap
    of the counter too. *)
Lemma missed_step_forward last d :
  -2147483648 <= last < 2147483648 -> 0 <= d < 2147483648 ->
  missed_step last (s32 (last + d)) =
  (s32 (last + d), if d =? 0 then None else Some d).
Proof.
  intros Hl Hd. unfold missed_step.
  assert (u32 (s32 (last + d) - last) = d) as Hu.
  { unfold s32. case_test; word_lia. }
  destruct (Z.eqb_spec (s32 (last + d)) last) as [E|E].
  - rewrite E in Hu |- *. rewrite Z.sub_diag in Hu. change (u32 0) with 0 in Hu.
    by subst.
  - rewrite Hu. assert (s32 d = d) as ->.
    { unfold s32. rewrite u32_id by lia. case_test; lia. }
    destruct (Z.ltb_spec d 0); [lia|done].
Qed.

(** One poll over the probes, [ds] being the hits missed since the last. *)
Fixpoint expected (probes : list (list Z * Z)) (oks : list bool)
    (ds : list Z) : list emission :=
  match probes, oks, ds with
  | (name, maxactive) :: ps, ok :: oks', d :: ds' =>
      (if ok && negb (d =? 0) then [missed_event name maxactive d] else []) ++
      expected ps oks' ds'
  | _, _, _ => []
  end.

Lemma missed_loop_exact probes oks lasts ds :
  length oks = length probes -> length lasts = length probes ->
  length ds = length probes ->
  Forall (fun l => -2147483648 <= l < 2147483648) lasts ->
  Forall (fun d => 0 <= d < 2147483648) ds ->
  missed_loop probes oks lasts (zip_with (fun l d => s32 (l + d)) lasts ds) =
  (zip_with (fun '(l, d) (ok : bool) => if ok then s32 (l + d) else l)
     (zip lasts ds) oks, expected probes oks ds).
Proof.
  revert oks lasts ds. induction probes as [|[name mx] ps IH];
    intros [|ok oks] [|l lasts] [|d ds] Ho Hl Hd Fl Fd; simplify_eq/=; [done|].
  apply Forall_cons in Fl as [Hl0 Fl]. apply Forall_cons in Fd as [Hd0 Fd].
  rewrite IH by done. destruct ok; cbn [negb andb]; [|done].
  rewrite missed_step_forward by done. by destruct (d =? 0).
Qed.

(** Missed probe hits are reported exactly: a poll emits one event for
    each registered return probe whose miss counter moved, with the number of
    hits missed since the last poll even when the 32-bit counter wrapped, none
    for the others, and the next poll starts from the counters just read.  A
    counter that moved backwards was reset and is taken over silently. *)
Theorem missed_hits_exact oks lasts ds :
  length oks = 7%nat -> length lasts = 7%nat -> length ds = 7%nat ->
  Forall (fun l => -2147483648 <= l < 2147483648) lasts ->
  Forall (fun d => 0 <= d < 2147483648) ds ->
  ac_missed_check_worker oks lasts (zip_with (fun l d => s32 (l + d)) lasts ds) =
    (zip_with (fun '(l, d) (ok : bool) => if ok then s32 (l + d) else l)
       (zip lasts ds) oks, expected ac_kretprobes oks ds) /\
  (forall last missed, -2147483648 <= missed -> missed < last < 2147483648 ->
     last - missed < 2147483648 -> missed_step last missed = (missed, None)).
Proof.
  intros Ho Hl Hd Fl Fd. split; [by apply missed_loop_exact|].
  intros last missed Hm Hlt Hdiff. unfold missed_step.
  destruct (Z.eqb_spec missed last); [lia|].
  assert (s32 (u32 (missed - last)) < 0) as Hneg
    by (unfold s32; case_test; word_lia).
  destruct (Z.ltb_spec (s32 (u32 (missed - last))) 0); [done|lia].
Qed.

Lemma missed_hits_exact_witness :
  ac_missed_check_worker (replicate 7 true) [0; 2147483647; 0; 0; 0; 0; 0]
    [0; -2147483646; 0; 0; 0; 0; 0] =
  ([0; -2147483646; 0; 0; 0; 0; 0],
   [missed_event (lit "__x64_sys_execve") 64 3]).
Proof.
  refine (proj1 (missed_hits_exact (replicate 7 true) [0; 2147483647; 0; 0; 0; 0; 0]
    [0; 3; 0; 0; 0; 0; 0] eq_refl eq_refl eq_refl _ _)); repeat constructor; lia.
Defined.
End Lifecycle.
