(* ===== verification/Baseline.v ===== *)
(** The integrity baselines of the daemon (src/anticheat_daemon.c): hashing a
    range of another process's memory, and the per-file record store with its
    locked read-modify-write. *)

From stdpp Require Export gmap.
From S2P Require Import Prelude CText CScan Abi Sha256 DLog.
Import DLog.DLog Sha256.Sha.

#[local] Open Scope Z_scope.

Module Baseline.

Definition AC_HASH_CAP : Z := 16 * 1024 * 1024.
Definition AC_READ_CHUNK : Z := 64 * 1024.
Definition PATH_MAX : nat := 4096.
Definition AC_BASELINE_MAX_RECORDS : nat := 256.
Definition AC_BASELINE_SAVE_FULL : Z := -2.
Definition ELOOP : Z := 40.
Definition ENAMETOOLONG : Z := 36.

(** ** Hashing another process's memory *)

Section hashing.
(** [pread] on /proc/<pid>/mem, retried while interrupted: [None] on an error,
    otherwise the bytes read, none at the end of file. *)
Context (pread : Z -> Z -> option (list Z)).

Fixpoint hash_loop (fuel : nat) (start size done : Z) (c : ac_sha256_ctx)
    : option (ac_sha256_ctx * Z) :=
  match fuel with
  | O => Some (c, done)
  | S f =>
      if size <=? done then Some (c, done)
      else
        let want := Z.min (size - done) AC_READ_CHUNK in
        match pread (s64 (start + done)) want with
        | None => None
        | Some [] => Some (c, done)
        | Some bs => hash_loop f start size (done + Z.of_nat (length bs))
                       (ac_sha256_update c bs)
        end
  end.

(** [Some hex] is a return of 0 with the digest in [out_hex].  Every turn of
    the loop reads at least one byte, so [size] turns are enough. *)
Definition hash_proc_mem (start size : Z) : option (list Z) :=
  match hash_loop (Z.to_nat size) start size 0 (ac_sha256_init fresh_ctx) with
  | None => None
  | Some (c, done) =>
      if done <? size then None
      else Some (ac_sha256_hex_digest (ac_sha256_final c))
  end.
End hashing.

(** What the hash relies on: a read returns the bytes of the memory, at most
    as many as asked for; it fails, or returns nothing, only when some byte of
    the range cannot be read. *)
Record mem_laws (pread : Z -> Z -> option (list Z)) (mem : Z -> option Z)
    : Prop := {
  pread_bytes off want bs : 0 < want -> pread off want = Some bs ->
    Z.of_nat (length bs) <= want /\
    forall i : nat, (i < length bs)%nat -> mem (off + Z.of_nat i) = bs !! i;
  pread_stuck off want : 0 < want ->
    pread off want = None \/ pread off want = Some [] ->
    exists i, 0 <= i < want /\ mem (off + i) = None;
}.

(** Reference: the bytes of a range, when all can be read. *)
Fixpoint mem_range (mem : Z -> option Z) (start : Z) (n : nat)
    : option (list Z) :=
  match n with
  | O => Some []
  | S n' =>
      match mem start, mem_range mem (start + 1) n' with
      | Some b, Some bs => Some (b :: bs)
      | _, _ => None
      end
  end.

(** ** The record store *)

Record ac_baseline_rec := mk_rec {
  r_inode : Z;
  r_offset : Z;
  r_size : Z;
  r_hex : list Z;
}.

#[export] Instance rec_eq_dec : EqDecision ac_baseline_rec.
Proof. solve_decision. Defined.

(** The files, by name. *)
Notation files := (gmap (list Z) (list Z)).

Definition baseline_path_for (dir path : list Z) : list Z :=
  strscpy PATH_MAX (dir ++ lit "/" ++ ac_sha256_hex path ++ lit ".txt").

(** [sscanf(line, "%llx %llx %llx %64s", ...) == 4] *)
Definition parse_rec (line : list Z) : option ac_baseline_rec :=
  match scan_x line with
  | None => None
  | Some (inode, l1) =>
      match scan_x l1 with
      | None => None
      | Some (offset, l2) =>
          match scan_x l2 with
          | None => None
          | Some (size, l3) =>
              match scan_s 64 l3 with
              | None => None
              | Some (hex, _) => Some (mk_rec inode offset size hex)
              end
          end
      end
  end.

(** [sscanf(line, "%llx %llx %64s", ...) == 3] *)
Definition parse_legacy (line : list Z) : bool :=
  match scan_x line with
  | None => false
  | Some (_, l1) =>
      match scan_x l1 with
      | None => false
      | Some (_, l2) =>
          match scan_s 64 l2 with None => false | Some _ => true end
      end
  end.

(** The reading loop; [room] is how many records the array still takes.
    [fgets] consumes at least one byte, so the file's length is enough
    fuel. *)
Fixpoint load_loop (fuel room : nat) (legacy : bool) (f : list Z)
    : list ac_baseline_rec * bool :=
  match fuel, room, f with
  | S fuel', S room', _ :: _ =>
      let '(line, rest) := fgets_n 511 f in
      match parse_rec (cstr line) with
      | Some r =>
          let '(rs, lg) := load_loop fuel' room' legacy rest in (r :: rs, lg)
      | None => load_loop fuel' room (legacy || parse_legacy (cstr line)) rest
      end
  | _, _, _ => ([], legacy)
  end.

(** [fopen_ok]: whether [fopen] of a file that is there works.  A failure reads
    as a missing file. *)
Definition baseline_load_records (fopen_ok : bool) (fs : files) (blpath : list Z)
    : list ac_baseline_rec * bool :=
  match fs !! blpath with
  | None => ([], false)
  | Some f =>
      if fopen_ok then load_loop (length f) AC_BASELINE_MAX_RECORDS false f
      else ([], false)
  end.

(** [fprintf(f, "%llx %llx %llx %s\n", ...)] *)
Definition print_rec (r : ac_baseline_rec) : list Z :=
  concat [fmt_x (r_inode r); lit " "; fmt_x (r_offset r); lit " ";
    fmt_x (r_size r); lit " "; r_hex r; [10]].

Definition same_key (inode offset size : Z) (r : ac_baseline_rec) : bool :=
  (r_inode r =? inode) && (r_offset r =? offset) && (r_size r =? size).

(** What the calls of [baseline_save_record] return: [None] for success,
    otherwise the [errno]. *)
Record save_env := mk_save_env {
  se_symlink : bool;               (** [lstat] finds a symbolic link *)
  se_open : option Z;              (** [open] of the lock file *)
  se_flock : option Z;
  se_fopen : bool;                 (** [fopen] of the records works *)
  se_mkstemp : option Z;
  se_fdopen : option Z;
  se_fflush : option Z;
  se_fsync : option Z;
  se_fclose : option Z;
  se_rename : option Z;
}.

(** The descriptors, the lock and the temporary file. *)
Inductive save_op :=
  | OpenLock | LockEx | Unlock | CloseLock
  | MakeTmp | CloseTmp | UnlinkTmp | RenameTmp.

(** Return value, [errno] when it is -1, the files, and the operations. *)
Definition save_res : Type := Z * option Z * files * list save_op.

Definition release : list save_op := [Unlock; CloseLock].

(** From the flushing of the temporary file on. *)
Definition save_finish (e : save_env) (fs : files) (blpath content : list Z)
    (ops : list save_op) : save_res :=
  match se_fflush e with
  | Some err => (-1, Some err, fs, ops ++ UnlinkTmp :: release)
  | None =>
      match se_fsync e with
      | Some err => (-1, Some err, fs, ops ++ UnlinkTmp :: release)
      | None =>
          match se_fclose e with
          | Some err => (-1, Some err, fs, ops ++ CloseTmp :: UnlinkTmp :: release)
          | None =>
              match se_rename e with
              | Some err =>
                  (-1, Some err, fs, ops ++ CloseTmp :: UnlinkTmp :: release)
              | None =>
                  (0, None, <[blpath := content]> fs,
                   ops ++ CloseTmp :: RenameTmp :: release)
              end
          end
      end
  end.

(** The loaded records of other segments. *)
Definition kept_recs (fopen_ok : bool) (fs : files) (blpath : list Z)
    (inode offset size : Z) : list ac_baseline_rec :=
  filter (fun r => same_key inode offset size r = false)
    (fst (baseline_load_records fopen_ok fs blpath)).

(** What is written to the temporary file. *)
Definition new_content (kept : list ac_baseline_rec) (r : ac_baseline_rec)
    : list Z :=
  concat (print_rec <$> kept) ++ print_rec r.

(** From the loading of the records on, with the lock held. *)
Definition save_locked (e : save_env) (fs : files) (blpath : list Z)
    (inode offset size : Z) (hex : list Z) (ops : list save_op) : save_res :=
  let kept := kept_recs (se_fopen e) fs blpath inode offset size in
  if (length kept =? AC_BASELINE_MAX_RECORDS)%nat then
    (AC_BASELINE_SAVE_FULL, None, fs, ops ++ release)
  else if (PATH_MAX <=? length blpath + 10)%nat then
    (-1, Some ENAMETOOLONG, fs, ops ++ release)
  else
    match se_mkstemp e with
    | Some err => (-1, Some err, fs, ops ++ release)
    | None =>
        match se_fdopen e with
        | Some err =>
            (-1, Some err, fs, ops ++ MakeTmp :: CloseTmp :: UnlinkTmp :: release)
        | None =>
            save_finish e fs blpath
              (new_content kept (mk_rec inode offset size hex))
              (ops ++ [MakeTmp])
        end
    end.

Definition baseline_save_record (e : save_env) (fs : files) (blpath : list Z)
    (inode offset size : Z) (hex : list Z) : save_res :=
  if se_symlink e then (-1, Some ELOOP, fs, [])
  else if (PATH_MAX <=? length blpath + 5)%nat then
    (-1, Some ENAMETOOLONG, fs, [])
  else
    match se_open e with
    | Some err => (-1, Some err, fs, [])
    | None =>
        match se_flock e with
        | Some err => (-1, Some err, fs, [OpenLock; CloseLock])
        | None => save_locked e fs blpath inode offset size hex
                    [OpenLock; LockEx]
        end
    end.

(** *** Concurrent savers

    The steps of several [baseline_save_record] calls on one file: a saver
    waits for the lock, loads, renames its new contents into place and
    releases, or gives up and releases.  With [may_fail] a load may fail to open
    the file. *)
Inductive saver_pc :=
  | Waiting | Locked | Loaded (kept : list ac_baseline_rec) | Renamed | Done
  | Failed.

Record saver := mk_saver { sv_rec : ac_baseline_rec; sv_pc : saver_pc }.

Record save_sys := mk_save_sys {
  ss_fs : files;
  ss_lock : option nat;
  ss_savers : list saver;
}.

Definition kept_for (fopen_ok : bool) (fs : files) (blpath : list Z)
    (r : ac_baseline_rec) : list ac_baseline_rec :=
  kept_recs fopen_ok fs blpath (r_inode r) (r_offset r) (r_size r).

Inductive save_step (may_fail : bool) (blpath : list Z) : save_sys -> save_sys -> Prop :=
  | step_acquire fs svs i r :
      svs !! i = Some (mk_saver r Waiting) ->
      save_step may_fail blpath (mk_save_sys fs None svs)
        (mk_save_sys fs (Some i) (<[i := mk_saver r Locked]> svs))
  | step_load fs lk svs i r fopen_ok :
      svs !! i = Some (mk_saver r Locked) -> (fopen_ok = false -> may_fail = true) ->
      save_step may_fail blpath (mk_save_sys fs lk svs)
        (mk_save_sys fs lk
           (<[i := mk_saver r (Loaded (kept_for fopen_ok fs blpath r))]> svs))
  | step_rename fs lk svs i r kept :
      svs !! i = Some (mk_saver r (Loaded kept)) ->
      length kept <> AC_BASELINE_MAX_RECORDS ->
      save_step may_fail blpath (mk_save_sys fs lk svs)
        (mk_save_sys (<[blpath := new_content kept r]> fs) lk
           (<[i := mk_saver r Renamed]> svs))
  | step_release fs lk svs i r :
      svs !! i = Some (mk_saver r Renamed) ->
      save_step may_fail blpath (mk_save_sys fs lk svs)
        (mk_save_sys fs None (<[i := mk_saver r Done]> svs))
  | step_fail fs lk svs i r pc :
      svs !! i = Some (mk_saver r pc) ->
      pc = Locked \/ (exists kept, pc = Loaded kept) ->
      save_step may_fail blpath (mk_save_sys fs lk svs)
        (mk_save_sys fs None (<[i := mk_saver r Failed]> svs)).

(** ** Hashing reads the whole range or fails *)

Lemma mem_range_app mem start a b :
  mem_range mem start (a + b) =
  match mem_range mem start a, mem_range mem (start + Z.of_nat a) b with
  | Some x, Some y => Some (x ++ y)
  | _, _ => None
  end.
Proof.
  revert start. induction a as [|a IH]; intros start; cbn [Nat.add mem_range].
  - rewrite Z.add_0_r. by destruct (mem_range mem start b).
  - rewrite IH. replace (start + 1 + Z.of_nat a) with (start + Z.of_nat (S a)) by lia.
    destruct (mem start), (mem_range mem (start + 1) a); try done.
    by destruct (mem_range mem (start + Z.of_nat (S a)) b).
Qed.

Lemma mem_range_hole mem start n i :
  (i < n)%nat -> mem (start + Z.of_nat i) = None -> mem_range mem start n = None.
Proof.
  intros Hi Hm. replace n with (i + S (n - i - 1))%nat by lia.
  rewrite mem_range_app. cbn [mem_range]. rewrite Hm.
  by destruct (mem_range mem start i).
Qed.

Lemma mem_range_read mem start (bs : list Z) :
  (forall i : nat, (i < length bs)%nat -> mem (start + Z.of_nat i) = bs !! i) ->
  mem_range mem start (length bs) = Some bs.
Proof.
  revert start. induction bs as [|b bs IH]; intros start Hall; [done|].
  cbn [length mem_range]. rewrite IH.
  - pose proof (Hall O ltac:(simpl; lia)) as H0. cbn [lookup list_lookup] in H0.
    rewrite Z.add_0_r in H0. by rewrite H0.
  - intros i Hi. replace (start + 1 + Z.of_nat i) with (start + Z.of_nat (S i)) by lia.
    rewrite (Hall (S i)) by (simpl; lia). done.
Qed.

Lemma s64_small x : 0 <= x < 9223372036854775808 -> s64 x = x.
Proof. intros Hx. unfold s64. rewrite u64_id by lia. case_test; lia. Qed.

Lemma hash_loop_spec pread mem fuel start size dn c :
  mem_laws pread mem -> wf_ctx c ->
  0 <= start -> 0 <= dn <= size -> start + size < 9223372036854775808 ->
  size - dn <= Z.of_nat fuel ->
  match mem_range mem (start + dn) (Z.to_nat (size - dn)) with
  | Some bs => hash_loop pread fuel start size dn c
               = Some (ac_sha256_update c bs, size)
  | None => match hash_loop pread fuel start size dn c with
            | None => True
            | Some (_, d) => d < size
            end
  end.
Proof.
  intros Hlaw. revert dn c.
  induction fuel as [|fuel IH]; intros dn c Hc Hs Hd Hfit Hf; cbn [hash_loop].
  { replace (size - dn) with 0 by lia. change (Z.to_nat 0) with O. cbn [mem_range].
    rewrite update_nil by done. repeat f_equal. lia. }
  destruct (Z.leb_spec size dn).
  { replace (size - dn) with 0 by lia. change (Z.to_nat 0) with O. cbn [mem_range].
    rewrite update_nil by done. repeat f_equal. lia. }
  rewrite s64_small by lia. set (want := Z.min (size - dn) AC_READ_CHUNK).
  assert (0 < want <= size - dn) as Hw by (unfold want, AC_READ_CHUNK; lia).
  assert (forall r, pread (start + dn) want = r -> r = None \/ r = Some [] ->
    mem_range mem (start + dn) (Z.to_nat (size - dn)) = None) as Hstuck.
  { intros r <- Hr. destruct (pread_stuck _ _ Hlaw (start + dn) want) as (i & Hi & Hm);
      [lia|done|]. eapply (mem_range_hole _ _ _ (Z.to_nat i)); [lia|].
    by rewrite Z2Nat.id by lia. }
  destruct (pread (start + dn) want) as [[|b bs]|] eqn:Hp.
  - rewrite (Hstuck _ eq_refl) by auto. lia.
  - destruct (pread_bytes _ _ Hlaw _ _ _ (proj1 Hw) Hp) as [Hlen Hbytes].
    set (rd := b :: bs) in *. apply mem_range_read in Hbytes.
    specialize (IH (dn + Z.of_nat (length rd)) (ac_sha256_update c rd)).
    replace (Z.to_nat (size - dn)) with
      (length rd + Z.to_nat (size - (dn + Z.of_nat (length rd))))%nat by lia.
    rewrite mem_range_app, Hbytes, <- Z.add_assoc.
    assert (0 < Z.of_nat (length rd)) by (unfold rd; simpl; lia).
    specialize (IH (update_wf _ _ Hc) Hs ltac:(lia) Hfit ltac:(lia)).
    destruct (mem_range mem _ (Z.to_nat (size - (dn + Z.of_nat (length rd)))))
      as [tl|]; [|done].
    rewrite IH. by rewrite update_app.
  - rewrite (Hstuck _ eq_refl) by auto. done.
Qed.

Lemma hash_proc_mem_spec pread mem start size :
  mem_laws pread mem -> 0 <= start -> 0 <= size ->
  start + size < 9223372036854775808 ->
  hash_proc_mem pread start size =
  ac_sha256_hex <$> mem_range mem start (Z.to_nat size).
Proof.
  intros Hlaw Hs Hz Hfit. unfold hash_proc_mem.
  pose proof (hash_loop_spec pread mem (Z.to_nat size) start size 0
    (ac_sha256_init fresh_ctx) Hlaw (init_wf fresh_ctx eq_refl)) as Hl.
  rewrite Z.add_0_r, Z.sub_0_r in Hl. specialize (Hl Hs ltac:(lia) Hfit ltac:(lia)).
  destruct (mem_range mem start (Z.to_nat size)) as [bs|].
  - rewrite Hl. case_test; [lia|]. reflexivity.
  - destruct (hash_loop _ _ _ _ _ _) as [[c d]|]; [|done]. case_test; [done|lia].
Qed.

(** ** Records survive printing and parsing *)

Definition wf_hex (h : list Z) : Prop :=
  h <> [] /\ (length h <= 64)%nat /\
  Forall (fun c => c <> 0 /\ isspace c = false) h.

Definition wf_rec (r : ac_baseline_rec) : Prop :=
  0 <= r_inode r < 2 ^ 64 /\ 0 <= r_offset r < 2 ^ 64 /\
  0 <= r_size r < 2 ^ 64 /\ wf_hex (r_hex r).

Lemma parse_print r rest :
  wf_rec r -> parse_rec (print_rec r ++ rest) = Some r.
Proof.
  intros (Hi & Ho & Hz & Hne & Hlen & Hch). destruct r as [i o z h].
  cbn [r_inode r_offset r_size r_hex] in *. unfold parse_rec, print_rec.
  cbn [concat r_inode r_offset r_size r_hex]. change (lit " ") with [32].
  rewrite app_nil_r, <- !app_assoc. cbn [app].
  rewrite scan_x_fmt by done. cbn [skip_space isspace].
  assert (forall s, scan_x (32 :: s) = scan_x s) as Hsp by done.
  rewrite Hsp, scan_x_fmt by done. rewrite Hsp, scan_x_fmt by done.
  change (32 :: h ++ 10 :: rest) with ([32] ++ h ++ 10 :: rest).
  assert (scan_s 64 ([32] ++ h ++ 10 :: rest) = Some (h, 10 :: rest)) as ->; [|done].
  change (scan_s 64 ([32] ++ h ++ 10 :: rest)) with (scan_s 64 (h ++ 10 :: rest)).
  apply scan_s_app; try done. eapply Forall_impl; [exact Hch|]. by intros c [_ ?].
Qed.

(** A printed record is one line that fits the reading buffer. *)
Lemma print_rec_line r :
  wf_rec r -> exists l, print_rec r = l ++ [10] /\ (length l < 511)%nat /\
    Forall (fun c => c <> 10 /\ c <> 0) l.
Proof.
  intros (Hi & Ho & Hz & _ & Hlen & Hch).
  exists (fmt_x (r_inode r) ++ [32] ++ fmt_x (r_offset r) ++ [32]
          ++ fmt_x (r_size r) ++ [32] ++ r_hex r).
  destruct (fmt_x_chars _ Hi) as [Ci Li], (fmt_x_chars _ Ho) as [Co Lo],
    (fmt_x_chars _ Hz) as [Cz Lz].
  split; [unfold print_rec; cbn [concat]; change (lit " ") with [32];
          by rewrite app_nil_r, <- !app_assoc|].
  split; [rewrite !length_app; simpl; lia|].
  assert (forall l, Forall (fun c => 32 < c < 127) l ->
    Forall (fun c => c <> 10 /\ c <> 0) l) as Hn.
  { intros l Hl. eapply Forall_impl; [exact Hl|]. intros c Hc. cbn beta in Hc. lia. }
  assert (Forall (fun c => c <> 10 /\ c <> 0) [32]) as Hsp by (repeat constructor; lia).
  apply Forall_app_2; [exact (Hn _ Ci)|]. apply Forall_app_2; [exact Hsp|].
  apply Forall_app_2; [exact (Hn _ Co)|]. apply Forall_app_2; [exact Hsp|].
  apply Forall_app_2; [exact (Hn _ Cz)|]. apply Forall_app_2; [exact Hsp|].
  eapply Forall_impl; [exact Hch|]. intros c [Hc0 Hcs]. split; [|done].
  intros ->. done.
Qed.

Lemma load_print recs fuel room lg :
  Forall wf_rec recs -> (length recs <= room)%nat ->
  (length (concat (print_rec <$> recs)) <= fuel)%nat ->
  load_loop fuel room lg (concat (print_rec <$> recs)) = (recs, lg).
Proof.
  intros Hall. revert fuel room. induction Hall as [|r recs Hr Hall IH];
    intros fuel room Hroom Hfuel.
  { by destruct fuel, room. }
  cbn [fmap list_fmap concat] in *.
  destruct (print_rec_line r Hr) as (l & Hpl & Hll & Hch).
  rewrite Hpl, <- app_assoc in *. cbn [app] in *.
  rewrite length_app in Hfuel. cbn [length] in Hfuel, Hroom.
  destruct fuel as [|fuel]; [lia|]. destruct room as [|room]; [lia|].
  assert (exists c t, l ++ 10 :: concat (print_rec <$> recs) = c :: t)
    as (c & t & Hct) by (destruct l; eauto).
  cbn [load_loop]. rewrite Hct, <- Hct.
  rewrite fgets_line by (done || (eapply Forall_impl; [exact Hch|]; by intros ? [? _])).
  rewrite <- Hpl, cstr_id.
  - rewrite <- (app_nil_r (print_rec r)), parse_print by done.
    by rewrite IH by lia.
  - rewrite Hpl. apply Forall_app_2; [|by repeat constructor].
    eapply Forall_impl; [exact Hch|]. by intros ? [_ ?].
Qed.

(** ** What is loaded is well formed *)

Lemma digits_suffix val b a s v rest :
  digits val b a s = (v, rest) -> rest `suffix_of` s.
Proof.
  revert a. induction s as [|c s IH]; intros a Hd; cbn [digits] in Hd.
  - by simplify_eq.
  - destruct (val c); [|by simplify_eq]. by apply suffix_cons_r, (IH _ Hd).
Qed.

Lemma skip_space_suffix s : skip_space s `suffix_of` s.
Proof.
  induction s as [|c s IH]; [done|]. cbn [skip_space].
  destruct (isspace c); [by apply suffix_cons_r|done].
Qed.

Lemma sign_suffix s b rest : sign s = (b, rest) -> rest `suffix_of` s.
Proof.
  assert (s `suffix_of` s) by done. unfold sign. intros Hs.
  repeat case_match; simplify_eq; try done; by apply suffix_cons_r.
Qed.

Lemma scan_x_body s v rest :
  scan_x s = Some (v, rest) ->
  exists t n, t `suffix_of` s /\ digits hexval 16 0 t = (n, rest) /\
    (v = ULLONG_MAX \/ v = u64 (- n) \/ v = n /\ n <= ULLONG_MAX).
Proof.
  unfold scan_x. intros Hs.
  destruct (sign (skip_space s)) as [neg s1] eqn:Hsg.
  assert (s1 `suffix_of` s) as Hs1.
  { etrans; [by eapply sign_suffix|apply skip_space_suffix]. }
  match type of Hs with match ?b with _ => _ end = _ => set (body := b) in Hs end.
  destruct body as [[n r]|] eqn:Hbody; [|done]. injection Hs as Hv ->.
  assert (exists t, t `suffix_of` s1 /\ digits hexval 16 0 t = (n, rest))
    as (t & Ht & Hd).
  { unfold body in Hbody.
    repeat case_match; simplify_eq;
      try (apply some_digits_eq in Hbody); eauto.
    all: eexists; split; [by do 2 apply suffix_cons_r|done]. }
  exists t, n. split; [by etrans|]. split; [done|].
  destruct (Z.ltb_spec ULLONG_MAX n); [by left|]. destruct neg; auto.
Qed.

Lemma scan_x_wf s v rest :
  scan_x s = Some (v, rest) -> 0 <= v < 2 ^ 64 /\ rest `suffix_of` s.
Proof.
  intros (t & n & Ht & Hd & Hv)%scan_x_body.
  pose proof (digits_nonneg _ 16 0 _ _ _ hexval_nonneg ltac:(lia) (Z.le_refl 0) Hd) as Hn.
  split; [|by etrans; [eapply digits_suffix|]].
  unfold ULLONG_MAX in Hv. pose proof (u64_range (- n)).
  change (2 ^ 64) with 18446744073709551616. lia.
Qed.

Lemma word_of_spec w s a rest :
  word_of w s = (a, rest) ->
  (length a <= w)%nat /\ s = a ++ rest /\ Forall (fun c => isspace c = false) a.
Proof.
  revert s a. induction w as [|w IH]; intros [|c s] a Hw; cbn [word_of] in Hw;
    simplify_eq; try (split_and!; [simpl; lia|done|done]).
  destruct (isspace c) eqn:Hc; simplify_eq; [split_and!; [simpl; lia|done|done]|].
  destruct (word_of w s) as [a' r'] eqn:Hr. simplify_eq.
  destruct (IH _ _ Hr) as (Hl & -> & Hall). split_and!; [simpl; lia|done|].
  by constructor.
Qed.

Lemma cstr_nonzero s : Forall (fun c => c <> 0) (cstr s).
Proof.
  induction s as [|c s IH]; cbn [cstr]; [done|].
  destruct (Z.eqb_spec c 0); by constructor.
Qed.

Lemma suffix_Forall {A} (P : A -> Prop) l1 l2 :
  l1 `suffix_of` l2 -> Forall P l2 -> Forall P l1.
Proof. intros [k ->]. by intros [_ ?]%Forall_app. Qed.

Lemma parse_wf s r : parse_rec (cstr s) = Some r -> wf_rec r.
Proof.
  unfold parse_rec. intros Hp. pose proof (cstr_nonzero s) as Hz.
  destruct (scan_x (cstr s)) as [[i l1]|] eqn:E1; [|done].
  destruct (scan_x l1) as [[o l2]|] eqn:E2; [|done].
  destruct (scan_x l2) as [[z l3]|] eqn:E3; [|done].
  destruct (scan_s 64 l3) as [[h l4]|] eqn:E4; [|done]. simplify_eq.
  apply scan_x_wf in E1 as [Hi S1], E2 as [Ho S2], E3 as [Hs S3].
  split_and!; cbn [r_inode r_offset r_size r_hex]; try lia.
  unfold scan_s in E4. destruct (word_of 64 (skip_space l3)) as [a rest] eqn:Hw.
  apply word_of_spec in Hw as (Hlen & Heq & Hall).
  destruct a as [|c a]; [done|]. simplify_eq.
  assert (Forall (fun c => c <> 0) (c :: a)) as Hnz.
  { enough (Forall (fun c => c <> 0) ((c :: a) ++ l4)) as [? _]%Forall_app by done.
    rewrite <- Heq. eapply suffix_Forall; [|exact Hz]. etrans; [apply skip_space_suffix|].
    etrans; [exact S3|]. etrans; [exact S2|done]. }
  split_and!; [done|done|]. by apply Forall_and.
Qed.

Lemma load_loop_wf fuel room lg f :
  Forall wf_rec (fst (load_loop fuel room lg f)) /\
  (length (fst (load_loop fuel room lg f)) <= room)%nat.
Proof.
  revert room lg f. induction fuel as [|fuel IH]; intros room lg f; cbn [load_loop].
  { split; [done|simpl; lia]. }
  destruct room as [|room]; [split; [done|simpl; lia]|].
  destruct f as [|c f]; [split; [done|simpl; lia]|].
  destruct (fgets_n 511 (c :: f)) as [line rest].
  destruct (parse_rec (cstr line)) as [r|] eqn:Hp.
  - specialize (IH room lg rest).
    destruct (load_loop fuel room lg rest) as [rs lg']. cbn [fst length] in *.
    split; [|lia]. constructor; [by eapply parse_wf|apply IH].
  - apply IH.
Qed.

Lemma load_wf ok fs p :
  Forall wf_rec (fst (baseline_load_records ok fs p)) /\
  (length (fst (baseline_load_records ok fs p)) <= AC_BASELINE_MAX_RECORDS)%nat.
Proof.
  unfold baseline_load_records.
  destruct (fs !! p), ok; try apply load_loop_wf; (split; [done|simpl; lia]).
Qed.

(** ** Saving *)

Lemma load_new_content fs p kept r :
  Forall wf_rec kept -> wf_rec r -> (length kept < AC_BASELINE_MAX_RECORDS)%nat ->
  baseline_load_records true (<[p := new_content kept r]> fs) p = (kept ++ [r], false).
Proof.
  intros Hk Hr Hlen. unfold baseline_load_records. rewrite lookup_insert_eq.
  assert (new_content kept r = concat (print_rec <$> (kept ++ [r]))) as ->.
  { unfold new_content. rewrite fmap_app, concat_app. cbn [fmap list_fmap concat].
    by rewrite app_nil_r. }
  apply load_print; [|rewrite length_app; simpl in *; lia|lia].
  apply Forall_app_2; [done|by constructor].
Qed.

Lemma kept_wf ok fs p i o z :
  Forall wf_rec (kept_recs ok fs p i o z) /\
  (length (kept_recs ok fs p i o z) <= AC_BASELINE_MAX_RECORDS)%nat.
Proof.
  destruct (load_wf ok fs p) as [Hwf Hlen]. split.
  - apply Forall_forall. intros r [_ Hr]%list_elem_of_filter.
    by eapply Forall_forall in Hwf.
  - unfold kept_recs. etrans; [apply length_filter|done].
Qed.

Lemma load_saved ok fs p r :
  wf_rec r -> length (kept_for ok fs p r) <> AC_BASELINE_MAX_RECORDS ->
  baseline_load_records true (<[p := new_content (kept_for ok fs p r) r]> fs) p
  = (kept_for ok fs p r ++ [r], false).
Proof.
  intros Hr Hfull. destruct (kept_wf ok fs p (r_inode r) (r_offset r) (r_size r)).
  apply load_new_content; [done|done|]. unfold kept_for in *. lia.
Qed.

(** The descriptors and files a saver holds, replayed from its operations. *)
Record held := mk_held {
  h_lock_fd : bool; h_locked : bool; h_tmp_fd : bool; h_tmp : bool;
}.

Definition replay (h : held) (o : save_op) : held :=
  match o with
  | OpenLock => mk_held true (h_locked h) (h_tmp_fd h) (h_tmp h)
  | LockEx => mk_held (h_lock_fd h) true (h_tmp_fd h) (h_tmp h)
  | Unlock => mk_held (h_lock_fd h) false (h_tmp_fd h) (h_tmp h)
  | CloseLock => mk_held false false (h_tmp_fd h) (h_tmp h)
  | MakeTmp => mk_held (h_lock_fd h) (h_locked h) true true
  | CloseTmp => mk_held (h_lock_fd h) (h_locked h) false (h_tmp h)
  | UnlinkTmp | RenameTmp => mk_held (h_lock_fd h) (h_locked h) (h_tmp_fd h) false
  end.

Definition nothing_held : held := mk_held false false false false.

(** Every way [baseline_save_record] can end: stored, or unchanged with the
    reason. *)
Lemma save_cases e fs p i o z h :
  let '(rc, err, fs', ops) := baseline_save_record e fs p i o z h in
  let kept := kept_recs (se_fopen e) fs p i o z in
  (rc = 0 /\ fs' = <[p := new_content kept (mk_rec i o z h)]> fs /\
   length kept <> AC_BASELINE_MAX_RECORDS \/
   rc = AC_BASELINE_SAVE_FULL /\ fs' = fs /\
   length kept = AC_BASELINE_MAX_RECORDS \/
   rc = -1 /\ fs' = fs) /\
  (foldl replay nothing_held ops = nothing_held \/
   foldl replay nothing_held ops = mk_held false false true false /\ rc = -1 /\
   (is_Some (se_fflush e) \/ is_Some (se_fsync e))).
Proof.
  unfold baseline_save_record, save_locked, save_finish.
  repeat (case_test || case_match); simplify_eq; cbn; eauto 10.
Qed.

(** What lets a save get as far as flushing the temporary file, and what it
    then takes to succeed. *)
Definition reaches_flush (e : save_env) (p : list Z) (kept : list ac_baseline_rec) : Prop :=
  se_symlink e = false /\ (length p + 10 < PATH_MAX)%nat /\
  se_open e = None /\ se_flock e = None /\ length kept <> AC_BASELINE_MAX_RECORDS /\
  se_mkstemp e = None /\ se_fdopen e = None.

Definition finishes (e : save_env) : Prop :=
  se_fflush e = None /\ se_fsync e = None /\ se_fclose e = None /\ se_rename e = None.

Definition flush_fails (e : save_env) : Prop :=
  is_Some (se_fflush e) \/ is_Some (se_fsync e).

Lemma save_ends e fs p i o z h :
  let '(rc, err, fs', ops) := baseline_save_record e fs p i o z h in
  let kept := kept_recs (se_fopen e) fs p i o z in
  let left := foldl replay nothing_held ops in
  (rc = 0 <-> reaches_flush e p kept /\ finishes e) /\
  (reaches_flush e p kept /\ flush_fails e -> left = mk_held false false true false) /\
  (~ (reaches_flush e p kept /\ flush_fails e) -> left = nothing_held).
Proof.
  unfold baseline_save_record, save_locked, save_finish, reaches_flush, finishes, flush_fails.
  cbn zeta. set (k := kept_recs _ _ _ _ _ _). clearbody k.
  repeat (case_test || case_match); simplify_eq; cbn;
    (split; [|split]); try done; try naive_solver lia.
  all: intros []; eauto 12.
Qed.

(** What a save keeps of the file. *)
Lemma kept_load ok fs p i o z :
  kept_recs ok fs p i o z =
  if ok then filter (fun r => same_key i o z r = false) (fst (baseline_load_records true fs p))
  else [].
Proof.
  unfold kept_recs, baseline_load_records. by destruct (fs !! p), ok.
Qed.

(** ** Concurrent saving *)

Lemma save_step_recs mf blpath s s' :
  save_step mf blpath s s' -> sv_rec <$> ss_savers s' = sv_rec <$> ss_savers s.
Proof.
  assert (forall (svs : list saver) i r pc pc', svs !! i = Some (mk_saver r pc) ->
    sv_rec <$> <[i := mk_saver r pc']> svs = sv_rec <$> svs) as H.
  { intros svs i r pc pc' Hi. rewrite list_fmap_insert. cbn. apply list_insert_id.
    by rewrite list_lookup_fmap, Hi. }
  intros []; cbn [ss_savers]; by eapply H.
Qed.

Definition in_section (pc : saver_pc) : bool :=
  match pc with Locked | Loaded _ | Renamed => true | _ => false end.

Definition stored (pc : saver_pc) : bool :=
  match pc with Renamed | Done => true | _ => false end.

Definition key_of (r : ac_baseline_rec) : Z * Z * Z :=
  (r_inode r, r_offset r, r_size r).

(** [old]: the records loaded before any saver started. *)
Record save_inv (blpath : list Z) (old : list ac_baseline_rec) (s : save_sys) : Prop := {
  si_wf i sv : ss_savers s !! i = Some sv -> wf_rec (sv_rec sv);
  si_keys i j sv sv' : ss_savers s !! i = Some sv -> ss_savers s !! j = Some sv' ->
    key_of (sv_rec sv) = key_of (sv_rec sv') -> i = j;
  si_lock i sv : ss_savers s !! i = Some sv -> in_section (sv_pc sv) = true ->
    ss_lock s = Some i;
  si_loaded i r kept : ss_savers s !! i = Some (mk_saver r (Loaded kept)) ->
    kept = kept_for true (ss_fs s) blpath r;
  si_stored i sv : ss_savers s !! i = Some sv -> stored (sv_pc sv) = true ->
    sv_rec sv ∈ fst (baseline_load_records true (ss_fs s) blpath);
  si_old r : r ∈ old -> (forall i sv, ss_savers s !! i = Some sv -> key_of r <> key_of (sv_rec sv)) ->
    r ∈ fst (baseline_load_records true (ss_fs s) blpath);
}.

Lemma same_key_of r r' :
  same_key (r_inode r) (r_offset r) (r_size r) r' = true <-> key_of r' = key_of r.
Proof.
  unfold same_key, key_of. boolp. split; [by intros [[-> ->] ->]|by intros [=]].
Qed.

(** One saver moves, possibly renaming a file into place while it holds the
    lock. *)
Lemma save_inv_upd blpath old fs fs' lk lk' svs i r pc pc' :
  save_inv blpath old (mk_save_sys fs lk svs) ->
  svs !! i = Some (mk_saver r pc) ->
  (forall kept, pc' = Loaded kept -> kept = kept_for true fs' blpath r) ->
  (stored pc' = true -> r ∈ fst (baseline_load_records true fs' blpath)) ->
  (forall r', key_of r' <> key_of r ->
     r' ∈ fst (baseline_load_records true fs blpath) ->
     r' ∈ fst (baseline_load_records true fs' blpath)) ->
  fs' = fs \/ lk = Some i ->
  (if in_section pc' then lk' = Some i /\ (lk = None \/ lk = Some i)
   else lk' = None /\ lk = Some i) ->
  save_inv blpath old (mk_save_sys fs' lk' (<[i := mk_saver r pc']> svs)).
Proof.
  intros [Hwf Hkeys Hlock Hload Hst Hold] Hi Hl Hs Hkeep Hfs Hlk.
  cbn [ss_fs ss_lock ss_savers] in *.
  assert (forall j sv, <[i := mk_saver r pc']> svs !! j = Some sv ->
    j = i /\ sv = mk_saver r pc' \/ j <> i /\ svs !! j = Some sv) as Hcase.
  { intros j sv. rewrite list_lookup_insert_Some. intros [(-> & <- & _)|[? ?]]; auto. }
  split; cbn [ss_fs ss_lock ss_savers].
  - intros j sv [[-> ->]|[_ ?]]%Hcase; [by apply (Hwf _ _ Hi)|by eapply Hwf].
  - intros j k sv sv' [[-> ->]|[_ Hj]]%Hcase [[-> ->]|[_ Hk]]%Hcase Hkey;
      [done|by eapply (Hkeys i k _ _ Hi)|by eapply (Hkeys j i _ _ Hj Hi)|].
    by eapply (Hkeys j k).
  - intros j sv [[-> ->]|[Hne Hj]]%Hcase Hin; cbn [sv_pc] in *.
    + rewrite Hin in Hlk. apply Hlk.
    + specialize (Hlock _ _ Hj Hin). destruct (in_section pc'); naive_solver.
  - intros j r' kept [[-> [= -> Hpc]]|[Hne Hj]]%Hcase; [by apply Hl|].
    destruct Hfs as [->|Hlki]; [by eapply Hload|].
    specialize (Hlock _ _ Hj eq_refl). congruence.
  - intros j sv [[-> ->]|[Hne Hj]]%Hcase Hsv; [by apply Hs|].
    apply Hkeep; [|by eapply Hst]. intros Hk. apply Hne. by eapply Hkeys.
  - intros r' Hr' Hno.
    assert (svs !! i = Some (mk_saver r pc) /\ forall j sv, svs !! j = Some sv ->
      key_of r' <> key_of (sv_rec sv)) as [_ Hno'].
    { split; [done|]. intros j sv Hj. destruct (decide (j = i)) as [->|Hne].
      - rewrite Hi in Hj. injection Hj as <-.
        apply (Hno i (mk_saver r pc')). by apply list_lookup_insert_eq, (lookup_lt_Some _ _ _ Hi).
      - apply (Hno j). by rewrite list_lookup_insert_ne. }
    apply Hkeep; [|by apply Hold]. apply (Hno' i _ Hi).
Qed.

Lemma save_step_inv blpath old s s' :
  save_step false blpath s s' -> save_inv blpath old s -> save_inv blpath old s'.
Proof.
  intros [fs svs i r Hi|fs lk svs i r ok Hi Hok|fs lk svs i r kept Hi Hfull
         |fs lk svs i r Hi|fs lk svs i r pc Hi Hpc] Hinv;
    pose proof (si_lock _ _ _ Hinv _ _ Hi) as Hlk;
    pose proof (si_stored _ _ _ Hinv _ _ Hi) as Hst;
    cbn [ss_lock ss_savers ss_fs sv_pc sv_rec in_section stored] in Hlk, Hst.
  - eapply save_inv_upd; [exact Hinv|exact Hi|..]; cbn; auto; done.
  - eapply save_inv_upd; [exact Hinv|exact Hi|..]; cbn; auto; try done.
    intros ? [= <-]. by destruct ok; [|discriminate (Hok eq_refl)].
  - pose proof (si_loaded _ _ _ Hinv _ _ _ Hi) as ->. cbn [ss_fs] in *.
    specialize (Hlk eq_refl). subst lk.
    eapply save_inv_upd; [exact Hinv|exact Hi|done| | |by right|cbn; auto];
      rewrite load_saved by (done || by apply (si_wf _ _ _ Hinv _ _ Hi)); cbn [fst].
    + intros _. set_solver.
    + intros r' Hk Hr'. apply elem_of_app. left. apply list_elem_of_filter.
      split; [|done]. destruct (same_key _ _ _ _) eqn:Hs; [|done].
      by apply same_key_of in Hs.
  - eapply save_inv_upd; [exact Hinv|exact Hi|..]; cbn; auto; done.
  - specialize (Hlk ltac:(by destruct Hpc as [->|[? ->]])).
    eapply save_inv_upd; [exact Hinv|exact Hi|..]; cbn; auto; done.
Qed.

(** ** Properties *)

(** Hashing a range of another process's memory, in however many short
    reads the kernel serves it, gives the SHA-256 of exactly the bytes of that
    range when all of them can be read, and fails otherwise; the loop always
    finishes. *)
Theorem hash_exact pread mem start size :
  mem_laws pread mem -> 0 <= start -> 0 <= size ->
  start + size < 9223372036854775808 ->
  hash_proc_mem pread start size =
  ac_sha256_hex <$> mem_range mem start (Z.to_nat size).
Proof. apply hash_proc_mem_spec. Qed.


(** C24: any number of savers of different segments of one file, their lock,
    load, rename and release steps interleaved in any order, some of them
    giving up, every load being able to open the file: the record of every
    saver that finished is in the file, and so is every record that was there
    before, unless a saver has its key. *)
Theorem no_record_lost blpath fs svs s :
  (forall i sv, svs !! i = Some sv -> wf_rec (sv_rec sv) /\ sv_pc sv = Waiting) ->
  (forall i j sv sv', svs !! i = Some sv -> svs !! j = Some sv' ->
     key_of (sv_rec sv) = key_of (sv_rec sv') -> i = j) ->
  rtc (save_step false blpath) (mk_save_sys fs None svs) s ->
  (forall i r, ss_savers s !! i = Some (mk_saver r Done) ->
   r ∈ fst (baseline_load_records true (ss_fs s) blpath)) /\
  (forall r, r ∈ fst (baseline_load_records true fs blpath) ->
   (forall i sv, svs !! i = Some sv -> key_of r <> key_of (sv_rec sv)) ->
   r ∈ fst (baseline_load_records true (ss_fs s) blpath)).
Proof.
  intros Hsv Hkeys Hrtc.
  assert (save_inv blpath (fst (baseline_load_records true fs blpath)) s /\
    (sv_rec <$> ss_savers s) = (sv_rec <$> svs)) as [Hinv Hrecs].
  { apply (rtc_invariant (save_step false blpath)
      (fun s => save_inv blpath (fst (baseline_load_records true fs blpath)) s /\
         (sv_rec <$> ss_savers s) = (sv_rec <$> svs)) _ _ Hrtc).
    - split; [|done]. split; cbn [ss_savers ss_lock ss_fs].
      + intros j sv Hj. apply (Hsv _ _ Hj).
      + exact Hkeys.
      + intros j sv Hj Hin. apply Hsv in Hj as [_ Hpc]. by rewrite Hpc in Hin.
      + intros j r' kept Hj. by apply Hsv in Hj as [_ ?].
      + intros j sv Hj Hst. apply Hsv in Hj as [_ Hpc]. by rewrite Hpc in Hst.
      + done.
    - intros x y Hxy [Hx Er]. split; [by eapply save_step_inv|].
      rewrite <- Er. by apply (save_step_recs false blpath). }
  split.
  - intros i r Hi. by apply (si_stored _ _ _ Hinv _ _ Hi).
  - intros r Hr Hno. apply (si_old _ _ _ Hinv r Hr). intros i sv Hi.
    assert ((sv_rec <$> svs) !! i = Some (sv_rec sv)) as Hi'
      by (by rewrite <- Hrecs, list_lookup_fmap, Hi).
    rewrite list_lookup_fmap in Hi'. destruct (svs !! i) as [sv0|] eqn:E0; [|done].
    injection Hi' as <-. by apply (Hno i).
Qed.

End Baseline.

(** A process with a few readable bytes, and two savers. *)
Module BaselineDemo.
Import Baseline.

Section image.
Context (base : Z) (bytes : list Z).

Definition image_mem (a : Z) : option Z :=
  if a <? base then None else bytes !! Z.to_nat (a - base).

(** Serves at most two bytes per call. *)
Definition image_pread (off want : Z) : option (list Z) :=
  if off <? base then None
  else Some (take (Z.to_nat (Z.min want 2)) (drop (Z.to_nat (off - base)) bytes)).

Lemma image_laws : mem_laws image_pread image_mem.
Proof.
  unfold image_pread, image_mem. split.
  - intros off want bs Hw Hp. destruct (Z.ltb_spec off base); [done|]. simplify_eq.
    rewrite length_take. split; [lia|]. intros i Hi.
    destruct (Z.ltb_spec (off + Z.of_nat i) base); [lia|].
    rewrite lookup_take_lt, lookup_drop by lia. f_equal. lia.
  - intros off want Hw [Hp|Hp]; exists 0; rewrite Z.add_0_r;
      (split; [lia|]); destruct (Z.ltb_spec off base); try done.
    injection Hp as Hp. apply lookup_ge_None_2.
    apply (f_equal length) in Hp. rewrite length_take, length_drop in Hp.
    simpl in Hp. lia.
Qed.
End image.

Lemma hash_exact_witness :
  hash_proc_mem (image_pread 4096 (lit "abcde")) 4096 5
  = ac_sha256_hex <$> mem_range (image_mem 4096 (lit "abcde")) 4096 5.
Proof.
  apply (hash_exact (image_pread 4096 (lit "abcde")) (image_mem 4096 (lit "abcde"))
    4096 5); [apply image_laws|lia..].
Defined.

Definition all_ok : save_env :=
  mk_save_env false None None true None None None None None None.


(** Two savers of different segments; the second one finds the lock free. *)
Definition r0 : ac_baseline_rec := mk_rec 7 8192 10 (lit "cc").
Definition r1 : ac_baseline_rec := mk_rec 7 0 10 (lit "aa").
Definition r2 : ac_baseline_rec := mk_rec 7 4096 10 (lit "bb").

Definition file : list Z := lit "/b/x.txt".
Definition before : files := <[file := print_rec r0]> ∅.
Definition two : list saver := [mk_saver r1 Waiting; mk_saver r2 Waiting].
Definition after : save_sys :=
  mk_save_sys (<[file := new_content (kept_for true before file r1) r1]> before) (Some 1%nat)
    [mk_saver r1 Done; mk_saver r2 Locked].

Lemma two_run : rtc (save_step false file) (mk_save_sys before None two) after.
Proof.
  eapply rtc_l; [by eapply (step_acquire _ _ _ _ 0)|].
  eapply rtc_l; [by eapply (step_load _ _ _ _ _ 0 _ true)|].
  eapply rtc_l; [by eapply (step_rename _ _ _ _ _ 0)|].
  eapply rtc_l; [by eapply (step_release _ _ _ _ _ 0)|].
  eapply rtc_l; [by eapply (step_acquire _ _ _ _ 1)|]. apply rtc_refl.
Qed.

Lemma no_record_lost_witness :
  r1 ∈ fst (baseline_load_records true (ss_fs after) file) /\
  r0 ∈ fst (baseline_load_records true (ss_fs after) file).
Proof.
  destruct (no_record_lost file before two after) as [Hd Ho].
  - intros [|[|i]] sv Hsv; simplify_eq/=; (split; [|done]);
      repeat split; cbn; try lia; repeat constructor; lia || done.
  - intros [|[|i]] [|[|j]] sv sv' Hi Hj Hk; simplify_eq/=; done.
  - apply two_run.
  - split; [by apply (Hd 0%nat)|]. apply Ho; [by left|].
    intros [|[|i]] sv Hsv; simplify_eq/=; done.
Defined.

(** A flush that fails leaves the temporary file's descriptor open: [fclose]
    is not called. *)
Example save_leaks_descriptor :
  let '(rc, err, fs', ops) :=
    baseline_save_record (mk_save_env false None None true None None (Some 28) None None None)
      ∅ (lit "/b/x.txt") 7 4096 10 (lit "beef") in
  rc = -1 /\ err = Some 28 /\
  foldl replay nothing_held ops = mk_held false false true false.
Proof. by vm_compute. Qed.

(** A save that cannot open the existing file for reading, say for want of a
    descriptor, succeeds and drops the records of the other segments. *)
Example save_loses_records :
  let '(rc, err, fs', ops) :=
    baseline_save_record (mk_save_env false None None false None None None None None None)
      before file 7 0 10 (lit "aa") in
  rc = 0 /\ baseline_load_records true before file = ([r0], false) /\
  baseline_load_records true fs' file = ([r1], false).
Proof. by vm_compute. Qed.

End BaselineDemo.
