(* ===== verification/Runs.v ===== *)
(** The baseline check of the daemon (src/anticheat_daemon.c): the coalescing
    of executable mappings into runs, the verdict on a run, and the check of
    every protected process. *)

From S2P Require Import Prelude CText CScan Abi Sha256 DLog Baseline.
Import DLog.DLog Sha256.Sha Baseline.Baseline.

#[local] Open Scope Z_scope.

Module Runs.

(** ** Runs of mappings *)

Record ac_bl_vma := mk_bl_vma {
  bv_start : Z;
  bv_end : Z;
  bv_offset : Z;
  bv_inode : Z;
  bv_path : list Z;
}.

(** The file offset one past a mapping. *)
Definition off_end (v : ac_bl_vma) : Z :=
  u64 (bv_offset v + u64 (bv_end v - bv_start v)).

(** [v] extends the run that starts with [first] and so far ends with
    [prev]. *)
Definition extends (first prev v : ac_bl_vma) : bool :=
  (bv_inode v =? bv_inode first) && streq (bv_path v) (bv_path first)
  && (bv_start v =? bv_end prev) && (bv_offset v =? off_end prev).

(** How many of the following mappings extend the run. *)
Fixpoint run_ext (first prev : ac_bl_vma) (l : list ac_bl_vma) : nat :=
  match l with
  | v :: l' => if extends first prev v then S (run_ext first v l') else O
  | [] => O
  end.

(** Index one past the last mapping of the run that starts at [i]. *)
Definition baseline_run_end (v : list ac_bl_vma) (i : nat) : nat :=
  match drop i v with
  | first :: l => i + 1 + run_ext first first l
  | [] => i + 1
  end.

(** ** The verdict on a run *)

Definition AC_BL_UNBASELINED : Z := 0.
Definition AC_BL_LEGACY : Z := 1.
Definition AC_BL_OK : Z := 2.
Definition AC_BL_HASH_FAILED : Z := 3.
Definition AC_BL_PARTIAL : Z := 4.
Definition AC_BL_MISMATCH : Z := 5.

Record ac_bl_run_result := mk_run_result {
  rr_verdict : Z;
  rr_off : Z;
  rr_size : Z;
  rr_len_changed : bool;
}.

(** What a record is to the run with file range [rs, re): 0 elsewhere, 1 fits,
    2 partly overlaps. *)
Definition rec_end (r : ac_baseline_rec) : Z := u64 (r_offset r + r_size r).

Definition kind_of (inode rs re : Z) (r : ac_baseline_rec) : Z :=
  if negb (r_inode r =? inode) || (r_size r =? 0) || (rec_end r <? r_offset r)
  then 0
  else if (rec_end r <=? rs) || (re <=? r_offset r) then 0
  else if (r_offset r <? rs) || (re <? rec_end r) then 2
  else 1.

(** Advance [lo] across the fitting records once; whether it moved. *)
Definition cover_pass (inode rs re : Z) (recs : list ac_baseline_rec) (lo : Z)
    : Z * bool :=
  foldl (fun '(lo, grew) r =>
    if (kind_of inode rs re r =? 1) && (r_offset r <=? lo) && (lo <? rec_end r)
    then (rec_end r, true) else (lo, grew)) (lo, false) recs.

(** The [while (lo < hi && grew)] loop. *)
Fixpoint cover_loop (fuel : nat) (inode rs re : Z)
    (recs : list ac_baseline_rec) (hi lo : Z) : Z :=
  match fuel with
  | O => lo
  | S f =>
      if lo <? hi then
        let '(lo', grew) := cover_pass inode rs re recs lo in
        if grew then cover_loop f inode rs re recs hi lo' else lo'
      else lo
  end.

(** The part of a partly overlapping record no fitting record covers is not
    empty.  Each pass that moves [lo] moves it past a record for good, so one
    pass per record and one more are enough. *)
Definition uncovered (inode rs re : Z) (recs : list ac_baseline_rec)
    (r : ac_baseline_rec) : bool :=
  let lo := if rs <? r_offset r then r_offset r else rs in
  let hi := if rec_end r <? re then rec_end r else re in
  cover_loop (S (length recs)) inode rs re recs hi lo <? hi.

(** The second loop: the first uncovered record decides. *)
Fixpoint partial_loop (inode rs re : Z) (all recs : list ac_baseline_rec)
    (res : ac_bl_run_result) : ac_bl_run_result :=
  match recs with
  | r :: recs' =>
      if rr_verdict res <? AC_BL_PARTIAL then
        partial_loop inode rs re all recs'
          (if (kind_of inode rs re r =? 2) && uncovered inode rs re all r
           then mk_run_result AC_BL_PARTIAL (r_offset r) (r_size r)
                  (rr_len_changed res)
           else res)
      else res
  | [] => res
  end.

Section checking.
Context (pread : Z -> Z -> option (list Z)).
(** [open("/proc/<pid>/mem")]: a descriptor or a negative value. *)
Context (open_mem : Z).
(** Whether [fopen] of the records of the run that starts at an address works. *)
Context (fopen_ok : Z -> bool).

(** [*mem_fd] is -1 before the first open, -2 once it failed. *)
Definition lazy_open (mem_fd : Z) : Z :=
  if mem_fd =? -1 then (if open_mem <? 0 then -2 else open_mem) else mem_fd.

Definition rec_verdict (mem_fd start rs : Z) (r : ac_baseline_rec) : Z :=
  if mem_fd <? 0 then AC_BL_HASH_FAILED
  else
    match hash_proc_mem pread (u64 (start + u64 (r_offset r - rs))) (r_size r) with
    | None => AC_BL_HASH_FAILED
    | Some hex => if streq hex (r_hex r) then AC_BL_OK else AC_BL_MISMATCH
    end.

(** One turn of the first loop. *)
Definition check_rec (start inode rs re run_len : Z)
    (st : ac_bl_run_result * Z) (r : ac_baseline_rec) : ac_bl_run_result * Z :=
  let '(res, mem_fd) := st in
  if kind_of inode rs re r =? 1 then
    let lc := rr_len_changed res
              && negb ((r_offset r =? rs) && (r_size r =? run_len)) in
    let fd := lazy_open mem_fd in
    let v := rec_verdict fd start rs r in
    if rr_verdict res <? v then (mk_run_result v (r_offset r) (r_size r) lc, fd)
    else (mk_run_result (rr_verdict res) (rr_off res) (rr_size res) lc, fd)
  else (res, mem_fd).

(** [baseline_check_run(v, i, j, ...)]: [first] is v[i], [last] is v[j-1]. *)
Definition baseline_check_run (fs : files) (dir : list Z)
    (first last : ac_bl_vma) (mem_fd : Z) : ac_bl_run_result * Z :=
  let rs := bv_offset first in
  let re := off_end last in
  let run_len := Z.min (u64 (re - rs)) AC_HASH_CAP in
  let '(recs, legacy) :=
    baseline_load_records (fopen_ok (bv_start first)) fs
      (baseline_path_for dir (bv_path first)) in
  let '(res, fd) :=
    foldl (check_rec (bv_start first) (bv_inode first) rs re run_len)
      (mk_run_result AC_BL_UNBASELINED 0 0 true, mem_fd) recs in
  let res := partial_loop (bv_inode first) rs re recs recs res in
  if (rr_verdict res =? AC_BL_UNBASELINED) && legacy
  then (mk_run_result AC_BL_LEGACY (rr_off res) (rr_size res)
          (rr_len_changed res), fd)
  else (res, fd).

(** [for (r = 0; r < nv; r = rend)]: every run, with its first mapping and
    whether it is the last run of the snapshot. *)
Fixpoint check_runs (fuel : nat) (fs : files) (dir : list Z)
    (l : list ac_bl_vma) (mem_fd : Z)
    : list (ac_bl_vma * bool * ac_bl_run_result) * Z :=
  match fuel, l with
  | S f, first :: l' =>
      let k := (baseline_run_end l 0 - 1)%nat in
      let last := default first (last (take k l')) in
      let '(res, fd) := baseline_check_run fs dir first last mem_fd in
      let at_end := match drop k l' with [] => true | _ => false end in
      let '(rs, fd') := check_runs f fs dir (drop k l') fd in
      ((first, at_end, res) :: rs, fd')
  | _, _ => ([], mem_fd)
  end.
End checking.

(** ** The periodic check of every protected process *)

Definition bl_vma_of (vi : ac_vma_info) : ac_bl_vma :=
  mk_bl_vma (vi_start vi) (vi_end vi) (vi_offset vi) (vi_inode vi)
    (strscpy AC_VMA_PATH (vi_path vi)).

Definition exec_file (vi : ac_vma_info) : bool :=
  negb (Z.land (vi_flags vi) AC_VM_EXEC =? 0) && vi_is_file vi.

(** The SCAN_GET loop from index [v] on: the executable file-backed mappings,
    and whether every call succeeded. *)
Fixpoint gather (get : Z -> option ac_vma_info) (n : nat) (v : Z)
    : list ac_bl_vma * bool :=
  match n with
  | O => ([], true)
  | S n' =>
      match get v with
      | None => ([], false)
      | Some vi =>
          let '(l, complete) := gather get n' (v + 1) in
          (if exec_file vi then bl_vma_of vi :: l else l, complete)
      end
  end.

(** What the system gives the check of one process. *)
Record proc_view := mk_proc_view {
  pv_begin : option (Z * bool);           (** SCAN_BEGIN: n_vmas, truncated *)
  pv_get : Z -> option ac_vma_info;       (** SCAN_GET by index *)
  pv_open : Z;                            (** open of /proc/<pid>/mem *)
  pv_pread : Z -> Z -> option (list Z);
  pv_fopen : Z -> bool;                   (** [fopen] of a run's records works *)
}.

(** The message a verdict gives; [cut] when the run ends a snapshot that
    stopped early. *)
Definition run_msg (pid : Z) (comm path : list Z) (cut : bool)
    (res : ac_bl_run_result) : list msg :=
  let who := [lit "pid "; fmt_d pid; lit " ("; comm; lit "): "] in
  let v := rr_verdict res in
  if v =? AC_BL_LEGACY then
    [logm LOG_WARNING (who ++ [lit "legacy-format baseline for "; path;
       lit " -- run `scan --hash --save` to regenerate"])]
  else if v =? AC_BL_HASH_FAILED then
    [logm LOG_WARNING (who ++ [lit "could not hash "; path;
       lit " -- skipping baseline check for this segment this cycle"])]
  else if v =? AC_BL_PARTIAL then
    if cut then
      [logm LOG_WARNING (who ++ [lit "VMA snapshot incomplete -- skipping ";
         lit "baseline check for "; path; lit " this cycle"])]
    else
      [logm LOG_CRIT (who ++ [lit "baselined range of "; path;
         lit " (file offset "; fmt_sx (rr_off res); lit "..";
         fmt_sx (u64 (rr_off res + rr_size res));
         lit ") is only partly mapped executable -- cannot verify it against ";
         lit "the saved baseline (split and unmapped/remapped since --save; ";
         lit "if the library was rebuilt in place, run `scan --hash --save` ";
         lit "to regenerate)"])]
  else if v =? AC_BL_MISMATCH then
    [logm LOG_CRIT (who ++ [lit "memory content of "; path;
       lit " differs from saved baseline (possible runtime patching)";
       if rr_len_changed res then
         lit "; the mapping's size also changed since --save -- if the library was rebuilt in place, run `scan --hash --save` to regenerate"
       else []])]
  else [].

(** The runs of a snapshot, checked in order and reported. *)
Definition check_vmas (fs : files) (dir : list Z) (it : ac_prot_item)
    (pv : proc_view) (complete : bool) (vmas : list ac_bl_vma) : list msg :=
  let '(runs, _) := check_runs (pv_pread pv) (pv_open pv) (pv_fopen pv)
                      (length vmas) fs dir vmas (-1) in
  concat ((fun '(first, at_end, res) =>
    run_msg (pi_pid it) (pi_comm it) (bv_path first)
      (negb complete && at_end) res) <$> runs).

Definition check_process (fs : files) (dir : list Z) (it : ac_prot_item)
    (pv : proc_view) : list msg :=
  match pv_begin pv with
  | None => []
  | Some (n, truncated) =>
      let '(n, warn) := clamp_vma_count n in
      let '(vmas, got) := gather (pv_get pv) (Z.to_nat n) 0 in
      warn ++ check_vmas fs dir it pv (negb truncated && got) vmas
  end.

(** [lst] is what LIST_PROTECTED returned: the count and the items. *)
Definition check_baselines_periodic (fs : files) (dir : list Z)
    (lst : option (Z * list ac_prot_item)) (view : Z -> proc_view)
    : Z * list msg :=
  match lst with
  | None => (-1, [])
  | Some (count, items) =>
      let '(count, warn) := clamp_prot_count count in
      (0, warn ++ concat ((fun it => check_process fs dir it (view (pi_pid it)))
                          <$> take (Z.to_nat count) items))
  end.

(** ** Coverage of a partly overlapping record *)

Lemma count_if_strict {A} (p q : A -> bool) l x :
  (forall y, q y = true -> p y = true) -> x ∈ l -> p x = true -> q x = false ->
  (count_if q l < count_if p l)%nat.
Proof.
  intros Hqp. induction 1 as [x l|x y l Hx IH]; intros Hp Hq; cbn [count_if].
  - rewrite Hp, Hq. enough (count_if q l <= count_if p l)%nat by lia.
    clear -Hqp. induction l as [|y l IH]; cbn [count_if]; [lia|].
    specialize (Hqp y). destruct (q y), (p y); naive_solver lia.
  - specialize (IH Hp Hq). specialize (Hqp y).
    destruct (q y), (p y); naive_solver lia.
Qed.

Section cover.
Context (inode rs re : Z) (recs : list ac_baseline_rec).

Definition fits (r : ac_baseline_rec) : Prop :=
  r ∈ recs /\ kind_of inode rs re r = 1.

(** Reference: the byte at file offset [x] belongs to a fitting record. *)
Definition covered (x : Z) : Prop :=
  exists r, fits r /\ r_offset r <= x < rec_end r.

Lemma cover_pass_fold l lo g :
  (forall r, r ∈ l -> r ∈ recs) ->
  let '(lo', g') := foldl (fun '(lo, grew) r =>
    if (kind_of inode rs re r =? 1) && (r_offset r <=? lo) && (lo <? rec_end r)
    then (rec_end r, true) else (lo, grew)) (lo, g) l in
  lo <= lo' /\ (forall x, lo <= x < lo' -> covered x) /\
  (g' = false -> g = false /\ lo' = lo /\
     forall r, r ∈ l -> kind_of inode rs re r = 1 -> ~ r_offset r <= lo < rec_end r) /\
  (g' = true -> g = true \/ exists r, fits r /\ lo < rec_end r <= lo').
Proof.
  revert lo g. induction l as [|r l IH]; intros lo g Hsub; cbn [foldl].
  { split_and!; try lia; [intros ->|by left]. split_and!; try done.
    intros r Hr. by apply elem_of_nil in Hr. }
  assert (forall r', r' ∈ l -> r' ∈ recs) as Hl by set_solver.
  destruct (_ && _) eqn:Hc.
  - specialize (IH (rec_end r) true Hl).
    destruct (foldl _ _ _) as [lo' g']. destruct IH as (Hle & Hcov & Hf & Ht).
    boolp. destruct Hc as [[Hk Ho] He].
    assert (fits r) as Hfit by (split; [set_solver|done]).
    split_and!; [lia| |by intros [? _]%Hf|intros _; right; exists r; split; [done|lia]].
    intros x Hx. destruct (Z.lt_ge_cases x (rec_end r)); [|apply Hcov; lia].
    exists r. split; [done|lia].
  - specialize (IH lo g Hl). destruct (foldl _ _ _) as [lo' g'].
    destruct IH as (Hle & Hcov & Hf & Ht). split_and!; [done|done| |done].
    intros (-> & -> & Hno)%Hf. split_and!; [done..|].
    intros r' [->|Hr']%elem_of_cons Hk Hx; [|by apply (Hno r')].
    rewrite Hk in Hc. boolp. lia.
Qed.

(** A fitting record that could still move [lo]. *)
Definition ahead (lo : Z) (r : ac_baseline_rec) : bool :=
  (kind_of inode rs re r =? 1) && (lo <? rec_end r).

Lemma cover_loop_spec fuel hi lo :
  (count_if (ahead lo) recs < fuel)%nat ->
  let lo' := cover_loop fuel inode rs re recs hi lo in
  lo <= lo' /\ (forall x, lo <= x < lo' -> covered x) /\
  (hi <= lo' \/ ~ covered lo').
Proof.
  revert lo. induction fuel as [|fuel IH]; intros lo Hf; [lia|].
  cbn [cover_loop]. destruct (Z.ltb_spec lo hi); [|cbn; split_and!; auto; lia].
  pose proof (cover_pass_fold recs lo false (fun _ H => H)) as Hp.
  unfold cover_pass. destruct (foldl _ _ _) as [lo1 g1].
  destruct Hp as (Hle & Hcov & Hno & Hyes). destruct g1.
  - destruct (Hyes eq_refl) as [?|(r & [Hr Hk] & He)]; [done|].
    specialize (IH lo1). destruct IH as (Hle' & Hcov' & Hend).
    { eapply Nat.lt_le_trans; [apply (count_if_strict (ahead lo) _ _ r)|
        apply Nat.lt_succ_r, Hf]; [|done|..]; unfold ahead.
      - intros y Hy. boolp. lia.
      - boolp. lia.
      - boolp. lia. }
    cbn zeta in *. split_and!; [lia| |done].
    intros x Hx. destruct (Z.lt_ge_cases x lo1); [apply Hcov|apply Hcov']; lia.
  - destruct (Hno eq_refl) as (_ & -> & Hnone). cbn zeta.
    split_and!; [lia|intros; lia|]. right. intros (r & [Hr Hk] & Hx).
    by apply (Hnone r).
Qed.

(** The excusing loop is exact: a partly overlapping record is reported
    precisely when a byte of its overlap lies in no fitting record. *)
Lemma uncovered_iff r :
  uncovered inode rs re recs r = true <->
  exists x, Z.max rs (r_offset r) <= x < Z.min (rec_end r) re /\ ~ covered x.
Proof.
  unfold uncovered.
  replace (if rs <? r_offset r then r_offset r else rs) with (Z.max rs (r_offset r))
    by (case_test; lia).
  replace (if rec_end r <? re then rec_end r else re) with (Z.min (rec_end r) re)
    by (case_test; lia).
  set (lo := Z.max _ _). set (hi := Z.min _ _).
  destruct (cover_loop_spec (S (length recs)) hi lo) as (Hle & Hcov & Hend).
  { pose proof (count_if_le (ahead lo) recs). lia. }
  boolp. split.
  - intros Hlt. exists (cover_loop (S (length recs)) inode rs re recs hi lo).
    split; [lia|]. destruct Hend; [lia|done].
  - intros (x & Hx & Hnc). destruct (Z.lt_ge_cases
      (cover_loop (S (length recs)) inode rs re recs hi lo) hi); [done|].
    exfalso. apply Hnc, Hcov. lia.
Qed.
End cover.

(** ** The verdict *)

Section verdict.
Context (pread : Z -> Z -> option (list Z)) (open_mem : Z).
Context (start inode rs re run_len : Z).

Lemma lazy_open_idem fd :
  lazy_open open_mem (lazy_open open_mem fd) = lazy_open open_mem fd.
Proof. unfold lazy_open. repeat case_test; try done; lia. Qed.

Lemma check_rec_max res fd r :
  kind_of inode rs re r = 1 ->
  exists res', check_rec pread open_mem start inode rs re run_len (res, fd) r
               = (res', lazy_open open_mem fd) /\
    rr_verdict res' = Z.max (rr_verdict res)
      (rec_verdict pread (lazy_open open_mem fd) start rs r).
Proof.
  intros Hk. unfold check_rec. rewrite Hk. cbn [Z.eqb Pos.eqb].
  case_test; eexists; (split; [reflexivity|]); cbn [rr_verdict]; lia.
Qed.

(** The first loop takes the worst verdict of the fitting records. *)
Lemma check_recs_worst recs res fd0 fd :
  lazy_open open_mem fd = fd0 ->
  let hv := rec_verdict pread fd0 start rs in
  let v := rr_verdict
    (fst (foldl (check_rec pread open_mem start inode rs re run_len) (res, fd) recs)) in
  rr_verdict res <= v /\
  (forall r, fits inode rs re recs r -> hv r <= v) /\
  (v = rr_verdict res \/ exists r, fits inode rs re recs r /\ v = hv r).
Proof.
  cbn zeta. revert res fd. induction recs as [|r recs IH]; intros res fd Hfd.
  { cbn. split_and!; [lia| |by left]. intros r [Hr _]. by apply elem_of_nil in Hr. }
  assert (forall P : ac_baseline_rec -> Prop,
    (forall x, fits inode rs re (r :: recs) x -> P x) <->
    (kind_of inode rs re r = 1 -> P r) /\ (forall x, fits inode rs re recs x -> P x))
    as Hcons.
  { intros P. unfold fits. setoid_rewrite elem_of_cons. naive_solver. }
  assert (forall x, fits inode rs re recs x -> fits inode rs re (r :: recs) x)
    as Hsub by (intros x [? ?]; split; [set_solver|done]).
  cbn [foldl]. rewrite Hcons. destruct (Z.eq_dec (kind_of inode rs re r) 1) as [Hk|Hk].
  - destruct (check_rec_max res fd r Hk) as (res' & -> & Hmax). rewrite Hfd in *.
    assert (fits inode rs re (r :: recs) r) as Hr by (split; [set_solver|done]).
    destruct (IH res' fd0) as (H1 & H2 & H3); [by rewrite <- Hfd, lazy_open_idem|].
    split; [lia|]. split; [split; [lia|done]|].
    destruct H3 as [Hv|(x & ? & ?)]; [|right; eauto]. rewrite Hv.
    destruct (Z.max_spec (rr_verdict res) (rec_verdict pread fd0 start rs r))
      as [[_ Hm]|[_ Hm]]; rewrite Hm in Hmax; [right; eauto|by left].
  - assert (check_rec pread open_mem start inode rs re run_len (res, fd) r = (res, fd))
      as -> by (unfold check_rec; by apply Z.eqb_neq in Hk as ->).
    destruct (IH res fd Hfd) as (H1 & H2 & H3).
    split; [done|]. split; [by split|].
    destruct H3 as [?|(x & ? & ?)]; [by left|right; eauto].
Qed.

Lemma partial_loop_verdict all recs res :
  rr_verdict (partial_loop inode rs re all recs res) =
  if rr_verdict res <? AC_BL_PARTIAL then
    if existsb (fun r => (kind_of inode rs re r =? 2)
                         && uncovered inode rs re all r) recs
    then AC_BL_PARTIAL else rr_verdict res
  else rr_verdict res.
Proof.
  revert res. induction recs as [|r recs IH]; intros res; cbn [partial_loop].
  { by case_test. }
  destruct (Z.ltb_spec (rr_verdict res) AC_BL_PARTIAL) as [Hlt|Hge]; [|done].
  rewrite IH. cbn [existsb]. destruct (_ && _); cbn [rr_verdict orb]; [done|].
  apply Z.ltb_lt in Hlt. by rewrite Hlt.
Qed.
End verdict.

(** *** Reference verdict

    What the memory says about the records of a run, in terms of file offsets
    alone: which bytes of the file the run maps, which a record speaks about,
    and the digest a record's bytes have now. *)

(** The digest a record's bytes have now, if they can be read. *)
Definition current (mem : Z -> option Z) (opened : bool) (first : ac_bl_vma)
    (r : ac_baseline_rec) : option (list Z) :=
  if opened then
    ac_sha256_hex <$>
      mem_range mem (bv_start first + (r_offset r - bv_offset first))
        (Z.to_nat (r_size r))
  else None.

Definition differs (mem : Z -> option Z) (opened : bool) (first : ac_bl_vma)
    (r : ac_baseline_rec) : Prop :=
  exists h, current mem opened first r = Some h /\ h <> r_hex r.

Section reference.
Context (first last : ac_bl_vma) (recs : list ac_baseline_rec).

(** The run maps the byte at file offset [x]. *)
Definition in_run (x : Z) : Prop :=
  bv_offset first <= x < bv_offset last + (bv_end last - bv_start last).

(** A record of the run's file speaks about the byte at [x]; a record whose
    range passes the last 64-bit offset speaks about nothing. *)
Definition speaks (r : ac_baseline_rec) (x : Z) : Prop :=
  r ∈ recs /\ r_inode r = bv_inode first /\
  r_offset r <= x < r_offset r + r_size r /\ r_offset r + r_size r < 2 ^ 64.

(** A record that speaks about bytes of the run only. *)
Definition inside (r : ac_baseline_rec) : Prop :=
  (exists x, speaks r x) /\ (forall x, speaks r x -> in_run x).

(** A byte of the run that a record speaks about and no record inside the run
    does. *)
Definition gap : Prop :=
  exists r x, speaks r x /\ in_run x /\ forall r', inside r' -> ~ speaks r' x.

(** The run lies in the lower half of the address space and its file offsets
    do not pass the last 64-bit one. *)
Definition run_ok : Prop :=
  0 <= bv_start first /\ 0 <= bv_offset first /\
  0 <= bv_start last <= bv_end last /\ 0 <= bv_offset last /\
  bv_offset last + (bv_end last - bv_start last) < 2 ^ 64 /\
  bv_start first + (bv_offset last + (bv_end last - bv_start last) - bv_offset first)
    < 9223372036854775808.

Hypothesis Hwf : Forall wf_rec recs.
Hypothesis Hok : run_ok.

Lemma run_end_off : off_end last = bv_offset last + (bv_end last - bv_start last).
Proof.
  destruct Hok as (_ & _ & Hs & Ho & He & _). change (2 ^ 64) with 18446744073709551616 in He.
  unfold off_end. by rewrite !u64_id by (rewrite ?u64_id; lia).
Qed.

Definition run_kind : ac_baseline_rec -> Z :=
  kind_of (bv_inode first) (bv_offset first) (off_end last).

(** What the kind of a record says in file offsets. *)
Lemma kind_cases r :
  r ∈ recs ->
  let e := r_offset r + r_size r in
  let runs := bv_offset last + (bv_end last - bv_start last) in
  let file := r_inode r = bv_inode first /\ 0 < r_size r /\ e < 2 ^ 64 in
  (file -> rec_end r = e) /\
  (run_kind r = 1 <-> file /\ bv_offset first <= r_offset r /\ e <= runs
                      /\ bv_offset first < e /\ r_offset r < runs) /\
  (run_kind r = 2 <-> file /\ bv_offset first < e /\ r_offset r < runs /\
                      ~ (bv_offset first <= r_offset r /\ e <= runs)).
Proof.
  intros Hr. destruct (proj1 (list.Forall_forall _ _) Hwf r Hr) as (_ & Ho & Hz & _).
  cbn zeta. unfold run_kind, kind_of. rewrite run_end_off.
  change (2 ^ 64) with 18446744073709551616 in *.
  destruct (Z.lt_ge_cases (r_offset r + r_size r) 18446744073709551616) as [Hlt|Hge].
  - assert (rec_end r = r_offset r + r_size r) as -> by (unfold rec_end; by rewrite u64_id by lia).
    repeat case_test; boolp; lia.
  - assert (rec_end r < r_offset r) as Hneg.
    { unfold rec_end, u64. rewrite <- (Z_mod_plus_full _ (-1)), Z.mod_small; lia. }
    repeat case_test; boolp; lia.
Qed.

Definition run_fits : ac_baseline_rec -> Prop :=
  fits (bv_inode first) (bv_offset first) (off_end last) recs.

(** The code's fitting records are those inside the run. *)
Lemma fits_inside r : run_fits r <-> inside r.
Proof.
  unfold run_fits, fits, inside, speaks, in_run. split.
  - intros [Hr Hk]. apply (kind_cases r Hr) in Hk. split; [exists (r_offset r)|];
      naive_solver lia.
  - intros [[x (Hr & Hi & Hx & He)] Hall]. split; [done|].
    apply (kind_cases r Hr). pose proof (Hall (r_offset r)) as H1.
    pose proof (Hall (r_offset r + r_size r - 1)) as H2.
    destruct H1; [split_and!; (done || lia)|]. destruct H2; [split_and!; (done || lia)|].
    split_and!; (done || lia).
Qed.

Lemma covered_speaks x :
  covered (bv_inode first) (bv_offset first) (off_end last) recs x <->
  exists r, inside r /\ speaks r x.
Proof.
  unfold covered. fold run_fits. split; intros (r & Hf & Hx); exists r.
  - split; [by apply fits_inside|]. destruct Hf as [Hr Hk].
    destruct (kind_cases r Hr) as (He & H1 & _). apply H1 in Hk.
    rewrite He in Hx by tauto. split_and!; (done || tauto || lia).
  - apply fits_inside in Hf. split; [done|]. destruct Hf as [Hr Hk].
    destruct (kind_cases r Hr) as (He & H1 & _). apply H1 in Hk.
    rewrite He by tauto. apply Hx.
Qed.

(** The code's test of the second loop finds the gaps. *)
Lemma gap_existsb :
  existsb (fun r => (run_kind r =? 2)
    && uncovered (bv_inode first) (bv_offset first) (off_end last) recs r) recs = true
  <-> gap.
Proof.
  rewrite existsb_exists. split.
  - intros (r & Hr%list_elem_of_In & [Hk%Z.eqb_eq Hu]%andb_true_iff).
    apply uncovered_iff in Hu as (x & Hx & Hn). rewrite covered_speaks in Hn.
    destruct (kind_cases r Hr) as (He & _ & H2). apply H2 in Hk.
    rewrite He, run_end_off in Hx by tauto.
    exists r, x. unfold speaks at 1, in_run. split_and!; try (done || tauto || lia).
    intros r' Hi Hs. apply Hn. by exists r'.
  - intros (r & x & (Hr & Hi & Hx & He) & Hin & Hn). exists r.
    split; [by apply list_elem_of_In|]. destruct (kind_cases r Hr) as (Hre & _ & H2).
    unfold in_run in Hin. apply andb_true_iff. split.
    + apply Z.eqb_eq, H2. split_and!; try (done || lia). intros Hfit. apply (Hn r); [|done].
      apply fits_inside. split; [done|]. apply (kind_cases r Hr). split_and!; (done || lia).
    + apply uncovered_iff. exists x. rewrite covered_speaks.
      rewrite Hre, run_end_off by (split_and!; (done || lia)). split; [lia|naive_solver].
Qed.

Lemma rec_verdict_current mem opened pread fd r :
  mem_laws pread mem -> opened = negb (fd <? 0) -> run_fits r ->
  rec_verdict pread fd (bv_start first) (bv_offset first) r =
  match current mem opened first r with
  | None => AC_BL_HASH_FAILED
  | Some h => if streq h (r_hex r) then AC_BL_OK else AC_BL_MISMATCH
  end.
Proof.
  intros Hlaw Hop [Hr Hk]. apply (kind_cases r Hr) in Hk.
  destruct Hok as (Hs & Ho & _ & _ & _ & Hend).
  destruct (proj1 (list.Forall_forall _ _) Hwf r Hr) as (_ & Hro & Hrz & _).
  unfold rec_verdict, current. rewrite Hop. destruct (fd <? 0); [done|].
  cbn [negb]. rewrite !u64_id by (rewrite ?u64_id; lia).
  by rewrite (hash_proc_mem_spec pread mem) by (done || lia).
Qed.
End reference.

(** The worst of the fitting verdicts, as a classification. *)
Lemma worst_cases {A} (fit : A -> Prop) (hv : A -> Z) v1 :
  (forall r, fit r -> hv r = 2 \/ hv r = 3 \/ hv r = 5) -> 0 <= v1 ->
  (forall r, fit r -> hv r <= v1) -> (v1 = 0 \/ exists r, fit r /\ v1 = hv r) ->
  (v1 = 5 <-> exists r, fit r /\ hv r = 5) /\
  (v1 <= 3 <-> forall r, fit r -> hv r <> 5) /\
  (v1 = 3 <-> (forall r, fit r -> hv r <> 5) /\ exists r, fit r /\ hv r = 3) /\
  (v1 = 2 <-> (exists r, fit r) /\ forall r, fit r -> hv r = 2) /\
  (v1 = 0 <-> forall r, ~ fit r) /\
  (v1 = 0 \/ v1 = 2 \/ v1 = 3 \/ v1 = 5).
Proof.
  intros Hval H0 Hle Hatt.
  assert (v1 = 0 \/ exists r, fit r /\ v1 = hv r /\ (hv r = 2 \/ hv r = 3 \/ hv r = 5))
    as [->|(r0 & Hf0 & -> & Hv0)] by (destruct Hatt as [|(r & ? & ?)]; eauto 6).
  - assert (forall r, ~ fit r) as Hno.
    { intros r Hr. specialize (Hle r Hr). specialize (Hval r Hr). lia. }
    split_and!.
    + split; [lia|]. intros (r & ? & _). by destruct (Hno r).
    + split; [|lia]. intros _ r ?. by destruct (Hno r).
    + split; [lia|]. intros [_ (r & ? & _)]. by destruct (Hno r).
    + split; [lia|]. intros [[r ?] _]. by destruct (Hno r).
    + by split.
    + by left.
  - assert (forall r, fit r -> hv r = 5 -> hv r0 = 5) as H5.
    { intros r Hr ?. specialize (Hle r Hr). lia. }
    assert (forall r, fit r -> hv r = 3 -> 3 <= hv r0) as H3.
    { intros r Hr ?. specialize (Hle r Hr). lia. }
    split_and!.
    + split; [eauto|]. intros (r & Hr & ?). eauto.
    + split; [intros ? r Hr ?; specialize (H5 r Hr); lia|]. intros Hn.
      specialize (Hn _ Hf0). lia.
    + split; [intros; split; [intros r Hr ?; specialize (H5 r Hr); lia|eauto]|].
      intros [Hn (r & Hr & ?)]. specialize (Hn _ Hf0). specialize (H3 r Hr). lia.
    + split; [|intros [_ Hall]; by apply Hall]. intros Hv. split; [eauto|].
      intros r Hr. specialize (Hle r Hr). specialize (Hval r Hr). lia.
    + split; [lia|]. intros Hno. by destruct (Hno r0).
    + lia.
Qed.

(** What the second loop and the legacy flag make of the worst verdict. *)
Lemma verdict_cases (v1 v : Z) (legacy g : bool) (G some_failed some all_ok : Prop) :
  (g = true <-> G) -> (v1 = 3 <-> v1 <= 3 /\ some_failed) ->
  (v1 = 2 <-> some /\ all_ok) -> (v1 = 0 \/ v1 = 2 \/ v1 = 3 \/ v1 = 5) ->
  (let w := if v1 <? AC_BL_PARTIAL then if g then AC_BL_PARTIAL else v1 else v1 in
   v = if (w =? AC_BL_UNBASELINED) && legacy then AC_BL_LEGACY else w) ->
  (v = AC_BL_MISMATCH <-> v1 = 5) /\
  (v = AC_BL_PARTIAL <-> v1 <= 3 /\ G) /\
  (v = AC_BL_HASH_FAILED <-> v1 <= 3 /\ ~ G /\ some_failed) /\
  (v = AC_BL_OK <-> some /\ all_ok /\ ~ G) /\
  (v = AC_BL_LEGACY <-> v1 = 0 /\ ~ G /\ legacy = true) /\
  (v = AC_BL_UNBASELINED <-> v1 = 0 /\ ~ G /\ legacy = false).
Proof.
  intros HG E3 E2 Hdom Hv.
  assert (~ G <-> g = false) as HnG by (destruct g; naive_solver).
  rewrite HnG, <- HG. clear HG HnG. cbn zeta in Hv.
  unfold AC_BL_UNBASELINED, AC_BL_LEGACY, AC_BL_OK, AC_BL_HASH_FAILED,
    AC_BL_PARTIAL, AC_BL_MISMATCH in *.
  destruct g, legacy, Hdom as [->|[->|[->| ->]]]; cbn in Hv; subst v;
    intuition (try lia; try discriminate).
Qed.

(** ** Splitting a mapping *)

(** The pieces of a cut mapping. *)
Definition piece1 (v : ac_bl_vma) (k : Z) : ac_bl_vma :=
  mk_bl_vma (bv_start v) (bv_start v + k) (bv_offset v) (bv_inode v) (bv_path v).
Definition piece2 (v : ac_bl_vma) (k : Z) : ac_bl_vma :=
  mk_bl_vma (bv_start v + k) (bv_end v) (u64 (bv_offset v + k)) (bv_inode v)
    (bv_path v).

(** [l'] is [l] with some mappings cut in two, as [madvise] or [mprotect] on a
    part of a mapping does: the pieces are adjacent and continue the file
    offsets. *)
Inductive split_list : list ac_bl_vma -> list ac_bl_vma -> Prop :=
  | split_nil : split_list [] []
  | split_keep v l l' : split_list l l' -> split_list (v :: l) (v :: l')
  | split_cut v k l l' :
      0 <= bv_start v -> 0 < k < bv_end v - bv_start v -> bv_end v < 2 ^ 64 ->
      split_list l l' ->
      split_list (v :: l)
        (piece1 v k :: piece2 v k :: l').

(** Mappings a run cannot tell apart as its first and as its last element. *)
Definition same_first (v w : ac_bl_vma) : Prop :=
  bv_start v = bv_start w /\ bv_offset v = bv_offset w /\
  bv_inode v = bv_inode w /\ bv_path v = bv_path w.
Definition same_last (v w : ac_bl_vma) : Prop :=
  bv_end v = bv_end w /\ off_end v = off_end w.

Lemma extends_same f f' p p' v w :
  bv_inode f = bv_inode f' -> bv_path f = bv_path f' -> same_last p p' ->
  same_first v w -> extends f p v = extends f' p' w.
Proof.
  intros Hi Hp [He Ho] (Hs & Ho' & Hi' & Hp'). unfold extends.
  by rewrite Hi, Hp, He, Ho, Hs, Ho', Hi', Hp'.
Qed.

Lemma pieces v k :
  0 <= bv_start v -> 0 < k < bv_end v - bv_start v -> bv_end v < 2 ^ 64 ->
  same_last v (piece2 v k) /\
  forall f, bv_inode v = bv_inode f -> bv_path v = bv_path f ->
    extends f (piece1 v k) (piece2 v k) = true.
Proof.
  intros Hs Hk He. change (2 ^ 64) with 18446744073709551616 in He.
  unfold same_last, extends, off_end, piece1, piece2.
  cbn [bv_start bv_end bv_offset bv_inode bv_path].
  split; [split; [done|word_lia]|]. intros f Hi Hp. rewrite Hi, Hp, !Z.eqb_refl.
  replace (bv_start v + k - bv_start v) with k by lia.
  rewrite (u64_id k), Z.eqb_refl by lia. by destruct (streq_spec (bv_path f) (bv_path f)).
Qed.

Lemma default_last_cons {A} (q v : A) m :
  default q (last (v :: m)) = default v (last m).
Proof.
  destruct m as [|w m]; [done|]. rewrite last_cons_cons.
  destruct (last (w :: m)) eqn:E; [done|]. by apply last_None in E.
Qed.

(** The run of the cut list stops at the same place. *)
Lemma run_ext_split l l' f f' p p' :
  split_list l l' -> bv_inode f = bv_inode f' -> bv_path f = bv_path f' ->
  same_last p p' ->
  let k := run_ext f p l in let k' := run_ext f' p' l' in
  split_list (drop k l) (drop k' l') /\
  same_last (default p (last (take k l))) (default p' (last (take k' l'))).
Proof.
  intros Hsp Hi Hp. revert p p'.
  induction Hsp as [|v l l' Hsp IH|v k l l' Hs Hk He Hsp IH]; intros p p' Hl;
    cbn zeta; cbn [run_ext].
  - split; [constructor|done].
  - rewrite (extends_same f f' p p' v v) by done.
    destruct (extends f' p' v).
    + cbn [drop take]. rewrite !default_last_cons. by apply IH.
    + by split; [constructor|].
  - destruct (pieces v k Hs Hk He) as [Hv2 Hext].
    rewrite (extends_same f f' p p' v (piece1 v k)) by done.
    destruct (extends f' p' (piece1 v k)) eqn:E1; [|by split; [by constructor|]].
    rewrite Hext.
    + cbn [drop take]. rewrite !default_last_cons. by apply IH.
    + unfold extends in E1. boolp. tauto.
    + unfold extends in E1. boolp. by destruct E1 as [[[_ ?%streq_true] _] _].
Qed.

Lemma check_run_same pread op ok fs dir f f' p p' fd :
  same_first f f' -> same_last p p' ->
  baseline_check_run pread op ok fs dir f p fd =
  baseline_check_run pread op ok fs dir f' p' fd.
Proof.
  intros (Hs & Ho & Hi & Hp) [_ He]. unfold baseline_check_run.
  by rewrite Hs, Ho, Hi, Hp, He.
Qed.

Lemma run_end_0 f l : (baseline_run_end (f :: l) 0 - 1)%nat = run_ext f f l.
Proof. unfold baseline_run_end. cbn [drop]. lia. Qed.

(** What is reported of a run. *)
Definition run_view (x : ac_bl_vma * bool * ac_bl_run_result)
    : list Z * bool * ac_bl_run_result :=
  let '(first, at_end, res) := x in (bv_path first, at_end, res).

Lemma check_runs_split pread op ok fs dir n n' l l' fd :
  split_list l l' -> (length l <= n)%nat -> (length l' <= n')%nat ->
  run_view <$> fst (check_runs pread op ok n fs dir l fd) =
  run_view <$> fst (check_runs pread op ok n' fs dir l' fd).
Proof.
  revert n' l l' fd. induction n as [|n IH]; intros n' l l' fd Hsp Hn Hn'.
  { destruct Hsp; cbn [length] in *; try lia. by destruct n'. }
  assert (forall f f' m m', same_first f f' ->
    let k := run_ext f f m in let k' := run_ext f' f' m' in
    l = f :: m -> l' = f' :: m' -> split_list (drop k m) (drop k' m') ->
    same_last (default f (last (take k m))) (default f' (last (take k' m'))) ->
    run_view <$> fst (check_runs pread op ok (S n) fs dir l fd) =
    run_view <$> fst (check_runs pread op ok n' fs dir l' fd)) as Hrun.
  { intros f f' m m' Hf k k' -> -> Hd Hl. cbn [length] in *.
    destruct n' as [|n']; [lia|]. cbn [check_runs]. rewrite !run_end_0.
    fold k k'. rewrite (check_run_same _ _ _ _ _ _ _ _ _ _ Hf Hl).
    destruct (baseline_check_run _ _ _ _ _ _ _ _) as [res fd1].
    specialize (IH n' _ _ fd1 Hd). rewrite !length_drop in IH.
    specialize (IH ltac:(lia) ltac:(lia)).
    destruct (check_runs _ _ _ n _ _ _ _) as [r1 ?], (check_runs _ _ _ n' _ _ _ _) as [r2 ?].
    cbn [fst fmap list_fmap] in *. rewrite <- IH. f_equal. cbn [run_view].
    destruct Hf as (_ & _ & _ & ->).
    by destruct Hd; cbn [length]. }
  destruct Hsp as [|v l l' Hsp|v k l l' Hs Hk He Hsp].
  - cbn [check_runs]. by destruct n'.
  - destruct (run_ext_split l l' v v v v Hsp) as [H1 H2]; try done.
    by eapply Hrun.
  - destruct (pieces v k Hs Hk He) as [Hv2 Hext].
    destruct (run_ext_split l l' v (piece1 v k) v (piece2 v k) Hsp) as [H1 H2]; try done.
    eapply (Hrun v (piece1 v k) l (piece2 v k :: l')); try done;
      cbn [run_ext]; rewrite Hext by done; cbn [drop take]; [done|].
    by rewrite default_last_cons.
Qed.

Lemma check_vmas_split fs dir it pv complete vmas vmas' :
  split_list vmas vmas' ->
  check_vmas fs dir it pv complete vmas = check_vmas fs dir it pv complete vmas'.
Proof.
  intros Hsp. unfold check_vmas.
  pose proof (check_runs_split (pv_pread pv) (pv_open pv) (pv_fopen pv) fs dir (length vmas)
    (length vmas') vmas vmas' (-1) Hsp (le_n _) (le_n _)) as Hv.
  destruct (check_runs _ _ _ _ _ _ vmas _) as [r1 ?],
    (check_runs _ _ _ _ _ _ vmas' _) as [r2 ?]. cbn [fst] in Hv.
  set (g := fun x : list Z * bool * ac_bl_run_result => let '(path, at_end, res) := x in
    run_msg (pi_pid it) (pi_comm it) path (negb complete && at_end) res).
  assert (forall r : list (ac_bl_vma * bool * ac_bl_run_result),
    (fun '(first, at_end, res) => run_msg (pi_pid it) (pi_comm it)
    (bv_path first) (negb complete && at_end) res) <$> r = g <$> (run_view <$> r)) as Hg.
  { intros r. rewrite <- list_fmap_compose. apply list_fmap_ext. by intros _ [[? ?] ?] _. }
  by rewrite !Hg, Hv.
Qed.

Lemma split_rtc fs dir it pv complete vmas vmas' :
  rtc split_list vmas vmas' ->
  check_vmas fs dir it pv complete vmas = check_vmas fs dir it pv complete vmas'.
Proof.
  induction 1 as [|x y z Hxy _ IH]; [done|]. by rewrite <- IH; apply check_vmas_split.
Qed.

(** [pv'] shows the process of [pv] with executable mappings cut in two any
    number of times; both snapshots hold every mapping. *)
Definition recut (pv pv' : proc_view) : Prop :=
  exists n n' vmas vmas',
    pv_begin pv = Some (n, false) /\ 0 <= n <= Z.of_nat AC_MAX_VMAS /\
    gather (pv_get pv) (Z.to_nat n) 0 = (vmas, true) /\
    pv_begin pv' = Some (n', false) /\ 0 <= n' <= Z.of_nat AC_MAX_VMAS /\
    gather (pv_get pv') (Z.to_nat n') 0 = (vmas', true) /\
    rtc split_list vmas vmas' /\
    pv_open pv' = pv_open pv /\ pv_pread pv' = pv_pread pv /\ pv_fopen pv' = pv_fopen pv.

Lemma recut_process fs dir it pv pv' :
  recut pv pv' -> check_process fs dir it pv' = check_process fs dir it pv.
Proof.
  intros (n & n' & vmas & vmas' & Hb & Hn & Hg & Hb' & Hn' & Hg' & Hsp & Ho & Hp & Hf).
  assert (forall m, 0 <= m <= Z.of_nat AC_MAX_VMAS -> clamp_vma_count m = (m, [])) as Hclamp.
  { intros m Hm. unfold clamp_vma_count. by case_test; [lia|]. }
  unfold check_process. rewrite Hb, Hb', !Hclamp, Hg, Hg' by done.
  rewrite (split_rtc fs dir it pv _ vmas vmas' Hsp). unfold check_vmas.
  by rewrite Ho, Hp, Hf.
Qed.

(** The whole classification of a run. *)
Definition verdict_ref (mem : Z -> option Z) (opened legacy : bool)
    (first last : ac_bl_vma) (recs : list ac_baseline_rec) (v : Z) : Prop :=
  let fit := inside first last recs in
  let cur := current mem opened first in
  let dif := differs mem opened first in
  (v = AC_BL_MISMATCH <-> exists r, fit r /\ dif r) /\
  (v = AC_BL_PARTIAL <-> (forall r, fit r -> ~ dif r) /\ gap first last recs) /\
  (v = AC_BL_HASH_FAILED <-> (forall r, fit r -> ~ dif r) /\
     ~ gap first last recs /\ exists r, fit r /\ cur r = None) /\
  (v = AC_BL_OK <-> (exists r, fit r) /\
     (forall r, fit r -> cur r = Some (r_hex r)) /\ ~ gap first last recs) /\
  (v = AC_BL_LEGACY <-> (forall r, ~ fit r) /\ ~ gap first last recs /\
     legacy = true) /\
  (v = AC_BL_UNBASELINED <-> (forall r, ~ fit r) /\ ~ gap first last recs /\
     legacy = false).

Lemma check_run_ref pread mem open_mem fopen_ok fs dir first last mem_fd recs legacy :
  mem_laws pread mem -> run_ok first last ->
  baseline_load_records (fopen_ok (bv_start first)) fs
    (baseline_path_for dir (bv_path first)) = (recs, legacy) ->
  verdict_ref mem (negb (lazy_open open_mem mem_fd <? 0)) legacy first last recs
    (rr_verdict (fst (baseline_check_run pread open_mem fopen_ok fs dir first last mem_fd))).
Proof.
  intros Hlaw Hok Hload.
  pose proof (proj1 (load_wf (fopen_ok (bv_start first)) fs
    (baseline_path_for dir (bv_path first)))) as Hwf.
  unfold baseline_check_run. rewrite Hload in *. cbn [fst] in Hwf.
  unfold verdict_ref. set (opened := negb _). cbn zeta.
  pose proof (check_recs_worst pread open_mem (bv_start first) (bv_inode first)
    (bv_offset first) (off_end last)
    (Z.min (u64 (off_end last - bv_offset first)) AC_HASH_CAP) recs
    (mk_run_result AC_BL_UNBASELINED 0 0 true) _ mem_fd eq_refl) as Hworst.
  destruct (foldl _ _ _) as [res fd]. cbn [fst rr_verdict] in Hworst.
  fold (run_fits first last recs) in Hworst.
  set (hv := rec_verdict pread (lazy_open open_mem mem_fd) _ _) in Hworst.
  pose proof (fits_inside first last recs Hwf Hok) as Hfi.
  setoid_rewrite Hfi in Hworst.
  assert (forall r, inside first last recs r -> hv r =
    match current mem opened first r with
    | None => 3 | Some h => if streq h (r_hex r) then 2 else 5 end) as Hhv.
  { intros r Hr. apply Hfi in Hr.
    by apply (rec_verdict_current first last recs Hwf Hok mem opened). }
  destruct Hworst as (Hw0 & Hwle & Hwat).
  destruct (worst_cases (inside first last recs) hv (rr_verdict res))
    as (E5 & E3' & E3 & E2 & E0 & Hdom); [|done|done|done|].
  { intros r Hr. rewrite (Hhv r Hr). repeat (case_match; auto). }
  assert (forall r, inside first last recs r ->
    (differs mem opened first r <-> hv r = 5) /\
    (current mem opened first r = None <-> hv r = 3) /\
    (current mem opened first r = Some (r_hex r) <-> hv r = 2)) as Hcur.
  { intros r Hr. unfold differs. rewrite (Hhv r Hr).
    destruct (current mem opened first r) as [h|]; [|naive_solver].
    destruct (streq_spec h (r_hex r)); naive_solver. }
  assert (forall P Q : ac_baseline_rec -> Prop,
    (forall r, inside first last recs r -> (P r <-> Q r)) ->
    ((exists r, inside first last recs r /\ P r) <->
     (exists r, inside first last recs r /\ Q r)) /\
    ((forall r, inside first last recs r -> P r) <->
     (forall r, inside first last recs r -> Q r))) as Hext by naive_solver.
  rewrite (proj1 (Hext _ _ (fun r Hr => proj1 (Hcur r Hr)))), <- E5.
  rewrite (proj1 (Hext _ _ (fun r Hr => proj1 (proj2 (Hcur r Hr))))).
  rewrite (proj2 (Hext _ _ (fun r Hr => proj2 (proj2 (Hcur r Hr))))).
  assert ((forall r, inside first last recs r -> ~ differs mem opened first r)
    <-> rr_verdict res <= 3) as -> by (rewrite E3'; naive_solver).
  rewrite <- E0.
  pose proof (partial_loop_verdict (bv_inode first) (bv_offset first) (off_end last)
    recs recs res) as Hpart.
  rewrite <- E3' in E3.
  eapply verdict_cases; [by apply gap_existsb|exact E3|exact E2|exact Hdom|].
  cbn zeta. unfold run_kind. rewrite <- Hpart. by destruct (_ && legacy).
Qed.

(** ** Properties *)

(** C21: for a process whose memory can be modelled as readable or unreadable
    bytes, the verdict on a run is exactly what the records loaded for its
    file and its memory say ([verdict_ref]).  MISMATCH means a record that
    speaks about bytes of the run only and whose bytes hash differently now;
    PARTIAL means no such record, but a byte of the run that a record speaks
    about and no record inside the run does; HASH_FAILED, OK, LEGACY and
    UNBASELINED divide the rest.  In particular the covering loop, which the
    fuel bounds, always finishes. *)
Theorem check_run_exact pread mem open_mem fopen_ok fs dir first last mem_fd recs legacy :
  mem_laws pread mem -> run_ok first last ->
  baseline_load_records (fopen_ok (bv_start first)) fs
    (baseline_path_for dir (bv_path first)) = (recs, legacy) ->
  verdict_ref mem (negb (lazy_open open_mem mem_fd <? 0)) legacy first last recs
    (rr_verdict (fst (baseline_check_run pread open_mem fopen_ok fs dir first last mem_fd))).
Proof. apply check_run_ref. Qed.

(** C23: cutting executable mappings of protected processes in two, any number
    of times, changes nothing about what the periodic check reports, as long
    as the snapshot still holds every mapping: no more than AC_MAX_VMAS, and
    each of them fetched.  The runs, their verdicts and messages are those of
    the uncut mappings. *)
Theorem split_invisible fs dir lst view view' :
  (forall pid, view' pid = view pid \/ recut (view pid) (view' pid)) ->
  check_baselines_periodic fs dir lst view' = check_baselines_periodic fs dir lst view.
Proof.
  intros Hv. unfold check_baselines_periodic. destruct lst as [[count items]|]; [|done].
  destruct (clamp_prot_count count) as [n warn]. do 3 f_equal. apply list_fmap_ext.
  intros _ it _. destruct (Hv (pi_pid it)) as [->|Hc]; [done|]. by apply recut_process.
Qed.

(** once a mapping's digest has been saved, the periodic check raises
    one critical message, and nothing else, when the saved range hashes
    differently, however the mapping has been cut since. *)
Theorem patch_detected e fs dir v hex fs' err ops it pv mem complete vmas' bs :
  0 <= bv_start v < bv_end v -> bv_end v < 9223372036854775808 ->
  0 <= bv_offset v -> bv_offset v + (bv_end v - bv_start v) < 2 ^ 64 ->
  0 <= bv_inode v < 2 ^ 64 -> wf_hex hex ->
  let size := Z.min (bv_end v - bv_start v) AC_HASH_CAP in
  baseline_save_record e fs (baseline_path_for dir (bv_path v)) (bv_inode v)
    (bv_offset v) size hex = (0, err, fs', ops) ->
  mem_laws (pv_pread pv) mem -> 0 <= pv_open pv -> pv_fopen pv (bv_start v) = true ->
  mem_range mem (bv_start v) (Z.to_nat size) = Some bs ->
  ac_sha256_hex bs <> hex ->
  rtc split_list [v] vmas' ->
  exists m, check_vmas fs' dir it pv complete vmas' = [m] /\ m_pri m = LOG_CRIT.
Proof.
  intros Hs He Ho Hoe Hi Hhex size Hsave Hlaw Hopen Hfopen Hmem Hdiff Hsp.
  rewrite <- (split_rtc fs' dir it pv complete [v] vmas' Hsp).
  assert (off_end v = bv_offset v + (bv_end v - bv_start v)) as Hend.
  { unfold off_end. rewrite !u64_id by (rewrite ?u64_id; lia). done. }
  assert (0 < size <= bv_end v - bv_start v) as Hsize
    by (unfold size, AC_HASH_CAP; lia).
  set (r := mk_rec (bv_inode v) (bv_offset v) size hex).
  assert (wf_rec r) as Hwf by (split_and!; cbn; lia || apply Hhex).
  pose proof (save_cases e fs (baseline_path_for dir (bv_path v)) (bv_inode v)
    (bv_offset v) size hex) as Hc.
  rewrite Hsave in Hc. destruct Hc as [[(_ & -> & Hk)|[[? _]|[? _]]] _]; try done.
  pose proof (load_saved (se_fopen e) fs (baseline_path_for dir (bv_path v)) r Hwf Hk) as Hload.
  assert (run_ok v v) as Hok by (unfold run_ok; lia).
  rewrite <- Hfopen in Hload.
  pose proof (check_run_ref (pv_pread pv) mem (pv_open pv) (pv_fopen pv) _ dir v v (-1) _ _
    Hlaw Hok Hload) as [Hmis _].
  unfold check_vmas. cbn [length check_runs]. rewrite run_end_0. cbn [run_ext take drop].
  cbn [last default]. destruct (baseline_check_run _ _ _ _ _ _ _ _) as [res fd].
  cbn [fst] in Hmis. cbn [fmap list_fmap concat]. rewrite app_nil_r.
  assert (rr_verdict res = AC_BL_MISMATCH) as Hv.
  { apply Hmis. exists r. split.
    - unfold inside, speaks, in_run, r. cbn [r_inode r_offset r_size].
      split; [|lia]. exists (bv_offset v).
      split_and!; [apply elem_of_app; right; by left|reflexivity|lia..].
    - exists (ac_sha256_hex bs). split; [|done]. unfold current.
      cbn [r r_offset r_size]. rewrite Z.sub_diag, Z.add_0_r, Hmem.
      unfold lazy_open. cbn [Z.eqb Pos.eqb].
      destruct (Z.ltb_spec (pv_open pv) 0); [lia|].
      by destruct (Z.ltb_spec (pv_open pv) 0); [lia|]. }
  unfold run_msg. rewrite Hv. cbn. eauto.
Qed.

End Runs.

(** A library mapped executable at 0x10000, saved, and patched. *)
Module RunsDemo.
Import Runs Baseline.BaselineDemo.

Definition lib : list Z := lit "/usr/lib/libgame.so".
Definition dir : list Z := lit "/var/lib/anticheat/baselines".
Definition text : ac_bl_vma := mk_bl_vma 65536 65546 4096 7 lib.
Definition clean : list Z := lit "0123456789".
Definition patched : list Z := lit "0123X56789".

Definition view (bytes : list Z) : proc_view :=
  mk_proc_view (Some (1, false))
    (fun i => if i =? 0 then Some (mk_vma_info 65536 65546 4096 7 AC_VM_EXEC true lib) else None)
    5 (image_pread 65536 bytes) (fun _ => true).

(** The same with the mapping cut. *)
Definition view_cut (bytes : list Z) : proc_view :=
  mk_proc_view (Some (2, false))
    (fun i =>
       if i =? 0 then Some (mk_vma_info 65536 65540 4096 7 AC_VM_EXEC true lib)
       else if i =? 1 then Some (mk_vma_info 65540 65546 4100 7 AC_VM_EXEC true lib)
       else None)
    5 (image_pread 65536 bytes) (fun _ => true).

Definition store : files :=
  <[baseline_path_for dir lib :=
     new_content [] (mk_rec 7 4096 10 (ac_sha256_hex clean))]> ∅.

Lemma check_run_exact_witness :
  rr_verdict (fst (baseline_check_run (image_pread 65536 patched) 5 (fun _ => true) store dir
    text text (-1))) = AC_BL_MISMATCH.
Proof.
  apply (check_run_exact (image_pread 65536 patched) (image_mem 65536 patched) 5
    (fun _ => true) store dir text text (-1) [mk_rec 7 4096 10 (ac_sha256_hex clean)] false).
  - apply image_laws.
  - repeat split; vm_compute; done.
  - vm_compute. reflexivity.
  - eexists. split.
    + split; [exists 4096; split; [apply list_elem_of_singleton; reflexivity|]|];
        unfold speaks, in_run, text;
        cbn [r_inode r_offset r_size bv_inode bv_offset bv_start bv_end]; lia.
    + eexists. split; [vm_compute; reflexivity|vm_compute; discriminate].
Defined.

Lemma split_invisible_witness :
  check_baselines_periodic store dir (Some (1, [mk_prot_item 42 false (lit "game")]))
    (fun _ => view_cut patched)
  = check_baselines_periodic store dir (Some (1, [mk_prot_item 42 false (lit "game")]))
      (fun _ => view patched).
Proof.
  apply (split_invisible store dir _ (fun _ => view patched) (fun _ => view_cut patched)).
  intros _. right. exists 1, 2, [text], [piece1 text 4; piece2 text 4].
  split; [reflexivity|]. split; [split; vm_compute; discriminate|].
  split; [vm_compute; reflexivity|]. split; [reflexivity|].
  split; [split; vm_compute; discriminate|]. split; [vm_compute; reflexivity|].
  split; [apply rtc_once, split_cut; [cbn; lia..|constructor]|].
  split_and!; reflexivity.
Defined.

Lemma saved_store :
  baseline_save_record all_ok ∅ (baseline_path_for dir lib) 7 4096 10
    (ac_sha256_hex clean)
  = (0, None, store, [OpenLock; LockEx; MakeTmp; CloseTmp; RenameTmp; Unlock; CloseLock]).
Proof.
  unfold baseline_save_record, save_locked, kept_recs, baseline_load_records.
  assert (length (baseline_path_for dir lib) = 97%nat) as -> by by vm_compute.
  by rewrite lookup_empty.
Qed.

Lemma clean_hex : wf_hex (ac_sha256_hex clean).
Proof.
  split; [vm_compute; discriminate|]. split; [vm_compute; lia|].
  vm_compute. repeat constructor; discriminate.
Qed.

Lemma patch_detected_witness : exists m,
  check_vmas store dir (mk_prot_item 42 false (lit "game")) (view patched) true
    [piece1 text 4; piece2 text 4] = [m] /\ m_pri m = LOG_CRIT.
Proof.
  apply (patch_detected all_ok ∅ dir text (ac_sha256_hex clean) store None
    [OpenLock; LockEx; MakeTmp; CloseTmp; RenameTmp; Unlock; CloseLock]
    (mk_prot_item 42 false (lit "game")) (view patched) (image_mem 65536 patched) true
    [piece1 text 4; piece2 text 4] patched).
  1-5: repeat split; vm_compute; done.
  - exact clean_hex.
  - exact saved_store.
  - apply image_laws.
  - vm_compute. discriminate.
  - reflexivity.
  - vm_compute. reflexivity.
  - vm_compute. discriminate.
  - apply rtc_once. apply split_cut; [cbn; lia..|constructor].
Defined.

(** The patched page is found, the clean one is not reported. *)
Example clean_is_silent :
  check_vmas store dir (mk_prot_item 42 false (lit "game")) (view clean) true
    [piece1 text 4; piece2 text 4] = [].
Proof. by vm_compute. Qed.

(** Unmapping one piece leaves the saved range only partly checked: critical. *)
Example unmapped_piece_reported :
  m_pri <$> check_vmas store dir (mk_prot_item 42 false (lit "game")) (view clean) true
    [piece1 text 4] = [LOG_CRIT].
Proof. by vm_compute. Qed.

(** A baseline that cannot be opened reads as one that was never saved: the
    patch goes unreported. *)
Example unreadable_baseline_silent :
  let pv := view patched in
  check_vmas store dir (mk_prot_item 42 false (lit "game"))
    (mk_proc_view (pv_begin pv) (pv_get pv) (pv_open pv) (pv_pread pv) (fun _ => false))
    true [text] = [].
Proof. by vm_compute. Qed.

End RunsDemo.
