(* ===== verification/Report.v ===== *)
(** Reporting to the server (src/anticheat_daemon.c): JSON escaping, the
    client id, the destination URL, the request and its framing, the status
    line, and [ac_report] itself with every socket it opens. *)

From S2P Require Import Prelude CText CScan DLog.

#[local] Open Scope Z_scope.

Module Report.

(** ** JSON escaping *)

Definition quote : Z := 34.
Definition bslash : Z := 92.

(** What one character becomes. *)
Definition esc (c : Z) : list Z :=
  if c =? quote then [bslash; quote]
  else if c =? bslash then [bslash; bslash]
  else if c =? 10 then [bslash; 110]
  else if c =? 13 then [bslash; 114]
  else if c =? 9 then [bslash; 116]
  else if c <? 32 then
    [bslash; 117; 48; 48; digit_char (c / 16); digit_char (c mod 16)]
  else [c].

(** The loop, with [o] characters already written. *)
Fixpoint escape_loop (outsz o : nat) (inp : list Z) : list Z :=
  match inp with
  | c :: inp' =>
      if (o + 7 <? outsz)%nat
      then esc c ++ escape_loop outsz (o + length (esc c)) inp'
      else []
  | [] => []
  end.

Definition ac_json_escape (inp : list Z) (outsz : nat) : list Z :=
  escape_loop outsz 0 inp.

(** ** The client id *)

Definition id_char (c : Z) : bool :=
  ((65 <=? c) && (c <=? 90)) || ((97 <=? c) && (c <=? 122)) || isdigit c
  || (c =? 46) || (c =? 95) || (c =? 45).

(** Drop trailing newlines and carriage returns. *)
Fixpoint rtrim_nl (s : list Z) : list Z :=
  match s with
  | c :: s' =>
      match rtrim_nl s' with
      | [] => if (c =? 10) || (c =? 13) then [] else [c]
      | t => c :: t
      end
  | [] => []
  end.

(** [machine_id]: the contents of /etc/machine-id; [hostname]: what
    [gethostname] stored, [None] when it failed. *)
Definition ac_report_client_id (machine_id hostname : option (list Z))
    (outsz : nat) : list Z :=
  let from_file :=
    match machine_id with
    | Some f => rtrim_nl (cstr (fst (fgets_n (outsz - 1) f)))
    | None => []
    end in
  match from_file with
  | _ :: _ => from_file
  | [] =>
      match hostname with
      | Some h =>
          match (fun c => if id_char c then c else 95)
                  <$> strscpy outsz (cstr h) with
          | [] => strscpy outsz (lit "unknown")
          | out => out
          end
      | None => strscpy outsz (lit "unknown")
      end
  end.

(** ** The status line *)

Definition starts_with (pre s : list Z) : bool :=
  streq (take (length pre) s) pre.

(** The byte at [i] of a C string; past its end, the terminator. *)
Definition at_ (s : list Z) (i : nat) : Z := default 0 (s !! i).

Definition ac_http_status_code (resp : list Z) : Z :=
  if negb (starts_with (lit "HTTP/1.") resp) then -1
  else
    let p := drop 7 resp in
    if negb (isdigit (at_ p 0)) then -1
    else if negb (at_ p 1 =? 32) then -1
    else
      let p := drop 2 p in
      if negb (isdigit (at_ p 0)) || negb (isdigit (at_ p 1))
         || negb (isdigit (at_ p 2)) then -1
      else if negb (at_ p 3 =? 32) && negb (at_ p 3 =? 13)
              && negb (at_ p 3 =? 10) && negb (at_ p 3 =? 0) then -1
      else (at_ p 0 - 48) * 100 + (at_ p 1 - 48) * 10 + (at_ p 2 - 48).

(** ** The destination *)

Record ac_report_dest := mk_dest {
  d_is_unix : bool;
  d_host : list Z;
  d_port : list Z;
  d_sock_path : list Z;
}.

Definition HOST_SIZE : nat := 256.
Definition PORT_SIZE : nat := 32.
Definition SUN_PATH : nat := 108.

Definition ac_header_value_safe (s : option (list Z)) : bool :=
  match s with
  | None => false
  | Some s => negb (existsb (Z.eqb 13) s) && negb (existsb (Z.eqb 10) s)
  end.

(** [strchr] and [strrchr]: the index of the first or last occurrence. *)
Definition strchr (c : Z) (s : list Z) : option nat :=
  find_index (Z.eqb c) s.

Fixpoint strrchr (c : Z) (s : list Z) : option nat :=
  match s with
  | a :: s' =>
      match strrchr c s' with
      | Some i => Some (S i)
      | None => if c =? a then Some O else None
      end
  | [] => None
  end.

(** Why a URL is refused. *)
Inductive url_error :=
  | UnixNoPath | UnixTooLong | NoClosingBracket | BracketNoPort | EmptyHost
  | NoColon | HostCrlf | NoPort | PortTooLong | HostTooLong | PortNotNumeric
  | PortRange.

(** The host and what follows the colon. *)
Definition split_host (url : list Z) : url_error + list Z * list Z :=
  if at_ url 0 =? 91 then
    match strchr 93 url with
    | None => inl NoClosingBracket
    | Some close =>
        if negb (at_ url (close + 1) =? 58) then inl BracketNoPort
        else if (close =? 1)%nat then inl EmptyHost
        else inr (take (close - 1) (drop 1 url), drop (close + 2) url)
    end
  else
    match strrchr 58 url with
    | None => inl NoColon
    | Some colon =>
        if (colon =? 0)%nat then inl EmptyHost
        else inr (take colon url, drop (colon + 1) url)
    end.

(** The port: up to a slash, 1 to 65535. *)
Definition check_port (host port_str : list Z) : url_error + list Z :=
  let port := match strchr 47 port_str with
              | Some i => take i port_str
              | None => port_str
              end in
  if (length port =? 0)%nat then inl NoPort
  else if (PORT_SIZE <=? length port)%nat then inl PortTooLong
  else if (HOST_SIZE <=? length host)%nat then inl HostTooLong
  else
    let '(v, end_) := strtoul10 port in
    if (length end_ =? length port)%nat || negb (length end_ =? 0)%nat
    then inl PortNotNumeric
    else if (v =? 0) || (65535 <? v) then inl PortRange
    else inr port.

Definition strip_scheme (url : list Z) : list Z :=
  if starts_with (lit "http://") url then drop 7 url
  else if starts_with (lit "https://") url then drop 8 url
  else url.

Definition ac_report_parse_url (url : list Z) : url_error + ac_report_dest :=
  if starts_with (lit "unix://") url then
    let path := drop 7 url in
    if (length path =? 0)%nat then inl UnixNoPath
    else if (SUN_PATH <=? length path)%nat then inl UnixTooLong
    else inr (mk_dest true (lit "localhost") [] path)
  else
    match split_host (strip_scheme url) with
    | inl e => inl e
    | inr (host, port_str) =>
        if existsb (Z.eqb 13) host || existsb (Z.eqb 10) host then inl HostCrlf
        else
          match check_port host port_str with
          | inl e => inl e
          | inr port => inr (mk_dest false host port [])
          end
    end.

(** The warning for an https:// URL: [warned] are the destinations already
    warned about, at most 8; the result says whether it warns now. *)
Definition HTTPS_WARN_DSTS : nat := 8.
Definition HTTPS_WARN_KEY : nat := 288.

Definition https_warn (warned : list (list Z)) (url : list Z)
    (d : ac_report_dest) : bool * list (list Z) :=
  if negb (starts_with (lit "unix://") url) && starts_with (lit "https://") url then
    let key := strscpy HTTPS_WARN_KEY (d_host d ++ lit ":" ++ d_port d) in
    if existsb (streq key) warned then (false, warned)
    else (true, if (length warned <? HTTPS_WARN_DSTS)%nat
                then warned ++ [key] else warned)
  else (false, warned).

(** ** The request *)

Definition qt : list Z := [quote].

(** [snprintf(body, sizeof body, ...)] before the size test. *)
Definition report_body (client_id event_type detail : list Z) (now : Z)
    : list Z :=
  concat [lit "{"; qt; lit "client_id"; qt; lit ":"; qt;
    ac_json_escape client_id 256; qt; lit ","; qt; lit "event_type"; qt;
    lit ":"; qt; ac_json_escape event_type 64; qt; lit ","; qt; lit "detail";
    qt; lit ":"; qt; ac_json_escape detail 600; qt; lit ","; qt; lit "ts"; qt;
    lit ":"; fmt_d now; lit "}"].

Definition crlf : list Z := [13; 10].

Definition report_request (host key body : list Z) : list Z :=
  concat [lit "POST /report HTTP/1.1"; crlf;
    lit "Host: "; host; crlf;
    lit "Authorization: Bearer "; key; crlf;
    lit "Content-Type: application/json"; crlf;
    lit "Content-Length: "; fmt_u (Z.of_nat (length body)); crlf;
    lit "Connection: close"; crlf; crlf; body].

(** ** [ac_report] *)

(** A socket attempt: [socket] failed, [connect] failed, or connected. *)
Inductive attempt := NoSocket | NoConnect | Connected.

(** What the system gives one call. *)
Record report_env := mk_report_env {
  re_url : option (list Z);                (** AC_REPORT_URL *)
  re_key : option (list Z);                (** AC_REPORT_KEY *)
  re_machine_id : option (list Z);
  re_hostname : option (list Z);
  re_now : Z;
  re_unix : attempt;
  re_addrs : list attempt;                 (** the resolved addresses, in order *)
  re_writes : list Z;                      (** what each [write] returns *)
  re_read : option (list Z);               (** [None]: error; []: closed *)
}.

Inductive sock_op := SockOpen | SockClose | SockWrite (bytes : list Z).

(** How a report ends. *)
Inductive report_end :=
  | NotConfigured | BadUrl (e : url_error) | UnsafeHeader | BodyTooLarge
  | CannotConnect | RequestTooLarge | SendFailed | ShortWrite
  | Answered (code : Z).

(** Try the addresses in order; whether a socket is left connected. *)
Fixpoint connect_any (l : list attempt) : bool * list sock_op :=
  match l with
  | [] => (false, [])
  | NoSocket :: l' => connect_any l'
  | NoConnect :: l' =>
      let '(ok, ops) := connect_any l' in (ok, SockOpen :: SockClose :: ops)
  | Connected :: _ => (true, [SockOpen])
  end.

(** The sending loop: [None] when a [write] failed, otherwise how many bytes
    were accepted.  A [write] is never asked for nothing, so every turn but
    the last makes progress. *)
Fixpoint send_loop (writes : list Z) (req : list Z) (sent : nat)
    : option nat * list sock_op :=
  if (sent <? length req)%nat then
    match writes with
    | [] => (Some sent, [])
    | w :: writes' =>
        if w <? 0 then (None, [])
        else if w =? 0 then (Some sent, [])
        else
          let n := Nat.min (Z.to_nat w) (length req - sent) in
          let '(r, ops) := send_loop writes' req (sent + n) in
          (r, SockWrite (take n (drop sent req)) :: ops)
    end
  else (Some sent, []).

(** From the connected socket on. *)
Definition send_request (e : report_env) (host key body : list Z)
    : report_end * list sock_op :=
  let req := report_request host key body in
  if (2048 <=? length req)%nat then (RequestTooLarge, [SockClose])
  else
    let '(r, ops) := send_loop (re_writes e) req 0 in
    match r with
    | None => (SendFailed, ops ++ [SockClose])
    | Some sent =>
        if negb (sent =? length req)%nat then (ShortWrite, ops ++ [SockClose])
        else
          let code :=
            match re_read e with
            | Some ((_ :: _) as resp) => ac_http_status_code (cstr (take 63 resp))
            | _ => -1
            end in
          (Answered code, ops ++ [SockClose])
    end.

Definition nonempty (s : option (list Z)) : bool :=
  match s with Some (_ :: _) => true | _ => false end.

Definition ac_report (e : report_env) (event_type detail : list Z)
    : report_end * list sock_op :=
  if negb (nonempty (re_url e)) || negb (nonempty (re_key e)) then (NotConfigured, [])
  else
    let key := default [] (re_key e) in
    match ac_report_parse_url (default [] (re_url e)) with
    | inl err => (BadUrl err, [])
    | inr dest =>
        if negb (ac_header_value_safe (Some (d_host dest)))
           || negb (ac_header_value_safe (re_key e)) then (UnsafeHeader, [])
        else
          let cid := ac_report_client_id (re_machine_id e) (re_hostname e) 128 in
          let body := report_body cid event_type detail (re_now e) in
          if (1024 <=? length body)%nat then (BodyTooLarge, [])
          else
            let '(ok, ops) :=
              connect_any (if d_is_unix dest then [re_unix e] else re_addrs e) in
            if ok then
              let '(r, ops') := send_request e (d_host dest) key body in
              (r, ops ++ ops')
            else (CannotConnect, ops)
    end.

(** ** Reference readers *)

(** A JSON string after its opening quote (RFC 8259, code points below 256):
    the value and what follows the closing quote. *)
Definition hex4 (a b c d : Z) : option Z :=
  match hexval a, hexval b, hexval c, hexval d with
  | Some x, Some y, Some z, Some w => Some (((x * 16 + y) * 16 + z) * 16 + w)
  | _, _, _, _ => None
  end.

Definition unesc1 (e : Z) : option Z :=
  if (e =? quote) || (e =? bslash) || (e =? 47) then Some e
  else if e =? 98 then Some 8
  else if e =? 102 then Some 12
  else if e =? 110 then Some 10
  else if e =? 114 then Some 13
  else if e =? 116 then Some 9
  else None.

Definition jcons (c : Z) (r : option (list Z * list Z)) : option (list Z * list Z) :=
  match r with Some (v, rest) => Some (c :: v, rest) | None => None end.

Fixpoint json_string (s : list Z) : option (list Z * list Z) :=
  match s with
  | [] => None
  | x :: s1 =>
      if x =? quote then Some ([], s1)
      else if x =? bslash then
        match s1 with
        | e :: s2 =>
            if e =? 117 then
              match s2 with
              | a :: b :: c :: d :: s3 =>
                  match hex4 a b c d with
                  | Some v => if v <? 256 then jcons v (json_string s3) else None
                  | None => None
                  end
              | _ => None
              end
            else match unesc1 e with
                 | Some c => jcons c (json_string s2)
                 | None => None
                 end
        | [] => None
        end
      else if x <? 32 then None
      else jcons x (json_string s1)
  end.

(** A flat object of strings and integers, written without blanks. *)
Inductive jval := JStr (s : list Z) | JNum (n : Z).

Definition json_value (s : list Z) : option (jval * list Z) :=
  match s with
  | 34 :: s' => match json_string s' with
                | Some (v, rest) => Some (JStr v, rest)
                | None => None
                end
  | 45 :: s' => match some_digits decval 10 s' with
                | Some (n, rest) => Some (JNum (- n), rest)
                | None => None
                end
  | _ => match some_digits decval 10 s with
         | Some (n, rest) => Some (JNum n, rest)
         | None => None
         end
  end.

Fixpoint json_members (fuel : nat) (s : list Z) : option (list (list Z * jval)) :=
  match fuel, s with
  | S f, 34 :: s1 =>
      match json_string s1 with
      | Some (k, 58 :: s2) =>
          match json_value s2 with
          | Some (v, [125]) => Some [(k, v)]
          | Some (v, 44 :: s3) =>
              match json_members f s3 with
              | Some m => Some ((k, v) :: m)
              | None => None
              end
          | _ => None
          end
      | _ => None
      end
  | _, _ => None
  end.

Definition json_object (s : list Z) : option (list (list Z * jval)) :=
  match s with 123 :: s' => json_members (length s') s' | _ => None end.

(** HTTP: the lines up to the empty one, and what follows it. *)
Fixpoint http_head (line s : list Z) : option (list (list Z) * list Z) :=
  match s with
  | 13 :: 10 :: s' =>
      match line with
      | [] => Some ([], s')
      | _ => match http_head [] s' with
             | Some (ls, body) => Some (line :: ls, body)
             | None => None
             end
      end
  | c :: s' => http_head (line ++ [c]) s'
  | [] => None
  end.

(** ** Escaping is read back *)

Definition is_byte (c : Z) : Prop := 0 <= c < 256.

Lemma esc_read c rest :
  is_byte c -> json_string (esc c ++ rest) = jcons c (json_string rest).
Proof.
  unfold is_byte, esc. intros Hc.
  repeat match goal with |- context [if c =? ?k then _ else _] =>
    destruct (Z.eqb_spec c k); [subst c; done|] end.
  unfold quote, bslash in *.
  destruct (Z.ltb_spec c 32) as [Hlt|Hge].
  - cbn [app json_string]. cbn [Z.eqb Pos.eqb quote bslash]. unfold hex4.
    pose proof (Z.div_mod c 16 ltac:(lia)). pose proof (Z.mod_pos_bound c 16 ltac:(lia)).
    rewrite !digit_char_hexval by lia. change (hexval 48) with (Some 0).
    cbn iota. replace (((0 * 16 + 0) * 16 + c / 16) * 16 + c mod 16) with c by lia.
    case_test; [done|lia].
  - cbn [app json_string]. unfold quote, bslash.
    do 3 (case_test; [lia|]). done.
Qed.

Lemma esc_length c : (1 <= length (esc c) <= 6)%nat.
Proof. unfold esc. repeat case_test; simpl; lia. Qed.

(** The escaped text is shorter than the buffer, reads back as a prefix of the
    input, and is cut only when fewer than eight bytes of room were left. *)
Lemma escape_read outsz inp o rest :
  Forall is_byte inp -> (o < outsz)%nat ->
  exists k, (k <= length inp)%nat /\
    json_string (escape_loop outsz o inp ++ quote :: rest) = Some (take k inp, rest) /\
    (o + length (escape_loop outsz o inp) < outsz)%nat /\
    (k = length inp \/ outsz <= o + length (escape_loop outsz o inp) + 7)%nat.
Proof.
  intros Hall. revert o. induction Hall as [|c inp Hc Hall IH]; intros o Ho.
  { exists O. cbn. split_and!; auto; lia. }
  cbn [escape_loop]. destruct (Nat.ltb_spec (o + 7) outsz) as [Hr|Hr].
  - pose proof (esc_length c).
    destruct (IH (o + length (esc c))%nat ltac:(lia)) as (k & Hk & Hread & Hlen & Hcut).
    exists (S k). rewrite length_app, <- app_assoc, esc_read by done.
    rewrite Hread. cbn [jcons take length]. split_and!; [lia|done|lia|].
    destruct Hcut as [->|?]; [by left|right; lia].
  - exists O. cbn. split_and!; [lia|done|lia|right; lia].
Qed.

Lemma json_escape_read inp outsz rest :
  Forall is_byte inp -> (0 < outsz)%nat ->
  exists k, (k <= length inp)%nat /\
    json_string (ac_json_escape inp outsz ++ quote :: rest) = Some (take k inp, rest) /\
    (length (ac_json_escape inp outsz) < outsz)%nat /\
    (k = length inp \/ outsz <= length (ac_json_escape inp outsz) + 7)%nat.
Proof. apply (escape_read outsz inp 0). Qed.

(** ** The body is the object it should be *)

Lemma json_num_read n rest :
  - 2 ^ 63 <= n < 2 ^ 63 ->
  json_value (fmt_d n ++ 125 :: rest) = Some (JNum n, 125 :: rest).
Proof.
  intros Hn. unfold fmt_d, fmt_u.
  assert (forall m, 0 <= m <= 2 ^ 63 ->
    exists d ds, fmt_base 10 20 m [] = d :: ds /\ 48 <= d <= 57 /\
    some_digits decval 10 (fmt_base 10 20 m [] ++ 125 :: rest)
    = Some (m, 125 :: rest)) as Hread.
  { intros m Hm.
    destruct (fmt_base_digits 10 decval ltac:(lia) digit_char_decval 20 m)
      as (ds & Hne & Hall & _ & -> & Hread); [lia|lia|].
    rewrite app_nil_r. destruct ds as [|d ds]; [done|]. exists d, ds.
    apply Forall_cons_1 in Hall as [Hd _].
    assert (decval d <> None) as Hdv.
    { destruct Hd as (e & He & ->). by rewrite digit_char_decval. }
    split; [done|]. split; [by apply digit_of_10|].
    specialize (Hread 0 (125 :: rest)). cbn [app some_digits] in *.
    destruct (decval d); [|done]. by rewrite Hread. }
  case_test.
  - cbn [app json_value]. destruct (Hread (- n) ltac:(lia)) as (d & ds & _ & _ & ->).
    by rewrite Z.opp_involutive.
  - destruct (Hread n ltac:(lia)) as (d & ds & Heq & Hd & Hs). rewrite Heq in *.
    cbn [app] in *. unfold json_value. rewrite Hs.
    destruct d as [|q|q]; try lia. repeat (destruct q as [q|q|]; try done; try lia).
Qed.

(** One member with a string value, followed by another. *)
Lemma json_member_str f key v k k' s rest :
  json_string (key ++ quote :: lit ":" ++ qt ++ v ++ quote :: lit "," ++ rest)
    = Some (k, lit ":" ++ qt ++ v ++ quote :: lit "," ++ rest) ->
  json_string (v ++ quote :: lit "," ++ rest) = Some (k', lit "," ++ rest) ->
  s = qt ++ key ++ quote :: lit ":" ++ qt ++ v ++ quote :: lit "," ++ rest ->
  json_members (S f) s =
  match json_members f rest with
  | Some m => Some ((k, JStr k') :: m)
  | None => None
  end.
Proof.
  intros Hk Hv ->. change (qt ++ ?x) with (34 :: x). cbn [json_members].
  rewrite Hk. change (lit ":" ++ qt ++ ?x) with (58 :: 34 :: x). cbn iota.
  cbn [json_value]. by rewrite Hv.
Qed.

(** ** Request framing *)

Lemma http_line line l rest :
  Forall (fun c => c <> 13) l -> line ++ l <> [] ->
  http_head line (l ++ 13 :: 10 :: rest) =
  match http_head [] rest with
  | Some (ls, body) => Some ((line ++ l) :: ls, body)
  | None => None
  end.
Proof.
  intros Hl. revert line. induction Hl as [|c l Hc Hl IH]; intros line Hne; cbn [app].
  - rewrite app_nil_r in *. cbn [http_head]. by destruct line.
  - assert (http_head line (c :: l ++ 13 :: 10 :: rest) =
      http_head (line ++ [c]) (l ++ 13 :: 10 :: rest)) as ->.
    { cbn [http_head]. destruct c as [|q|q]; try done.
      repeat (destruct q as [q|q|]; try done). }
    rewrite IH by (rewrite <- app_assoc; by destruct line).
    by rewrite <- app_assoc.
Qed.

Lemma safe_no_cr s : ac_header_value_safe (Some s) = true ->
  Forall (fun c => c <> 13 /\ c <> 10) s.
Proof.
  unfold ac_header_value_safe. intros [H13 H10]%andb_true_iff.
  apply Forall_forall. intros c Hc%list_elem_of_In.
  split; intros ->; [apply negb_true_iff in H13; rename H13 into Hx
                    |apply negb_true_iff in H10; rename H10 into Hx];
    rewrite <- not_true_iff_false, existsb_exists in Hx; apply Hx; eauto.
Qed.

Lemma request_framed host key body :
  ac_header_value_safe (Some host) = true -> ac_header_value_safe (Some key) = true ->
  http_head [] (report_request host key body) =
  Some ([lit "POST /report HTTP/1.1"; lit "Host: " ++ host;
         lit "Authorization: Bearer " ++ key; lit "Content-Type: application/json";
         lit "Content-Length: " ++ fmt_u (Z.of_nat (length body));
         lit "Connection: close"], body).
Proof.
  intros Hh%safe_no_cr Hk%safe_no_cr.
  assert (forall s, Forall (fun c => c <> 13 /\ c <> 10) s -> Forall (fun c => c <> 13) s)
    as Himp by (intros t Ht; eapply Forall_impl; [exact Ht|]; by intros c [? _]).
  apply Himp in Hh, Hk.
  assert (Forall (fun c => c <> 13) (fmt_u (Z.of_nat (length body)))) as Hn.
  { eapply Forall_impl; [apply fmt_u_chars|]. cbn beta. intros c Hc. lia. }
  assert (forall (l r : list Z), Forall (fun c => c <> 13) l -> l <> [] ->
    http_head [] (l ++ 13 :: 10 :: r) =
    match http_head [] r with
    | Some (ls, b) => Some (l :: ls, b)
    | None => None
    end) as Hline by (intros l r; by apply (http_line [])).
  assert (report_request host key body =
    lit "POST /report HTTP/1.1" ++ 13 :: 10 ::
    ((lit "Host: " ++ host) ++ 13 :: 10 ::
    ((lit "Authorization: Bearer " ++ key) ++ 13 :: 10 ::
    (lit "Content-Type: application/json" ++ 13 :: 10 ::
    ((lit "Content-Length: " ++ fmt_u (Z.of_nat (length body))) ++ 13 :: 10 ::
    (lit "Connection: close" ++ 13 :: 10 :: (13 :: 10 :: body))))))) as ->.
  { unfold report_request, crlf. cbn [concat]. by rewrite app_nil_r, <- !app_assoc. }
  assert (forall x : list Z, Forall (fun c => c <> 13) (lit "Host: ") /\
    Forall (fun c => c <> 13) (lit "Authorization: Bearer ") /\
    Forall (fun c => c <> 13) (lit "Content-Length: ")) as Hlit
    by (intros _; split_and!; repeat constructor; discriminate).
  destruct (Hlit []) as (L1 & L2 & L3).
  rewrite !Hline; try done; try (by apply Forall_app_2);
    try (repeat constructor; discriminate).
Qed.

(** ** The status line *)

(** [HTTP/1.<digit> <three digits>], then a blank, a line end or the end. *)
Definition status_line (resp : list Z) (code : Z) : Prop :=
  exists m a b c rest,
    resp = lit "HTTP/1." ++ m :: 32 :: a :: b :: c :: rest /\
    isdigit m = true /\ isdigit a = true /\ isdigit b = true /\ isdigit c = true /\
    match rest with [] => True | d :: _ => d = 32 \/ d = 13 \/ d = 10 \/ d = 0 end /\
    code = (a - 48) * 100 + (b - 48) * 10 + (c - 48).

Lemma starts_with_spec pre s :
  starts_with pre s = true <-> exists t, s = pre ++ t.
Proof.
  unfold starts_with. split.
  - intros Ht%streq_true. exists (drop (length pre) s). rewrite <- Ht at 1.
    by rewrite take_drop.
  - intros [t ->]. rewrite take_app_length. by destruct (streq_spec pre pre).
Qed.

Definition line_delim (rest : list Z) : bool :=
  let d := at_ rest 0 in (d =? 32) || (d =? 13) || (d =? 10) || (d =? 0).

Lemma status_code_eq resp :
  ac_http_status_code resp =
  match drop 7 resp with
  | m :: sp :: a :: b :: c :: rest =>
      if starts_with (lit "HTTP/1.") resp && isdigit m && (sp =? 32) && isdigit a
         && isdigit b && isdigit c && line_delim rest
      then (a - 48) * 100 + (b - 48) * 10 + (c - 48) else -1
  | _ => -1
  end.
Proof.
  unfold ac_http_status_code, line_delim. destruct (starts_with _ resp); cbn [negb].
  2: { by destruct (drop 7 resp) as [|? [|? [|? [|? [|? ?]]]]]. }
  destruct (drop 7 resp) as [|m [|sp [|a [|b [|c rest]]]]]; cbn [drop];
    unfold at_; cbn [lookup list_lookup from_option id].
  all: try change (isdigit 0) with false; cbn [negb orb andb].
  all: repeat match goal with |- context [negb (isdigit ?x)] => destruct (isdigit x) end;
    cbn [negb orb andb]; try done.
  all: try (by destruct (_ =? 32)).
  destruct (sp =? 32); cbn [negb andb]; [|done].
  set (d := default 0 (rest !! O)).
  by destruct (d =? 32), (d =? 13), (d =? 10), (d =? 0).
Qed.

Lemma http_status_exact resp code :
  (ac_http_status_code resp = code /\ code <> -1) <-> status_line resp code.
Proof.
  rewrite status_code_eq. unfold status_line, line_delim. split.
  - intros [Hc Hne]. destruct (drop 7 resp) as [|m [|sp [|a [|b [|c rest]]]]] eqn:Hd;
      try (by subst).
    destruct (_ && _) eqn:Hall; [|by subst]. boolp.
    destruct Hall as [[[[[[Hs Hm] Hsp] Ha] Hb] Hcd] Hdl].
    apply starts_with_spec in Hs as [t ->].
    change (drop 7 (lit "HTTP/1." ++ t)) with t in Hd. subst t sp.
    exists m, a, b, c, rest. split_and!; try done.
    destruct rest; [done|]. cbn in Hdl. tauto.
  - intros (m & a & b & c & rest & -> & Hm & Ha & Hb & Hc & Hdl & ->).
    change (drop 7 (lit "HTTP/1." ++ ?t)) with t.
    assert (starts_with (lit "HTTP/1.") (lit "HTTP/1." ++ m :: 32 :: a :: b :: c :: rest)
      = true) as -> by (apply starts_with_spec; eauto).
    rewrite Hm, Ha, Hb, Hc. cbn [andb Z.eqb Pos.eqb].
    unfold isdigit in *. boolp. split; [|lia].
    assert ((at_ rest 0 =? 32) || (at_ rest 0 =? 13) || (at_ rest 0 =? 10)
      || (at_ rest 0 =? 0) = true) as ->; [|done].
    destruct rest as [|d rest]; [done|]. cbn. boolp. tauto.
Qed.

(** ** The destination *)

Lemma strchr_lt c s i : strchr c s = Some i -> (i < length s)%nat.
Proof. apply find_index_lt. Qed.

Lemma strrchr_spec c s i :
  strrchr c s = Some i -> (i < length s)%nat.
Proof.
  revert i. induction s as [|a s IH]; intros i Hi; cbn [strrchr] in Hi; [done|].
  destruct (strrchr c s) as [k|]; simplify_eq.
  - specialize (IH k eq_refl). simpl. lia.
  - destruct (c =? a); simplify_eq. simpl. lia.
Qed.

(** An accepted destination is safe to use. *)
Definition dest_ok (d : ac_report_dest) : Prop :=
  (0 < length (d_host d) < HOST_SIZE)%nat /\
  ac_header_value_safe (Some (d_host d)) = true /\
  if d_is_unix d then (0 < length (d_sock_path d) < SUN_PATH)%nat
  else (0 < length (d_port d) < PORT_SIZE)%nat /\
       exists v, strtoul10 (d_port d) = (v, []) /\ 1 <= v <= 65535.

Lemma split_host_nonempty url host port :
  split_host url = inr (host, port) -> (0 < length host)%nat.
Proof.
  unfold split_host. intros Hs. destruct (Z.eqb_spec (at_ url 0) 91) as [Hat|_].
  - destruct (strchr 93 url) as [close|] eqn:Hc; [|done].
    destruct (negb _); [done|]. destruct (Nat.eqb_spec close 1); [done|].
    injection Hs as <- <-. rewrite length_take, length_drop.
    pose proof (strchr_lt _ _ _ Hc). destruct close as [|close]; [|lia].
    apply find_index_Some in Hc as [(x & Hx & Hxc) _]. unfold at_ in Hat.
    rewrite Hx in Hat. apply Z.eqb_eq in Hxc. cbn in Hat. lia.
  - destruct (strrchr 58 url) as [colon|] eqn:Hc; [|done].
    destruct (Nat.eqb_spec colon 0); [done|]. injection Hs as <- <-.
    rewrite length_take. pose proof (strrchr_spec _ _ _ Hc). lia.
Qed.

Lemma check_port_ok host port_str port :
  check_port host port_str = inr port ->
  (length host < HOST_SIZE)%nat /\ (0 < length port < PORT_SIZE)%nat /\
  exists v, strtoul10 port = (v, []) /\ 1 <= v <= 65535.
Proof.
  unfold check_port. set (p := match strchr 47 port_str with Some i => _ | None => _ end).
  destruct (Nat.eqb_spec (length p) 0); [done|].
  destruct (Nat.leb_spec PORT_SIZE (length p)); [done|].
  destruct (Nat.leb_spec HOST_SIZE (length host)); [done|].
  destruct (strtoul10 p) as [v e] eqn:Hv.
  destruct (_ || _) eqn:He; [done|]. destruct ((v =? 0) || _) eqn:Hr; [done|].
  intros [= <-]. apply orb_false_iff in He as [_ He%negb_false_iff%Nat.eqb_eq].
  apply nil_length_inv in He as ->. split_and!; [done|lia|done|].
  exists v. split; [done|]. boolp.
  pose proof (strtoul10_range _ _ _ Hv). lia.
Qed.

Lemma parse_url_ok url d : ac_report_parse_url url = inr d -> dest_ok d.
Proof.
  unfold ac_report_parse_url, dest_ok. destruct (starts_with (lit "unix://") url).
  - destruct (Nat.eqb_spec (length (drop 7 url)) 0); [done|].
    destruct (Nat.leb_spec SUN_PATH (length (drop 7 url))); [done|].
    intros [= <-]. cbn [d_host d_is_unix d_sock_path]. split_and!; try done; try lia.
    + cbn. lia.
    + unfold HOST_SIZE. cbn. lia.
  - destruct (split_host _) as [|[host port_str]] eqn:Hs; [done|].
    destruct (_ || _) eqn:Hcr; [done|].
    destruct (check_port host port_str) as [|port] eqn:Hp; [done|].
    intros [= <-]. cbn [d_host d_is_unix d_port].
    apply check_port_ok in Hp as (Hh & Hpl & v & Hv). apply split_host_nonempty in Hs.
    apply orb_false_iff in Hcr as [H13 H10].
    split_and!; [done|done| |lia|lia|eauto].
    cbn [ac_header_value_safe]. by rewrite H13, H10.
Qed.

(** *** Reading back a URL *)

Lemma strrchr_None c s : Forall (fun x => x <> c) s -> strrchr c s = None.
Proof.
  induction 1 as [|x s Hx _ IH]; [done|]. cbn [strrchr]. rewrite IH.
  by destruct (Z.eqb_spec c x); [congruence|].
Qed.

Lemma strrchr_app c a b :
  Forall (fun x => x <> c) b -> strrchr c (a ++ c :: b) = Some (length a).
Proof.
  intros Hb. induction a as [|x a IH]; cbn [app strrchr length].
  - rewrite strrchr_None by done. by rewrite Z.eqb_refl.
  - by rewrite IH.
Qed.

Lemma strchr_app c a b :
  Forall (fun x => x <> c) a -> strchr c (a ++ c :: b) = Some (length a).
Proof.
  unfold strchr. induction 1 as [|x a Hx _ IH]; cbn [app find_index length].
  - by rewrite Z.eqb_refl.
  - destruct (Z.eqb_spec c x); [congruence|]. by rewrite IH.
Qed.

Lemma strchr_None c s : Forall (fun x => x <> c) s -> strchr c s = None.
Proof.
  unfold strchr. induction 1 as [|x s Hx _ IH]; cbn [find_index]; [done|].
  destruct (Z.eqb_spec c x); [congruence|]. by rewrite IH.
Qed.

(** The port text is read as the number printed, a path after it ignored. *)
Lemma check_port_print host n path :
  1 <= n <= 65535 -> (length host < HOST_SIZE)%nat ->
  match path with [] => True | c :: _ => c = 47 end ->
  check_port host (fmt_u n ++ path) = inr (fmt_u n).
Proof.
  intros Hn Hh Hpath. unfold check_port.
  pose proof (fmt_u_chars n) as Hch.
  assert (Forall (fun x => x <> 47) (fmt_u n)) as H47.
  { eapply Forall_impl; [exact Hch|]. cbn beta. intros c Hc. lia. }
  assert (match strchr 47 (fmt_u n ++ path) with
    | Some i => take i (fmt_u n ++ path) | None => fmt_u n ++ path end = fmt_u n) as ->.
  { destruct path as [|c path].
    - rewrite app_nil_r. by rewrite strchr_None.
    - subst c. rewrite strchr_app by done. apply take_app_length. }
  assert (exists ds, fmt_u n = ds /\ (1 <= length ds <= 20)%nat) as (ds & Hds & Hlen).
  { unfold fmt_u.
    destruct (fmt_base_digits 10 decval ltac:(lia) digit_char_decval 20 n)
      as (ds & Hne & _ & Hl & Hf & _); [lia|lia|].
    exists ds. rewrite Hf, app_nil_r. split; [done|].
    destruct ds; [done|]. cbn [length] in *. lia. }
  pose proof (strtoul10_fmt n) as Hv. rewrite Hds in *. rewrite Hv by (unfold ULONG_MAX; lia).
  unfold PORT_SIZE in *.
  destruct (Nat.eqb_spec (length ds) 0); [lia|].
  destruct (Nat.leb_spec 32 (length ds)); [lia|].
  destruct (Nat.leb_spec HOST_SIZE (length host)); [lia|].
  cbn [length]. destruct (Nat.eqb_spec 0 (length ds)); [lia|]. cbn [orb negb Nat.eqb].
  by destruct (Z.eqb_spec n 0), (Z.ltb_spec 65535 n); try lia.
Qed.

(** ** The client id *)

Definition opt_bytes (s : option (list Z)) : Prop :=
  match s with Some f => Forall is_byte f | None => True end.

Lemma fgets_prefix n s : fst (fgets_n n s) `prefix_of` s.
Proof.
  revert s. induction n as [|n IH]; intros [|c s]; cbn [fgets_n];
    try apply prefix_nil.
  destruct (c =? 10); [by exists s|]. specialize (IH s).
  destruct (fgets_n n s) as [l r]. cbn [fst] in *. by apply prefix_cons.
Qed.

Lemma cstr_prefix s : cstr s `prefix_of` s.
Proof.
  induction s as [|c s IH]; [done|]. cbn [cstr].
  destruct (c =? 0); [apply prefix_nil|by apply prefix_cons].
Qed.

Lemma rtrim_prefix s : rtrim_nl s `prefix_of` s.
Proof.
  induction s as [|c s IH]; [done|]. cbn [rtrim_nl].
  destruct (rtrim_nl s); [destruct (_ || _); [apply prefix_nil|by apply prefix_cons]|].
  by apply prefix_cons.
Qed.

Lemma prefix_Forall {A} (P : A -> Prop) l1 l2 :
  l1 `prefix_of` l2 -> Forall P l2 -> Forall P l1.
Proof. intros [k ->]. by intros [? _]%Forall_app. Qed.

Lemma client_id_shape mid host n :
  (8 <= n)%nat ->
  (exists f, mid = Some f /\ ac_report_client_id mid host n `prefix_of` f /\
     ac_report_client_id mid host n <> []) \/
  (Forall (fun c => id_char c = true) (ac_report_client_id mid host n) /\
   ac_report_client_id mid host n <> []).
Proof.
  intros Hn. unfold ac_report_client_id.
  assert (Forall (fun c => id_char c = true) (strscpy n (lit "unknown")) /\
    strscpy n (lit "unknown") <> []) as Hunk.
  { rewrite strscpy_id by (cbn [lit length]; lia). split; [|done].
    repeat (constructor; [reflexivity|]). constructor. }
  assert (forall h : list Z, Forall (fun c => id_char c = true)
    ((fun c => if id_char c then c else 95) <$> h)) as Hsan.
  { intros h. apply Forall_fmap, Forall_true. intros c. cbn.
    by destruct (id_char c) eqn:E. }
  destruct mid as [f|].
  - destruct (rtrim_nl (cstr (fst (fgets_n (n - 1) f)))) as [|c t] eqn:Ht.
    + right. destruct host as [h|]; [|done]. specialize (Hsan (strscpy n (cstr h))).
      destruct (_ <$> strscpy n (cstr h)); [done|by split].
    + left. exists f. split; [done|]. split; [|done]. rewrite <- Ht.
      etrans; [apply rtrim_prefix|]. etrans; [apply cstr_prefix|apply fgets_prefix].
  - right. destruct host as [h|]; [|done]. specialize (Hsan (strscpy n (cstr h))).
    destruct (_ <$> strscpy n (cstr h)); [done|by split].
Qed.

Lemma client_id_bytes mid host :
  opt_bytes mid -> Forall is_byte (ac_report_client_id mid host 128).
Proof.
  intros Hm. destruct (client_id_shape mid host 128) as [(f & -> & Hp & _)|[Hid _]]; [lia| |].
  - by eapply prefix_Forall.
  - eapply Forall_impl; [exact Hid|]. unfold id_char, isdigit, is_byte.
    cbn beta. intros c Hc. boolp. lia.
Qed.

(** ** The report *)

Lemma body_parses cid ty d now :
  Forall is_byte cid -> Forall is_byte ty -> Forall is_byte d ->
  - 2 ^ 63 <= now < 2 ^ 63 ->
  exists i j k, json_object (report_body cid ty d now) =
    Some [(lit "client_id", JStr (take i cid)); (lit "event_type", JStr (take j ty));
          (lit "detail", JStr (take k d)); (lit "ts", JNum now)] /\
    (k = length d \/ 593 <= length (ac_json_escape d 600))%nat.
Proof.
  intros Hc Ht Hd Hn. unfold json_object.
  set (s4 := qt ++ lit "ts" ++ quote :: lit ":" ++ fmt_d now ++ lit "}").
  set (s3 := qt ++ lit "detail" ++ quote :: lit ":" ++ qt ++ ac_json_escape d 600
             ++ quote :: lit "," ++ s4).
  set (s2 := qt ++ lit "event_type" ++ quote :: lit ":" ++ qt ++ ac_json_escape ty 64
             ++ quote :: lit "," ++ s3).
  set (s1 := qt ++ lit "client_id" ++ quote :: lit ":" ++ qt ++ ac_json_escape cid 256
             ++ quote :: lit "," ++ s2).
  assert (report_body cid ty d now = 123 :: s1) as ->.
  { unfold report_body, s1, s2, s3, s4. cbn [concat]. change qt with [quote].
    rewrite app_nil_r. by rewrite <- ?app_assoc. }
  cbn iota.
  destruct (json_escape_read cid 256 (lit "," ++ s2) Hc ltac:(lia)) as (i & _ & Hi & _).
  destruct (json_escape_read ty 64 (lit "," ++ s3) Ht ltac:(lia)) as (j & _ & Hj & _).
  destruct (json_escape_read d 600 (lit "," ++ s4) Hd ltac:(lia)) as (k & _ & Hk & _ & Hcut).
  exists i, j, k. split; [|destruct Hcut; [by left|right; lia]].
  assert (exists f, length s1 = S (S (S (S f)))) as [f ->].
  { exists (length s1 - 4)%nat. unfold s1. cbn [qt app length lit]. lia. }
  rewrite (json_member_str _ (lit "client_id") (ac_json_escape cid 256)
    (lit "client_id") (take i cid) s1 s2) by done.
  rewrite (json_member_str _ (lit "event_type") (ac_json_escape ty 64)
    (lit "event_type") (take j ty) s2 s3) by done.
  rewrite (json_member_str _ (lit "detail") (ac_json_escape d 600)
    (lit "detail") (take k d) s3 s4) by done.
  assert (json_members (S f) s4 = Some [(lit "ts", JNum now)]) as ->; [|done].
  unfold s4. change (qt ++ lit "ts" ++ quote :: lit ":" ++ ?x)
    with (34 :: 116 :: 115 :: 34 :: 58 :: x).
  cbn [json_members json_string]. cbn [Z.eqb Pos.eqb quote bslash Z.ltb Z.compare Pos.compare Pos.compare_cont jcons].
  change (lit "}") with [125]. by rewrite (json_num_read now [] Hn).
Qed.

(** The one descriptor a report uses: [None] for a write to or close of a
    closed socket, or a second open one. *)
Definition sock_step (st : option bool) (o : sock_op) : option bool :=
  match o, st with
  | SockOpen, Some false => Some true
  | SockClose, Some true => Some false
  | SockWrite _, Some true => Some true
  | _, _ => None
  end.

Definition written (ops : list sock_op) : list Z :=
  concat (omap (fun o => match o with SockWrite b => Some b | _ => None end) ops).

Lemma written_app a b : written (a ++ b) = written a ++ written b.
Proof. unfold written. by rewrite omap_app, concat_app. Qed.

Lemma connect_any_ops l :
  let '(ok, ops) := connect_any l in
  foldl sock_step (Some false) ops = Some ok /\ written ops = [].
Proof.
  induction l as [|[] l IH]; cbn [connect_any]; [done|done| |done].
  destruct (connect_any l) as [ok ops]. done.
Qed.

Lemma send_loop_ops ws req sent :
  (sent <= length req)%nat ->
  let '(r, ops) := send_loop ws req sent in
  foldl sock_step (Some true) ops = Some true /\
  exists n, (sent + n <= length req)%nat /\ written ops = take n (drop sent req) /\
    (r = None \/ r = Some (sent + n)%nat).
Proof.
  revert sent. induction ws as [|w ws IH]; intros sent Hs; cbn [send_loop];
    destruct (Nat.ltb_spec sent (length req)) as [Hlt|Hge].
  1, 2, 4: split; [done|]; exists O; rewrite Nat.add_0_r; split_and!; auto.
  destruct (Z.ltb_spec w 0).
  { split; [done|]. exists O. rewrite Nat.add_0_r. split_and!; auto. }
  destruct (Z.eqb_spec w 0) as [|Hw0].
  { split; [done|]. exists O. rewrite Nat.add_0_r. split_and!; auto. }
  set (n := Nat.min (Z.to_nat w) (length req - sent)).
  specialize (IH (sent + n)%nat ltac:(lia)).
  destruct (send_loop ws req (sent + n)) as [r ops].
  destruct IH as (Hf & m & Hm & Hw & Hr). split; [done|].
  exists (n + m)%nat. split; [lia|]. split; [|by rewrite Nat.add_assoc].
  unfold written in *. cbn [omap list_omap concat]. rewrite Hw.
  rewrite <- drop_drop, <- (take_take_drop (drop sent req) n m). done.
Qed.

Lemma send_request_ops e host key body :
  let '(r, ops) := send_request e host key body in
  foldl sock_step (Some true) ops = Some false /\
  written ops `prefix_of` report_request host key body /\
  (forall code, r = Answered code -> written ops = report_request host key body).
Proof.
  unfold send_request. set (req := report_request host key body).
  destruct (Nat.leb_spec 2048 (length req)).
  { split_and!; [done|apply prefix_nil|done]. }
  pose proof (send_loop_ops (re_writes e) req 0 ltac:(lia)) as Hs.
  destruct (send_loop (re_writes e) req 0) as [r ops].
  destruct Hs as (Hf & n & Hn & Hw & Hr). rewrite drop_0 in Hw.
  assert (forall a : list sock_op, foldl sock_step (Some true) (ops ++ [SockClose])
    = Some false /\ written (ops ++ [SockClose]) `prefix_of` req) as Hgen.
  { intros _. rewrite foldl_app, Hf, written_app, Hw. split; [done|].
    change (written [SockClose]) with (@nil Z). rewrite app_nil_r.
    exists (drop n req). by rewrite take_drop. }
  destruct (Hgen []) as [Hg1 Hg2].
  destruct r as [sent|]; [|split_and!; done].
  destruct (Nat.eqb_spec sent (length req)) as [->|]; cbn [negb]; [|split_and!; done].
  split_and!; [done|done|]. intros _ _.
  rewrite written_app, Hw. change (written [SockClose]) with (@nil Z).
  rewrite app_nil_r. destruct Hr as [|Hr]; [done|]. apply (inj Some) in Hr. apply take_ge. lia.
Qed.

(** Every way a report ends. *)
Lemma report_cases e ty d r ops :
  ac_report e ty d = (r, ops) ->
  foldl sock_step (Some false) ops = Some false /\
  (written ops = [] /\ (forall code, r <> Answered code) \/
   exists dest key, ac_report_parse_url (default [] (re_url e)) = inr dest /\
     re_key e = Some key /\ ac_header_value_safe (Some (d_host dest)) = true /\
     ac_header_value_safe (Some key) = true /\
     let body := report_body (ac_report_client_id (re_machine_id e) (re_hostname e) 128)
                   ty d (re_now e) in
     written ops `prefix_of` report_request (d_host dest) key body /\
     (forall code, r = Answered code ->
        written ops = report_request (d_host dest) key body)).
Proof.
  unfold ac_report. intros Hr.
  destruct (negb (nonempty (re_url e)) || negb (nonempty (re_key e))) eqn:Hcfg.
  { simplify_eq. split; [done|]. by left. }
  destruct (ac_report_parse_url _) as [err|dest] eqn:Hp.
  { simplify_eq. split; [done|]. by left. }
  destruct (negb _ || negb (ac_header_value_safe (re_key e))) eqn:Hsafe.
  { simplify_eq. split; [done|]. by left. }
  set (body := report_body _ _ _ _) in *.
  destruct (Nat.leb_spec 1024 (length body)).
  { simplify_eq. split; [done|]. by left. }
  set (addrs := if d_is_unix dest then _ else _) in *.
  pose proof (connect_any_ops addrs) as Hc.
  destruct (connect_any addrs) as [ok cops]. destruct Hc as [Hco Hcw].
  destruct ok; [|simplify_eq; split; [done|]; by left].
  destruct (re_key e) as [key|] eqn:Hk;
    [|cbn [nonempty negb] in Hcfg; by rewrite orb_true_r in Hcfg].
  apply orb_false_iff in Hsafe as [Hs1%negb_false_iff Hs2%negb_false_iff].
  pose proof (send_request_ops e (d_host dest) key body) as Hsend.
  change (default [] (Some key)) with key in Hr.
  destruct (send_request e (d_host dest) key body) as [r' sops].
  destruct Hsend as (Hf & Hpre & Hall). simplify_eq.
  rewrite foldl_app, Hco, Hf, written_app, Hcw. split; [done|]. right.
  exists dest, key. split_and!; done.
Qed.

(** ** Properties *)

(** escaping for JSON.  For any byte string (a process name or path under
    an attacker's control included) and any buffer, the escaped text fits the
    buffer, a JSON reader started after the opening quote stops exactly at
    the closing quote the daemon writes, and it reads back a prefix of the
    input; the prefix is the whole input unless fewer than eight bytes of the
    buffer were left. *)
Theorem json_escape_faithful inp outsz rest :
  Forall is_byte inp -> (0 < outsz)%nat ->
  exists k, (k <= length inp)%nat /\
    json_string (ac_json_escape inp outsz ++ quote :: rest) = Some (take k inp, rest) /\
    (length (ac_json_escape inp outsz) < outsz)%nat /\
    (k = length inp \/ outsz <= length (ac_json_escape inp outsz) + 7)%nat.
Proof. apply json_escape_read. Qed.

(** a report that got an answer sent exactly one well-formed request:
    its head has the six intended lines and no others, whatever the host and
    the key are, its Content-Length is the length of the body, and the body
    is a JSON object with exactly the four intended members carrying prefixes
    of the client id, the event type and the detail. *)
Theorem report_sends_one_request e ty d code ops :
  opt_bytes (re_machine_id e) -> Forall is_byte ty -> Forall is_byte d ->
  - 2 ^ 63 <= re_now e < 2 ^ 63 ->
  ac_report e ty d = (Answered code, ops) ->
  exists host key body cid i j k,
    re_key e = Some key /\
    http_head [] (written ops) =
      Some ([lit "POST /report HTTP/1.1"; lit "Host: " ++ host;
             lit "Authorization: Bearer " ++ key;
             lit "Content-Type: application/json";
             lit "Content-Length: " ++ fmt_u (Z.of_nat (length body));
             lit "Connection: close"], body) /\
    json_object body =
      Some [(lit "client_id", JStr (take i cid)); (lit "event_type", JStr (take j ty));
            (lit "detail", JStr (take k d)); (lit "ts", JNum (re_now e))].
Proof.
  intros Hm Ht Hd Hn [_ Hc]%report_cases.
  destruct Hc as [[_ Hno]|(dest & key & _ & Hk & Hh & Hks & _ & Hw)]; [by destruct (Hno code)|].
  rewrite (Hw code eq_refl).
  set (cid := ac_report_client_id _ _ _). set (body := report_body _ _ _ _).
  destruct (body_parses cid ty d (re_now e) (client_id_bytes _ _ Hm) Ht Hd Hn)
    as (i & j & k & Hjson & _).
  exists (d_host dest), key, body, cid, i, j, k. split_and!; [done| |done].
  by apply request_framed.
Qed.

(** Whatever fails along the way, a report never writes to a socket that
    is not connected, never has two open at once, and leaves none open. *)
Theorem report_closes_sockets e ty d :
  foldl sock_step (Some false) (snd (ac_report e ty d)) = Some false.
Proof.
  destruct (ac_report e ty d) as [r ops] eqn:Hr. by apply report_cases in Hr as [? _].
Qed.

(** The status line is parsed strictly: a code is returned exactly for
    HTTP/1.<digit>, a blank, three digits and a delimiter; anything else gives
    -1, which is outside the accepted range. *)
Theorem http_status_strict resp code :
  (ac_http_status_code resp = code /\ code <> -1) <-> status_line resp code.
Proof. apply http_status_exact. Qed.

(** a URL printed from a scheme, a host, a port and possibly a path is
    read back as that host and port.  Unbracketed, the path must not contain
    a colon; a bracketed host may contain colons, and so may the path. *)
Theorem url_roundtrip host n scheme path :
  (0 < length host < HOST_SIZE)%nat -> ac_header_value_safe (Some host) = true ->
  1 <= n <= 65535 -> (scheme = lit "http://" \/ scheme = lit "https://") ->
  match path with [] => True | c :: _ => c = 47 end ->
  let ok := inr (mk_dest false host (fmt_u n) []) in
  (Forall (fun c => c <> 58) path -> at_ host 0 <> 91 ->
   ac_report_parse_url (scheme ++ host ++ lit ":" ++ fmt_u n ++ path) = ok) /\
  (Forall (fun c => c <> 93) host ->
   ac_report_parse_url (scheme ++ lit "[" ++ host ++ lit "]:" ++ fmt_u n ++ path) = ok).
Proof.
  intros Hh Hsafe Hn Hsch Hpath ok.
  assert (forall t, starts_with (lit "unix://") (scheme ++ t) = false /\
    strip_scheme (scheme ++ t) = t) as Hs.
  { intros t. by destruct Hsch as [-> | ->]. }
  assert (existsb (Z.eqb 13) host || existsb (Z.eqb 10) host = false) as Hcr.
  { unfold ac_header_value_safe in Hsafe. apply andb_true_iff in Hsafe as [H1 H2].
    by rewrite (proj1 (negb_true_iff _) H1), (proj1 (negb_true_iff _) H2). }
  assert (forall url, split_host url = inr (host, fmt_u n ++ path) ->
    ac_report_parse_url (scheme ++ url) = ok) as Hparse.
  { intros url Hsp. unfold ac_report_parse_url. destruct (Hs url) as [-> ->].
    rewrite Hsp, Hcr. by rewrite check_port_print by (done || lia). }
  pose proof (fmt_u_chars n) as Hch. split.
  - intros Hnc Hnb. apply Hparse. unfold split_host.
    assert (at_ (host ++ lit ":" ++ fmt_u n ++ path) 0 = at_ host 0) as ->.
    { destruct host; [simpl in Hh; lia|done]. }
    destruct (Z.eqb_spec (at_ host 0) 91); [done|].
    change (lit ":" ++ ?t) with (58 :: t). rewrite strrchr_app.
    2: { apply Forall_app_2; [|done]. eapply Forall_impl; [exact Hch|].
         cbn beta. intros c Hc. lia. }
    destruct (Nat.eqb_spec (length host) 0); [lia|]. rewrite take_app_length.
    change (58 :: fmt_u n ++ path) with ([58] ++ fmt_u n ++ path).
    rewrite app_assoc, <- length_app with (l' := [58]).
    by rewrite drop_app_length.
  - intros Hnb. apply Hparse. unfold split_host.
    change (lit "[" ++ ?t) with (91 :: t).
    change (lit "]:" ++ ?t) with (93 :: 58 :: t).
    change (91 :: host ++ 93 :: 58 :: fmt_u n ++ path)
      with ((91 :: host) ++ 93 :: 58 :: fmt_u n ++ path).
    rewrite strchr_app by (constructor; [done|done]).
    change (at_ ((91 :: host) ++ ?t) 0) with 91. cbn [Z.eqb Pos.eqb].
    assert (at_ ((91 :: host) ++ 93 :: 58 :: fmt_u n ++ path) (length (91 :: host) + 1)
      = 58) as ->.
    { unfold at_. rewrite lookup_app_r by lia.
      by rewrite Nat.add_comm, Nat.add_sub. }
    cbn [negb Z.eqb Pos.eqb length Nat.eqb].
    destruct (Nat.eqb_spec (length host) 0); [lia|].
    change (drop 1 ((91 :: host) ++ ?t)) with (host ++ t).
    rewrite Nat.sub_succ, Nat.sub_0_r, take_app_length.
    assert (S (length host) + 2 = length ((91%Z :: host) ++ [93%Z; 58%Z]))%nat as ->
      by (rewrite length_app; simpl; lia).
    change ((91 :: host) ++ 93 :: 58 :: fmt_u n ++ path)
      with ((91 :: host) ++ [93; 58] ++ fmt_u n ++ path).
    by rewrite app_assoc, drop_app_length.
Qed.

End Report.

Module ReportDemo.
Import Report.

Ltac all_bytes :=
  vm_compute; repeat (constructor; [split; [discriminate|reflexivity]|]); constructor.

(** A process name with a quote, a newline and a control character. *)
Definition nasty : list Z := lit "a" ++ [quote; 10; 1].

Lemma nasty_bytes : Forall is_byte nasty.
Proof. all_bytes. Qed.

Lemma json_escape_faithful_witness :
  exists k, (k <= length nasty)%nat /\
    json_string (ac_json_escape nasty 64 ++ quote :: lit "}")
      = Some (take k nasty, lit "}") /\
    (length (ac_json_escape nasty 64) < 64)%nat /\
    (k = length nasty \/ 64 <= length (ac_json_escape nasty 64) + 7)%nat.
Proof.
  apply (json_escape_faithful nasty 64 (lit "}")); [apply nasty_bytes|lia].
Defined.

Definition env : report_env :=
  mk_report_env (Some (lit "http://ban.example:8787/report")) (Some (lit "k3y"))
    (Some (lit "0123" ++ [10])) None 1700000000 NoSocket
    [NoSocket; NoConnect; Connected] [100; 5; 2000]
    (Some (lit "HTTP/1.1 201 Created")).

Lemma report_sends_one_request_witness :
  exists ops host key body cid i j k,
    re_key env = Some key /\
    http_head [] (written ops) =
      Some ([lit "POST /report HTTP/1.1"; lit "Host: " ++ host;
             lit "Authorization: Bearer " ++ key;
             lit "Content-Type: application/json";
             lit "Content-Length: " ++ fmt_u (Z.of_nat (length body));
             lit "Connection: close"], body) /\
    json_object body =
      Some [(lit "client_id", JStr (take i cid));
            (lit "event_type", JStr (take j (lit "ALERT")));
            (lit "detail", JStr (take k nasty)); (lit "ts", JNum (re_now env))].
Proof.
  exists (snd (ac_report env (lit "ALERT") nasty)).
  apply (report_sends_one_request env (lit "ALERT") nasty 201).
  - all_bytes.
  - all_bytes.
  - apply nasty_bytes.
  - cbn. lia.
  - vm_compute. reflexivity.
Defined.

Lemma url_roundtrip_witness :
  ac_report_parse_url (lit "https://" ++ lit "[" ++ lit "::1" ++ lit "]:" ++ fmt_u 8787
    ++ lit "/report")
  = inr (mk_dest false (lit "::1") (fmt_u 8787) []).
Proof.
  apply (url_roundtrip (lit "::1") 8787 (lit "https://") (lit "/report")).
  - cbn. unfold HOST_SIZE. lia.
  - reflexivity.
  - lia.
  - by right.
  - reflexivity.
  - repeat constructor; discriminate.
Defined.

(** The port's numeric test skips leading white space, so a port that starts
    with a line break is accepted as it stands. *)
Example port_leading_break_accepted :
  ac_report_parse_url (lit "h:" ++ [13; 10] ++ lit "80")
  = inr (mk_dest false (lit "h") ([13; 10] ++ lit "80") []).
Proof. reflexivity. Qed.

(** The port is looked for after the last colon, so a path that contains one
    becomes a part of the host. *)
Example path_colon_taken_as_host :
  ac_report_parse_url (lit "http://h:80/a:9")
  = inr (mk_dest false (lit "h:80/a") (lit "9") []).
Proof. reflexivity. Qed.

End ReportDemo.
