(* ===== verification/Monitor.v ===== *)
(** The daemon's periodic detections (src/anticheat_daemon.c): the
    level-triggered backstop for system call hooks, ring overflow accounting,
    the hidden-module cross-check, the per-process growth of anonymous
    executable mappings, and the draining of events. *)

From stdpp Require Export gmap.
From S2P Require Import Prelude CText CScan Abi DLog.
Import DLog.DLog.

#[local] Open Scope Z_scope.

Module Monitor.

(** ** Interval overrides *)

(** [v] is the environment variable's value. *)
Definition ac_env_interval (v : option (list Z)) (default_secs : Z) : Z :=
  match v with
  | None | Some [] => default_secs
  | Some e =>
      let '(x, err, end_) := strtol10 e in
      if err || negb (length end_ =? 0)%nat || (length end_ =? length e)%nat
         || (x <=? 0) || (INT_MAX <? x)
      then default_secs else x
  end.

(** ** The level-triggered backstop *)

Record ac_sys_level := mk_level {
  accounted : Z;
  prev_excess : Z;
}.

(** Whether the caller should log [cur] now. *)
Definition sys_level_check (lv : ac_sys_level) (cur : Z) : bool * ac_sys_level :=
  let acc := if cur <? accounted lv then cur else accounted lv in
  let excess := u32 (cur - acc) in
  if negb (excess =? 0) && negb (prev_excess lv =? 0)
  then (true, mk_level cur 0)
  else (false, mk_level acc excess).

Record sys_st := mk_sys {
  g_hook_level : ac_sys_level;
  g_redirect_level : ac_sys_level;
  checksum_only_reported : bool;
}.

Definition sys_init : sys_st := mk_sys (mk_level 0 0) (mk_level 0 0) false.

(** [c] is the reply of CHECK_SYSCALLS, [None] when the call failed. *)
Definition check_syscalls_periodic (s : sys_st) (c : option ac_syscall_check)
    : Z * list msg * sys_st :=
  match c with
  | None => (-1, [], s)
  | Some c =>
      let '(h, hl) := sys_level_check (g_hook_level s) (sc_hooked c) in
      let '(r, rl) := sys_level_check (g_redirect_level s) (sc_redirected c) in
      let only := sc_checksum_mismatch c && (sc_hooked c =? 0)
                  && (sc_redirected c =? 0) in
      let msgs :=
        (if h then [logm LOG_CRIT [lit "syscall table: "; fmt_u (sc_hooked c);
           lit " slot(s) still hooked outside core kernel text with no matching ring event logged (event ring overflow?)"]]
         else [])
        ++ (if r then [logm LOG_CRIT [lit "syscall table: ";
           fmt_u (sc_redirected c);
           lit " slot(s) still redirected within core kernel text with no matching ring event logged (event ring overflow?)"]]
            else [])
        ++ (if only && negb (checksum_only_reported s) then
              [logm LOG_CRIT [lit "syscall table checksum mismatch: boot=";
                 sc_baseline_sha256 c; lit " current="; sc_current_sha256 c;
                 lit " (handler churn not individually flagged)"]]
            else []) in
      (s32 (sc_hooked c), msgs, mk_sys hl rl only)
  end.

(** ** Ring overflow *)

Definition AC_RING_DROP_LOG_SECS : Z := 10.

Record drops_st := mk_drops {
  have_seen : bool;
  seen : Z;
  pending : Z;
  next_log : Z;
}.

Definition drops_init : drops_st := mk_drops false 0 0 0.

(** What one call logs. *)
Inductive drop_note := Quiet | BeforeStart (n : Z) | Overflow (n : Z).

Definition drops_step (s : drops_st) (now dropped : Z) : drop_note * drops_st :=
  if negb (have_seen s) then
    (if dropped =? 0 then Quiet else BeforeStart dropped,
     mk_drops true dropped (pending s) (next_log s))
  else
    let p := u32 (pending s + u32 (dropped - seen s)) in
    if negb (p =? 0) && (next_log s <=? now) then
      (Overflow p, mk_drops true dropped 0 (now + AC_RING_DROP_LOG_SECS))
    else (Quiet, mk_drops true dropped p (next_log s)).

Definition note_ring_drops (s : drops_st) (now dropped : Z)
    : list msg * drops_st :=
  let '(n, s') := drops_step s now dropped in
  (match n with
   | Quiet => []
   | BeforeStart n =>
       [logm LOG_WARNING [lit "event ring dropped "; fmt_u n;
          lit " event(s) before the daemon started"]]
   | Overflow n =>
       [logm LOG_CRIT [lit "event ring overflow: "; fmt_u n;
          lit " event(s) dropped before the daemon could read them"]]
   end, s').

(** ** Hidden modules *)

Definition AC_MAX_PROC_MODS : nat := 4096.

(** The reading loop over /proc/modules: the names, and what is left unread.
    A line yields its first word of at most 63 characters. *)
Fixpoint collect_loop (fuel room : nat) (f : list Z) : list (list Z) * list Z :=
  match fuel, room, f with
  | S fuel', S room', _ :: _ =>
      let '(line, rest) := fgets_n 255 f in
      match scan_s 63 (cstr line) with
      | Some (w, _) =>
          let '(ns, unread) := collect_loop fuel' room' rest in (w :: ns, unread)
      | None => collect_loop fuel' room rest
      end
  | _, _, _ => ([], f)
  end.

(** [None] when the file cannot be read, or has more entries than [cap]. *)
Definition collect_proc_modules (f : option (list Z)) (cap : nat)
    : option (list (list Z)) :=
  match f with
  | None => None
  | Some f =>
      let '(ns, unread) := collect_loop (length f) cap f in
      match unread with
      | _ :: _ => if (length ns =? cap)%nat then None else Some ns
      | [] => Some ns
      end
  end.

(** The walk over the kernel's list from index [i] on: how many are not among
    [names], and the index the walk stopped at. *)
Fixpoint mods_walk (n : nat) (get : Z -> option ac_mod_info)
    (names : list (list Z)) (i : Z) : option Z * Z :=
  match n with
  | O => (Some 0, i)
  | S n' =>
      match get i with
      | None => (None, i)
      | Some m =>
          let '(h, at_) := mods_walk n' get names (i + 1) in
          (match h with
           | Some h => Some (if existsb (fun w => streq w (mi_name m)) names
                             then h else h + 1)
           | None => None
           end, at_)
      end
  end.

(** [begin_]: the count MODS_BEGIN returned; [get]: MODS_GET by index; [err]:
    the text of [errno]. *)
Definition crosscheck_modules (begin_ : option Z) (get : Z -> option ac_mod_info)
    (proc : option (list Z)) (err : list Z) : Z * list msg :=
  match begin_ with
  | None => (-1, [])
  | Some count =>
      if Z.of_nat AC_MAX_MODS <? count then
        (-1, [logm LOG_WARNING [lit "crosscheck_modules: kernel reported ";
                fmt_u count; lit " modules (max "; fmt_u (Z.of_nat AC_MAX_MODS);
                lit ") -- result inconclusive"]])
      else
        match collect_proc_modules proc AC_MAX_PROC_MODS with
        | None =>
            (-1, [logm LOG_WARNING [lit "crosscheck_modules: /proc/modules unreadable (";
                    err; lit ") -- skipping hidden-module cross-check"]])
        | Some names =>
            match mods_walk (Z.to_nat count) get names 0 with
            | (None, i) =>
                (-1, [logm LOG_WARNING [lit "crosscheck_modules: kernel module walk failed at index ";
                        fmt_u i; lit "/"; fmt_u count; lit " -- result inconclusive"]])
            | (Some hidden, _) => (hidden, [])
            end
        end
  end.

Definition check_modules_periodic (begin_ : option Z)
    (get : Z -> option ac_mod_info) (proc : option (list Z)) (err : list Z)
    : Z * list msg :=
  let '(hidden, ms) := crosscheck_modules begin_ get proc err in
  (hidden, ms ++ (if 0 <? hidden then
     [logm LOG_CRIT [fmt_d hidden; lit " module(s) hidden from /proc/modules"]]
   else [])).

(** ** Tables with one slot per protected process

    The anonymous-mapping baseline and the "already warned" tables have the
    same shape: [AC_MAX_PROTS] slots, each free or holding a process id (and,
    for the baseline, a count). *)
Section slots.
Context {A : Type}.

Definition slot : Type := option (Z * A).

Definition is_pid (pid : Z) (s : slot) : bool :=
  match s with Some (p, _) => p =? pid | None => false end.
Definition is_free (s : slot) : bool :=
  match s with Some _ => false | None => true end.

Definition slots_init : list slot := replicate AC_MAX_PROTS None.

(** Free the slots of processes no longer protected. *)
Definition forget_stale (t : list slot) (pids : list Z) : list slot :=
  (fun s => match s with
            | Some (p, a) => if existsb (Z.eqb p) pids then Some (p, a) else None
            | None => None
            end) <$> t.

(** The value recorded for a process, the first slot that has it. *)
Definition slot_get (t : list slot) (pid : Z) : option A :=
  match find_index (is_pid pid) t with
  | Some i => snd <$> (default None (t !! i))
  | None => None
  end.

(** Overwrite the process's slot, or take the first free one, or none. *)
Definition slot_put (t : list slot) (pid : Z) (a : A) : list slot :=
  match find_index (is_pid pid) t with
  | Some i => <[i := Some (pid, a)]> t
  | None =>
      match find_index is_free t with
      | Some i => <[i := Some (pid, a)]> t
      | None => t
      end
  end.

(** One pass over the protected processes: [step] sees the process and the
    value recorded for it, and gives messages and possibly a new value. *)
Context (step : ac_prot_item -> option A -> list msg * option A).

Fixpoint table_pass (t : list slot) (items : list ac_prot_item)
    : list msg * list slot :=
  match items with
  | [] => ([], t)
  | it :: items' =>
      let '(ms, new) := step it (slot_get t (pi_pid it)) in
      let t1 := match new with
                | Some a => slot_put t (pi_pid it) a
                | None => t
                end in
      let '(ms', t2) := table_pass t1 items' in
      (ms ++ ms', t2)
  end.

(** List the protected processes ([None] when LIST_PROTECTED failed), clamp the
    count, forget the others, and visit each. *)
Definition periodic_pass (t : list slot) (lst : option (Z * list ac_prot_item))
    : Z * list msg * list slot :=
  match lst with
  | None => (-1, [], t)
  | Some (count, items) =>
      let '(count, warn) := clamp_prot_count count in
      let pl := take (Z.to_nat count) items in
      let '(ms, t') := table_pass (forget_stale t (pi_pid <$> pl)) pl in
      (0, warn ++ ms, t')
  end.
End slots.
Arguments slot A : clear implicits.

(** ** Growth of anonymous executable mappings *)

Definition anon_table : Type := list (slot Z).

(** The message when the count has grown from [old]. *)
Definition growth_msg (pid : Z) (comm : list Z) (old : option Z) (count : Z)
    (jit_allowed : bool) : list msg :=
  match old with
  | Some old =>
      if old <? count then
        let what := [lit "pid "; fmt_d pid; lit " ("; comm; lit "): ";
          fmt_u (u32 (count - old));
          lit " new anonymous executable mapping(s) since first observed (was ";
          fmt_u old; lit ", now "; fmt_u count] in
        if jit_allowed then
          [logm LOG_WARNING (what
             ++ [lit ") -- expected for a JIT-marked process, not auto-reported"])]
        else
          [logm LOG_CRIT (what
             ++ [lit ") -- possible code injection after process start"])]
      else []
  | None => []
  end.

(** The message and the new count. *)
Definition anon_baseline_check (pid : Z) (comm : list Z) (count : Z)
    (jit_allowed : bool) (old : option Z) : list msg * option Z :=
  (growth_msg pid comm old count jit_allowed, Some count).

(** The warning about writable and executable mappings. *)
Definition rwx_msg (it : ac_prot_item) (b : ac_scan_begin) : list msg :=
  if 0 <? sb_rwx_count b then
    [logm LOG_WARNING [lit "pid "; fmt_d (pi_pid it); lit " ("; pi_comm it;
       lit "): "; fmt_u (sb_rwx_count b); lit " RWX mapping(s) present"]]
  else [].

(** One process; [begin_] is the reply of its SCAN_BEGIN, [None] when it
    failed. *)
Definition scan_step (begin_ : Z -> option ac_scan_begin) (it : ac_prot_item)
    (old : option Z) : list msg * option Z :=
  match begin_ (pi_pid it) with
  | None => ([], None)
  | Some b =>
      let '(_, warn) := clamp_vma_count (sb_n_vmas b) in
      let '(ms, new) := anon_baseline_check (pi_pid it) (pi_comm it)
                          (sb_anon_exec_count b) (pi_jit_allowed it) old in
      (warn ++ rwx_msg it b ++ ms, new)
  end.

Definition scan_protected_periodic (begin_ : Z -> option ac_scan_begin)
    : anon_table -> option (Z * list ac_prot_item) -> Z * list msg * anon_table :=
  periodic_pass (scan_step begin_).

(** ** Draining the ring *)

(** The message for one event. *)
Definition event_msg (e : ac_event) : msg :=
  let t := ev_type e in
  if (t =? AC_EV_PTRACE) || (t =? AC_EV_PROCESS_VM) then
    logm LOG_ALERT [ev_type_str t; lit " pid="; fmt_d (ev_pid e); lit " comm=";
      ev_comm e; lit " "; ev_data e]
  else if (t =? AC_EV_SYSCALL_HOOK) || (t =? AC_EV_SYSCALL_REDIRECT)
          || (t =? AC_EV_FORK_DROPPED) then
    logm LOG_CRIT [ev_type_str t; lit " "; ev_data e]
  else
    logm LOG_INFO [ev_type_str t; lit " pid="; fmt_d (ev_pid e); lit " comm=";
      ev_comm e; lit " "; ev_data e].

Definition account (s : sys_st) (e : ac_event) : sys_st :=
  if ev_type e =? AC_EV_SYSCALL_HOOK then
    mk_sys (mk_level (u32 (accounted (g_hook_level s) + 1))
              (prev_excess (g_hook_level s)))
      (g_redirect_level s) (checksum_only_reported s)
  else if ev_type e =? AC_EV_SYSCALL_REDIRECT then
    mk_sys (g_hook_level s)
      (mk_level (u32 (accounted (g_redirect_level s) + 1))
         (prev_excess (g_redirect_level s)))
      (checksum_only_reported s)
  else s.

(** The drain of a successful GET_EVENTS. *)
Definition drain (s : sys_st) (d : drops_st) (now : Z) (el : ac_event_list)
    : list msg * sys_st * drops_st :=
  let '(n, warn) := clamp_event_count (Z.of_nat (el_count el)) in
  let evs := take (Z.to_nat n) (el_events el) in
  let '(dms, d') := note_ring_drops d now (el_dropped el) in
  (warn ++ (event_msg <$> evs) ++ dms, foldl account s evs, d').

(** ** The backstop *)

Definition level_ok (lv : ac_sys_level) : Prop :=
  0 <= accounted lv < 2 ^ 32 /\ 0 <= prev_excess lv < 2 ^ 32.

Lemma sys_level_eq lv cur :
  level_ok lv -> 0 <= cur < 2 ^ 32 ->
  sys_level_check lv cur =
  (let acc := Z.min cur (accounted lv) in
   if bool_decide (acc < cur /\ prev_excess lv <> 0) then (true, mk_level cur 0)
   else (false, mk_level acc (cur - acc))) /\
  level_ok (snd (sys_level_check lv cur)).
Proof.
  intros [Ha Hp] Hc. unfold sys_level_check, level_ok.
  replace (if cur <? accounted lv then cur else accounted lv)
    with (Z.min cur (accounted lv)) by (case_test; lia).
  set (acc := Z.min cur (accounted lv)). change (2 ^ 32) with 4294967296 in *.
  rewrite u32_id by lia. cbn zeta.
  destruct (Z.eqb_spec (cur - acc) 0), (Z.eqb_spec (prev_excess lv) 0); cbn [negb andb];
    case_bool_decide; try lia; split; try done; cbn; lia.
Qed.

(** Two checks in a row that find more than was accounted for cannot both stay
    quiet. *)
Lemma level_two_checks lv c1 c2 :
  level_ok lv -> accounted lv < c1 < 2 ^ 32 -> accounted lv < c2 < 2 ^ 32 ->
  fst (sys_level_check lv c1) = true \/
  fst (sys_level_check (snd (sys_level_check lv c1)) c2) = true.
Proof.
  intros Hok H1 H2. pose proof Hok as [Ha _].
  destruct (sys_level_eq lv c1 Hok ltac:(lia)) as [E1 Hok'].
  rewrite E1 in *. cbn zeta in *. case_bool_decide as Hf; [by left|right].
  cbn [snd] in *. destruct (sys_level_eq _ c2 Hok' ltac:(lia)) as [-> _].
  cbn zeta. cbn [accounted prev_excess]. case_bool_decide as Hg; [done|].
  exfalso. apply Hg. lia.
Qed.

(** ** Ring overflow accounting *)

Definition note_amount (n : drop_note) : Z :=
  match n with Overflow k => k | _ => 0 end.

(** A run of calls: the notes and the final state. *)
Fixpoint drops_run (s : drops_st) (l : list (Z * Z)) : list drop_note * drops_st :=
  match l with
  | [] => ([], s)
  | (now, d) :: l' =>
      let '(n, s1) := drops_step s now d in
      let '(ns, s2) := drops_run s1 l' in (n :: ns, s2)
  end.

Lemma drops_run_sum l s :
  have_seen s = true ->
  let '(ns, s') := drops_run s l in
  have_seen s' = true /\
  u32 (foldr (fun n a => note_amount n + a) 0 ns + pending s')
  = u32 (pending s + (seen s' - seen s)).
Proof.
  revert s. induction l as [|[now d] l IH]; intros s Hs; cbn [drops_run].
  { split; [done|]. cbn [foldr]. f_equal. lia. }
  unfold drops_step. rewrite Hs. cbn [negb].
  set (p := u32 (pending s + u32 (d - seen s))).
  assert (p = u32 (pending s + (d - seen s))) as Hp by (unfold p; word_lia).
  destruct (negb (p =? 0) && (next_log s <=? now)).
  - specialize (IH (mk_drops true d 0 (now + AC_RING_DROP_LOG_SECS)) eq_refl).
    destruct (drops_run _ l) as [ns s']. destruct IH as [Hs' IH]. split; [done|].
    cbn [foldr note_amount pending seen] in *. word_lia.
  - specialize (IH (mk_drops true d p (next_log s)) eq_refl).
    destruct (drops_run _ l) as [ns s']. destruct IH as [Hs' IH]. split; [done|].
    cbn [foldr note_amount pending seen] in *. word_lia.
Qed.

(** ** What the drain and the check log between them *)

(** The two things the monitor loop does about the system call table. *)
Inductive sys_op :=
  | OpDrain (now : Z) (el : ac_event_list)
  | OpCheck (c : ac_syscall_check).

Definition sys_do (st : list msg * sys_st * drops_st) (o : sys_op)
    : list msg * sys_st * drops_st :=
  let '(ms, s, d) := st in
  match o with
  | OpDrain now el => let '(ms', s', d') := drain s d now el in (ms ++ ms', s', d')
  | OpCheck c => let '(_, ms', s') := check_syscalls_periodic s (Some c) in
                 (ms ++ ms', s', d)
  end.

Definition is_check (o : sys_op) : bool :=
  match o with OpCheck _ => true | _ => false end.

(** The table reads as hooked at every check. *)
Definition stays_hooked (o : sys_op) : Prop :=
  match o with OpCheck c => 1 <= sc_hooked c < 2 ^ 32 | _ => True end.

(** The critical message says that a slot of the system call table is hooked:
    the ring's event, or the line of the periodic check. *)
Definition says_hooked (m : msg) : bool :=
  let hooked := lit " slot(s) still hooked outside core kernel text" in
  (m_pri m =? LOG_CRIT) &&
  (bool_decide (lit "SYSCALL-HOOK " `prefix_of` m_text m)
   || (bool_decide (lit "syscall table: " `prefix_of` m_text m)
       && existsb (fun k => bool_decide (hooked `prefix_of` drop k (m_text m))) (seq 15 21))).

Definition has_hook (ms : list msg) : bool := existsb says_hooked ms.

(** The line of the periodic check does. *)
Lemma check_says_hooked n :
  says_hooked (logm LOG_CRIT [lit "syscall table: "; fmt_u n;
    lit " slot(s) still hooked outside core kernel text with no matching ring event logged (event ring overflow?)"])
  = true.
Proof.
  pose proof (length_fmt_u n) as Hl. unfold says_hooked, logm. cbn [m_pri m_text concat].
  rewrite app_nil_r, strscpy_id.
  2: { rewrite !length_app.
       match goal with |- context [(length (lit ?a) + (_ + length (lit ?b)))%nat] =>
         change (length (lit a)) with 15%nat; change (length (lit b)) with 104%nat end. lia. }
  rewrite Z.eqb_refl, (bool_decide_eq_true_2 (lit "syscall table: " `prefix_of` _))
    by (by apply prefix_app_r).
  apply andb_true_iff. split; [done|]. apply orb_true_iff. right. cbn [andb].
  apply existsb_exists. exists (15 + length (fmt_u n))%nat.
  split; [apply in_seq; lia|]. apply bool_decide_eq_true_2.
  rewrite app_assoc, drop_app_length' by (by rewrite length_app).
  by eexists (lit " with no matching ring event logged (event ring overflow?)").
Qed.

(** An event that is not a hook says nothing of one. *)
Lemma event_says_hooked e :
  says_hooked (event_msg e) = false -> ev_type e <> AC_EV_SYSCALL_HOOK.
Proof.
  intros Hs Ht. unfold event_msg in Hs. rewrite Ht in Hs. cbn -[strscpy lit] in Hs.
  unfold says_hooked in Hs. cbn [logm m_pri m_text] in Hs.
  rewrite bool_decide_eq_true_2 in Hs; [done|].
  by exists (take 498 (ev_data e ++ [])).
Qed.

Lemma has_hook_app a b : has_hook (a ++ b) = has_hook a || has_hook b.
Proof. apply existsb_app. Qed.

Lemma drain_quiet s d now el ms s' d' :
  drain s d now el = (ms, s', d') -> has_hook ms = false ->
  g_hook_level s' = g_hook_level s.
Proof.
  unfold drain. destruct (clamp_event_count _) as [n warn].
  destruct (note_ring_drops d now (el_dropped el)) as [dms d1].
  intros [= <- <- <-]. rewrite !has_hook_app. intros [_ [Hev _]%orb_false_iff]%orb_false_iff.
  revert s. induction (take (Z.to_nat n) (el_events el)) as [|e evs IH]; intros s; [done|].
  cbn [fmap list_fmap] in Hev. unfold has_hook in Hev. cbn [existsb] in Hev.
  apply orb_false_iff in Hev as [He%event_says_hooked Hev]. cbn [foldl]. rewrite IH by done.
  unfold account. destruct (Z.eqb_spec (ev_type e) AC_EV_SYSCALL_HOOK); [done|].
  by destruct (ev_type e =? AC_EV_SYSCALL_REDIRECT).
Qed.

(** Until a hook is logged nothing is accounted for, and the first
    check has remembered the excess. *)
Lemma sys_run_quiet ops ms s d :
  Forall stays_hooked ops -> accounted (g_hook_level s) = 0 ->
  0 <= prev_excess (g_hook_level s) < 2 ^ 32 ->
  let '(ms', s', _) := foldl sys_do (ms, s, d) ops in
  has_hook ms' = false ->
  (length (filter (fun o => is_check o = true) ops)
   + (if bool_decide (prev_excess (g_hook_level s) = 0%Z) then 0 else 1) <= 1)%nat.
Proof.
  intros Hall. revert ms s d. induction Hall as [|o ops Ho Hall IH]; intros ms s d Hacc Hprev.
  { cbn. intros _. case_bool_decide; lia. }
  assert (forall ms s d, has_hook ms = true ->
    has_hook (fst (fst (foldl sys_do (ms, s, d) ops))) = true) as Hmono.
  { clear. induction ops as [|o ops IH]; intros ms s d Hc; [done|]. cbn [foldl].
    destruct o; cbn [sys_do].
    - destruct (drain s d now el) as [[ms' s'] d']. apply IH.
      by rewrite has_hook_app, Hc.
    - destruct (check_syscalls_periodic s (Some c)) as [[? ms'] s']. apply IH.
      by rewrite has_hook_app, Hc. }
  cbn [foldl]. destruct o as [now el|c]; cbn [sys_do].
  - destruct (drain s d now el) as [[ms1 s1] d1] eqn:Hd.
    destruct (has_hook ms1) eqn:Hc1.
    { specialize (Hmono (ms ++ ms1) s1 d1). rewrite has_hook_app, Hc1, orb_true_r in Hmono.
      destruct (foldl sys_do _ ops) as [[ms' s'] d']. cbn [fst] in Hmono.
      by rewrite Hmono. }
    pose proof (drain_quiet _ _ _ _ _ _ _ Hd Hc1) as Hl.
    specialize (IH (ms ++ ms1) s1 d1). rewrite Hl in IH. specialize (IH Hacc Hprev).
    destruct (foldl sys_do _ ops) as [[ms' s'] d'].
    by rewrite filter_cons_False by done.
  - cbn [check_syscalls_periodic]. cbn in Ho.
    destruct (sys_level_eq (g_hook_level s) (sc_hooked c)) as [Heq Hok];
      [split; lia|lia|].
    rewrite Heq in *. cbn zeta in *. rewrite Hacc, Z.min_r in * by lia.
    destruct (sys_level_check (g_redirect_level s) _) as [r rl].
    case_bool_decide as Hf.
    + match goal with |- context [foldl sys_do (?m, ?s1, d) ops] =>
        specialize (Hmono m s1 d); destruct (foldl sys_do (m, s1, d) ops) as [[ms' s'] d'] end.
      intros Hno. cbn [fst] in Hmono. rewrite Hmono in Hno; [done|].
      rewrite has_hook_app. cbn [app has_hook existsb]. fold (has_hook).
      by rewrite check_says_hooked, orb_true_r.
    + match goal with |- context [foldl sys_do (?m, ?s1, d) ops] =>
        specialize (IH m s1 d eq_refl); destruct (foldl sys_do (m, s1, d) ops) as [[ms' s'] d'] end.
      intros Hno. cbn [g_hook_level prev_excess] in IH. specialize (IH ltac:(lia) Hno).
      rewrite filter_cons_True by done. cbn [length].
      rewrite bool_decide_eq_false_2 in IH by lia.
      rewrite bool_decide_eq_true_2; [lia|].
      destruct (Z.eq_dec (prev_excess (g_hook_level s)) 0); [done|]. exfalso. apply Hf. lia.
Qed.

(** ** Hidden modules *)

(** A line of /proc/modules: the name, a blank and the rest. *)
Definition mod_line (l : list Z * list Z) : list Z :=
  fst l ++ [32] ++ snd l ++ [10].

Definition mod_line_ok (l : list Z * list Z) : Prop :=
  (0 < length (fst l) <= 63)%nat /\
  Forall (fun c => isspace c = false /\ c <> 0) (fst l) /\
  Forall (fun c => c <> 10 /\ c <> 0) (snd l) /\
  (length (fst l) + length (snd l) + 1 < 255)%nat.

Lemma collect_lines ls fuel room :
  Forall mod_line_ok ls -> (length (concat (mod_line <$> ls)) <= fuel)%nat ->
  collect_loop fuel room (concat (mod_line <$> ls)) =
  (fst <$> take room ls, concat (mod_line <$> drop room ls)).
Proof.
  intros Hall. revert fuel room. induction Hall as [|[nm rest] ls Hl Hall IH];
    intros fuel room Hf.
  { by destruct fuel, room. }
  destruct Hl as (Hlen & Hch & Hrest & Htot). cbn [fst snd] in *.
  destruct room as [|room].
  { rewrite take_0, drop_0. by destruct fuel. }
  cbn [fmap list_fmap concat] in *. unfold mod_line at 1 in Hf. unfold mod_line at 1.
  cbn [fst snd] in *. rewrite !length_app in Hf. cbn [length] in Hf.
  destruct fuel as [|fuel]; [lia|].
  assert (exists c t, (nm ++ [32] ++ rest ++ [10]) ++ concat (mod_line <$> ls) = c :: t)
    as (c & t & Hct) by (destruct nm; [simpl in Hlen; lia|cbn [app]; eauto]).
  cbn [collect_loop]. rewrite Hct, <- Hct.
  assert ((nm ++ [32] ++ rest ++ [10]) ++ concat (mod_line <$> ls) =
    (nm ++ [32] ++ rest) ++ 10 :: concat (mod_line <$> ls)) as ->.
  { by rewrite <- !app_assoc. }
  assert (Forall (fun c => c <> 10 /\ c <> 0) (nm ++ [32] ++ rest)) as Hnl.
  { rewrite !Forall_app. split_and!; [|by repeat constructor|done].
    eapply Forall_impl; [exact Hch|]. intros x [Hx Hz]. split; [|done]. by intros ->. }
  rewrite fgets_line.
  2: { rewrite !length_app. cbn [length]. lia. }
  2: { eapply Forall_impl; [exact Hnl|]. by intros x [? _]. }
  rewrite cstr_id.
  2: { apply Forall_app_2; [|by repeat constructor]. eapply Forall_impl; [exact Hnl|].
       by intros x [_ ?]. }
  rewrite <- !app_assoc. cbn [app]. rewrite scan_s_app; [| |lia| |done].
  - rewrite IH by lia. done.
  - by destruct nm; [simpl in Hlen; lia|].
  - eapply Forall_impl; [exact Hch|]. by intros x [? _].
Qed.

Lemma mods_walk_count n get names i mods :
  (forall k : nat, (k < n)%nat -> get (i + Z.of_nat k) = mods !! k) ->
  length mods = n ->
  mods_walk n get names i =
  (Some (Z.of_nat (count_if (fun m => negb (existsb (fun w => streq w (mi_name m)) names))
           mods)), i + Z.of_nat n).
Proof.
  revert i mods. induction n as [|n IH]; intros i mods Hget Hlen.
  { apply nil_length_inv in Hlen as ->. cbn. f_equal. lia. }
  destruct mods as [|m mods]; [done|]. cbn [length] in Hlen. cbn [mods_walk count_if].
  pose proof (Hget O ltac:(lia)) as H0. rewrite Z.add_0_r in H0. rewrite H0.
  cbn [lookup list_lookup]. rewrite (IH (i + 1) mods); [|..|lia].
  - apply pair_equal_spec. destruct (existsb _ names); cbn [negb];
      (split; [apply (f_equal Some)|]; lia).
  - intros k Hk. replace (i + 1 + Z.of_nat k) with (i + Z.of_nat (S k)) by lia.
    rewrite Hget by lia. done.
Qed.

(** ** Tables as maps *)

Section slots_rep.
Context {A : Type}.
Implicit Types (t : list (slot A)) (m : gmap Z A).

Record slots_rep t m : Prop := {
  rep_len : length t = AC_MAX_PROTS;
  rep_map p a : m !! p = Some a <-> Some (p, a) ∈ t;
  rep_uniq i j p a b : t !! i = Some (Some (p, a)) -> t !! j = Some (Some (p, b)) -> i = j;
}.

Lemma slots_init_rep : slots_rep slots_init ∅.
Proof.
  split.
  - apply length_replicate.
  - intros p a. rewrite lookup_empty. split; [done|].
    by intros [? _]%elem_of_replicate.
  - intros i j p a b Hi. by apply lookup_replicate in Hi as [? _].
Qed.

Lemma is_pid_true p (s : slot A) : is_pid p s = true <-> exists a, s = Some (p, a).
Proof.
  destruct s as [[q a]|]; cbn; [|naive_solver]. rewrite Z.eqb_eq. naive_solver.
Qed.

Lemma find_pid t m p :
  slots_rep t m ->
  match find_index (is_pid p) t with
  | Some i => exists a, t !! i = Some (Some (p, a)) /\ m !! p = Some a
  | None => m !! p = None
  end.
Proof.
  intros Hr. destruct (find_index (is_pid p) t) as [i|] eqn:Hf.
  - apply find_index_Some in Hf as [(x & Hx & Hp) _].
    apply is_pid_true in Hp as [a ->]. exists a. split; [done|].
    apply (rep_map _ _ Hr). by apply list_elem_of_lookup_2 in Hx.
  - destruct (m !! p) as [a|] eqn:Hm; [|done].
    apply (rep_map _ _ Hr), list_elem_of_lookup in Hm as [i Hi].
    pose proof (proj1 (find_index_None _ _) Hf i _ Hi) as Hn.
    by cbn in Hn; rewrite Z.eqb_refl in Hn.
Qed.

Lemma rep_get t m p : slots_rep t m -> slot_get t p = m !! p.
Proof.
  intros Hr. pose proof (find_pid t m p Hr) as Hf. unfold slot_get.
  destruct (find_index (is_pid p) t) as [i|]; [|done].
  destruct Hf as (a & -> & ->). done.
Qed.

(** A slot that is free, or already holds the process, takes the value. *)
Lemma rep_insert t m p a i s :
  slots_rep t m -> t !! i = Some s -> s = None /\ m !! p = None \/ is_pid p s = true ->
  slots_rep (<[i := Some (p, a)]> t) (<[p := a]> m).
Proof.
  intros Hr Hi Hs.
  assert (forall j q b, t !! j = Some (Some (q, b)) -> j <> i -> q <> p) as Hne.
  { intros j q b Hj Hji ->. destruct Hs as [[-> Hm]|[c ->]%is_pid_true].
    - apply list_elem_of_lookup_2, (rep_map _ _ Hr) in Hj. congruence.
    - apply Hji. by eapply (rep_uniq _ _ Hr). }
  split.
  - rewrite length_insert. apply Hr.
  - intros q b. rewrite list_elem_of_lookup. setoid_rewrite list_lookup_insert_Some.
    destruct (decide (q = p)) as [->|Hqp].
    + rewrite lookup_insert_eq. split.
      * intros [= ->]. exists i. left. split_and!; [done..|]. by eapply lookup_lt_Some.
      * intros [j [(-> & [= ->] & _)|[Hji Hj]]]; [done|].
        exfalso. by eapply (Hne j p b).
    + rewrite lookup_insert_ne, (rep_map _ _ Hr), list_elem_of_lookup by done. split.
      * intros [j Hj]. exists j. right. split; [|done]. intros Hij. destruct Hij.
        pose proof (eq_trans (eq_sym Hi) Hj) as [= ->].
        destruct Hs as [[? _]|[c [= ? ?]]%is_pid_true]; congruence.
      * intros [j [(_ & [= -> _] & _)|[_ Hj]]]; [done|eauto].
  - intros j k q b c. rewrite !list_lookup_insert_Some.
    intros [(<- & [= -> ->] & _)|[Hji Hj]] [(<- & [= ->] & _)|[Hki Hk]]; [done|..].
    + exfalso. by eapply (Hne k).
    + exfalso. by eapply (Hne j).
    + by eapply (rep_uniq _ _ Hr).
Qed.

(** As long as fewer processes than slots are known, there is a free slot. *)
Lemma rep_has_free t m :
  slots_rep t m -> (size m < AC_MAX_PROTS)%nat -> is_Some (find_index is_free t).
Proof.
  intros Hr Hsz. destruct (find_index is_free t) as [i|] eqn:Hf; [eauto|exfalso].
  pose proof (proj1 (find_index_None _ _) Hf) as Hused.
  assert (forall i s, t !! i = Some s -> exists p a, s = Some (p, a)) as Hall.
  { intros i s Hs. specialize (Hused i s Hs). destruct s as [[p a]|]; eauto. done. }
  set (pids := (fun s : slot A => match s with Some (p, _) => p | None => 0 end) <$> t).
  assert (NoDup pids) as Hnd.
  { apply NoDup_alt. intros i j p Hi Hj. unfold pids in *.
    rewrite list_lookup_fmap_Some in Hi, Hj.
    destruct Hi as (s1 & Hp1 & H1), Hj as (s2 & Hp2 & H2).
    destruct (Hall _ _ H1) as (p1 & a1 & ->), (Hall _ _ H2) as (p2 & a2 & ->). subst.
    by eapply (rep_uniq _ _ Hr). }
  assert (list_to_set pids ⊆ dom m) as Hsub.
  { intros p. rewrite elem_of_list_to_set. unfold pids. intros (s & -> & Hs)%list_elem_of_fmap.
    apply list_elem_of_lookup in Hs as [i Hs]. pose proof (Hall _ _ Hs) as (q & a & ->).
    apply elem_of_dom. exists a. apply (rep_map _ _ Hr).
    by apply list_elem_of_lookup_2 in Hs. }
  apply subseteq_size in Hsub. rewrite size_dom, size_list_to_set in Hsub by done.
  unfold pids in Hsub. rewrite length_fmap, (rep_len _ _ Hr) in Hsub. lia.
Qed.

Lemma rep_put t m p a :
  slots_rep t m -> is_Some (m !! p) \/ (size m < AC_MAX_PROTS)%nat ->
  slots_rep (slot_put t p a) (<[p := a]> m).
Proof.
  intros Hr Hroom. unfold slot_put. pose proof (find_pid t m p Hr) as Hf.
  destruct (find_index (is_pid p) t) as [i|].
  - destruct Hf as (b & Hi & _). eapply rep_insert; [done|exact Hi|].
    right. apply is_pid_true. eauto.
  - destruct Hroom as [[b Hb]|Hsz]; [congruence|].
    destruct (rep_has_free t m Hr Hsz) as [i Hi]. rewrite Hi.
    apply find_index_Some in Hi as [(s & Hs & Hfree) _].
    eapply rep_insert; [done|exact Hs|]. left. by destruct s.
Qed.

Lemma rep_forget t m pids :
  slots_rep t m ->
  slots_rep (forget_stale t pids) (filter (fun kv => existsb (Z.eqb kv.1) pids = true) m).
Proof.
  intros Hr.
  assert (forall i p a, forget_stale t pids !! i = Some (Some (p, a)) <->
    t !! i = Some (Some (p, a)) /\ existsb (Z.eqb p) pids = true) as Hl.
  { intros i p a. unfold forget_stale. rewrite list_lookup_fmap_Some. split.
    - intros (s & Heq & Hs). destruct s as [[q b]|]; [|done].
      destruct (existsb (Z.eqb q) pids) eqn:E; [|done]. by simplify_eq.
    - intros [Hi He]. exists (Some (p, a)). split; [|exact Hi]. by rewrite He. }
  split.
  - unfold forget_stale. rewrite length_fmap. apply Hr.
  - intros p a. rewrite map_lookup_filter_Some, list_elem_of_lookup. cbn [fst].
    setoid_rewrite Hl. rewrite (rep_map _ _ Hr), list_elem_of_lookup. naive_solver.
  - intros i j p a b [Hi _]%Hl [Hj _]%Hl. by eapply (rep_uniq _ _ Hr).
Qed.
End slots_rep.

(** ** Abstract specification of the tables

    A map from the protected processes to the value last recorded. *)
Section spec.
Context {A : Type} (step : ac_prot_item -> option A -> list msg * option A).
Implicit Types (m : gmap Z A).

Fixpoint spec_pass m (items : list ac_prot_item) : list msg * gmap Z A :=
  match items with
  | [] => ([], m)
  | it :: items' =>
      let '(ms, new) := step it (m !! pi_pid it) in
      let '(ms', m') := spec_pass (match new with
                                   | Some a => <[pi_pid it := a]> m
                                   | None => m
                                   end) items' in
      (ms ++ ms', m')
  end.

Definition spec_periodic m (lst : option (Z * list ac_prot_item))
    : Z * list msg * gmap Z A :=
  match lst with
  | None => (-1, [], m)
  | Some (count, items) =>
      let pl := take (Z.to_nat (fst (clamp_prot_count count))) items in
      let '(ms, m') :=
        spec_pass (filter (fun kv => existsb (Z.eqb kv.1) (pi_pid <$> pl) = true) m)
          pl in
      (0, snd (clamp_prot_count count) ++ ms, m')
  end.
End spec.

Lemma size_of_list (l : list Z) : (size (list_to_set (C := gset Z) l) <= length l)%nat.
Proof.
  induction l as [|x l IH]; [by rewrite list_to_set_nil, size_empty|].
  rewrite list_to_set_cons, size_union_alt, size_singleton. cbn [length].
  assert (size (list_to_set (C := gset Z) l ∖ {[x]})
    <= size (list_to_set (C := gset Z) l))%nat by (apply subseteq_size; set_solver).
  lia.
Qed.

(** Known processes are protected ones, so one not yet known finds room. *)
Lemma room_for {A} (m : gmap Z A) (pids : list Z) p :
  (forall q, is_Some (m !! q) -> q ∈ pids) -> p ∈ pids ->
  (length pids <= AC_MAX_PROTS)%nat ->
  is_Some (m !! p) \/ (size m < AC_MAX_PROTS)%nat.
Proof.
  intros Hdom Hp Hlen. destruct (m !! p) as [a|] eqn:Hm; [eauto|right].
  rewrite <- size_dom.
  assert (dom m ⊆ list_to_set (C := gset Z) pids ∖ {[p]}) as Hsub.
  { intros q Hq%elem_of_dom. apply elem_of_difference. split.
    - by apply elem_of_list_to_set, Hdom.
    - intros ->%elem_of_singleton. rewrite Hm in Hq. by destruct Hq. }
  apply subseteq_size in Hsub.
  rewrite size_difference, size_singleton in Hsub by set_solver.
  pose proof (size_of_list pids).
  assert ({[p]} ⊆ list_to_set (C := gset Z) pids) as Hone%subseteq_size by set_solver.
  rewrite size_singleton in Hone. lia.
Qed.

Lemma table_pass_refines {A} (step : ac_prot_item -> option A -> list msg * option A)
    pids items t m :
  slots_rep t m -> (forall q, is_Some (m !! q) -> q ∈ pids) ->
  (forall it, it ∈ items -> pi_pid it ∈ pids) -> (length pids <= AC_MAX_PROTS)%nat ->
  let '(ms, t') := table_pass step t items in
  let '(ms', m') := spec_pass step m items in
  ms = ms' /\ slots_rep t' m'.
Proof.
  intros Hr Hdom Hin Hlen. revert t m Hr Hdom.
  induction items as [|it items IH]; intros t m Hr Hdom; cbn [table_pass spec_pass]; [done|].
  assert (pi_pid it ∈ pids) as Hit by set_solver.
  assert (forall x, x ∈ items -> pi_pid x ∈ pids) as Hin' by set_solver.
  rewrite (rep_get t m _ Hr). destruct (step it (m !! pi_pid it)) as [ms1 [a|]].
  - specialize (IH Hin' _ _ (rep_put _ _ _ a Hr (room_for m pids (pi_pid it) Hdom Hit Hlen))).
    destruct (table_pass step _ items) as [ms t'], (spec_pass step _ items) as [ms' m'].
    destruct IH as [-> IH]; [|done].
    intros q. destruct (decide (q = pi_pid it)) as [->|]; [done|].
    rewrite lookup_insert_ne by done. apply Hdom.
  - specialize (IH Hin' t m Hr Hdom).
    destruct (table_pass step t items) as [ms t'], (spec_pass step m items) as [ms' m'].
    by destruct IH as [-> IH].
Qed.

(** ** Properties *)

(** A hooked system call table is never silent.  Whatever the ring did
    with its events, over any sequence of drains and periodic checks in which
    every check finds at least one hooked slot and at least two checks run, a
    critical message that says so is logged. *)
Theorem hook_not_silent ops :
  Forall stays_hooked ops ->
  (2 <= length (filter (fun o => is_check o = true) ops))%nat ->
  has_hook (fst (fst (foldl sys_do ([], sys_init, drops_init) ops))) = true.
Proof.
  intros Hall Hn. pose proof (sys_run_quiet ops [] sys_init drops_init Hall eq_refl) as Hq.
  destruct (foldl sys_do _ ops) as [[ms s] d]. cbn [fst].
  destruct (has_hook ms); [done|]. cbn in Hq. specialize (Hq ltac:(lia) eq_refl). lia.
Qed.

(** The overflow counter is conserved.  After any sequence of drains, the
    amounts logged plus the amount still pending are the increase of the
    kernel's cumulative counter since the first drain, modulo 2^32. *)
Theorem drops_conserved now0 d0 l :
  let '(ns, s) := drops_run drops_init ((now0, d0) :: l) in
  u32 (foldr (fun n a => note_amount n + a) 0 ns + pending s) = u32 (seen s - d0).
Proof.
  cbn [drops_run]. unfold drops_step at 1. cbn [drops_init have_seen negb].
  pose proof (drops_run_sum l (mk_drops true d0 0 0) eq_refl) as Hs.
  cbn [pending next_log drops_init]. destruct (drops_run _ l) as [ns s].
  destruct Hs as [_ Hs]. cbn [pending seen] in Hs.
  destruct (d0 =? 0); cbn [foldr note_amount]; rewrite Z.add_0_l, Hs; f_equal; lia.
Qed.

(** The cross-check counts exactly the kernel's modules that
    /proc/modules does not list, for any listing of well-formed lines that
    fits the table. *)
Theorem hidden_count_exact mods ls get err :
  Forall mod_line_ok ls -> (length ls < AC_MAX_PROC_MODS)%nat ->
  (length mods <= AC_MAX_MODS)%nat ->
  (forall k : nat, (k < length mods)%nat -> get (Z.of_nat k) = mods !! k) ->
  crosscheck_modules (Some (Z.of_nat (length mods))) get
    (Some (concat (mod_line <$> ls))) err =
  (Z.of_nat (count_if (fun m => bool_decide (mi_name m ∉ (fst <$> ls))) mods), []).
Proof.
  intros Hls Hcap Hn Hget. unfold crosscheck_modules, collect_proc_modules.
  destruct (Z.ltb_spec (Z.of_nat AC_MAX_MODS) (Z.of_nat (length mods))); [lia|].
  rewrite collect_lines by (done || lia). rewrite take_ge, drop_ge by lia.
  cbn [fmap list_fmap concat]. rewrite Nat2Z.id.
  rewrite (mods_walk_count _ get _ 0 mods) by (done || (intros; rewrite Z.add_0_l; auto)).
  do 2 f_equal. apply count_if_ext. intros i m _.
  apply eq_true_iff_eq. rewrite negb_true_iff, bool_decide_eq_true.
  rewrite <- not_true_iff_false, existsb_exists. split; intros Hno.
  - intros Hin. apply Hno. exists (mi_name m). split; [by apply list_elem_of_In|].
    by destruct (streq_spec (mi_name m) (mi_name m)).
  - intros (w & Hw & Heq%streq_true). subst w. apply Hno. by apply list_elem_of_In.
Qed.

(** C39: each table of the periodic checks (anonymous executable mappings,
    the two warned-about tables, implicit layers) implements a map from the
    protected processes to the value last recorded: whatever the check does
    with a process, a pass forgets exactly the processes no longer protected,
    shows the check the value recorded for each of the others, records what it
    gives back, produces the same messages, and never runs out of slots. *)
Theorem periodic_table_refines {A}
    (step : ac_prot_item -> option A -> list msg * option A) t m lst :
  slots_rep t m ->
  let '(rc, ms, t') := periodic_pass step t lst in
  let '(rc', ms', m') := spec_periodic step m lst in
  rc = rc' /\ ms = ms' /\ slots_rep t' m'.
Proof.
  intros Hr. unfold periodic_pass, spec_periodic.
  destruct lst as [[count items]|]; [|done].
  destruct (clamps_bounded count) as (_ & (Hc & _) & _).
  destruct (clamp_prot_count count) as [n warn]. cbn [fst snd] in *.
  set (pl := take (Z.to_nat n) items).
  assert (length (pi_pid <$> pl) <= AC_MAX_PROTS)%nat as Hlen.
  { rewrite length_fmap. unfold pl. rewrite length_take. lia. }
  pose proof (table_pass_refines step (pi_pid <$> pl) pl _ _
    (rep_forget t m (pi_pid <$> pl) Hr)) as Hs.
  destruct (table_pass step _ pl) as [ms t'], (spec_pass step _ pl) as [ms' m'].
  destruct Hs as [-> Hs]; [| |exact Hlen|done].
  - intros q [a [_ Hq]%map_lookup_filter_Some]. cbn in Hq.
    apply existsb_exists in Hq as (x & Hx & ->%Z.eqb_eq). by apply list_elem_of_In.
  - intros it Hit. by apply list_elem_of_fmap_2.
Qed.

End Monitor.

Module MonitorDemo.
Import Monitor.

Definition reply (hooked : Z) : ac_syscall_check :=
  mk_syscall_check 0 450 430 hooked hooked (hooked =? 0) true 0 false [] [].

(** Both events of the hook were overwritten in the ring. *)
Definition lost : list sys_op :=
  [OpCheck (reply 1); OpDrain 3 (mk_event_list 0 5 0 []); OpCheck (reply 1)].

Lemma hook_not_silent_witness :
  has_hook (fst (fst (foldl sys_do ([], sys_init, drops_init) lost))) = true.
Proof.
  apply (hook_not_silent lost).
  - repeat constructor; cbn; lia.
  - vm_compute. lia.
Defined.

Definition listed : list (list Z * list Z) :=
  [(lit "ext4", lit "1024 1 - Live 0x0"); (lit "anticheat", lit "64 0 - Live 0x0")].
Definition kernel_mods : list ac_mod_info :=
  [mk_mod_info (lit "ext4") 1024 0; mk_mod_info (lit "rootkit") 99 0;
   mk_mod_info (lit "anticheat") 64 0].

Lemma hidden_count_exact_witness :
  crosscheck_modules (Some 3) (fun i => kernel_mods !! Z.to_nat i)
    (Some (concat (mod_line <$> listed))) [] = (1, []).
Proof.
  apply (hidden_count_exact kernel_mods listed).
  - repeat constructor; cbn; try lia; discriminate.
  - vm_compute. lia.
  - vm_compute. lia.
  - intros k _. by rewrite Nat2Z.id.
Defined.

Definition one_protected : option (Z * list ac_prot_item) :=
  Some (1, [mk_prot_item 42 false (lit "game")]).
Definition begin_42 (_ : Z) : option ac_scan_begin :=
  Some (mk_scan_begin 42 0 0 42 10 0 3 2 false).

Lemma periodic_table_refines_witness :
  let '(rc, ms, t') := scan_protected_periodic begin_42 slots_init one_protected in
  let '(rc', ms', m') := spec_periodic (scan_step begin_42) ∅ one_protected in
  rc = rc' /\ ms = ms' /\ slots_rep t' m'.
Proof.
  exact (periodic_table_refines (scan_step begin_42) slots_init ∅ one_protected
    slots_init_rep).
Defined.

(** A line longer than the 255 bytes [fgets] takes is read in pieces, and the
    first word of every piece is taken for a module name. *)
Example long_line_adds_a_name :
  collect_proc_modules
    (Some (lit "big 1 2 " ++ replicate 247 97 ++ lit "rootkit Live" ++ [10])) 4096
  = Some [lit "big"; lit "rootkit"].
Proof. by vm_compute. Qed.

End MonitorDemo.
