(* ===== verification/Environ.v ===== *)
(** Injection through the environment (src/anticheat_daemon.c): reading the
    variables a process was started with, the LD_PRELOAD and Vulkan layer
    checks, and the implicit layer manifests. *)

From S2P Require Import Prelude CText CScan Abi DLog Monitor.
Import DLog.DLog Monitor.Monitor.

#[local] Open Scope Z_scope.

Module Environ.

(** ** The environment of a process *)

Definition AC_ENVIRON_BUF : nat := 262144.
Definition AC_ENVIRON_VAL_LEN : nat := 512.

Record ac_environ_query := mk_query {
  q_name : list Z;
  q_value : list Z;
  q_found : bool;
}.

(** One entry against one variable: the first match is kept. *)
Definition match_entry (entry : list Z) (q : ac_environ_query)
    : ac_environ_query :=
  let nlen := length (q_name q) in
  if negb (q_found q) && (nlen <? length entry)%nat
     && streq (take nlen entry) (q_name q) && bool_decide (entry !! nlen = Some 61)
  then mk_query (q_name q) (strscpy AC_ENVIRON_VAL_LEN (drop (nlen + 1) entry)) true
  else q.

(** The loop over the buffer.  Every turn consumes at least one byte. *)
Fixpoint environ_loop (fuel : nat) (data : list Z) (vars : list ac_environ_query)
    : list ac_environ_query :=
  match fuel, data with
  | S f, _ :: _ =>
      let entry := cstr data in
      if (length entry =? 0)%nat then environ_loop f (drop 1 data) vars
      else environ_loop f (drop (length entry + 1) data) (match_entry entry <$> vars)
  | _, _ => vars
  end.

(** [file]: the contents of /proc/<pid>/environ, [None] when it cannot be
    opened or read.  [cap] is the buffer's size. *)
Definition read_environ (cap : nat) (file : option (list Z))
    (vars : list ac_environ_query) : Z * list ac_environ_query :=
  let vars := (fun q => mk_query (q_name q) (q_value q) false) <$> vars in
  match file with
  | None => (-1, vars)
  | Some f =>
      let data := take (cap - 1) f in
      if (length data =? 0)%nat then (0, vars)
      else
        let vars' := environ_loop (length data) data vars in
        if (cap - 1 <=? length data)%nat then (-1, vars') else (0, vars')
  end.

Definition ac_read_environ_vars : option (list Z) -> list ac_environ_query ->
    Z * list ac_environ_query := read_environ AC_ENVIRON_BUF.

(** A query as the callers prepare it. *)
Definition query (name : list Z) : ac_environ_query := mk_query name [] false.

(** [None]: unreadable; [Some None]: not set; [Some (Some v)]: set. *)
Definition ac_read_ld_preload (file : option (list Z)) (outsz : nat)
    : option (option (list Z)) :=
  let '(rc, vars) := ac_read_environ_vars file [query (lit "LD_PRELOAD")] in
  if rc <? 0 then None
  else match vars with
       | q :: _ => if q_found q then Some (Some (strscpy outsz (q_value q)))
                   else Some None
       | [] => Some None
       end.

(** ** The periodic checks on it *)

Section periodic.
(** /proc/<pid>/environ of each process. *)
Context (environ : Z -> option (list Z)).

Definition preload_step (it : ac_prot_item) (warned : option unit)
    : list msg * option unit :=
  match warned with
  | Some _ => ([], None)
  | None =>
      match ac_read_ld_preload (environ (pi_pid it)) 512 with
      | Some (Some val) =>
          ([logm LOG_WARNING [lit "pid "; fmt_d (pi_pid it); lit " (";
              pi_comm it; lit "): LD_PRELOAD="; val;
              lit " set at exec -- common for legitimate overlay/compat tools (MangoHud, gamemode, gamescope) as well as library-injection hooking; informational only, not a verdict on its own"]],
           Some tt)
      | _ => ([], None)
      end
  end.

Definition check_ld_preload_periodic (t : list (slot unit))
    (lst : option (Z * list ac_prot_item)) : list msg * list (slot unit) :=
  let '(_, ms, t') := periodic_pass preload_step t lst in (ms, t').

Definition AC_VK_LAYER_ENV_VARS : list (list Z) :=
  [lit "VK_INSTANCE_LAYERS"; lit "VK_LOADER_LAYERS_ENABLE"; lit "VK_LAYER_PATH";
   lit "VK_ADD_LAYER_PATH"].

Definition vklayer_step (it : ac_prot_item) (warned : option unit)
    : list msg * option unit :=
  match warned with
  | Some _ => ([], None)
  | None =>
      let '(rc, vars) := ac_read_environ_vars (environ (pi_pid it))
                           (query <$> AC_VK_LAYER_ENV_VARS) in
      if rc <? 0 then ([], None)
      else
        ((fun q => logm LOG_WARNING [lit "pid "; fmt_d (pi_pid it); lit " (";
            pi_comm it; lit "): "; q_name q; lit "="; q_value q;
            lit " set at exec -- common for legitimate overlay tools (MangoHud) as well as Vulkan-layer-based hooking; informational only, not a verdict on its own"])
           <$> filter (fun q => q_found q = true) vars, Some tt)
  end.

Definition check_vk_layers_periodic (t : list (slot unit))
    (lst : option (Z * list ac_prot_item)) : list msg * list (slot unit) :=
  let '(_, ms, t') := periodic_pass vklayer_step t lst in (ms, t').
End periodic.

(** ** Implicit layer manifests *)

Definition AC_MANIFEST_STR_LEN : nat := 256.
Definition AC_MANIFEST_MAX_BYTES : nat := 65536.
Definition AC_MAX_IMPLICIT_LAYERS : nat := 64.

Record ac_implicit_layer := mk_layer {
  ly_name : list Z;
  ly_library_path : list Z;
  ly_disable_env : list Z;
}.

Definition AC_KNOWN_LAYER_PREFIXES : list (list Z) :=
  [lit "VK_LAYER_MANGOHUD"; lit "VK_LAYER_OBS_HOOK"; lit "VK_LAYER_OBS_hotkeys";
   lit "VK_LAYER_VKBASALT"; lit "VK_LAYER_RENDERDOC"; lit "VK_LAYER_LATENCYFLEX";
   lit "VK_LAYER_VALVE_steam_overlay"; lit "VK_LAYER_VALVE_steam_fossilize";
   lit "VK_LAYER_GOOGLE_"; lit "VK_LAYER_KHRONOS_"; lit "VK_LAYER_MESA_";
   lit "VK_LAYER_INTEL_"; lit "VK_LAYER_NV_"; lit "VK_LAYER_AMD_"].

Definition ac_layer_name_known (name : list Z) : bool :=
  existsb (fun p => streq (take (length p) name) p) AC_KNOWN_LAYER_PREFIXES.

(** [memmem]: what follows the start of the first occurrence, the occurrence
    included. *)
Fixpoint memmem (s needle : list Z) : option (list Z) :=
  if streq (take (length needle) s) needle then Some s
  else match s with
       | _ :: s' => memmem s' needle
       | [] => None
       end.

(** Copy a string value up to its closing quote, backslashes dropped; at most
    [room] characters are kept. *)
Fixpoint copy_value (room : nat) (s : list Z) : list Z :=
  match s with
  | [] => []
  | c :: s' =>
      if c =? 34 then []
      else if c =? 92 then
        match s' with
        | d :: s'' => match room with
                      | S r => d :: copy_value r s''
                      | O => copy_value O s''
                      end
        | [] => match room with S _ => [c] | O => [] end
        end
      else match room with
           | S r => c :: copy_value r s'
           | O => copy_value O s'
           end
  end.

(** After white space, the character [c]; what follows it. *)
Definition expect (c : Z) (s : list Z) : option (list Z) :=
  match skip_space s with
  | d :: s' => if d =? c then Some s' else None
  | [] => None
  end.

(** The search loop: every turn starts later in the text. *)
Fixpoint extract_loop (fuel : nat) (json needle : list Z) (outsz : nat)
    : option (list Z) :=
  match fuel, json with
  | S f, _ :: _ =>
      match memmem json needle with
      | None => None
      | Some hit =>
          match expect 58 (drop (length needle) hit) with
          | None => extract_loop f (drop 1 hit) needle outsz
          | Some q =>
              match expect 34 q with
              | None => extract_loop f (drop 1 hit) needle outsz
              | Some v => Some (copy_value (outsz - 1) v)
              end
          end
      end
  | _, _ => None
  end.

Definition json_extract_string (json key : list Z) (outsz : nat)
    : option (list Z) :=
  let needle := [34] ++ key ++ [34] in
  if (64 <=? length needle)%nat then None
  else extract_loop (length json) json needle outsz.

Definition json_extract_disable_env (json : list Z) (outsz : nat)
    : option (list Z) :=
  let needle := [34] ++ lit "disable_environment" ++ [34] in
  match memmem json needle with
  | None => None
  | Some hit =>
      match expect 58 (drop (length needle) hit) with
      | None => None
      | Some q =>
          match expect 123 q with
          | None => None
          | Some q =>
              match expect 34 q with
              | None => None
              | Some v => Some (copy_value (outsz - 1) v)
              end
          end
      end
  end.

(** A directory entry: its name and, when it is a regular file that can be
    read, its contents. *)
Definition dirent : Type := list Z * option (list Z).

Definition is_json (name : list Z) : bool :=
  negb (length name <? 5)%nat && streq (drop (length name - 5) name) (lit ".json").

(** One manifest: [None] when it is skipped. *)
Definition parse_manifest (de : dirent) : option ac_implicit_layer :=
  if negb (is_json (fst de)) then None
  else
    match snd de with
    | None => None
    | Some f =>
        let buf := take (AC_MANIFEST_MAX_BYTES - 1) f in
        match buf with
        | [] => None
        | _ =>
            match json_extract_string buf (lit "name") AC_MANIFEST_STR_LEN with
            | None => None
            | Some nm =>
                match json_extract_string buf (lit "library_path")
                        AC_MANIFEST_STR_LEN with
                | None => None
                | Some lp =>
                    Some (mk_layer (cstr nm) (cstr lp)
                      (cstr (default []
                         (json_extract_disable_env buf AC_MANIFEST_STR_LEN))))
                end
            end
        end
    end.

(** [readdir] until the array is full. *)
Fixpoint ac_scan_implicit_layer_dir (entries : list dirent)
    (layers : list ac_implicit_layer) : list ac_implicit_layer :=
  match entries with
  | [] => layers
  | de :: entries' =>
      if (length layers <? AC_MAX_IMPLICIT_LAYERS)%nat then
        ac_scan_implicit_layer_dir entries'
          (match parse_manifest de with
           | Some l => layers ++ [l]
           | None => layers
           end)
      else layers
  end.

(** [dirs]: the entries of each standard directory that exists, in order, the
    two under the user's home only when it is known. *)
Definition ac_scan_active_implicit_layers (dirs : list (list dirent))
    (environ : option (list Z)) : list ac_implicit_layer :=
  let found := foldl (fun acc d => ac_scan_implicit_layer_dir d acc) [] dirs in
  filter (fun l =>
    match ly_disable_env l with
    | [] => true
    | v => match ac_read_environ_vars environ [query v] with
           | (rc, q :: _) => negb ((rc =? 0) && q_found q)
           | _ => true
           end
    end = true) found.

(** The unrecognised names, joined in a 512-byte buffer: [off] is where the
    next one goes. *)
Fixpoint join_names (off : nat) (buf : list Z) (first : bool)
    (names : list (list Z)) : list Z :=
  match names with
  | [] => buf
  | nm :: names' =>
      let text := (if first then [] else lit ", ") ++ nm in
      let buf' := if (off <? 512)%nat then buf ++ strscpy (512 - off) text else buf in
      join_names (Nat.min (off + length text) 512) buf' false names'
  end.

Definition implicit_step (active : Z -> list ac_implicit_layer)
    (it : ac_prot_item) (old : option Z) : list msg * option Z :=
  let unknown := filter (fun l => ac_layer_name_known (ly_name l) = false)
                   (active (pi_pid it)) in
  let shown l := match ly_name l with [] => lit "(unnamed)" | nm => nm end in
  let n := Z.of_nat (length unknown) in
  (match old with
   | Some c =>
       if c <? n then
         [logm LOG_WARNING [lit "pid "; fmt_d (pi_pid it); lit " ("; pi_comm it;
            lit "): "; fmt_u n; lit " unrecognized implicit Vulkan layer(s) active (";
            join_names 0 [] true (shown <$> unknown);
            lit ") -- not in the known-overlay allowlist; informational only, not a verdict on its own"]]
       else []
   | None => []
   end, Some n).

Definition check_implicit_layers_periodic
    (active : Z -> list ac_implicit_layer) (t : list (slot Z))
    (lst : option (Z * list ac_prot_item)) : list msg * list (slot Z) :=
  let '(_, ms, t') := periodic_pass (implicit_step active) t lst in (ms, t').

(** ** Reference: the entries of an environment block *)

(** The block cut at its NUL bytes. *)
Fixpoint split0 (data : list Z) : list (list Z) :=
  match data with
  | [] => [[]]
  | c :: data' =>
      if c =? 0 then [] :: split0 data'
      else match split0 data' with
           | e :: es => (c :: e) :: es
           | [] => [[c]]
           end
  end.

(** The value of the first entry for [name], as [getenv] finds it. *)
Fixpoint env_get (entries : list (list Z)) (name : list Z) : option (list Z) :=
  match entries with
  | [] => None
  | e :: es => if streq (take (length name + 1) e) (name ++ [61])
               then Some (drop (length name + 1) e) else env_get es name
  end.

Definition answer (entries : list (list Z)) (q : ac_environ_query)
    : ac_environ_query :=
  match env_get entries (q_name q) with
  | Some v => mk_query (q_name q) (strscpy AC_ENVIRON_VAL_LEN v) true
  | None => q
  end.

Lemma match_entry_eq e q :
  q_found q = false ->
  match_entry e q =
  if streq (take (length (q_name q) + 1) e) (q_name q ++ [61])
  then mk_query (q_name q)
         (strscpy AC_ENVIRON_VAL_LEN (drop (length (q_name q) + 1) e)) true
  else q.
Proof.
  intros Hf. unfold match_entry. rewrite Hf. cbn [negb andb].
  set (nm := q_name q). set (n := length nm).
  assert ((n <? length e)%nat && streq (take n e) nm && bool_decide (e !! n = Some 61)
    = streq (take (n + 1) e) (nm ++ [61])) as ->; [|done].
  apply eq_true_iff_eq. rewrite !andb_true_iff, bool_decide_eq_true, Nat.ltb_lt. split.
  - intros [[Hlt Ht%streq_true] Hn].
    assert (take (n + 1) e = nm ++ [61]) as ->.
    { rewrite Nat.add_1_r, (take_S_r _ _ _ Hn). by rewrite Ht. }
    by destruct (streq_spec (nm ++ [61]) (nm ++ [61])).
  - intros Ht%streq_true. pose proof (take_drop (n + 1) e) as He. rewrite Ht in He.
    rewrite <- He. unfold n. rewrite !length_app. cbn [length].
    rewrite <- app_assoc, take_app_length. cbn [app].
    split_and!; [lia|by destruct (streq_spec nm nm)|].
    by rewrite list_lookup_middle.
Qed.

Lemma match_entry_found e q : q_found q = true -> match_entry e q = q.
Proof. intros Hf. unfold match_entry. by rewrite Hf. Qed.

Lemma match_entries entries q :
  q_found q = false -> foldl (fun q e => match_entry e q) q entries = answer entries q.
Proof.
  intros Hf. unfold answer. induction entries as [|e es IH]; cbn [foldl env_get]; [done|].
  rewrite match_entry_eq by done. destruct (streq _ _) eqn:Hs; [|done].
  clear IH. generalize (strscpy AC_ENVIRON_VAL_LEN (drop (length (q_name q) + 1) e)).
  intros v. induction es as [|e' es IH]; [done|]. cbn [foldl].
  by rewrite match_entry_found.
Qed.

(** The first entry and what follows its terminator. *)
Lemma split0_cstr data :
  split0 data = cstr data ::
    (if (length (cstr data) <? length data)%nat
     then split0 (drop (length (cstr data) + 1) data) else []).
Proof.
  induction data as [|c data IH]; [done|]. cbn [split0 cstr].
  destruct (c =? 0); [done|]. rewrite IH. cbn [length drop Nat.add].
  change (S (length (cstr data)) <? S (length data))%nat
    with (length (cstr data) <? length data)%nat. done.
Qed.

Lemma cstr_length s : (length (cstr s) <= length s)%nat.
Proof.
  induction s as [|c s IH]; [done|]. cbn [cstr]. destruct (c =? 0); simpl; lia.
Qed.

Lemma match_empty q : match_entry [] q = q.
Proof.
  unfold match_entry. cbn [length]. rewrite (proj2 (Nat.ltb_ge _ 0)) by lia.
  by rewrite andb_false_r.
Qed.

Lemma environ_loop_split fuel data vars :
  (length data <= fuel)%nat ->
  environ_loop fuel data vars =
  foldl (fun vs e => match_entry e <$> vs) vars (split0 data).
Proof.
  revert data vars. induction fuel as [|fuel IH]; intros data vars Hf.
  { apply Nat.le_0_r, nil_length_inv in Hf as ->. cbn.
    rewrite <- list_fmap_id at 1. apply list_fmap_ext. intros i q _. by rewrite match_empty. }
  destruct data as [|c data].
  { cbn. rewrite <- list_fmap_id at 1. apply list_fmap_ext. intros i q _.
    by rewrite match_empty. }
  rewrite (split0_cstr (c :: data)). cbn [environ_loop foldl].
  pose proof (cstr_length (c :: data)) as Hc.
  destruct (Nat.eqb_spec (length (cstr (c :: data))) 0) as [Hz|Hz].
  - apply nil_length_inv in Hz as ->. cbn [length Nat.add].
    rewrite IH by (rewrite length_drop; cbn [length] in *; lia). cbn [Nat.ltb Nat.leb].
    f_equal. rewrite <- list_fmap_id at 1. apply list_fmap_ext. intros i q _.
    by rewrite match_empty.
  - rewrite IH by (rewrite length_drop; cbn [length] in *; lia).
    destruct (Nat.ltb_spec (length (cstr (c :: data))) (length (c :: data))); [done|].
    rewrite drop_ge by lia. cbn [split0 foldl].
    rewrite <- list_fmap_id. apply list_fmap_ext. intros i q _. by rewrite match_empty.
Qed.

Lemma foldl_fmap_swap {A B} (f : B -> A -> A) (es : list B) (vs : list A) :
  foldl (fun vs e => f e <$> vs) vs es = (fun q => foldl (fun q e => f e q) q es) <$> vs.
Proof.
  revert vs. induction es as [|e es IH]; intros vs; cbn [foldl].
  - by rewrite list_fmap_id.
  - rewrite IH. by rewrite <- list_fmap_compose.
Qed.

(** ** Bounded copies from a manifest *)

Lemma copy_value_length room s : (length (copy_value room s) <= room)%nat.
Proof.
  revert room. induction s as [s IH] using (induction_ltof1 _ (@length Z)).
  unfold ltof in IH. intros room. destruct s as [|c s]; [simpl; lia|].
  cbn [copy_value]. destruct (c =? 34); [simpl; lia|]. destruct (c =? 92).
  - destruct s as [|d s]; [destruct room; simpl; lia|].
    destruct room as [|r]; [apply IH; simpl; lia|].
    cbn [length]. apply le_n_S, IH. simpl. lia.
  - destruct room as [|r]; [apply IH; simpl; lia|].
    cbn [length]. apply le_n_S, IH. simpl. lia.
Qed.

Lemma extract_loop_length fuel json needle outsz v :
  extract_loop fuel json needle outsz = Some v -> (length v <= outsz - 1)%nat.
Proof.
  revert json. induction fuel as [|fuel IH]; intros json He; [done|].
  cbn [extract_loop] in He. destruct json as [|c json]; [done|].
  destruct (memmem _ _) as [hit|]; [|done].
  destruct (expect 58 _) as [q|]; [|by eapply IH].
  destruct (expect 34 q) as [w|]; [|by eapply IH].
  injection He as <-. apply copy_value_length.
Qed.

Lemma disable_env_length json outsz v :
  json_extract_disable_env json outsz = Some v -> (length v <= outsz - 1)%nat.
Proof.
  unfold json_extract_disable_env. destruct (memmem _ _); [|done].
  destruct (expect 58 _); [|done]. destruct (expect 123 _); [|done].
  destruct (expect 34 _); [|done]. intros [= <-]. apply copy_value_length.
Qed.

(** ** The joined names *)

Fixpoint joined (first : bool) (names : list (list Z)) : list Z :=
  match names with
  | [] => []
  | nm :: names' => (if first then [] else lit ", ") ++ nm ++ joined false names'
  end.

Lemma join_names_eq names off buf first :
  length buf = Nat.min off 511 -> (off <= 512)%nat ->
  join_names off buf first names =
  buf ++ (if (off <? 512)%nat then strscpy (512 - off) (joined first names) else []).
Proof.
  revert off buf first. induction names as [|nm names IH]; intros off buf first Hb Ho;
    cbn [join_names joined].
  { unfold strscpy. rewrite take_nil. destruct (off <? 512)%nat; by rewrite app_nil_r. }
  set (text := (if first then [] else lit ", ") ++ nm).
  rewrite app_assoc. fold text.
  destruct (Nat.ltb_spec off 512) as [Hlt|Hge].
  - rewrite IH.
    + rewrite <- app_assoc. f_equal. unfold strscpy.
      destruct (Nat.ltb_spec (Nat.min (off + length text) 512) 512).
      * rewrite take_app. f_equal. f_equal. lia.
      * rewrite app_nil_r, take_app_le by lia. done.
    + unfold strscpy. rewrite length_app, length_take. lia.
    + lia.
  - rewrite IH by lia.
    destruct (Nat.ltb_spec (Nat.min (off + length text) 512) 512); [lia|done].
Qed.

(** ** Properties *)

(** reading the environment.  For a block that fits the buffer, whatever
    its bytes (empty entries included), every variable asked for gets exactly
    the first entry for it, as the process itself would find it, cut to the
    value buffer; a block that does not fit is reported as inconclusive. *)
Theorem environ_exact cap f names :
  (0 < length f)%nat ->
  ((length f < cap - 1)%nat ->
   read_environ cap (Some f) (query <$> names) =
   (0, answer (split0 f) <$> (query <$> names))) /\
  ((cap - 1 <= length f)%nat -> (1 < cap)%nat ->
   fst (read_environ cap (Some f) (query <$> names)) = -1).
Proof.
  intros Hpos. unfold read_environ.
  assert ((fun q => mk_query (q_name q) (q_value q) false) <$> (query <$> names)
    = query <$> names) as ->.
  { rewrite <- list_fmap_compose. apply list_fmap_ext. done. }
  split.
  - intros Hfit. rewrite take_ge by lia.
    destruct (Nat.eqb_spec (length f) 0); [lia|].
    destruct (Nat.leb_spec (cap - 1) (length f)); [lia|]. f_equal.
    rewrite environ_loop_split, foldl_fmap_swap by lia. apply list_fmap_ext.
    intros i q (nm & -> & _)%list_lookup_fmap_Some. by apply match_entries.
  - intros Hbig Hcap. rewrite length_take.
    destruct (Nat.eqb_spec (Nat.min (cap - 1) (length f)) 0); [lia|].
    destruct (Nat.leb_spec (cap - 1) (Nat.min (cap - 1) (length f))); [done|lia].
Qed.

(** Whatever a manifest contains, the strings taken from it fit their
    256-byte fields. *)
Theorem manifest_bounded de l :
  parse_manifest de = Some l ->
  (length (ly_name l) < AC_MANIFEST_STR_LEN)%nat /\
  (length (ly_library_path l) < AC_MANIFEST_STR_LEN)%nat /\
  (length (ly_disable_env l) < AC_MANIFEST_STR_LEN)%nat.
Proof.
  unfold parse_manifest. destruct (negb _); [done|]. destruct (snd de) as [f|]; [|done].
  set (buf := take _ f). unfold AC_MANIFEST_STR_LEN. intros Hl.
  destruct buf as [|b0 buf']; [done|]. set (b := b0 :: buf') in *.
  destruct (json_extract_string b (lit "name") 256) as [nm|] eqn:Hn; [|done].
  destruct (json_extract_string b (lit "library_path") 256) as [lp|] eqn:Hp; [|done].
  injection Hl as <-. cbn [ly_name ly_library_path ly_disable_env].
  assert (forall key v, json_extract_string b key 256 = Some v ->
    (length v <= 255)%nat) as Hx.
  { intros key v. unfold json_extract_string. destruct (64 <=? _)%nat; [done|].
    apply (extract_loop_length _ _ _ 256). }
  pose proof (cstr_length nm). pose proof (cstr_length lp).
  pose proof (Hx _ _ Hn). pose proof (Hx _ _ Hp).
  split_and!; [lia|lia|].
  destruct (json_extract_disable_env b 256) as [d|] eqn:Hd; cbn [default];
    [|cbn; lia].
  pose proof (disable_env_length _ 256 _ Hd). pose proof (cstr_length d).
  cbn [from_option id]. lia.
Qed.

(** The running offset into the names buffer never passes its end, and
    the buffer ends up holding the joined names, cut to it. *)
Theorem names_joined names :
  join_names 0 [] true names = strscpy 512 (joined true names).
Proof. rewrite join_names_eq by (done || lia). reflexivity. Qed.

End Environ.

Module EnvironDemo.
Import Environ.

(** A block that starts with an empty entry. *)
Definition block : list Z :=
  [0] ++ lit "HOME=/root" ++ [0] ++ lit "LD_PRELOAD=/tmp/x.so" ++ [0].

Lemma environ_exact_witness :
  read_environ 64 (Some block) (query <$> [lit "LD_PRELOAD"; lit "HOM"])
  = (0, [mk_query (lit "LD_PRELOAD") (lit "/tmp/x.so") true; query (lit "HOM")]).
Proof.
  apply (environ_exact 64 block [lit "LD_PRELOAD"; lit "HOM"]); vm_compute; lia.
Defined.

Definition manifest : dirent :=
  (lit "evil.json", Some (lit "{" ++ [34] ++ lit "name" ++ [34] ++ lit " : " ++ [34]
     ++ lit "VK_LAYER_X" ++ [34] ++ lit ", " ++ [34] ++ lit "library_path" ++ [34]
     ++ lit ":" ++ [34] ++ lit "/tmp/x.so" ++ [34] ++ lit "}")).

Lemma manifest_bounded_witness :
  let l := mk_layer (lit "VK_LAYER_X") (lit "/tmp/x.so") [] in
  parse_manifest manifest = Some l /\
  (length (ly_name l) < AC_MANIFEST_STR_LEN)%nat.
Proof.
  split; [vm_compute; reflexivity|].
  apply (manifest_bounded manifest). vm_compute. reflexivity.
Defined.

(** A process is marked as warned about even when none of the layer variables
    was set, so variables it starts another program with are not reported. *)
Example layer_variables_after_exec_unreported :
  let it := mk_prot_item 42 false (lit "game") in
  let before := fun _ : Z => Some (lit "HOME=/root" ++ [0]) in
  let after := fun _ : Z => Some (lit "VK_LAYER_PATH=/tmp" ++ [0]) in
  let '(ms1, t1) := check_vk_layers_periodic before slots_init (Some (1, [it])) in
  let '(ms2, _) := check_vk_layers_periodic after t1 (Some (1, [it])) in
  ms1 = [] /\ ms2 = [] /\
  fst (check_vk_layers_periodic after slots_init (Some (1, [it]))) <> [].
Proof. by vm_compute. Qed.

End EnvironDemo.
