(* ===== verification/Elf.v ===== *)
(** Locating a function in a library file (src/anticheat_daemon.c,
    [elf_vaddr_to_file_off], [elf_find_symbol_offset]): the ELF64 headers are
    read field by field from the bytes of a file nobody vouches for. *)

From S2P Require Import Prelude CText CScan.

#[local] Open Scope Z_scope.

Module Elf.

Definition AC_ELF_MAX_SHNUM : Z := 2048.
Definition AC_ELF_MAX_STRTAB : Z := 4 * 1024 * 1024.
Definition AC_ELF_MAX_SYMS : Z := 500000.
Definition AC_ELF_MAX_PHNUM : Z := 256.
Definition UINT64_MAX : Z := 18446744073709551615.

(** ** Reading *)

(** [pread(fd, buf, n, (off_t)off) == n]: the bytes, when the file has them
    all. *)
Definition pread_all (file : list Z) (n off : Z) : option (list Z) :=
  if (s64 off <? 0) || (Z.of_nat (length file) <? s64 off + n) then None
  else Some (take (Z.to_nat n) (drop (Z.to_nat (s64 off)) file)).

(** The [i]-th record of [size] bytes. *)
Definition record (size : nat) (i : nat) (buf : list Z) : list Z :=
  take size (drop (i * size) buf).

(** ** Structures *)

Record Elf64_Ehdr := mk_ehdr {
  e_ident : list Z;
  e_phoff : Z;
  e_shoff : Z;
  e_phentsize : Z;
  e_phnum : Z;
  e_shentsize : Z;
  e_shnum : Z;
  e_shstrndx : Z;
}.

Definition ehdr_of (b : list Z) : Elf64_Ehdr :=
  mk_ehdr (take 16 b) (le 8 32 b) (le 8 40 b) (le 2 54 b) (le 2 56 b)
    (le 2 58 b) (le 2 60 b) (le 2 62 b).

Record Elf64_Shdr := mk_shdr {
  sh_name : Z;
  sh_type : Z;
  sh_offset : Z;
  sh_size : Z;
  sh_entsize : Z;
}.

Definition shdr_of (b : list Z) : Elf64_Shdr :=
  mk_shdr (le 4 0 b) (le 4 4 b) (le 8 24 b) (le 8 32 b) (le 8 56 b).

Record Elf64_Phdr := mk_phdr {
  p_type : Z;
  p_flags : Z;
  p_offset : Z;
  p_vaddr : Z;
  p_filesz : Z;
}.

Definition phdr_of (b : list Z) : Elf64_Phdr :=
  mk_phdr (le 4 0 b) (le 4 4 b) (le 8 8 b) (le 8 16 b) (le 8 32 b).

Record Elf64_Sym := mk_sym {
  st_name : Z;
  st_value : Z;
  st_size : Z;
}.

Definition sym_of (b : list Z) : Elf64_Sym :=
  mk_sym (le 4 0 b) (le 8 8 b) (le 8 16 b).

Definition PT_LOAD : Z := 1.
Definition PF_X : Z := 1.
Definition SHT_STRTAB : Z := 3.
Definition SHT_DYNSYM : Z := 11.
Definition ELFMAG : list Z := [127; 69; 76; 70].

Record ac_elf_loc := mk_loc {
  file_off : Z;
  seg_off : Z;
  seg_end : Z;
}.

(** ** Translating an address *)

(** The program header contains the address, and its extent does not wrap. *)
Definition covers (vaddr : Z) (ph : Elf64_Phdr) : bool :=
  (p_type ph =? PT_LOAD) && negb (Z.land (p_flags ph) PF_X =? 0)
  && (p_vaddr ph <=? vaddr) && (vaddr - p_vaddr ph <? p_filesz ph)
  && (p_offset ph <=? UINT64_MAX - p_filesz ph).

Definition loc_in (vaddr : Z) (ph : Elf64_Phdr) : ac_elf_loc :=
  mk_loc (p_offset ph + (vaddr - p_vaddr ph)) (p_offset ph)
    (p_offset ph + p_filesz ph).

(** The records of a table of [n]. *)
Definition table {A} (parse : list Z -> A) (size n : nat) (buf : list Z) : list A :=
  (fun i => parse (record size i buf)) <$> seq 0 n.

Fixpoint first_cover (vaddr : Z) (phs : list Elf64_Phdr) : option ac_elf_loc :=
  match phs with
  | [] => None
  | ph :: phs' => if covers vaddr ph then Some (loc_in vaddr ph)
                  else first_cover vaddr phs'
  end.

Definition elf_vaddr_to_file_off (file : list Z) (eh : Elf64_Ehdr) (vaddr : Z)
    : option ac_elf_loc :=
  if negb (e_phentsize eh =? 56) || (e_phnum eh =? 0)
     || (AC_ELF_MAX_PHNUM <? e_phnum eh) then None
  else
    match pread_all file (e_phnum eh * 56) (e_phoff eh) with
    | None => None
    | Some buf => first_cover vaddr (table phdr_of 56 (Z.to_nat (e_phnum eh)) buf)
    end.

(** ** Finding a symbol *)

(** The string at [off] of a table, when it ends inside it. *)
Definition str_at (tab : list Z) (off : Z) : option (list Z) :=
  if Z.of_nat (length tab) <=? off then None
  else
    let s := drop (Z.to_nat off) tab in
    if existsb (Z.eqb 0) s then Some (cstr s) else None.

(** The section loop: the last .dynsym and the last .dynstr. *)
Definition pick_section (shstrtab : list Z)
    (acc : option Elf64_Shdr * option Elf64_Shdr) (sh : Elf64_Shdr)
    : option Elf64_Shdr * option Elf64_Shdr :=
  match str_at shstrtab (sh_name sh) with
  | None => acc
  | Some name =>
      if (sh_type sh =? SHT_DYNSYM) && streq name (lit ".dynsym")
      then (Some sh, snd acc)
      else if (sh_type sh =? SHT_STRTAB) && streq name (lit ".dynstr")
      then (fst acc, Some sh) else acc
  end.

(** The symbol loop: the first symbol of that name with a value. *)
Definition is_symbol (dynstrtab symbol : list Z) (s : Elf64_Sym) : bool :=
  negb (st_name s =? 0) && negb (st_value s =? 0)
  && match str_at dynstrtab (st_name s) with
     | Some name => streq name symbol
     | None => false
     end.

Fixpoint find_symbol (dynstrtab symbol : list Z) (syms : list Elf64_Sym)
    : option Elf64_Sym :=
  match syms with
  | [] => None
  | s :: syms' => if is_symbol dynstrtab symbol s then Some s
                  else find_symbol dynstrtab symbol syms'
  end.

Definition header_ok (eh : Elf64_Ehdr) : bool :=
  streq (take 4 (e_ident eh)) ELFMAG
  && (default 0 (e_ident eh !! 4%nat) =? 2) && (default 0 (e_ident eh !! 5%nat) =? 1)
  && (e_shentsize eh =? 64) && negb (e_shnum eh =? 0)
  && (e_shnum eh <=? AC_ELF_MAX_SHNUM) && (e_shstrndx eh <? e_shnum eh).

(** From the section headers on. *)
Definition find_in_sections (file : list Z) (eh : Elf64_Ehdr) (symbol : list Z)
    (shdrs : list Elf64_Shdr) : option (ac_elf_loc * Z) :=
  match shdrs !! Z.to_nat (e_shstrndx eh) with
  | None => None
  | Some shstr =>
      if (sh_size shstr =? 0) || (AC_ELF_MAX_STRTAB <? sh_size shstr) then None
      else
        match pread_all file (sh_size shstr) (sh_offset shstr) with
        | None => None
        | Some shstrtab =>
            match foldl (pick_section shstrtab) (None, None) shdrs with
            | (Some dynsym, Some dynstr) =>
                let nsyms := u32 (sh_size dynsym / 24) in
                if negb (sh_entsize dynsym =? 24) || (sh_size dynstr =? 0)
                   || (AC_ELF_MAX_STRTAB <? sh_size dynstr)
                   || (nsyms =? 0) || (AC_ELF_MAX_SYMS <? nsyms) then None
                else
                  match pread_all file (sh_size dynsym) (sh_offset dynsym),
                        pread_all file (sh_size dynstr) (sh_offset dynstr) with
                  | Some syms, Some dynstrtab =>
                      match find_symbol dynstrtab symbol
                              (table sym_of 24 (Z.to_nat nsyms) syms) with
                      | None => None
                      | Some s =>
                          match elf_vaddr_to_file_off file eh (st_value s) with
                          | Some loc => Some (loc, st_size s)
                          | None => None
                          end
                      end
                  | _, _ => None
                  end
            | _ => None
            end
        end
  end.

Definition elf_find_symbol_offset (file symbol : list Z)
    : option (ac_elf_loc * Z) :=
  match pread_all file 64 0 with
  | None => None
  | Some b =>
      let eh := ehdr_of b in
      if negb (header_ok eh) then None
      else
        match pread_all file (e_shnum eh * 64) (e_shoff eh) with
        | None => None
        | Some buf =>
            find_in_sections file eh symbol
              (table shdr_of 64 (Z.to_nat (e_shnum eh)) buf)
        end
  end.

(** ** The file by the ELF-64 layout

    Which bytes of the file mean what, by their positions in the object file
    format. *)

Section layout.
Context (file : list Z).

(** The [n] bytes at [pos] are there and hold [v], least significant first. *)
Definition field (n : nat) (pos v : Z) : Prop :=
  0 <= pos /\ (Z.to_nat pos + n <= length file)%nat /\
  v = foldr (fun b acc => b + 256 * acc) 0 (take n (drop (Z.to_nat pos) file)).

(** The string at [pos], with its terminator before [stop]. *)
Definition string_at (pos stop : Z) (s : list Z) : Prop :=
  0 <= pos /\ pos + Z.of_nat (length s) < stop /\ 0 ∉ s /\
  take (S (length s)) (drop (Z.to_nat pos) file) = s ++ [0].

(** A 64-bit little-endian ELF file with these tables of segments and
    sections. *)
Record is_elf (phoff phnum shoff shnum shstrndx : Z) : Prop := {
  elf_magic : take 6 file = [127; 69; 76; 70; 2; 1];
  elf_phoff : field 8 32 phoff;
  elf_shoff : field 8 40 shoff;
  elf_phentsize : field 2 54 56;
  elf_phnum : field 2 56 phnum;
  elf_shentsize : field 2 58 64;
  elf_shnum : field 2 60 shnum;
  elf_shstrndx : field 2 62 shstrndx;
}.

Record is_segment (pos type flags off vaddr filesz : Z) : Prop := {
  seg_type : field 4 pos type;
  seg_flags : field 4 (pos + 4) flags;
  seg_offset : field 8 (pos + 8) off;
  seg_vaddr : field 8 (pos + 16) vaddr;
  seg_filesz : field 8 (pos + 32) filesz;
}.

Record is_section (pos name type off size entsize : Z) : Prop := {
  sec_name : field 4 pos name;
  sec_type : field 4 (pos + 4) type;
  sec_offset : field 8 (pos + 24) off;
  sec_size : field 8 (pos + 32) size;
  sec_entsize : field 8 (pos + 56) entsize;
}.

Record is_sym (pos name value size : Z) : Prop := {
  sym_name : field 4 pos name;
  sym_value : field 8 (pos + 8) value;
  sym_size : field 8 (pos + 16) size;
}.

(** A section of that name and type. *)
Definition named_section (shoff shnum shstrndx : Z) (name : list Z)
    (type off size entsize : Z) : Prop :=
  exists k nm soff ssize x y z,
    0 <= k < shnum /\ is_section (shoff + 64 * k) nm type off size entsize /\
    0 <= shstrndx < shnum /\ is_section (shoff + 64 * shstrndx) x y soff ssize z /\
    string_at (soff + nm) (soff + ssize) name.

(** The dynamic symbol table has a symbol of that name, value and size. *)
Definition dynamic_symbol (shoff shnum shstrndx : Z) (symbol : list Z) (v sz : Z) : Prop :=
  exists doff dsize toff tsize tent j nm,
    named_section shoff shnum shstrndx (lit ".dynsym") 11 doff dsize 24 /\
    named_section shoff shnum shstrndx (lit ".dynstr") 3 toff tsize tent /\
    0 <= j < dsize / 24 /\ is_sym (doff + 24 * j) nm v sz /\
    string_at (toff + nm) (toff + tsize) symbol.

(** An executable loadable segment. *)
Definition text_segment (phoff phnum off vaddr filesz : Z) : Prop :=
  exists i flags, 0 <= i < phnum /\ Z.odd flags = true /\
    is_segment (phoff + 56 * i) 1 flags off vaddr filesz.
End layout.

(** ** What is read is what the layout says *)

Definition byte (c : Z) : Prop := 0 <= c < 256.

Lemma le_bytes n off buf :
  le n off buf = foldr (fun b acc => b + 256 * acc) 0 (take n (drop off buf)).
Proof.
  revert off. induction n as [|n IH]; intros off; [done|]. cbn [le]. rewrite IH.
  destruct (buf !! off) as [c|] eqn:Hc.
  - by rewrite (drop_S _ _ _ Hc).
  - apply lookup_ge_None in Hc. by rewrite !drop_ge, !take_nil by lia.
Qed.

Lemma pread_all_spec file n off buf :
  0 <= off < 2 ^ 64 -> 0 <= n -> pread_all file n off = Some buf ->
  buf = take (Z.to_nat n) (drop (Z.to_nat off) file) /\
  off + n <= Z.of_nat (length file).
Proof.
  intros Ho Hn. unfold pread_all. destruct (_ || _) eqn:Hc; [done|]. intros [= <-].
  apply orb_false_iff in Hc as [H0%Z.ltb_ge Hl%Z.ltb_ge].
  assert (s64 off = off) as He; [|by rewrite He in *].
  change (2 ^ 64) with 18446744073709551616 in Ho. unfold s64 in *.
  rewrite u64_id in * by lia. destruct (off <? 9223372036854775808); lia.
Qed.

(** A field of a record of a table. *)
Lemma field_record file n off buf size i o w :
  0 <= off < 2 ^ 64 -> 0 <= n -> pread_all file n off = Some buf ->
  (o + w <= size)%nat -> (i * size + size <= Z.to_nat n)%nat ->
  field file w (off + Z.of_nat size * Z.of_nat i + Z.of_nat o) (le w o (record size i buf)).
Proof.
  intros Ho Hn Hp How Hi. destruct (pread_all_spec _ _ _ _ Ho Hn Hp) as [-> Hl].
  split_and!; [lia|lia|]. rewrite le_bytes. f_equal. unfold record.
  apply list_eq. intros j. destruct (Nat.lt_ge_cases j w) as [Hj|Hj].
  - rewrite !lookup_take_lt by lia. rewrite !lookup_drop.
    rewrite !lookup_take_lt by lia. rewrite !lookup_drop.
    rewrite lookup_take_lt by lia. rewrite lookup_drop. f_equal. lia.
  - by rewrite !lookup_take_ge by lia.
Qed.

(** A string of a string table. *)
Lemma cstr_split s : existsb (Z.eqb 0) s = true -> exists rest, s = cstr s ++ 0 :: rest.
Proof.
  induction s as [|c s IH]; [done|]. cbn [existsb cstr].
  destruct (Z.eqb_spec 0 c) as [<-|Hc]; [intros _; by exists s|].
  destruct (Z.eqb_spec c 0) as [->|_]; [done|]. intros [rest Hr]%IH.
  exists rest. by rewrite Hr at 1.
Qed.

Lemma cstr_no_nul s : 0 ∉ cstr s.
Proof.
  induction s as [|c s IH]; cbn [cstr]; [apply not_elem_of_nil|].
  destruct (Z.eqb_spec c 0); [apply not_elem_of_nil|]. by apply not_elem_of_cons.
Qed.

Lemma string_str_at file n off tab o s :
  0 <= off < 2 ^ 64 -> 0 <= n -> pread_all file n off = Some tab -> 0 <= o ->
  str_at tab o = Some s -> string_at file (off + o) (off + n) s.
Proof.
  intros Ho Hn Hp H0. destruct (pread_all_spec _ _ _ _ Ho Hn Hp) as [-> Hl].
  unfold str_at. destruct (_ <=? o) eqn:Hle; [done|]. apply Z.leb_gt in Hle.
  rewrite length_take, length_drop in Hle. set (u := drop (Z.to_nat o) _).
  destruct (existsb (Z.eqb 0) u) eqn:Hx; [|done]. intros [= <-].
  destruct (cstr_split u Hx) as [rest Hu].
  assert (length u = (Z.to_nat n - Z.to_nat o)%nat) as Hlu.
  { unfold u. rewrite length_drop, length_take, length_drop. lia. }
  rewrite Hu, length_app in Hlu. cbn [length] in Hlu.
  split_and!; [lia|lia|apply cstr_no_nul|].
  trans (take (S (length (cstr u))) u).
  - unfold u at 3. apply list_eq. intros j.
    destruct (Nat.lt_ge_cases j (S (length (cstr u)))) as [Hj|Hj].
    + rewrite !lookup_take_lt by lia. rewrite !lookup_drop, lookup_take_lt by lia.
      rewrite lookup_drop. f_equal. lia.
    + by rewrite !lookup_take_ge by lia.
  - rewrite Hu at 2. change (0 :: rest) with ([0] ++ rest). rewrite app_assoc.
    by rewrite take_app_length' by (rewrite length_app; simpl; lia).
Qed.

Lemma le_range n off buf : Forall byte buf -> 0 <= le n off buf < 256 ^ Z.of_nat n.
Proof.
  intros Hb. revert off. induction n as [|n IH]; intros off; cbn [le]; [lia|].
  assert (0 <= default 0 (buf !! off) < 256) as Hd.
  { destruct (buf !! off) as [c|] eqn:Hc; cbn; [|lia].
    eapply Forall_lookup in Hb; [|exact Hc]. exact Hb. }
  specialize (IH (S off)). rewrite Nat2Z.inj_succ, Z.pow_succ_r by lia. lia.
Qed.

Lemma pread_all_bytes file n off b :
  Forall byte file -> pread_all file n off = Some b -> Forall byte b.
Proof.
  intros Hf. unfold pread_all. destruct (_ || _); [done|]. intros [= <-].
  by apply Forall_take, Forall_drop.
Qed.

Lemma record_bytes size i buf : Forall byte buf -> Forall byte (record size i buf).
Proof. intros Hb. by apply Forall_take, Forall_drop. Qed.

Lemma first_cover_spec vaddr phs loc :
  first_cover vaddr phs = Some loc ->
  exists ph, ph ∈ phs /\ covers vaddr ph = true /\ loc = loc_in vaddr ph.
Proof.
  induction phs as [|ph phs IH]; cbn [first_cover]; [done|].
  destruct (covers vaddr ph) eqn:Hc.
  - intros [= <-]. exists ph. split; [by apply elem_of_cons; left|done].
  - intros (q & Hq & ?)%IH. exists q. split; [by apply elem_of_cons; right|done].
Qed.

Lemma find_symbol_spec tab symbol syms s :
  find_symbol tab symbol syms = Some s -> s ∈ syms /\ is_symbol tab symbol s = true.
Proof.
  induction syms as [|x syms IH]; cbn [find_symbol]; [done|].
  destruct (is_symbol tab symbol x) eqn:Hx.
  - intros [= <-]. split; [by apply elem_of_cons; left|done].
  - intros [? ?]%IH. split; [by apply elem_of_cons; right|done].
Qed.

(** A record of a table read at [off]. *)
Lemma table_elem {A} (parse : list Z -> A) size n buf x :
  x ∈ table parse size n buf -> exists i, (i < n)%nat /\ x = parse (record size i buf).
Proof. intros (i & -> & Hi%elem_of_seq)%list_elem_of_fmap. exists i. split; [lia|done]. Qed.

Section reads.
Context (file : list Z).
Hypothesis Hb : Forall byte file.

Lemma u16_range off buf : Forall byte buf -> 0 <= le 2 off buf < 65536.
Proof. apply (le_range 2). Qed.
Lemma u64_le_range off buf : Forall byte buf -> 0 <= le 8 off buf < 2 ^ 64.
Proof. apply (le_range 8). Qed.

(** The header. *)
Lemma header_read b :
  pread_all file 64 0 = Some b -> header_ok (ehdr_of b) = true ->
  e_phentsize (ehdr_of b) = 56 ->
  let eh := ehdr_of b in
  is_elf file (e_phoff eh) (e_phnum eh) (e_shoff eh) (e_shnum eh) (e_shstrndx eh) /\
  0 <= e_phoff eh < 2 ^ 64 /\ 0 <= e_shoff eh < 2 ^ 64 /\
  0 <= e_phnum eh < 65536 /\ 0 <= e_shnum eh < 65536 /\ 0 <= e_shstrndx eh < e_shnum eh.
Proof.
  intros Hp Hok Hpe eh.
  assert (Forall byte b) as Hbb by by eapply pread_all_bytes.
  destruct (pread_all_spec file 64 0 b ltac:(lia) ltac:(lia) Hp) as [Hbe Hlen].
  assert (length b = 64%nat) as Hlb by (subst b; rewrite length_take, length_drop; lia).
  assert (forall w o, (o + w <= 64)%nat -> field file w (Z.of_nat o) (le w o b)) as Hf.
  { intros w o Hw.
    pose proof (field_record file 64 0 b 64 0 o w ltac:(lia) ltac:(lia) Hp Hw ltac:(lia)) as Hr.
    replace (0 + Z.of_nat 64 * Z.of_nat 0 + Z.of_nat o) with (Z.of_nat o) in Hr by lia.
    unfold record in Hr. cbn [Nat.mul] in Hr. rewrite drop_0, take_ge in Hr by lia. exact Hr. }
  unfold header_ok in Hok. boolp. cbn [ehdr_of e_ident e_shentsize e_shnum e_shstrndx
    e_phentsize e_phoff e_shoff e_phnum] in *.
  destruct Hok as [[[[[[Hmag%streq_true Hcl] Hda] Hse] Hsn] Hsm] Hsx].
  pose proof (u64_le_range 32 b Hbb). pose proof (u64_le_range 40 b Hbb).
  pose proof (u16_range 56 b Hbb). pose proof (u16_range 60 b Hbb). pose proof (u16_range 62 b Hbb).
  split; [|unfold eh; cbn [ehdr_of e_phoff e_shoff e_phnum e_shnum e_shstrndx]; lia].
  unfold eh. cbn [ehdr_of e_phoff e_shoff e_phnum e_shnum e_shstrndx].
  split; try (apply (Hf 8%nat 32%nat) || apply (Hf 8%nat 40%nat) || apply (Hf 2%nat 56%nat)
    || apply (Hf 2%nat 60%nat) || apply (Hf 2%nat 62%nat)); try lia.
  - rewrite take_take in Hmag. change (4 `min` 16)%nat with 4%nat in Hmag.
    assert (take 6 file = take 6 b) as ->.
    { subst b. cbn [drop]. by rewrite take_take. }
    rewrite lookup_take_lt in Hcl, Hda by lia.
    destruct b as [|b0 [|b1 [|b2 [|b3 [|b4 [|b5 b]]]]]]; cbn [length] in Hlb; try lia.
    cbn in *. injection Hmag as -> -> -> ->. by subst.
  - rewrite <- Hpe. by apply (Hf 2%nat 54%nat); lia.
  - rewrite <- Hse. by apply (Hf 2%nat 58%nat); lia.
Qed.

(** The section headers. *)
Lemma section_read n off buf sh k :
  0 <= off < 2 ^ 64 -> 0 <= n -> pread_all file (n * 64) off = Some buf ->
  table shdr_of 64 (Z.to_nat n) buf !! k = Some sh ->
  Z.of_nat k < n /\
  is_section file (off + 64 * Z.of_nat k) (sh_name sh) (sh_type sh) (sh_offset sh)
    (sh_size sh) (sh_entsize sh) /\
  0 <= sh_name sh /\ 0 <= sh_offset sh < 2 ^ 64 /\ 0 <= sh_size sh.
Proof.
  intros Ho Hn Hp Hk. unfold table in Hk. rewrite list_lookup_fmap in Hk.
  destruct (seq 0 (Z.to_nat n) !! k) as [i|] eqn:Hi; [|done]. injection Hk as <-.
  apply lookup_seq in Hi as [-> Hi]. cbn [Nat.add] in *.
  assert (Forall byte (record 64 k buf)) as Hrec
    by (by eapply record_bytes, pread_all_bytes).
  assert (forall w o, (o + w <= 64)%nat ->
    field file w (off + 64 * Z.of_nat k + Z.of_nat o) (le w o (record 64 k buf))) as Hf.
  { intros w o Hw. eapply (field_record file (n * 64) off buf 64 k); done || lia. }
  cbn [shdr_of sh_name sh_type sh_offset sh_size sh_entsize].
  pose proof (le_range 4 0 _ Hrec). pose proof (u64_le_range 24 _ Hrec).
  pose proof (u64_le_range 32 _ Hrec). split; [lia|]. split; [|lia].
  split; [pose proof (Hf 4 0)%nat as Hx|pose proof (Hf 4 4)%nat as Hx
    |pose proof (Hf 8 24)%nat as Hx|pose proof (Hf 8 32)%nat as Hx|pose proof (Hf 8 56)%nat as Hx];
    rewrite ?Z.add_0_r in Hx; apply Hx; lia.
Qed.

(** A symbol of the table. *)
Lemma symbol_read size off buf n s :
  0 <= off < 2 ^ 64 -> 0 <= size -> pread_all file size off = Some buf ->
  (Z.of_nat n <= size / 24) -> s ∈ table sym_of 24 n buf ->
  exists j, 0 <= j < size / 24 /\ 0 <= st_name s /\
    is_sym file (off + 24 * j) (st_name s) (st_value s) (st_size s).
Proof.
  intros Ho Hn Hp Hle (i & Hi & ->)%table_elem.
  assert (Forall byte (record 24 i buf)) as Hrec
    by (by eapply record_bytes, pread_all_bytes).
  assert (24 * (size / 24) <= size) by (apply Z.mul_div_le; lia).
  assert (forall w o, (o + w <= 24)%nat ->
    field file w (off + 24 * Z.of_nat i + Z.of_nat o) (le w o (record 24 i buf))) as Hf.
  { intros w o Hw. eapply (field_record file size off buf 24 i); done || lia. }
  exists (Z.of_nat i). cbn [sym_of st_name st_value st_size].
  pose proof (le_range 4 0 _ Hrec). split_and!; [lia|lia|lia|].
  split; [pose proof (Hf 4 0)%nat as Hx|pose proof (Hf 8 8)%nat as Hx
    |pose proof (Hf 8 16)%nat as Hx]; rewrite ?Z.add_0_r in Hx; apply Hx; lia.
Qed.

(** The segment an address is translated by. *)
Lemma segment_read eh vaddr loc :
  0 <= e_phoff eh < 2 ^ 64 -> elf_vaddr_to_file_off file eh vaddr = Some loc ->
  e_phentsize eh = 56 /\
  exists off va fsz, text_segment file (e_phoff eh) (e_phnum eh) off va fsz /\
    va <= vaddr < va + fsz /\ loc = mk_loc (off + (vaddr - va)) off (off + fsz) /\
    0 <= off /\ off + fsz < 2 ^ 64.
Proof.
  intros Ho. unfold elf_vaddr_to_file_off. destruct (_ || _) eqn:Hc; [done|].
  apply orb_false_iff in Hc as [[Hsz%negb_false_iff%Z.eqb_eq Hn0%Z.eqb_neq]%orb_false_iff _].
  destruct (pread_all file _ _) as [buf|] eqn:Hp; [|done].
  intros (ph & Hph & Hc & ->)%first_cover_spec. split; [done|].
  apply table_elem in Hph as (i & Hi & ->). set (ph := phdr_of _) in *.
  assert (Forall byte (record 56 i buf)) as Hrec
    by (by eapply record_bytes, pread_all_bytes).
  assert (forall w o, (o + w <= 56)%nat ->
    field file w (e_phoff eh + 56 * Z.of_nat i + Z.of_nat o) (le w o (record 56 i buf))) as Hf.
  { intros w o Hw. eapply (field_record file (e_phnum eh * 56) _ buf 56 i); done || lia. }
  unfold covers in Hc. boolp. destruct Hc as [[[[Ht Hx] Hlo] Hhi] Hwrap].
  pose proof (u64_le_range 8 _ Hrec). pose proof (u64_le_range 32 _ Hrec).
  exists (p_offset ph), (p_vaddr ph), (p_filesz ph). split_and!; try done.
  - exists (Z.of_nat i), (p_flags ph). split; [lia|]. split.
    + unfold PF_X in Hx. change 1 with (Z.ones 1) in Hx. rewrite Z.land_ones in Hx by lia.
      change (2 ^ 1) with 2 in Hx. rewrite Zmod_odd in Hx. by destruct (Z.odd (p_flags ph)).
    + unfold PT_LOAD in Ht. rewrite <- Ht. unfold ph. cbn [phdr_of p_type p_flags p_offset p_vaddr p_filesz].
      split; [pose proof (Hf 4 0)%nat as Hy|pose proof (Hf 4 4)%nat as Hy
        |pose proof (Hf 8 8)%nat as Hy|pose proof (Hf 8 16)%nat as Hy
        |pose proof (Hf 8 32)%nat as Hy]; rewrite ?Z.add_0_r in Hy; apply Hy; lia.
  - lia.
  - unfold ph. cbn [phdr_of p_offset]. lia.
  - unfold UINT64_MAX in *. lia.
Qed.

(** Which sections the loop over the headers picks. *)
Definition picked (tab : list Z) (l : list Elf64_Shdr) (type : Z) (name : list Z)
    (d : Elf64_Shdr) : Prop :=
  d ∈ l /\ sh_type d = type /\ str_at tab (sh_name d) = Some name.

Lemma pick_sections tab l ds dt :
  foldl (pick_section tab) (None, None) l = (Some ds, Some dt) ->
  picked tab l 11 (lit ".dynsym") ds /\ picked tab l 3 (lit ".dynstr") dt.
Proof.
  assert (forall done todo acc, foldl (pick_section tab) acc todo = (Some ds, Some dt) ->
    (forall d, fst acc = Some d -> picked tab (done ++ todo) 11 (lit ".dynsym") d) ->
    (forall d, snd acc = Some d -> picked tab (done ++ todo) 3 (lit ".dynstr") d) ->
    picked tab (done ++ todo) 11 (lit ".dynsym") ds /\
    picked tab (done ++ todo) 3 (lit ".dynstr") dt) as Hgen.
  { intros done todo. revert done. induction todo as [|sh todo IH]; intros done acc Hf H1 H2;
      cbn [foldl] in Hf.
    - subst acc. split; [by apply H1|by apply H2].
    - replace (done ++ sh :: todo) with ((done ++ [sh]) ++ todo) in * by (by rewrite <- app_assoc).
      assert (sh ∈ (done ++ [sh]) ++ todo) as Hin by (rewrite !elem_of_app; left; right; left).
      apply (IH (done ++ [sh]) _ Hf); intros d; unfold pick_section;
        destruct (str_at tab (sh_name sh)) as [nm|] eqn:Hn; auto;
        destruct ((sh_type sh =? SHT_DYNSYM) && streq nm (lit ".dynsym")) eqn:Ha; cbn [fst snd]; auto;
        try (intros [= <-]; apply andb_true_iff in Ha as [Ht%Z.eqb_eq ->%streq_true];
             by split_and!);
        destruct ((sh_type sh =? SHT_STRTAB) && streq nm (lit ".dynstr")) eqn:Hs; cbn [fst snd]; auto.
      intros [= <-]; apply andb_true_iff in Hs as [Ht%Z.eqb_eq ->%streq_true]; by split_and!. }
  intros Hf. by apply (Hgen [] l (None, None)).
Qed.
End reads.

(** ** Properties *)

(** C28: a location found in any file at all, however malformed, is what the
    ELF-64 layout says.  The file starts with the header of a 64-bit
    little-endian ELF file; its section table has a .dynsym of type 11 and a
    .dynstr of type 3, named so in the section name table; .dynsym holds a
    symbol whose name, terminated inside .dynstr, is the one asked for; its
    size is the size returned and its value lies in one of the executable
    loadable segments of the file's segment table.  The location is that
    value's place in that segment's file extent, which does not wrap. *)
Theorem elf_location_sound file symbol loc sz :
  Forall byte file -> elf_find_symbol_offset file symbol = Some (loc, sz) ->
  exists phoff phnum shoff shnum shstrndx v off vaddr filesz,
    is_elf file phoff phnum shoff shnum shstrndx /\
    dynamic_symbol file shoff shnum shstrndx symbol v sz /\ v <> 0 /\
    text_segment file phoff phnum off vaddr filesz /\
    vaddr <= v < vaddr + filesz /\
    loc = mk_loc (off + (v - vaddr)) off (off + filesz) /\
    0 <= off /\ off + filesz < 2 ^ 64.
Proof.
  intros Hb. unfold elf_find_symbol_offset.
  destruct (pread_all file 64 0) as [b|] eqn:Heb; [|done].
  destruct (header_ok (ehdr_of b)) eqn:Hok; [|done]. cbn [negb]. set (eh := ehdr_of b) in *.
  destruct (pread_all file (e_shnum eh * 64) (e_shoff eh)) as [sb|] eqn:Hsb; [|done].
  unfold find_in_sections. destruct (_ !! _) as [shstr|] eqn:Hshs; [|done].
  destruct (_ || _); [done|]. destruct (pread_all file (sh_size shstr) _) as [st|] eqn:Hstr; [|done].
  destruct (foldl _ _ _) as [[dynsym|] [dynstr|]] eqn:Hsec; try done.
  destruct (_ || _) eqn:Hlim; [done|].
  destruct (pread_all file (sh_size dynsym) _) as [syms|] eqn:Hsy; [|done].
  destruct (pread_all file (sh_size dynstr) _) as [strs|] eqn:Hst; [|done].
  destruct (find_symbol _ _ _) as [s|] eqn:Hfs; [|done].
  destruct (elf_vaddr_to_file_off file eh (st_value s)) as [l|] eqn:Hl; [|done].
  intros [= -> <-]. apply find_symbol_spec in Hfs as [Hin His].
  assert (Forall byte b) as Hbb by by eapply pread_all_bytes.
  apply (segment_read file Hb) in Hl as (Hpe & off & va & fsz & Hseg & Hva & -> & Hoff);
    [|by apply u64_le_range].
  destruct (header_read file Hb b Heb Hok Hpe) as (Helf & _ & Hso & _ & Hsn & Hsx).
  fold eh in Helf, Hso, Hsn, Hsx.
  assert (forall d type name, picked st (table shdr_of 64 (Z.to_nat (e_shnum eh)) sb) type name d ->
    named_section file (e_shoff eh) (e_shnum eh) (e_shstrndx eh) name type (sh_offset d)
      (sh_size d) (sh_entsize d) /\ 0 <= sh_offset d < 2 ^ 64 /\ 0 <= sh_size d) as Hnamed.
  { intros d type name (Hd & <- & Hname). apply list_elem_of_lookup in Hd as [k Hk].
    destruct (section_read file Hb _ _ _ _ _ Hso (proj1 Hsn) Hsb Hk) as (Hkn & Hsect & Hnm & Hdo & Hdz).
    destruct (section_read file Hb _ _ _ _ _ Hso (proj1 Hsn) Hsb Hshs) as (_ & Hss & _ & Hsto & Hstz).
    rewrite Z2Nat.id in Hss by lia. split; [|done].
    exists (Z.of_nat k), (sh_name d), (sh_offset shstr), (sh_size shstr), (sh_name shstr),
      (sh_type shstr), (sh_entsize shstr). split_and!; try done; [lia..|].
    by eapply string_str_at. }
  apply pick_sections in Hsec as [(Hnd & Hdo & Hdz)%Hnamed (Hnt & Hto & Htz)%Hnamed].
  apply orb_false_iff in Hlim as [[[[Hent%negb_false_iff%Z.eqb_eq _]%orb_false_iff _]%orb_false_iff
    _]%orb_false_iff _].
  rewrite Hent in Hnd.
  assert (Z.of_nat (Z.to_nat (u32 (sh_size dynsym / 24))) <= sh_size dynsym / 24) as Hcut.
  { pose proof (Z.div_pos (sh_size dynsym) 24 Hdz ltac:(lia)). word_lia. }
  destruct (symbol_read file Hb _ _ _ _ s Hdo Hdz Hsy Hcut Hin) as (j & Hj & Hsn0 & Hsym).
  unfold is_symbol in His. apply andb_true_iff in His as [[_ Hv0]%andb_true_iff Hname].
  destruct (str_at strs (st_name s)) as [nm|] eqn:Hnm; [|done]. apply streq_true in Hname as ->.
  exists (e_phoff eh), (e_phnum eh), (e_shoff eh), (e_shnum eh), (e_shstrndx eh), (st_value s),
    off, va, fsz.
  split; [exact Helf|]. split.
  { exists (sh_offset dynsym), (sh_size dynsym), (sh_offset dynstr), (sh_size dynstr),
      (sh_entsize dynstr), j, (st_name s). split_and!; try done; [lia..|].
    by eapply string_str_at. }
  split; [by apply negb_true_iff, Z.eqb_neq in Hv0|done].
Qed.

End Elf.

(** A small library whose text segment is not mapped at its file offset. *)
Module ElfDemo.
Import Elf.

Definition zeros (n : nat) : list Z := replicate n 0.

Definition ehdr : list Z :=
  ELFMAG ++ [2; 1] ++ zeros 10 ++ zeros 16 ++ put_le 8 64 ++ put_le 8 120
  ++ zeros 6 ++ put_le 2 56 ++ put_le 2 1 ++ put_le 2 64 ++ put_le 2 3 ++ put_le 2 0.
Definition text_phdr : list Z :=
  put_le 4 1 ++ put_le 4 5 ++ put_le 8 400 ++ put_le 8 4496 ++ zeros 8 ++ put_le 8 16 ++ zeros 16.
Definition shdr (name type off size ent : Z) : list Z :=
  put_le 4 name ++ put_le 4 type ++ zeros 16 ++ put_le 8 off ++ put_le 8 size ++ zeros 16 ++ put_le 8 ent.
Definition shstr : list Z := lit ".dynsym" ++ [0] ++ lit ".dynstr" ++ [0].
Definition sym (name value size : Z) : list Z :=
  put_le 4 name ++ zeros 4 ++ put_le 8 value ++ put_le 8 size.
Definition dynstr : list Z := [0] ++ lit "eglSwapBuffers" ++ [0].
Definition code : list Z := [85; 72; 137; 229; 49; 192; 93; 195; 0; 0; 0; 0; 0; 0; 0; 0].

Definition file : list Z :=
  ehdr ++ text_phdr
  ++ shdr 99 3 312 16 0 ++ shdr 0 11 328 48 24 ++ shdr 8 3 376 16 0
  ++ shstr ++ (sym 0 0 0 ++ sym 1 4500 8) ++ dynstr ++ zeros 8 ++ code.

Lemma file_bytes : Forall byte file.
Proof.
  vm_compute. repeat (constructor; [split; [discriminate|reflexivity]|]). constructor.
Qed.

Lemma elf_location_sound_witness :
  exists phoff phnum shoff shnum shstrndx v off vaddr filesz,
    is_elf file phoff phnum shoff shnum shstrndx /\
    dynamic_symbol file shoff shnum shstrndx (lit "eglSwapBuffers") v 8 /\ v <> 0 /\
    text_segment file phoff phnum off vaddr filesz /\
    vaddr <= v < vaddr + filesz /\
    mk_loc 404 400 416 = mk_loc (off + (v - vaddr)) off (off + filesz) /\
    0 <= off /\ off + filesz < 2 ^ 64.
Proof.
  apply (elf_location_sound file (lit "eglSwapBuffers") (mk_loc 404 400 416) 8).
  - apply file_bytes.
  - vm_compute. reflexivity.
Defined.

End ElfDemo.
