(* ===== verification/Render.v ===== *)
(** The render-hook check (src/anticheat_daemon.c): which mappings are a
    render library, where they say a function is, whether that address
    belongs to the library, and the verdict over all mappings. *)

From S2P Require Import Prelude CText CScan Abi DLog Elf.
Import DLog.DLog Elf.Elf.

#[local] Open Scope Z_scope.

Module Render.

Definition AC_HOOK_CHECK_DEFAULT_BYTES : Z := 32.
Definition AC_HOOK_CHECK_MIN_BYTES : Z := 8.
Definition AC_HOOK_CHECK_MAX_BYTES : Z := 512.
Definition AC_RENDER_MAX_MAPS : nat := 16.

Record ac_render_map := mk_map {
  rm_start : Z;
  rm_end : Z;
  rm_offset : Z;
  rm_inode : Z;
  rm_path : list Z;
}.

(** Device and inode. *)
Record ac_map_id := mk_id { id_dev : Z; id_ino : Z }.

#[export] Instance map_id_eq_dec : EqDecision ac_map_id.
Proof. solve_decision. Defined.

(** [map_file_identity]: the file mapped at a range. *)
Inductive identity := Regular (id : ac_map_id) | NotRegular | Unreadable.

(** What /proc gives for one process. *)
Record proc_files := mk_proc_files {
  pf_identity : Z -> Z -> identity;               (** map_files/<start>-<end> *)
  pf_contents : Z -> Z -> option (ac_map_id * list Z);  (** opened and read *)
  pf_mem : Z -> Z -> option (list Z);             (** [pread] of n bytes at addr *)
  pf_alive : bool;                                (** kill(pid, 0) *)
  pf_mem_open : bool;
}.

(** ** The reference bytes *)

(** How much of the symbol is compared. *)
Definition check_length (size : Z) (loc : ac_elf_loc) : Z :=
  let n := if size =? 0 then AC_HOOK_CHECK_DEFAULT_BYTES
           else if size <? AC_HOOK_CHECK_MIN_BYTES then AC_HOOK_CHECK_MIN_BYTES
           else if AC_HOOK_CHECK_MAX_BYTES <? size then AC_HOOK_CHECK_MAX_BYTES
           else size in
  if seg_end loc - file_off loc <? n then seg_end loc - file_off loc else n.

Definition load_render_reference (pf : proc_files) (m : ac_render_map)
    (id : ac_map_id) (symbol : list Z) : option (ac_elf_loc * list Z) :=
  match pf_contents pf (rm_start m) (rm_end m) with
  | None => None
  | Some (fid, file) =>
      if negb (bool_decide (fid = id)) then None
      else
        match elf_find_symbol_offset file symbol with
        | None => None
        | Some (loc, size) =>
            match pread_all file (check_length size loc) (file_off loc) with
            | None => None
            | Some expected => Some (loc, expected)
            end
        end
  end.

(** ** Whether an address belongs to the library *)

(** A VMA of the snapshot and what is known of the file it maps: 1 this file,
    0 not, -1 unknown. *)
Record seen_vma := mk_seen { sv_vma : ac_vma_info; sv_same : Z }.

Definition same_file (pf : proc_files) (id : ac_map_id) (vi : ac_vma_info) : Z :=
  if vi_is_file vi then
    match pf_identity pf (vi_start vi) (vi_end vi) with
    | Regular fid => if bool_decide (fid = id) then 1 else 0
    | NotRegular => 0
    | Unreadable => -1
    end
  else 0.

(** Walking right from the hole that ends at [prev_end]: 1 closed, 0 open, -1
    cannot tell; -2 at the end of the list, with whether an unknown file was
    passed. *)
Fixpoint walk_right (l : list seen_vma) (prev_end : Z) (unknown : bool)
    : Z * bool :=
  match l with
  | [] => (-2, unknown)
  | v :: l' =>
      if negb (vi_start (sv_vma v) =? prev_end) then
        ((if unknown then -1 else 0), unknown)
      else if sv_same v =? 1 then (1, unknown)
      else walk_right l' (vi_end (sv_vma v)) (unknown || (sv_same v <? 0))
  end.

(** The walk up to the VMA that holds [addr]. *)
Fixpoint walk_left (l : list seen_vma) (delta addr prev_end left_ok : Z)
    : Z * bool :=
  match l with
  | [] => (-2, false)
  | v :: l' =>
      let vi := sv_vma v in
      if vi_end vi <=? addr then
        let ok := if vi_start vi =? prev_end then left_ok else 0 in
        let ok := if sv_same v =? 1 then 1
                  else if (sv_same v <? 0) && (ok =? 0) then -1 else ok in
        walk_left l' delta addr (vi_end vi) ok
      else if addr <? vi_start vi then (0, false)
      else if negb (sv_same v =? 0) && (u64 (vi_start vi - vi_offset vi) =? delta)
      then ((if sv_same v =? 1 then 1 else -1), false)
      else if negb (vi_start vi =? prev_end) || (left_ok =? 0) then (0, false)
      else if left_ok <? 0 then (-1, false)
      else walk_right l' (vi_end vi) false
  end.

(** [snap]: the VMAs SCAN_GET returned, and whether one of the calls failed;
    [complete]: the snapshot was not truncated. *)
Definition render_addr_in_load (snap : option (list seen_vma * bool * bool))
    (delta addr : Z) : Z :=
  match snap with
  | None => -1
  | Some (l, failed, complete) =>
      let '(ret, unknown) := walk_left l delta addr 0 0 in
      if ret =? -2 then
        if failed then -1
        else if complete && negb unknown then 0 else -1
      else ret
  end.

(** ** One mapping *)

Section compare.
Context (pf : proc_files).
(** The snapshot [render_addr_in_load] takes when asked about a file and an
    address. *)
Context (snap : ac_map_id -> Z -> option (list seen_vma * bool * bool)).

(** 1 hooked, 0 clean, -1 inconclusive, -2 says nothing. *)
Definition compare_render_map (m : ac_render_map) (id : ac_map_id)
    (loc : ac_elf_loc) (expected : list Z) : Z :=
  let len := u64 (rm_end m - rm_start m) in
  if (rm_end m <=? rm_start m) || (seg_end loc <=? rm_offset m)
     || (UINT64_MAX - rm_offset m <? len)
     || (rm_offset m + len <=? seg_off loc)
  then -2
  else
    let delta := u64 (rm_start m - rm_offset m) in
    let addr := u64 (delta + file_off loc) in
    match pf_mem pf (Z.of_nat (length expected)) addr with
    | None => -1
    | Some actual =>
        if streq expected actual then 0
        else
          let last := u64 (addr + Z.of_nat (length expected) - 1) in
          let r := render_addr_in_load (snap id addr) delta addr in
          let r := if r =? 1 then render_addr_in_load (snap id last) delta last
                   else r in
          if r <? 0 then -1 else if r =? 0 then -2 else 1
    end.

(** ** All mappings of a library *)

Record ac_lib_result := mk_lib {
  lr_incomplete : bool;
  lr_maps : list ac_render_map;
}.

Definition id_of (m : ac_render_map) : option ac_map_id :=
  match pf_identity pf (rm_start m) (rm_end m) with
  | Regular id => Some id
  | _ => None
  end.

(** The first mapping of the same file, whose ELF is the one parsed. *)
Definition leader (maps : list ac_render_map) (id : ac_map_id)
    : option ac_render_map :=
  head (filter (fun m => id_of m = Some id) maps).

(** What one mapping contributes: its group's reference, then the
    comparison. *)
Definition map_verdict (maps : list ac_render_map) (symbol : list Z)
    (m : ac_render_map) : Z :=
  match id_of m with
  | None => -1
  | Some id =>
      match leader maps id with
      | None => -1
      | Some m0 =>
          match load_render_reference pf m0 id symbol with
          | None => -1
          | Some (loc, expected) => compare_render_map m id loc expected
          end
      end
  end.

(** The verdicts in the order the loops visit them: group by group, each
    group at its first mapping. *)
Definition groups (maps : list ac_render_map) : list ac_map_id :=
  foldl (fun acc m => match id_of m with
                      | Some id => if bool_decide (id ∈ acc) then acc
                                   else acc ++ [id]
                      | None => acc
                      end) [] maps.

Definition visited (maps : list ac_render_map) : list ac_render_map :=
  concat ((fun id => filter (fun m => id_of m = Some id) maps) <$> groups maps).

Definition check_render_lib (res : ac_lib_result) (symbol : list Z)
    : Z * list Z :=
  let maps := lr_maps res in
  let first_path := match maps with m :: _ => rm_path m | [] => [] end in
  if negb (pf_alive pf) || negb (pf_mem_open pf) then (-1, first_path)
  else
    let vs := (fun m => (map_verdict maps symbol m, rm_path m)) <$> visited maps in
    let unidentified := existsb (fun m => bool_decide (id_of m = None)) maps in
    match filter (fun v => fst v = 1) vs with
    | (_, path) :: _ => (1, path)
    | [] =>
        if lr_incomplete res || unidentified
           || existsb (fun v => fst v =? -1) vs
           || negb (existsb (fun v => fst v =? 0) vs)
        then (-1, first_path) else (0, first_path)
    end.
End compare.

(** ** Which mappings are a library *)

Definition deleted : list Z := lit " (deleted)".

Definition render_lib_name_matches (base soname : list Z) : bool :=
  let len := if (10 <=? length base)%nat
                && streq (drop (length base - 10) base) deleted
             then (length base - 10)%nat else length base in
  let n := length soname in
  if (len <? n)%nat || negb (streq (take n base) soname) then false
  else if (len =? n)%nat then true
  else if negb (default 0 (base !! n) =? 46) || (len =? n + 1)%nat then false
  else forallb (fun c => isdigit c || (c =? 46))
         (take (len - (n + 1)) (drop (n + 1) base)).

(** [strrchr(path, '/')] *)
Fixpoint basename (path acc : list Z) : list Z :=
  match path with
  | [] => acc
  | c :: p => if c =? 47 then basename p p else basename p acc
  end.

Record render_api := mk_api { soname : list Z; symbol : list Z; label : list Z }.

Definition AC_RENDER_APIS : list render_api :=
  [mk_api (lit "libvulkan.so") (lit "vkQueuePresentKHR") (lit "Vulkan");
   mk_api (lit "libGL.so") (lit "glXSwapBuffers") (lit "GLX/OpenGL");
   mk_api (lit "libEGL.so") (lit "eglSwapBuffers") (lit "EGL")].

(** One VMA for one library. *)
Definition add_map (api : render_api) (res : ac_lib_result) (vi : ac_vma_info)
    : ac_lib_result :=
  let base := basename (vi_path vi) (vi_path vi) in
  if negb (vi_is_file vi) || (length (vi_path vi) =? 0)%nat
     || (Z.land (vi_flags vi) AC_VM_EXEC =? 0) then res
  else if negb (render_lib_name_matches base (soname api)) then res
  else if (AC_RENDER_MAX_MAPS <=? length (lr_maps res))%nat then
    mk_lib true (lr_maps res)
  else
    mk_lib (lr_incomplete res)
      (lr_maps res ++ [mk_map (vi_start vi) (vi_end vi) (vi_offset vi)
                         (vi_inode vi) (strscpy AC_VMA_PATH (vi_path vi))]).

(** [snap]: the VMAs of the snapshot and whether any may be missing (a
    truncated snapshot, too many VMAs, or a failed SCAN_GET); [None] when
    SCAN_BEGIN failed. *)
Definition find_render_lib_maps (snap : option (list ac_vma_info * bool))
    : option (list ac_lib_result) :=
  match snap with
  | None => None
  | Some (vmas, missing) =>
      Some ((fun api =>
        let res := foldl (add_map api) (mk_lib false []) vmas in
        mk_lib (lr_incomplete res || missing) (lr_maps res)) <$> AC_RENDER_APIS)
  end.

(** -2 not loaded, -1 inconclusive, 0 clean, 1 hooked, with the path. *)
Definition render_hook_statuses_for (pf : proc_files)
    (snap : option (list ac_vma_info * bool))
    (in_load : ac_map_id -> Z -> option (list seen_vma * bool * bool))
    : list (Z * list Z) :=
  match find_render_lib_maps snap with
  | None => (fun _ => (-1, [])) <$> AC_RENDER_APIS
  | Some results =>
      zip_with (fun api res =>
        match lr_maps res with
        | [] => (if lr_incomplete res then -1 else -2, [])
        | _ => check_render_lib pf in_load res (symbol api)
        end) AC_RENDER_APIS results
  end.

(** The messages of the periodic check for one process. *)
Definition render_hook_msgs (it : ac_prot_item) (statuses : list (Z * list Z))
    : list msg :=
  concat (zip_with (fun api '(st, path) =>
    if st =? 1 then
      [logm LOG_CRIT [lit "pid "; fmt_d (pi_pid it); lit " ("; pi_comm it;
         lit "): render hook detected in "; path; lit " ("; symbol api;
         lit " differs from a freshly-loaded reference copy -- possible ESP/overlay/render hijack)"]]
    else []) AC_RENDER_APIS statuses).

(** What the check of one process reads. *)
Record render_view := mk_render_view {
  rw_files : proc_files;
  rw_snap : option (list ac_vma_info * bool);
  rw_in_load : ac_map_id -> Z -> option (list seen_vma * bool * bool);
}.

Definition check_render_hooks_periodic (view : Z -> render_view)
    (lst : option (Z * list ac_prot_item)) : list msg :=
  match lst with
  | None => []
  | Some (count, items) =>
      let '(count, warn) := clamp_prot_count count in
      warn ++ concat ((fun it =>
        let w := view (pi_pid it) in
        render_hook_msgs it (render_hook_statuses_for (rw_files w) (rw_snap w)
          (rw_in_load w))) <$> take (Z.to_nat count) items)
  end.

(** ** Reference: an address inside a library's span *)

(** Mappings in address order, each with whether it maps the library's file. *)
Definition span : Type := list (ac_vma_info * bool).

(** The contiguous run to the right of address [e] reaches the file. *)
Fixpoint reach_right (l : span) (e : Z) : bool :=
  match l with
  | (v, b) :: l' => (vi_start v =? e) && (b || reach_right l' (vi_end v))
  | [] => false
  end.

(** The same to the left of [s], the nearest mapping first. *)
Fixpoint reach_left (l : span) (s : Z) : bool :=
  match l with
  | (v, b) :: l' => (vi_end v =? s) && (b || reach_left l' (vi_start v))
  | [] => false
  end.

(** The address is in the library's own text, or in a hole between mappings of
    the file; [before] are the mappings already passed, nearest first. *)
Fixpoint in_load_ref (before l : span) (delta addr : Z) : bool :=
  match l with
  | [] => false
  | (v, b) :: l' =>
      if vi_end v <=? addr then in_load_ref ((v, b) :: before) l' delta addr
      else (vi_start v <=? addr) &&
           ((b && (u64 (vi_start v - vi_offset v) =? delta))
            || (reach_left before (vi_start v) && reach_right l' (vi_end v)))
  end.

(** A way the unknown identities may turn out. *)
Definition resolves (v : seen_vma) (w : ac_vma_info * bool) : Prop :=
  fst w = sv_vma v /\
  (sv_same v = 1 /\ snd w = true \/ sv_same v = 0 /\ snd w = false \/ sv_same v = -1).

Lemma walk_right_sound l lr more e unk :
  Forall2 resolves l lr ->
  let '(r, u) := walk_right l e unk in
  (r = 1 -> reach_right (lr ++ more) e = true) /\
  (r = 0 -> unk = false /\ reach_right (lr ++ more) e = false) /\
  (r = -2 -> u = false -> unk = false /\ (more = [] -> reach_right (lr ++ more) e = false)) /\
  (r = 1 \/ r = 0 \/ r = -1 \/ r = -2).
Proof.
  intros Hr. revert e unk. induction Hr as [|v [w b] l lr Hv Hr IH]; intros e unk;
    cbn [walk_right app reach_right].
  { split_and!; try done; auto. intros _ ->. split; [done|]. by intros ->. }
  destruct Hv as [Hw Hb]. cbn [fst snd] in *. subst w.
  destruct (Z.eqb_spec (vi_start (sv_vma v)) e) as [He|He]; cbn [negb andb].
  - destruct (Z.eqb_spec (sv_same v) 1) as [H1|H1].
    + destruct Hb as [[_ ->]|[[? _]|?]]; [|lia..]. split_and!; done || auto.
    + specialize (IH (vi_end (sv_vma v)) (unk || (sv_same v <? 0))).
      destruct (walk_right l _ _) as [r u]. destruct IH as (I1 & I0 & I2 & Id).
      split_and!; [| | |done].
      * intros Hr1. rewrite (I1 Hr1). apply orb_true_r.
      * intros Hr0. destruct (I0 Hr0) as [Hu ->]. apply orb_false_iff in Hu as [-> Hs].
        split; [done|]. destruct Hb as [[? ?]|[[_ ->]|Hm]]; [lia|done|].
        rewrite Hm in Hs. done.
      * intros Hr2 Hu. destruct (I2 Hr2 Hu) as [Hx Hrr].
        apply orb_false_iff in Hx as [-> Hs]. split; [done|]. intros Hmore.
        rewrite (Hrr Hmore). destruct Hb as [[? ?]|[[_ ->]|Hm]]; [lia|done|].
        rewrite Hm in Hs. done.
  - destruct unk; split_and!; done || auto.
Qed.

(** What [left_ok] knows about the run that ends at [prev_end]. *)
Definition left_inv (before : span) (prev_end left_ok : Z) : Prop :=
  (left_ok = 1 \/ left_ok = 0 \/ left_ok = -1) /\
  (left_ok = 1 -> reach_left before prev_end = true) /\
  (left_ok = 0 -> reach_left before prev_end = false) /\
  match before with (v, _) :: _ => prev_end = vi_end v | [] => True end.

Lemma reach_left_gap before prev_end left_ok s :
  left_inv before prev_end left_ok -> s <> prev_end -> reach_left before s = false.
Proof.
  intros (_ & _ & _ & Hl) Hne. destruct before as [|[v b] before]; [done|].
  cbn [reach_left]. destruct (Z.eqb_spec (vi_end v) s); [congruence|done].
Qed.

Lemma left_inv_step before prev_end left_ok v b :
  left_inv before prev_end left_ok -> resolves v (sv_vma v, b) ->
  let ok := if vi_start (sv_vma v) =? prev_end then left_ok else 0 in
  left_inv ((sv_vma v, b) :: before) (vi_end (sv_vma v))
    (if sv_same v =? 1 then 1
     else if (sv_same v <? 0) && (ok =? 0) then -1 else ok).
Proof.
  intros Hinv [_ Hb]. cbn [snd] in Hb. cbn zeta.
  pose proof Hinv as (Hd & H1 & H0 & _).
  set (ok := if _ =? _ then left_ok else 0).
  assert ((ok = 1 \/ ok = 0 \/ ok = -1) /\
    (ok = 1 -> reach_left before (vi_start (sv_vma v)) = true) /\
    (ok = 0 -> reach_left before (vi_start (sv_vma v)) = false)) as (Kd & K1 & K0).
  { unfold ok. destruct (Z.eqb_spec (vi_start (sv_vma v)) prev_end) as [->|Hne]; [done|].
    split_and!; [auto|done|]. intros _. by eapply reach_left_gap. }
  unfold left_inv. cbn [reach_left]. rewrite Z.eqb_refl. cbn [andb].
  destruct (Z.eqb_spec (sv_same v) 1) as [Hs|Hs].
  { destruct Hb as [[_ ->]|[[? _]|?]]; [|lia..]. split_and!; auto; lia. }
  destruct Hb as [[? _]|[[Hs0 ->]|Hm]]; [lia| |].
  - rewrite Hs0. cbn [Z.ltb Z.compare andb orb]. split_and!; auto.
  - rewrite Hm. cbn [Z.ltb Z.compare andb]. destruct (Z.eqb_spec ok 0) as [|Hok].
    + split_and!; auto; lia.
    + split_and!; auto; [|lia]. intros ->. rewrite K1 by done. apply orb_true_r.
Qed.

Lemma walk_left_sound l lr more before delta addr prev_end left_ok :
  Forall2 resolves l lr -> left_inv before prev_end left_ok ->
  let '(r, u) := walk_left l delta addr prev_end left_ok in
  (r = 1 -> in_load_ref before (lr ++ more) delta addr = true) /\
  (r = 0 -> in_load_ref before (lr ++ more) delta addr = false) /\
  (r = -2 -> u = false -> more = [] ->
     in_load_ref before (lr ++ more) delta addr = false) /\
  (r = 1 \/ r = 0 \/ r = -1 \/ r = -2).
Proof.
  intros Hr. revert before prev_end left_ok.
  induction Hr as [|v [w b] l lr Hv Hr IH]; intros before prev_end left_ok Hinv;
    cbn [walk_left app in_load_ref].
  { split_and!; try done; auto. by intros _ _ ->. }
  pose proof Hv as [Hw Hb]. cbn [fst snd] in Hw, Hb. subst w.
  destruct (Z.leb_spec (vi_end (sv_vma v)) addr) as [Hend|Hend].
  { apply IH. by apply left_inv_step. }
  destruct (Z.ltb_spec addr (vi_start (sv_vma v))) as [Hst|Hst].
  { rewrite (proj2 (Z.leb_gt _ _)) by lia. split_and!; done || auto. }
  rewrite (proj2 (Z.leb_le _ _)) by lia. cbn [andb].
  destruct (negb (sv_same v =? 0) && _) eqn:Hown.
  { apply andb_true_iff in Hown as [Hs0 Hdel]. rewrite Hdel, andb_true_r.
    destruct (Z.eqb_spec (sv_same v) 1) as [Hs|Hs].
    - destruct Hb as [[_ ->]|[[? _]|?]]; [|lia..]. split_and!; done || auto.
    - split_and!; done || auto. }
  assert (b && (u64 (vi_start (sv_vma v) - vi_offset (sv_vma v)) =? delta) = false) as Hnot.
  { destruct b; [|done]. apply andb_false_iff in Hown as [Hs|Hn]; [|by rewrite Hn].
    apply negb_false_iff, Z.eqb_eq in Hs.
    destruct Hb as [[? _]|[[_ ?]|?]]; [lia|done|lia]. }
  rewrite Hnot. cbn [orb].
  destruct Hinv as (Hd & H1 & H0 & Hlast).
  destruct (negb _ || (left_ok =? 0)) eqn:Hclosed.
  { assert (reach_left before (vi_start (sv_vma v)) = false) as ->;
      [|split_and!; done || auto].
    apply orb_true_iff in Hclosed as [Hne%negb_true_iff%Z.eqb_neq|Hz%Z.eqb_eq].
    - by eapply (reach_left_gap before prev_end left_ok); [split_and!|].
    - destruct (Z.eq_dec (vi_start (sv_vma v)) prev_end) as [->|]; [by apply H0|].
      by eapply (reach_left_gap before prev_end left_ok); [split_and!|]. }
  apply orb_false_iff in Hclosed as [Heq Hz%Z.eqb_neq].
  apply negb_false_iff, Z.eqb_eq in Heq. rewrite Heq.
  destruct (Z.ltb_spec left_ok 0); [split_and!; done || auto|].
  rewrite H1 by lia. cbn [andb].
  pose proof (walk_right_sound l lr more (vi_end (sv_vma v)) false Hr) as Hw.
  destruct (walk_right l _ _) as [r u]. destruct Hw as (W1 & W0 & W2 & Wd).
  split_and!; [done|intros Hr0; by apply W0|intros Hr2 Hu Hm; by apply (W2 Hr2 Hu)|done].
Qed.

(** ** The file names *)

(** A version suffix: nothing, or a dot and then digits and dots. *)
Definition version_suffix (s : list Z) : Prop :=
  s = [] \/ exists t, s = 46 :: t /\ t <> [] /\
    Forall (fun c => isdigit c || (c =? 46) = true) t.

Lemma version_no_blank soname v :
  32 ∉ soname -> version_suffix v -> forall u, soname ++ v <> u ++ deleted.
Proof.
  intros Hs Hv u Hu.
  assert (32 ∈ soname ++ v) as [?|Hin]%elem_of_app; [|done|].
  { rewrite Hu. apply elem_of_app. right. by apply elem_of_cons; left. }
  destruct Hv as [->|(t & -> & _ & Ht)]; [by apply elem_of_nil in Hin|].
  apply elem_of_cons in Hin as [?|Hin]; [done|].
  eapply Forall_forall in Ht; [|exact Hin]. done.
Qed.

(** The tail test after the " (deleted)" suffix has been taken off. *)
Lemma version_test soname v d :
  let base := soname ++ v ++ d in
  let n := length soname in let len := (n + length v)%nat in
  (if (len <? n)%nat || negb (streq (take n base) soname) then false
   else if (len =? n)%nat then true
   else if negb (default 0 (base !! n) =? 46) || (len =? n + 1)%nat then false
   else forallb (fun c => isdigit c || (c =? 46))
          (take (len - (n + 1)) (drop (n + 1) base))) = true <-> version_suffix v.
Proof.
  cbn zeta. rewrite take_app_length. rewrite (proj2 (Nat.ltb_ge _ _)) by lia.
  destruct (streq_spec soname soname); [|done]. cbn [negb orb].
  destruct v as [|c t]; cbn [length].
  { rewrite Nat.add_0_r, Nat.eqb_refl. split; [by left|done]. }
  destruct (Nat.eqb_spec (length soname + S (length t)) (length soname)); [lia|].
  cbn [app]. rewrite list_lookup_middle by done. cbn [from_option id].
  replace (length soname + S (length t) - (length soname + 1))%nat
    with (length t) by lia.
  change (soname ++ c :: t ++ d) with (soname ++ [c] ++ t ++ d).
  rewrite app_assoc.
  replace (length soname + 1)%nat with (length (soname ++ [c]))
    by (rewrite length_app; simpl; lia).
  rewrite drop_app_length, take_app_length, length_app. cbn [length].
  destruct (Z.eqb_spec c 46) as [->|Hc]; cbn [negb orb].
  - destruct (Nat.eqb_spec (length soname + S (length t)) (length soname + 1)) as [He|He].
    + split; [done|]. intros [?|(t' & [= ->] & Ht & _)]; [done|].
      destruct t'; [done|simpl in He; lia].
    + rewrite forallb_forall. split.
      * intros Hall. right. exists t. split; [done|]. split; [by intros ->; simpl in He; lia|].
        apply Forall_forall. intros x Hx. by apply Hall, list_elem_of_In.
      * intros [?|(t' & [= ->] & _ & Ht)]; [done|]. intros x Hx.
        eapply Forall_forall in Ht; [exact Ht|by apply list_elem_of_In].
  - split; [done|]. intros [?|(t' & [= ? _] & _)]; done.
Qed.

Lemma deleted_test base :
  (10 <=? length base)%nat && streq (drop (length base - 10) base) deleted = true <->
  exists x, base = x ++ deleted.
Proof.
  split.
  - intros [Hl%Nat.leb_le Hd%streq_true]%andb_true_iff.
    exists (take (length base - 10) base). rewrite <- Hd. by rewrite take_drop.
  - intros [x ->]. rewrite length_app. change (length deleted) with 10%nat.
    rewrite Nat.add_sub, drop_app_length. apply andb_true_iff. split.
    + apply Nat.leb_le. lia.
    + by destruct (streq_spec deleted deleted).
Qed.

Lemma name_matches_iff base soname :
  32 ∉ soname ->
  render_lib_name_matches base soname = true <->
  exists v d, base = soname ++ v ++ d /\ version_suffix v /\ (d = [] \/ d = deleted).
Proof.
  intros Hsp. unfold render_lib_name_matches. pose proof (deleted_test base) as Hdt.
  destruct ((10 <=? length base)%nat && _).
  - destruct (proj1 Hdt eq_refl) as [x ->]. rewrite length_app.
    change (length deleted) with 10%nat. rewrite Nat.add_sub.
    destruct (decide (soname `prefix_of` x)) as [[v ->]|Hno].
    + rewrite length_app, <- app_assoc. rewrite (version_test soname v deleted). split.
      * intros Hv. exists v, deleted. auto.
      * intros (v' & d & Heq & Hv & [-> | ->]).
        -- exfalso. apply (version_no_blank soname v' Hsp Hv (soname ++ v)).
           by rewrite app_nil_r in Heq; rewrite <- app_assoc.
        -- by apply app_inv_head, app_inv_tail in Heq as ->.
    + split.
      * intros Ht. exfalso. apply Hno. exists (drop (length soname) x).
        destruct (_ || negb _) eqn:Hc; [done|].
        apply orb_false_iff in Hc as [Hl%Nat.ltb_ge Ht'%negb_false_iff%streq_true].
        rewrite take_app_le in Ht' by lia. rewrite <- Ht' at 1. by rewrite take_drop.
      * intros (v & d & Heq & Hv & [-> | ->]); exfalso.
        -- apply (version_no_blank soname v Hsp Hv x). by rewrite Heq, app_nil_r.
        -- apply Hno. exists v. rewrite app_assoc in Heq. by apply app_inv_tail in Heq.
  - assert (forall x, base <> x ++ deleted) as Hnd.
    { intros x Hx. by discriminate (proj2 Hdt (ex_intro _ x Hx)). }
    destruct (decide (soname `prefix_of` base)) as [[v ->]|Hno].
    + rewrite length_app. pose proof (version_test soname v []) as Hvt.
      cbn zeta in Hvt. rewrite app_nil_r in Hvt. rewrite Hvt. split.
      * intros Hv. exists v, []. rewrite app_nil_r. auto.
      * intros (v' & d & Heq & Hv & [-> | ->]).
        -- rewrite app_nil_r in Heq. by apply app_inv_head in Heq as ->.
        -- exfalso. apply (Hnd (soname ++ v')). by rewrite Heq, app_assoc.
    + split.
      * intros Ht. exfalso. apply Hno. exists (drop (length soname) base).
        destruct (_ || negb _) eqn:Hc; [done|].
        apply orb_false_iff in Hc as [_ Ht'%negb_false_iff%streq_true].
        rewrite <- Ht' at 1. by rewrite take_drop.
      * intros (v & d & Heq & _). exfalso. apply Hno. by exists (v ++ d).
Qed.

(** ** The verdict over all mappings *)

Section lib.
Context (pf : proc_files) (snap : ac_map_id -> Z -> option (list seen_vma * bool * bool)).

Lemma groups_in maps id :
  id ∈ groups pf maps <-> exists m, m ∈ maps /\ id_of pf m = Some id.
Proof.
  unfold groups.
  assert (forall acc, id ∈ foldl (fun acc m => match id_of pf m with
    | Some id => if bool_decide (id ∈ acc) then acc else acc ++ [id] | None => acc end)
    acc maps <-> id ∈ acc \/ exists m, m ∈ maps /\ id_of pf m = Some id) as Hg.
  { induction maps as [|m maps IH]; intros acc; cbn [foldl].
    - set_solver.
    - rewrite IH. setoid_rewrite elem_of_cons.
      destruct (id_of pf m) as [i|] eqn:Hi; [|naive_solver].
      case_bool_decide; [|rewrite elem_of_app, list_elem_of_singleton]; naive_solver. }
  rewrite Hg. set_solver.
Qed.

Lemma visited_in maps m :
  m ∈ visited pf maps <-> m ∈ maps /\ exists id, id_of pf m = Some id.
Proof.
  unfold visited. rewrite list_elem_of_In, in_concat. setoid_rewrite <- list_elem_of_In.
  split.
  - intros (l & (id & -> & _)%list_elem_of_fmap & Hm).
    apply list_elem_of_filter in Hm as [Hid Hm]. eauto.
  - intros (Hm & id & Hid). exists (filter (fun m => id_of pf m = Some id) maps). split.
    + apply list_elem_of_fmap. exists id. split; [done|]. apply groups_in. eauto.
    + by apply list_elem_of_filter.
Qed.

Lemma check_lib_verdict res symbol :
  pf_alive pf = true -> pf_mem_open pf = true ->
  let mv := map_verdict pf snap (lr_maps res) symbol in
  let r := fst (check_render_lib pf snap res symbol) in
  (r = 1 <-> exists m, m ∈ lr_maps res /\ mv m = 1) /\
  (r = 0 <-> lr_incomplete res = false /\
     (forall m, m ∈ lr_maps res -> mv m <> 1 /\ mv m <> -1) /\
     exists m, m ∈ lr_maps res /\ mv m = 0).
Proof.
  intros Ha Ho. cbn zeta. unfold check_render_lib. rewrite Ha, Ho. cbn [negb orb].
  set (maps := lr_maps res). set (mv := map_verdict pf snap maps symbol).
  set (vs := (fun m => (mv m, rm_path m)) <$> visited pf maps).
  assert (forall v, (exists p, (v, p) ∈ vs) <->
    exists m, m ∈ maps /\ (exists id, id_of pf m = Some id) /\ mv m = v) as Hvs.
  { intros v. unfold vs. setoid_rewrite list_elem_of_fmap. setoid_rewrite visited_in.
    naive_solver. }
  assert (forall m, id_of pf m = None -> mv m = -1) as Hnone.
  { intros m Hm. unfold mv, map_verdict. by rewrite Hm. }
  assert (forall m, mv m <> -1 -> exists id, id_of pf m = Some id) as Hsome.
  { intros m Hm. destruct (id_of pf m) eqn:E; [eauto|]. by destruct Hm; apply Hnone. }
  destruct (filter (fun v => fst v = 1) vs) as [|[v1 p1] fs] eqn:Hf.
  - assert (forall m, m ∈ maps -> mv m <> 1) as Hno1.
    { intros m Hm H1. destruct (proj2 (Hvs 1)) as [p Hp].
      - exists m. split_and!; [done|apply Hsome; lia|done].
      - assert ((1, p) ∈ filter (fun v => fst v = 1) vs) as Hx
          by (by apply list_elem_of_filter).
        rewrite Hf in Hx. by apply elem_of_nil in Hx. }
    match goal with |- context [if ?b then (-1, _) else _] => destruct b eqn:Hb end; cbn [fst].
    + split; [split; [done|naive_solver]|]. split; [done|].
      intros (Hi & Hall & (m0 & Hm0 & Hz)). exfalso. apply not_false_iff_true in Hb.
      apply Hb. rewrite Hi. cbn [orb].
      apply orb_false_iff. split; [apply orb_false_iff; split|].
      * apply not_true_iff_false. intros (m & Hm & Hid%bool_decide_eq_true)%existsb_exists.
        apply list_elem_of_In in Hm. by destruct (Hall m Hm) as [_ []]; apply Hnone.
      * apply not_true_iff_false. intros ([v p] & Hv & He%Z.eqb_eq)%existsb_exists.
        apply list_elem_of_In in Hv. cbn in He. subst v.
        destruct (proj1 (Hvs (-1)) (ex_intro _ p Hv)) as (m & Hm & _ & Hmv).
        by destruct (Hall m Hm).
      * apply negb_false_iff, existsb_exists.
        destruct (proj2 (Hvs 0)) as [p Hp].
        { exists m0. split_and!; [done|apply Hsome; lia|done]. }
        exists (0, p). split; [by apply list_elem_of_In|done].
    + split; [split; [done|naive_solver]|]. split; [|done]. intros _.
      apply orb_false_iff in Hb as [[[Hi Hu]%orb_false_iff Hm1]%orb_false_iff Hc].
      apply negb_false_iff, existsb_exists in Hc as ([v p] & Hv & Hz%Z.eqb_eq).
      apply list_elem_of_In in Hv. cbn in Hz. subst v.
      destruct (proj1 (Hvs 0) (ex_intro _ p Hv)) as (m0 & Hm0 & _ & Hz).
      split_and!; [done| |eauto]. intros m Hm. split; [by apply Hno1|]. intros Hmm.
      destruct (id_of pf m) as [id|] eqn:Hid.
      * destruct (proj2 (Hvs (-1))) as [q Hq]; [eauto 6|].
        apply not_true_iff_false in Hm1. apply Hm1, existsb_exists.
        exists (-1, q). split; [by apply list_elem_of_In|done].
      * apply not_true_iff_false in Hu. apply Hu, existsb_exists.
        exists m. split; [by apply list_elem_of_In|]. by apply bool_decide_eq_true.
  - cbn [fst].
    assert ((v1, p1) ∈ filter (fun v => fst v = 1) vs) as [H1 Hin]%list_elem_of_filter
      by (rewrite Hf; by apply elem_of_cons; left).
    cbn in H1. subst v1.
    destruct (proj1 (Hvs 1) (ex_intro _ p1 Hin)) as (m & Hm & _ & Hmv).
    split; [split; [eauto|done]|]. split; [done|].
    intros (_ & Hall & _). by destruct (Hall m Hm).
Qed.
Lemma verdict_stable maps maps' symbol m :
  (forall a b, id_of pf a = id_of pf b ->
     pf_contents pf (rm_start a) (rm_end a) = pf_contents pf (rm_start b) (rm_end b)) ->
  m ∈ maps -> m ∈ maps' ->
  map_verdict pf snap maps symbol m = map_verdict pf snap maps' symbol m.
Proof.
  intros Hc Hm Hm'. unfold map_verdict. destruct (id_of pf m) as [id|] eqn:Hid; [|done].
  assert (forall ms, m ∈ ms -> exists m0, leader pf ms id = Some m0 /\ id_of pf m0 = Some id)
    as Hlead.
  { intros ms Hin. unfold leader.
    assert (m ∈ filter (fun m => id_of pf m = Some id) ms) as Hf
      by (by apply list_elem_of_filter).
    destruct (filter _ ms) as [|m0 fs] eqn:E; [by apply elem_of_nil in Hf|].
    exists m0. split; [done|].
    assert (m0 ∈ filter (fun m => id_of pf m = Some id) ms) as [? _]%list_elem_of_filter;
      [rewrite E; by apply elem_of_cons; left|done]. }
  destruct (Hlead maps Hm) as (a & -> & Ha), (Hlead maps' Hm') as (b & -> & Hb).
  unfold load_render_reference. by rewrite (Hc a b) by congruence.
Qed.
End lib.

(** ** What the snapshot gives the check *)

(** An executable mapping of a file named like the library. *)
Definition named_like (api : render_api) (vi : ac_vma_info) : bool :=
  vi_is_file vi && negb (length (vi_path vi) =? 0)%nat
  && negb (Z.land (vi_flags vi) AC_VM_EXEC =? 0)
  && render_lib_name_matches (basename (vi_path vi) (vi_path vi)) (soname api).

Definition map_of (vi : ac_vma_info) : ac_render_map :=
  mk_map (vi_start vi) (vi_end vi) (vi_offset vi) (vi_inode vi)
    (strscpy AC_VMA_PATH (vi_path vi)).

Definition kept (api : render_api) (vmas : list ac_vma_info) : list ac_render_map :=
  take AC_RENDER_MAX_MAPS (map_of <$> filter (fun vi => named_like api vi = true) vmas).

(** The loop keeps the first sixteen and notes that there are more. *)
Lemma add_maps api vmas : forall res,
  (length (lr_maps res) <= AC_RENDER_MAX_MAPS)%nat ->
  let all := lr_maps res ++ (map_of <$> filter (fun vi => named_like api vi = true) vmas) in
  foldl (add_map api) res vmas =
  mk_lib (lr_incomplete res || (AC_RENDER_MAX_MAPS <? length all)%nat)
    (take AC_RENDER_MAX_MAPS all).
Proof.
  induction vmas as [|vi vmas IH]; intros [inc maps] Hl; cbn [foldl lr_maps lr_incomplete] in *.
  { cbn [filter list_filter fmap list_fmap]. rewrite app_nil_r, take_ge by done.
    rewrite (proj2 (Nat.ltb_ge _ _)) by done. by rewrite orb_false_r. }
  assert (add_map api (mk_lib inc maps) vi =
    if named_like api vi then
      if (AC_RENDER_MAX_MAPS <=? length maps)%nat then mk_lib true maps
      else mk_lib inc (maps ++ [map_of vi])
    else mk_lib inc maps) as ->.
  { unfold add_map, named_like. cbn [lr_maps lr_incomplete].
    destruct (vi_is_file vi), (length (vi_path vi) =? 0)%nat,
      (Z.land (vi_flags vi) AC_VM_EXEC =? 0); cbn [negb andb orb]; try done.
    by destruct (render_lib_name_matches _ _). }
  destruct (named_like api vi) eqn:Hcand.
  - rewrite filter_cons_True by done. cbn [fmap list_fmap].
    destruct (Nat.leb_spec AC_RENDER_MAX_MAPS (length maps)) as [Hfull|Hfree].
    + rewrite IH by done. cbn [lr_maps lr_incomplete fmap list_fmap].
      rewrite !take_app_le by lia. f_equal. rewrite orb_true_l. symmetry.
      apply orb_true_iff. right. apply Nat.ltb_lt. rewrite length_app. cbn [length].
      unfold AC_RENDER_MAX_MAPS in *. lia.
    + rewrite IH by (cbn; rewrite length_app; cbn; lia). cbn [lr_maps lr_incomplete fmap list_fmap].
      by rewrite <- app_assoc.
  - by rewrite filter_cons_False, IH by (done || by rewrite Hcand).
Qed.

(** The status of one library. *)
Definition lib_status (pf : proc_files)
    (in_load : ac_map_id -> Z -> option (list seen_vma * bool * bool))
    (vmas : list ac_vma_info) (missing : bool) (api : render_api) : Z :=
  let more := (AC_RENDER_MAX_MAPS <?
    length (filter (fun vi => named_like api vi = true) vmas))%nat in
  match kept api vmas with
  | [] => if missing then -1 else -2
  | _ => fst (check_render_lib pf in_load (mk_lib (more || missing) (kept api vmas)) (symbol api))
  end.

Lemma status_lib pf in_load vmas missing k api :
  AC_RENDER_APIS !! k = Some api ->
  fst <$> render_hook_statuses_for pf (Some (vmas, missing)) in_load !! k
  = Some (lib_status pf in_load vmas missing api).
Proof.
  intros Hk. unfold render_hook_statuses_for, find_render_lib_maps.
  rewrite lookup_zip_with, Hk, list_lookup_fmap, Hk. cbn [mbind option_bind fmap option_fmap option_map].
  rewrite add_maps by (cbn; lia). cbn [lr_maps lr_incomplete app orb].
  rewrite length_fmap. unfold lib_status, kept.
  set (named := filter _ vmas). destruct named as [|vi named]; [by destruct missing|].
  by cbn [fmap list_fmap take AC_RENDER_MAX_MAPS].
Qed.

Lemma lib_status_cases pf in_load vmas missing api :
  pf_alive pf = true -> pf_mem_open pf = true ->
  let mv := map_verdict pf in_load (kept api vmas) (symbol api) in
  let st := lib_status pf in_load vmas missing api in
  (st = 1 <-> exists m, m ∈ kept api vmas /\ mv m = 1) /\
  (st = 0 -> missing = false /\
     (length (filter (fun vi => named_like api vi = true) vmas) <= AC_RENDER_MAX_MAPS)%nat /\
     forall m, m ∈ kept api vmas -> mv m <> 1 /\ mv m <> -1) /\
  (kept api vmas <> [] -> st = 1 \/ st = 0 \/ st = -1).
Proof.
  intros Ha Ho. cbn zeta. unfold lib_status. set (more := (_ <? _)%nat).
  destruct (check_lib_verdict pf in_load (mk_lib (more || missing) (kept api vmas))
    (symbol api) Ha Ho) as [H1 H0].
  assert (forall res sy, fst (check_render_lib pf in_load res sy) = 1 \/
    fst (check_render_lib pf in_load res sy) = 0 \/
    fst (check_render_lib pf in_load res sy) = -1) as Hd.
  { intros res sy. unfold check_render_lib. repeat case_match; auto. }
  destruct (kept api vmas) as [|m maps].
  { split_and!; [|by destruct missing|done]. split; [by destruct missing|].
    intros (m & Hm & _). by apply elem_of_nil in Hm. }
  split_and!; [exact H1| |auto]. intros (Hi & Hall & _)%H0. cbn [lr_incomplete] in Hi.
  apply orb_false_iff in Hi as [Hm Hmis]. split_and!; [done| |exact Hall].
  by apply Nat.ltb_ge in Hm.
Qed.

(** ** No doubt where everything is known *)

Lemma walk_right_known l e :
  Forall (fun v => sv_same v = 0 \/ sv_same v = 1) l ->
  fst (walk_right l e false) <> -1 /\
  (fst (walk_right l e false) = -2 -> snd (walk_right l e false) = false).
Proof.
  intros Hl. revert e. induction Hl as [|v l Hv _ IH]; intros e; cbn [walk_right]; [done|].
  destruct (negb _); [done|]. destruct (Z.eqb_spec (sv_same v) 1); [done|].
  destruct Hv as [-> | ?]; [apply IH|lia].
Qed.

Lemma walk_left_known l delta addr e ok :
  Forall (fun v => sv_same v = 0 \/ sv_same v = 1) l -> ok = 0 \/ ok = 1 ->
  fst (walk_left l delta addr e ok) <> -1 /\
  (fst (walk_left l delta addr e ok) = -2 -> snd (walk_left l delta addr e ok) = false).
Proof.
  intros Hl. revert e ok.
  induction Hl as [|v l Hv Hl IH]; intros e ok Hok; cbn [walk_left]; [done|].
  destruct (_ <=? addr).
  { apply IH. destruct Hv as [-> | ->]; cbn [Z.eqb Z.ltb Z.compare andb Pos.eqb]; [|by right].
    destruct (_ =? e); auto. }
  destruct (addr <? _); [done|]. destruct (negb (sv_same v =? 0) && _) eqn:Hs.
  { destruct Hv as [Hv|Hv]; rewrite Hv in *; done. }
  destruct (negb _ || _); [done|]. destruct (Z.ltb_spec ok 0); [lia|].
  by apply walk_right_known.
Qed.

(** [render_addr_in_load] never guesses.  Take any way the identities
    it could not read may turn out, and, where the snapshot was cut short or a
    SCAN_GET failed, any mappings that may have been missed.  When it answers
    1 the address lies in the library's own text or in a hole between
    contiguous mappings of the file, and when it answers 0 it does not.  When
    every identity was read and the snapshot is whole it always answers. *)
Theorem in_load_decides l lr more failed complete delta addr :
  Forall2 resolves l lr ->
  (failed = false -> complete = true -> more = []) ->
  let r := render_addr_in_load (Some (l, failed, complete)) delta addr in
  (r = 1 -> in_load_ref [] (lr ++ more) delta addr = true) /\
  (r = 0 -> in_load_ref [] (lr ++ more) delta addr = false) /\
  (r = 0 \/ r = 1 \/ r = -1) /\
  (Forall (fun v => sv_same v = 0 \/ sv_same v = 1) l ->
   failed = false -> complete = true -> r <> -1).
Proof.
  intros Hr Hmore. cbn zeta. unfold render_addr_in_load.
  pose proof (walk_left_sound l lr more [] delta addr 0 0 Hr) as Hw.
  pose proof (walk_left_known l delta addr 0 0) as Hk.
  destruct (walk_left l delta addr 0 0) as [r u]. cbn [fst snd] in Hk.
  destruct Hw as (W1 & W0 & W2 & Wd); [by split_and!; auto|].
  destruct (Z.eqb_spec r (-2)) as [->|Hne].
  - destruct failed, complete, u; cbn [andb negb]; split_and!; auto; try done.
    intros Hall _ _. destruct (Hk Hall (or_introl eq_refl)) as [_ Hu].
    by specialize (Hu eq_refl).
  - split_and!; auto; [lia|]. intros Hall _ _. by apply Hk; auto.
Qed.


(** A mapping counts as the library exactly when its file name is the
    soname, optionally followed by a version (a dot, then digits and dots) and
    by the kernel's mark for an unlinked file. *)
Theorem lib_name_grammar base api :
  api ∈ AC_RENDER_APIS ->
  render_lib_name_matches base (soname api) = true <->
  exists v d, base = soname api ++ v ++ d /\ version_suffix v /\ (d = [] \/ d = deleted).
Proof.
  intros Hapi. apply name_matches_iff. unfold AC_RENDER_APIS in Hapi.
  repeat (apply elem_of_cons in Hapi as [-> | Hapi];
    [intros Hin; vm_compute in Hin; repeat (apply elem_of_cons in Hin as [?|Hin]; [done|]);
     by apply elem_of_nil in Hin|]).
  by apply elem_of_nil in Hapi.
Qed.

End Render.

(** A process with [eglSwapBuffers] patched, and a decoy mapping. *)
Module RenderDemo.
Import Render.

Definition lib_id : ac_map_id := mk_id 1 7.

Definition files : proc_files :=
  mk_proc_files
    (fun s _ => if s =? 4096 then Regular lib_id else Unreadable)
    (fun s _ => if s =? 4096 then Some (lib_id, ElfDemo.file) else None)
    (fun n _ => Some (replicate (Z.to_nat n) 204)) true true.

Definition lib_vma : ac_vma_info :=
  mk_vma_info 4096 8192 0 7 AC_VM_EXEC true (lit "/usr/lib/libEGL.so.1").

Definition lib_snap (_ : ac_map_id) (_ : Z) : option (list seen_vma * bool * bool) :=
  Some ([mk_seen lib_vma 1], false, true).

Lemma in_load_decides_witness :
  let r := render_addr_in_load (Some ([mk_seen lib_vma 1], true, false)) 4096 4500 in
  (r = 1 -> in_load_ref [] ([(lib_vma, true)] ++ []) 4096 4500 = true) /\
  (r = 0 -> in_load_ref [] ([(lib_vma, true)] ++ []) 4096 4500 = false) /\
  (r = 0 \/ r = 1 \/ r = -1) /\
  (Forall (fun v => sv_same v = 0 \/ sv_same v = 1) [mk_seen lib_vma 1] ->
   true = false -> false = true -> r <> -1).
Proof.
  apply (in_load_decides [mk_seen lib_vma 1] [(lib_vma, true)] [] true false 4096 4500).
  - constructor; [|constructor]. split; [reflexivity|]. left. split; reflexivity.
  - discriminate.
Defined.

Definition decoy_vma (i : Z) : ac_vma_info :=
  mk_vma_info i (i + 1) 0 8 AC_VM_EXEC true (lit "/tmp/libEGL.so").


(** Sixteen decoys in front of the library: the hook is no longer looked at, the
    status is that nothing can be told, and the periodic check logs nothing. *)
Example flood_silences_periodic_check :
  let flood := decoy_vma <$> [1; 2; 3; 4; 5; 6; 7; 8; 9; 10; 11; 12; 13; 14; 15; 16] in
  let it := mk_prot_item 42 false (lit "game") in
  let msgs vs := render_hook_msgs it (render_hook_statuses_for files (Some (vs, false)) lib_snap) in
  m_pri <$> msgs [lib_vma] = [LOG_CRIT] /\ msgs (flood ++ [lib_vma]) = [].
Proof. by vm_compute. Qed.

Lemma lib_name_grammar_witness :
  render_lib_name_matches (lit "libEGL.so.1.1.0 (deleted)") (lit "libEGL.so") = true.
Proof.
  apply (lib_name_grammar (lit "libEGL.so.1.1.0 (deleted)")
           (mk_api (lit "libEGL.so") (lit "eglSwapBuffers") (lit "EGL"))).
  - unfold AC_RENDER_APIS. repeat constructor.
  - exists (lit ".1.1.0"), deleted. split; [reflexivity|]. split; [|right; reflexivity].
    right. exists (lit "1.1.0"). split; [reflexivity|]. split; [discriminate|].
    vm_compute. repeat constructor.
Defined.

End RenderDemo.
