(* ===== verification/Resolve.v ===== *)
(** Bounded name resolution and connection (src/anticheat_daemon.c): the
    resolver child and the descriptors it keeps, the addresses read back from
    its pipe, the bounded reap and the table of children that outlived it, and
    the bounded [connect]. *)

From stdpp Require Export gmap.
From S2P Require Import Prelude CText CScan.

#[local] Open Scope Z_scope.

Module Resolve.

(** ** [connect] with a bound *)

Definition O_NONBLOCK : Z := 2048.
Definition EINPROGRESS : Z := 115.

Record connect_env := mk_connect_env {
  ce_getfl : bool;                 (** [fcntl(F_GETFL)] succeeds *)
  ce_setfl : bool;                 (** the first [fcntl(F_SETFL)] succeeds *)
  ce_connect : Z;                  (** 0, or the [errno] of [connect] *)
  ce_poll : Z;
  ce_sockerr : option Z;           (** SO_ERROR, [None] when it cannot be read *)
}.

(** The result and the flags the descriptor is left with. *)
Definition ac_connect_timeout (e : connect_env) (fl : Z) : Z * Z :=
  if negb (ce_getfl e) then (-1, fl) else
  let flags := fl in
  if negb (ce_setfl e) then (-1, fl) else
  let fl := Z.lor flags O_NONBLOCK in
  if ce_connect e =? 0 then (0, flags)
  else if negb (ce_connect e =? EINPROGRESS) then (-1, flags)
  else if ce_poll e <=? 0 then (-1, flags)
  else match ce_sockerr e with
       | Some 0 => (0, flags)
       | _ => (-1, flags)
       end.

(** ** Closing the inherited descriptors *)

Definition UINT_MAX : Z := 4294967295.

Definition close_range (first last : Z) (fds : gset Z) : gset Z :=
  filter (fun fd => ~ (first <= fd <= last)) fds.

Record fds_env := mk_fds_env {
  fe_range1 : bool;                (** the first [close_range] succeeds *)
  fe_range2 : bool;
  fe_dir : gset Z -> option Z;     (** [opendir] given the open descriptors *)
  fe_max : Z;                      (** [sysconf(_SC_OPEN_MAX)] *)
}.

(** The names in /proc/self/fd. *)
Definition listing (fds : gset Z) : list (list Z) :=
  lit "." :: lit ".." :: (fmt_d <$> elements fds).

Definition close_one (keep_fd dir_fd : Z) (fds : gset Z) (name : list Z) : gset Z :=
  if default 0 (name !! 0%nat) =? 46 then fds
  else
    let '(fd, _, end_) := strtol10 name in
    if negb (length end_ =? 0)%nat then fds
    else if (fd <=? 2) || (fd =? keep_fd) || (fd =? dir_fd) then fds
    else fds ∖ {[ s32 fd ]}.

(** [for (fd = 3; fd < maxfd; fd++)], [n] turns from [fd] on. *)
Fixpoint sweep_fds (n : nat) (fd keep_fd : Z) (fds : gset Z) : gset Z :=
  match n with
  | O => fds
  | S n' => sweep_fds n' (fd + 1) keep_fd
              (if fd =? keep_fd then fds else fds ∖ {[ s32 fd ]})
  end.

Definition ac_close_extra_fds (e : fds_env) (keep_fd : Z) (fds : gset Z) : gset Z :=
  let '(done, fds) :=
    if keep_fd <=? 2 then
      if fe_range1 e then (true, close_range 3 UINT_MAX fds) else (false, fds)
    else
      let low := 3 <? keep_fd in
      let fds := if low && fe_range1 e then close_range 3 (keep_fd - 1) fds else fds in
      let fds := if fe_range2 e then close_range (keep_fd + 1) UINT_MAX fds else fds in
      ((negb low || fe_range1 e) && fe_range2 e, fds) in
  if (done : bool) then fds
  else
    match fe_dir e fds with
    | Some dir_fd =>
        let fds := {[ dir_fd ]} ∪ fds in
        foldl (close_one keep_fd dir_fd) fds (listing fds) ∖ {[ dir_fd ]}
    | None =>
        let maxfd := if fe_max e <? 0 then 1024 else fe_max e in
        sweep_fds (Z.to_nat (maxfd - 3)) 3 keep_fd fds
    end.

(** ** The addresses *)

Definition SOCKADDR_STORAGE : nat := 128.
Definition RECORD_SIZE : nat := 144.

Record ac_resolved_addr := mk_addr {
  ra_family : Z;
  ra_socktype : Z;
  ra_protocol : Z;
  ra_addrlen : Z;
  ra_addr : list Z;
}.

(** The structure as bytes in memory, and back. *)
Definition addr_bytes (a : ac_resolved_addr) : list Z :=
  put_le 4 (ra_family a) ++ put_le 4 (ra_socktype a) ++ put_le 4 (ra_protocol a)
  ++ put_le 4 (ra_addrlen a) ++ ra_addr a.

Definition addr_of (b : list Z) : ac_resolved_addr :=
  mk_addr (le 4 0 b) (le 4 4 b) (le 4 8 b) (le 4 12 b) (drop 16 b).

(** One entry of [getaddrinfo]'s list. *)
Record addrinfo := mk_ai {
  ai_family : Z;
  ai_socktype : Z;
  ai_protocol : Z;
  ai_addr : list Z;                (** [ai_addrlen] bytes *)
}.

Definition child_addr (ai : addrinfo) : option ac_resolved_addr :=
  if (SOCKADDR_STORAGE <? length (ai_addr ai))%nat then None
  else Some (mk_addr (ai_family ai) (ai_socktype ai) (ai_protocol ai)
         (Z.of_nat (length (ai_addr ai)))
         (ai_addr ai ++ replicate (SOCKADDR_STORAGE - length (ai_addr ai)) 0)).

(** What the child writes; [written] is how many of its writes succeed. *)
Definition child_send (ais : list addrinfo) (written : nat) : list Z :=
  concat (take written (addr_bytes <$> omap child_addr ais)).

(** One turn of the parent's loop: the milliseconds left, what [poll] returns,
    what [read] returns when data is there. *)
Record read_step := mk_step { rs_remaining : Z; rs_poll : Z; rs_read : Z }.

(** The loop from turn [k] on: [data] is still in the pipe, [buf] is the part
    of a record already read, [room] records are still wanted. *)
Fixpoint collect (fuel k : nat) (step : nat -> read_step) (data buf : list Z)
    (room : nat) : option (list (list Z)) :=
  match room with
  | O => Some []
  | S room' =>
      match fuel with
      | O => None
      | S fuel' =>
          let s := step k in
          if rs_remaining s <=? 0 then Some []
          else if rs_poll s <=? 0 then Some []
          else
            match take (Z.to_nat (rs_read s) `min` (RECORD_SIZE - length buf)) data with
            | [] => Some []
            | got =>
                let buf := buf ++ got in
                let data := drop (length got) data in
                if (length buf =? RECORD_SIZE)%nat
                then cons buf <$> collect fuel' (S k) step data [] room'
                else collect fuel' (S k) step data buf room
            end
      end
  end.

(** ** Reaping *)

(** The kernel's side: [kids] are the resolver children that have not been
    waited for, running or dead.  [waitpid] with WNOHANG takes a dead one from
    there, and knows nothing of a process that is not there. *)
Inductive child_state := HasExited | StillRuns | SignalFirst.
Inductive wait_result := Child | Running | Interrupted | NoChild.

Definition waitpid (a : child_state) (kids : gset Z) (pid : Z) : wait_result * gset Z :=
  match a with
  | SignalFirst => (Interrupted, kids)
  | HasExited => if decide (pid ∈ kids) then (Child, kids ∖ {[ pid ]}) else (NoChild, kids)
  | StillRuns => if decide (pid ∈ kids) then (Running, kids) else (NoChild, kids)
  end.

Inductive reap := Reaped | TimedOut | ReapFailed.

(** [waitpid_timeout]'s loop from turn [k] on: how it is with the child and how
    many milliseconds have passed at each turn.  A signal ends the pause
    between two turns early, so nothing is known of its length; [turns] bounds
    their number. *)
Fixpoint waitpid_loop (turns k : nat) (w : nat -> child_state) (elapsed : nat -> Z)
    (kids : gset Z) (pid timeout_ms : Z) : option (reap * gset Z) :=
  match turns with
  | O => None
  | S turns' =>
      let '(r, kids) := waitpid (w k) kids pid in
      match r with
      | Child => Some (Reaped, kids)
      | NoChild => Some (ReapFailed, kids)
      | Running | Interrupted =>
          if timeout_ms <=? elapsed k then Some (TimedOut, kids)
          else waitpid_loop turns' (S k) w elapsed kids pid timeout_ms
      end
  end.

Definition waitpid_timeout (turns : nat) (w : nat -> child_state) (elapsed : nat -> Z)
    (kids : gset Z) (pid timeout_ms : Z) : option (reap * gset Z) :=
  waitpid_loop turns 0 w elapsed kids pid timeout_ms.

Definition AC_MAX_STALE_RESOLVERS : nat := 8.

(** [r == pid], or [r < 0] with ECHILD. *)
Definition gone (r : wait_result) : bool :=
  match r with Child | NoChild => true | _ => false end.

Fixpoint reap_stale_resolvers (w : Z -> child_state) (kids : gset Z) (t : list Z)
    : list Z * gset Z :=
  match t with
  | [] => ([], kids)
  | p :: t =>
      if 0 <? p then
        let '(r, kids) := waitpid (w p) kids p in
        let '(t, kids) := reap_stale_resolvers w kids t in
        ((if gone r then 0 else p) :: t, kids)
      else
        let '(t, kids) := reap_stale_resolvers w kids t in (p :: t, kids)
  end.

Definition stale_resolver_slot_free (t : list Z) : bool := existsb (Z.eqb 0) t.

Definition abandon_resolver_child (w : Z -> child_state) (kids : gset Z) (t : list Z)
    (pid : Z) : list Z * gset Z :=
  let '(t, kids) := reap_stale_resolvers w kids t in
  match find_index (Z.eqb 0) t with
  | Some i => (<[i := pid]> t, kids)
  | None => (t, kids)
  end.

Record resolve_env := mk_resolve_env {
  rv_sweep : Z -> child_state;     (** at the sweep before the fork *)
  rv_pipe : bool;
  rv_fork : option Z;
  rv_sent : list Z;                (** what the child writes *)
  rv_step : nat -> read_step;
  rv_reap : nat -> child_state;
  rv_elapsed : nat -> Z;
  rv_sweep2 : Z -> child_state;    (** at the sweep when abandoning *)
}.

Definition RESOLVE_REAP_MS : Z := 2000.

(** The addresses, or [None] on failure; the table; the unreaped children.  The
    outer [option] is the loops' fuel. *)
Definition ac_resolve_timeout (turns : nat) (e : resolve_env) (kids : gset Z)
    (t : list Z) (max : nat)
    : option (option (list ac_resolved_addr) * list Z * gset Z) :=
  let '(t, kids) := reap_stale_resolvers (rv_sweep e) kids t in
  if negb (stale_resolver_slot_free t) then Some (None, t, kids)
  else if negb (rv_pipe e) then Some (None, t, kids)
  else
    match rv_fork e with
    | None => Some (None, t, kids)
    | Some pid =>
        let kids := {[ pid ]} ∪ kids in
        match collect (max * RECORD_SIZE + 1) 0 (rv_step e) (rv_sent e) [] max,
              waitpid_timeout turns (rv_reap e) (rv_elapsed e) kids pid RESOLVE_REAP_MS with
        | Some recs, Some (r, kids) =>
            let addrs := Some (addr_of <$> recs) in
            match r with
            | TimedOut =>
                let '(t, kids) := abandon_resolver_child (rv_sweep2 e) kids t pid in
                Some (addrs, t, kids)
            | _ => Some (addrs, t, kids)
            end
        | _, _ => None
        end
    end.

(** ** Facts about [connect] *)

Lemma connect_restores_flags e fl : snd (ac_connect_timeout e fl) = fl.
Proof. unfold ac_connect_timeout. repeat case_match; done. Qed.

(** ** Facts about descriptors *)

Definition kept (keep_fd : Z) (fds : gset Z) : gset Z :=
  filter (fun fd => fd <= 2 \/ fd = keep_fd) fds.

Lemma fmt_d_plain fd :
  0 <= fd <= INT_MAX ->
  default 0 (fmt_d fd !! 0%nat) <> 46 /\ strtol10 (fmt_d fd) = (fd, false, []).
Proof.
  unfold INT_MAX. intros Hfd. unfold fmt_d. destruct (Z.ltb_spec fd 0); [lia|]. split.
  - pose proof (fmt_u_chars fd) as Hc. destruct (fmt_u fd) as [|c s]; [done|].
    inversion Hc; subst. cbn. lia.
  - pose proof (strtol10_fmt fd []) as Hs. rewrite app_nil_r in Hs. apply Hs; [|done].
    unfold LONG_MAX. lia.
Qed.

Lemma s32_small fd : 0 <= fd <= INT_MAX -> s32 fd = fd.
Proof. unfold INT_MAX, s32. intros H. rewrite u32_id by lia. case_test; lia. Qed.

Lemma close_listed keep_fd dir_fd l : forall fds x,
  (forall fd, fd ∈ l -> 0 <= fd <= INT_MAX) ->
  x ∈ foldl (close_one keep_fd dir_fd) fds (fmt_d <$> l) <->
  x ∈ fds /\ (x ∉ l \/ x <= 2 \/ x = keep_fd \/ x = dir_fd).
Proof.
  induction l as [|fd l IH]; intros fds x Hl; cbn [fmap list_fmap foldl].
  { set_solver. }
  rewrite IH by (intros; apply Hl; set_solver).
  destruct (fmt_d_plain fd) as [Hdot Hnum]; [apply Hl; set_solver|].
  unfold close_one at 1. rewrite (proj2 (Z.eqb_neq _ _) Hdot), Hnum. cbn [length Nat.eqb negb].
  rewrite s32_small by (apply Hl; set_solver).
  destruct ((fd <=? 2) || (fd =? keep_fd) || (fd =? dir_fd)) eqn:Hk.
  - assert (fd <= 2 \/ fd = keep_fd \/ fd = dir_fd) by (boolp; naive_solver).
    destruct (decide (x = fd)) as [->|]; set_solver.
  - boolp. destruct (decide (x = fd)) as [->|]; [|set_solver].
    split; [set_solver|]. intros [_ [Hn|?]]; [set_solver|lia].
Qed.

Lemma sweep_in n : forall fd keep_fd fds x,
  0 <= fd -> fd + Z.of_nat n <= INT_MAX + 1 ->
  x ∈ sweep_fds n fd keep_fd fds <->
  x ∈ fds /\ (x = keep_fd \/ ~ (fd <= x < fd + Z.of_nat n)).
Proof.
  induction n as [|n IH]; intros fd keep_fd fds x H0 Hb; cbn [sweep_fds].
  { rewrite Z.add_0_r. split; [|tauto]. intros Hx. split; [done|]. right. lia. }
  rewrite IH by lia. destruct (Z.eqb_spec fd keep_fd) as [->|Hne].
  - destruct (decide (x = keep_fd)); split; (intros [? ?]; split; [done|lia]).
  - rewrite s32_small by lia. rewrite elem_of_difference, elem_of_singleton.
    destruct (decide (x = fd)) as [->|]; [split; [|intros [? ?]]; lia|].
    split; (intros [? ?]; split; [naive_solver|lia]).
Qed.

(** Which descriptors the [close_range] calls leave, and whether they did all
    of the work. *)
Lemma ranges_in e keep_fd (fds : gset Z) :
  (forall fd, fd ∈ fds -> 0 <= fd <= INT_MAX) ->
  let '(done, rest) :=
    if keep_fd <=? 2 then
      if fe_range1 e then (true, close_range 3 UINT_MAX fds) else (false, fds)
    else
      let low := 3 <? keep_fd in
      let fds := if low && fe_range1 e then close_range 3 (keep_fd - 1) fds else fds in
      let fds := if fe_range2 e then close_range (keep_fd + 1) UINT_MAX fds else fds in
      ((negb low || fe_range1 e) && fe_range2 e, fds) in
  rest ⊆ fds /\ kept keep_fd fds ⊆ rest /\
  (done = true -> rest ⊆ kept keep_fd fds) /\
  (fe_range1 e = true -> fe_range2 e = true -> done = true).
Proof.
  intros Hr. unfold close_range, kept, UINT_MAX, INT_MAX in *.
  destruct (Z.leb_spec keep_fd 2), (Z.ltb_spec 3 keep_fd), (fe_range1 e), (fe_range2 e);
    cbn [negb andb orb]; split_and!; try done; try intros _; intros x Hx;
    rewrite ?elem_of_filter in *; destruct_and?;
    match goal with H : x ∈ fds |- _ => specialize (Hr x H) end; split_and?; (done || lia).
Qed.

Lemma listing_closed keep_fd dir_fd (fds : gset Z) :
  (forall fd, fd ∈ fds -> 0 <= fd <= INT_MAX) -> 0 <= dir_fd <= INT_MAX -> dir_fd ∉ fds ->
  foldl (close_one keep_fd dir_fd) ({[ dir_fd ]} ∪ fds) (listing ({[ dir_fd ]} ∪ fds))
    ∖ {[ dir_fd ]} = kept keep_fd fds.
Proof.
  intros Hr Hd Hnd. unfold listing. cbn [foldl].
  change (close_one keep_fd dir_fd ?f (lit ".")) with f.
  change (close_one keep_fd dir_fd ?f (lit "..")) with f.
  apply set_eq. intros x. unfold kept.
  rewrite elem_of_difference, elem_of_singleton, elem_of_filter, close_listed.
  - rewrite elem_of_union, elem_of_singleton, elem_of_elements. set_solver.
  - intros fd. rewrite elem_of_elements. set_solver.
Qed.

(** the resolver child keeps only the standard streams and its pipe.
    Whichever way [ac_close_extra_fds] has to take ([close_range], the listing
    of /proc/self/fd, or the sweep up to the limit), no other descriptor of the
    daemon stays open and none of those is closed. *)
Theorem child_descriptors_exact e keep_fd fds :
  (forall fd, fd ∈ fds -> 0 <= fd <= INT_MAX) ->
  (forall s d, fe_dir e s = Some d -> d ∉ s /\ 0 <= d <= INT_MAX) ->
  fe_max e <= INT_MAX ->
  (fe_range1 e = true /\ fe_range2 e = true) \/ (forall s, s ⊆ fds -> fe_dir e s <> None) \/
  (forall fd, fd ∈ fds -> fd < if fe_max e <? 0 then 1024 else fe_max e) ->
  ac_close_extra_fds e keep_fd fds = kept keep_fd fds.
Proof.
  intros Hr Hdir Hmax Hpath. unfold ac_close_extra_fds.
  pose proof (ranges_in e keep_fd fds Hr) as Hrange.
  destruct (if keep_fd <=? 2 then _ else _) as [done rest].
  destruct Hrange as (Hsub & Hsup & Hdone & Hall). destruct done.
  { apply set_eq. intros x. split; [by apply Hdone|apply Hsup]. }
  assert (kept keep_fd rest = kept keep_fd fds) as <-.
  { apply set_eq. intros x. unfold kept in *. rewrite !elem_of_filter. set_solver. }
  assert (forall fd, fd ∈ rest -> 0 <= fd <= INT_MAX) as Hr' by set_solver.
  destruct (fe_dir e rest) as [d|] eqn:Hd.
  { destruct (Hdir _ _ Hd). by apply listing_closed. }
  destruct Hpath as [[H1 H2]|[Hn|Hlt]]; [by specialize (Hall H1 H2)|by destruct (Hn rest Hsub)|].
  set (maxfd := if fe_max e <? 0 then 1024 else fe_max e) in *.
  assert (maxfd <= INT_MAX) by (unfold maxfd, INT_MAX in *; case_test; lia).
  apply set_eq. intros x. unfold kept. rewrite sweep_in, elem_of_filter
    by (unfold INT_MAX in *; lia).
  split; intros [Ha Hb]; [|split; [done|lia]].
  specialize (Hlt x (Hsub x Ha)). split; [lia|done].
Qed.

(** ** The addresses read back *)

Lemma addr_roundtrip a :
  (forall v, v ∈ [ra_family a; ra_socktype a; ra_protocol a; ra_addrlen a] ->
     0 <= v < 2 ^ 32) -> addr_of (addr_bytes a) = a.
Proof.
  destruct a as [f s p l d]. cbn [ra_family ra_socktype ra_protocol ra_addrlen].
  intros Hr. unfold addr_of, addr_bytes. cbn [ra_family ra_socktype ra_protocol
    ra_addrlen ra_addr].
  pose proof (le_put_le 4 f [] (put_le 4 s ++ put_le 4 p ++ put_le 4 l ++ d)) as E0.
  pose proof (le_put_le 4 s (put_le 4 f) (put_le 4 p ++ put_le 4 l ++ d)) as E1.
  pose proof (le_put_le 4 p (put_le 4 f ++ put_le 4 s) (put_le 4 l ++ d)) as E2.
  pose proof (le_put_le 4 l (put_le 4 f ++ put_le 4 s ++ put_le 4 p) d) as E3.
  rewrite <- ?app_assoc in E1, E2, E3.
  rewrite ?length_app, ?length_put_le in *. cbn [Nat.add length] in *.
  change (256 ^ Z.of_nat 4) with (2 ^ 32) in *.
  f_equal; [apply E0|apply E1|apply E2|apply E3]; apply Hr; set_solver.
Qed.

Lemma collect_total step room : forall fuel k data buf,
  (length buf < RECORD_SIZE)%nat ->
  (room * RECORD_SIZE - length buf < fuel)%nat ->
  exists l, collect fuel k step data buf room = Some l.
Proof.
  unfold RECORD_SIZE.
  intros fuel. revert room. induction fuel as [|fuel IH]; intros room k data buf Hb Hf; [lia|].
  destruct room as [|room]; [by eexists|]. cbn [collect]. unfold RECORD_SIZE.
  destruct (_ <=? 0); [by eexists|]. destruct (_ <=? 0); [by eexists|].
  set (m := (Z.to_nat (rs_read (step k)) `min` (144 - length buf))%nat).
  pose proof (length_take data m) as Hlen. destruct (take m data) as [|c got]; [by eexists|].
  cbn zeta. rewrite length_app. destruct (Nat.eqb_spec (length buf + length (c :: got)) 144).
  - destruct (IH room (S k) (drop (length (c :: got)) data) []) as [l ->];
      [cbn; lia|cbn [length] in *; lia|]. by eexists.
  - apply IH; rewrite length_app; cbn [length] in *; lia.
Qed.

(** The records are whole, in order, and cut from what the child wrote. *)
Lemma collect_records step recs : forall fuel k buf data room l,
  Forall (fun r => length r = RECORD_SIZE) recs ->
  (length buf < RECORD_SIZE)%nat -> buf ++ data = concat recs ->
  collect fuel k step data buf room = Some l ->
  l `prefix_of` take room recs /\
  ((forall i, 0 < rs_remaining (step i) /\ 0 < rs_poll (step i) /\ 0 < rs_read (step i)) ->
   l = take room recs).
Proof.
  intros fuel. revert recs. induction fuel as [|fuel IH];
    intros recs k buf data room l Hrecs Hb Hdata; destruct room as [|room];
    cbn [collect]; try done; try (intros [= <-]; split; [apply prefix_nil|done]).
  destruct (Z.leb_spec (rs_remaining (step k)) 0).
  { intros [= <-]. split; [apply prefix_nil|]. intros Hs. destruct (Hs k). lia. }
  destruct (Z.leb_spec (rs_poll (step k)) 0).
  { intros [= <-]. split; [apply prefix_nil|]. intros Hs. destruct (Hs k) as (_ & ? & _). lia. }
  set (m := (Z.to_nat (rs_read (step k)) `min` (RECORD_SIZE - length buf))%nat).
  pose proof (length_take data m) as Hlen. destruct (take m data) as [|c got] eqn:Hgot.
  { intros [= <-]. split; [apply prefix_nil|]. intros Hs. destruct (Hs k) as (_ & _ & Hr).
    destruct data as [|x data]; [|cbn in Hlen; lia].
    rewrite app_nil_r in Hdata. destruct recs as [|r recs]; [done|].
    apply Forall_cons_1 in Hrecs as [Hlr _]. apply (f_equal length) in Hdata.
    cbn [concat] in Hdata. rewrite length_app in Hdata. lia. }
  cbn zeta. assert (data = (c :: got) ++ drop (length (c :: got)) data) as Hsplit.
  { rewrite Hlen, <- Hgot. destruct (Nat.min_spec m (length data)) as [[_ ->]|[Hge ->]].
    - by rewrite take_drop.
    - rewrite drop_all, app_nil_r. by rewrite take_ge. }
  rewrite Hsplit, app_assoc in Hdata.
  destruct (Nat.eqb_spec (length (buf ++ c :: got)) RECORD_SIZE) as [Hfull|Hpart].
  - destruct recs as [|r recs]; [by destruct buf|]. apply Forall_cons_1 in Hrecs as [Hlr Hrecs].
    cbn [concat] in Hdata. apply app_inj_1 in Hdata as [<- Hdata]; [|lia].
    intros (l' & Hl & ->)%fmap_Some. cbn [take].
    destruct (IH recs (S k) [] _ room l' Hrecs ltac:(unfold RECORD_SIZE; cbn; lia) Hdata Hl)
      as [Hp Hw]. split; [by apply prefix_cons|]. intros Hs. by rewrite (Hw Hs).
  - apply IH; [done| |done]. rewrite length_app in *. cbn [length] in *. lia.
Qed.

(** What the child sends are records of the addresses that fit. *)
Lemma child_records ais :
  Forall (fun r => length r = RECORD_SIZE) (addr_bytes <$> omap child_addr ais).
Proof.
  induction ais as [|ai ais IH]; [constructor|]. cbn [omap list_omap].
  unfold child_addr at 1. destruct (Nat.ltb_spec SOCKADDR_STORAGE (length (ai_addr ai)));
    [done|]. cbn [fmap list_fmap]. constructor; [|done].
  unfold addr_bytes, RECORD_SIZE, SOCKADDR_STORAGE in *. cbn [ra_addr].
  rewrite !length_app, !length_put_le, length_replicate. lia.
Qed.

Definition word32 (v : Z) : Prop := 0 <= v < 2 ^ 32.

Lemma child_addrs_read (ais : list addrinfo) :
  (forall ai, ai ∈ ais ->
     word32 (ai_family ai) /\ word32 (ai_socktype ai) /\ word32 (ai_protocol ai)) ->
  addr_of <$> (addr_bytes <$> omap child_addr ais) = omap child_addr ais.
Proof.
  induction ais as [|ai ais IH]; intros Hr; [done|]. cbn [omap list_omap].
  pose proof (Hr ai (list_elem_of_here _ _)) as Ha.
  specialize (IH (fun x Hx => Hr x (list_elem_of_further _ _ _ Hx))).
  destruct (child_addr ai) as [a|] eqn:E; [|exact IH]. unfold child_addr in E.
  destruct (Nat.ltb_spec SOCKADDR_STORAGE (length (ai_addr ai))) as [|Hle]; [done|].
  injection E as <-. cbn [fmap list_fmap]. f_equal; [|exact IH].
  apply addr_roundtrip. cbn [ra_family ra_socktype ra_protocol ra_addrlen].
  destruct Ha as (? & ? & ?). intros v Hv.
  assert (word32 (Z.of_nat (length (ai_addr ai))))
    by (unfold word32, SOCKADDR_STORAGE in *; lia).
  repeat (apply elem_of_cons in Hv as [->|Hv]; [done|]). by apply elem_of_nil in Hv.
Qed.

(** ** Facts about reaping *)

(** The loop ends at the latest at a turn that finds the time up, and gives up
    only a child that is still there. *)
Lemma waitpid_loop_ends w elapsed pid timeout_ms n : forall k kids,
  pid ∈ kids -> timeout_ms <= elapsed (k + n)%nat ->
  exists r kids', waitpid_loop (S n) k w elapsed kids pid timeout_ms = Some (r, kids') /\
    (r = Reaped /\ kids' = kids ∖ {[ pid ]} \/ r = TimedOut /\ kids' = kids).
Proof.
  induction n as [|n IH]; intros k kids Hp He.
  - rewrite Nat.add_0_r in He. cbn [waitpid_loop]. unfold waitpid.
    destruct (w k); try (rewrite decide_True by done); cbn; [by eauto 6|..];
      rewrite (proj2 (Z.leb_le _ _) He); eauto 6.
  - remember (S n) as m. cbn [waitpid_loop]. unfold waitpid.
    destruct (w k); try (rewrite decide_True by done); cbn [fst snd]; [by eauto 6|..];
      (case_test; [by eauto 6|]); subst m; apply IH; try done; by rewrite Nat.add_succ_comm.
Qed.

(** The children the table still knows. *)
Definition tracked (t : list Z) : gset Z := list_to_set (filter (fun p => 0 < p) t).

Lemma in_tracked t p : p ∈ tracked t <-> p ∈ t /\ 0 < p.
Proof.
  unfold tracked. rewrite elem_of_list_to_set, list_elem_of_filter. tauto.
Qed.

Lemma size_tracked t : (size (tracked t) <= length t)%nat.
Proof.
  unfold tracked. pose proof (length_filter (fun p => 0 < p) t) as Hf.
  transitivity (length (filter (fun p => 0 < p) t)); [|exact Hf]. clear Hf.
  induction (filter _ t) as [|p l IH]; [done|]. rewrite list_to_set_cons. cbn [length].
  rewrite size_union_alt, size_singleton.
  pose proof (subseteq_size (list_to_set l ∖ {[ p ]}) (list_to_set l : gset Z)
    ltac:(set_solver)). lia.
Qed.

Lemma waitpid_kids a kids pid p :
  p ∈ snd (waitpid a kids pid) <-> p ∈ kids /\ ~ (p = pid /\ a = HasExited).
Proof. unfold waitpid. destruct a; repeat case_decide; cbn; set_solver. Qed.

(** A sweep waits for exactly the tracked children that have died. *)
Lemma sweep_kids w t : forall kids p,
  p ∈ snd (reap_stale_resolvers w kids t) <->
  p ∈ kids /\ ~ (p ∈ tracked t /\ w p = HasExited).
Proof.
  induction t as [|q t IH]; intros kids p; cbn [reap_stale_resolvers]; [set_solver|].
  rewrite in_tracked, elem_of_cons. setoid_rewrite in_tracked in IH. case_test.
  - destruct (waitpid (w q) kids q) as [r kids1] eqn:E.
    pose proof (waitpid_kids (w q) kids q p) as Hk. rewrite E in Hk. cbn [snd] in Hk.
    specialize (IH kids1 p). destruct (reap_stale_resolvers w kids1 t) as [t' kids'].
    cbn [snd] in *. rewrite IH, Hk. naive_solver.
  - specialize (IH kids p). destruct (reap_stale_resolvers w kids t) as [t' kids'].
    cbn [snd] in *. rewrite IH. naive_solver lia.
Qed.

(** It clears a slot when the child has died or is not there. *)
Definition clears (w : Z -> child_state) (kids : gset Z) (p : Z) : bool :=
  match w p with
  | HasExited => 0 <? p
  | StillRuns => (0 <? p) && bool_decide (p ∉ kids)
  | SignalFirst => false
  end.

Lemma waitpid_gone w kids p :
  0 < p -> gone (fst (waitpid (w p) kids p)) = clears w kids p.
Proof.
  intros Hp. apply Z.ltb_lt in Hp. unfold clears, waitpid. rewrite Hp.
  destruct (w p); repeat case_decide; cbn; try done; by case_bool_decide.
Qed.

Lemma sweep_table w t : forall kids,
  fst (reap_stale_resolvers w kids t) = (fun p => if clears w kids p then 0 else p) <$> t.
Proof.
  induction t as [|q t IH]; intros kids; cbn [reap_stale_resolvers fmap list_fmap]; [done|].
  case_test.
  - pose proof (waitpid_gone w kids q ltac:(lia)) as Hg.
    pose proof (waitpid_kids (w q) kids q) as Hk.
    destruct (waitpid (w q) kids q) as [r kids1]. cbn [fst snd] in *. specialize (IH kids1).
    destruct (reap_stale_resolvers w kids1 t) as [t' kids']. cbn [fst] in *.
    rewrite IH, Hg. f_equal. apply list_fmap_ext. intros _ p _. unfold clears.
    destruct (w p) eqn:E; [done| |done].
    rewrite (bool_decide_ext (p ∉ kids1) (p ∉ kids)); [done|]. rewrite Hk.
    assert (~ (p = q /\ w q = HasExited)) by (intros [-> ?]; congruence). tauto.
  - specialize (IH kids). destruct (reap_stale_resolvers w kids t) as [t' kids'].
    cbn [fst] in *. rewrite IH. f_equal. unfold clears.
    rewrite (proj2 (Z.ltb_ge _ _)) by lia. by destruct (w q).
Qed.

(** So with every child there tracked but those of [extra], the same holds
    after it. *)
Lemma sweep_tracked w kids t extra t' kids' :
  reap_stale_resolvers w kids t = (t', kids') ->
  kids = extra ∪ tracked t -> extra ## tracked t ->
  length t' = length t /\ kids' = extra ∪ tracked t' /\ (0 ∈ t -> 0 ∈ t') /\
  (forall p, p ∈ tracked t' <-> p ∈ tracked t /\ w p <> HasExited).
Proof.
  intros E -> Hd. pose proof (sweep_kids w t (extra ∪ tracked t)) as Hk.
  pose proof (sweep_table w t (extra ∪ tracked t)) as Ht. rewrite E in Hk, Ht.
  cbn [fst snd] in *. subst t'.
  assert (forall p, p ∈ tracked ((fun p => if clears w (extra ∪ tracked t) p then 0 else p) <$> t)
            <-> p ∈ tracked t /\ w p <> HasExited) as Hin.
  { intros p. rewrite !in_tracked, list_elem_of_fmap. split.
    - intros [(q & Hq & Hin) Hpos]. destruct (clears _ _ q) eqn:Ec; [lia|]. subst q.
      split; [done|]. intros Hw. unfold clears in Ec. rewrite Hw in Ec.
      apply Z.ltb_ge in Ec. lia.
    - intros [[Hin Hpos] Hw]. split; [|done]. exists p. split; [|done]. unfold clears.
      destruct (w p); [done| |done]. rewrite bool_decide_false; [by destruct (0 <? p)|].
      intros Hn. apply Hn, elem_of_union_r, in_tracked. done. }
  split_and!; [apply length_fmap| | |exact Hin].
  - apply set_eq. intros p. rewrite Hk, !elem_of_union, Hin. set_solver.
  - intros Hz. apply list_elem_of_fmap. exists 0. split; [|done].
    by destruct (clears _ _ 0).
Qed.

Lemma slot_free t : stale_resolver_slot_free t = true <-> 0 ∈ t.
Proof.
  unfold stale_resolver_slot_free. rewrite existsb_exists. setoid_rewrite <- list_elem_of_In.
  split; [by intros (p & Hp & <-%Z.eqb_eq)|]. intros H. by exists 0.
Qed.

Lemma tracked_put t i pid :
  t !! i = Some 0 -> 0 < pid -> tracked (<[i := pid]> t) = {[ pid ]} ∪ tracked t.
Proof.
  intros Hi Hpos. apply set_eq. intros p. rewrite elem_of_union, elem_of_singleton, !in_tracked.
  rewrite !list_elem_of_lookup. pose proof (lookup_lt_Some _ _ _ Hi). split.
  - intros [[j Hj] Hp]. apply list_lookup_insert_Some in Hj as [(<- & <- & _)|[_ Hj]]; eauto.
  - intros [->|[[j Hj] Hp]].
    + split; [|done]. exists i. by apply list_lookup_insert_eq.
    + split; [|done]. exists j. rewrite list_lookup_insert_ne; [done|]. intros ->.
      simplify_eq. lia.
Qed.

(** A child handed over finds the free slot. *)
Lemma abandon_tracks w t pid t' kids' :
  0 < pid -> pid ∉ tracked t -> 0 ∈ t ->
  abandon_resolver_child w ({[ pid ]} ∪ tracked t) t pid = (t', kids') ->
  length t' = length t /\ kids' = tracked t' /\ tracked t' ⊆ {[ pid ]} ∪ tracked t.
Proof.
  intros Hpos Hnew Hfree. unfold abandon_resolver_child.
  destruct (reap_stale_resolvers w _ t) as [t1 kids1] eqn:E.
  apply (sweep_tracked _ _ _ {[ pid ]}) in E as (Hl & -> & Hz & Hin); [|done|set_solver].
  apply Hz in Hfree. apply list_elem_of_lookup in Hfree as [k Hk].
  destruct (find_index_complete (Z.eqb 0) _ _ _ Hk eq_refl) as (i & Hi & _). rewrite Hi.
  apply find_index_Some in Hi as [(y & Hy & <-%Z.eqb_eq) _]. intros [= <- <-].
  rewrite length_insert, tracked_put by done. split_and!; [done|done|]. set_solver.
Qed.

(** C37: no resolver child is ever lost.  Let the children the kernel still
    holds for the daemon be those its table tracks.  A call returns as soon as
    a turn of the bounded reap finds 2 s gone, at the latest, however short the
    pauses between turns are cut; and then the children held are again exactly
    those tracked, at most eight.  Those are children held before, without the
    ones that had exited when the call began, and the one it forked.  The
    kernel gives a new child a number no child it holds has. *)
Theorem resolver_children_tracked e t max n :
  length t = AC_MAX_STALE_RESOLVERS ->
  (forall pid, rv_fork e = Some pid ->
     0 < pid /\ (pid ∈ tracked t -> rv_sweep e pid = HasExited)) ->
  RESOLVE_REAP_MS <= rv_elapsed e n ->
  exists addrs t' kids',
    ac_resolve_timeout (S n) e (tracked t) t max = Some (addrs, t', kids') /\
    length t' = AC_MAX_STALE_RESOLVERS /\ kids' = tracked t' /\
    (size kids' <= AC_MAX_STALE_RESOLVERS)%nat /\
    (forall p, p ∈ kids' ->
       p ∈ tracked t /\ rv_sweep e p <> HasExited \/ rv_fork e = Some p).
Proof.
  intros Hlen Hfork Hend. unfold ac_resolve_timeout.
  destruct (reap_stale_resolvers (rv_sweep e) (tracked t) t) as [t1 kids1] eqn:E.
  apply (sweep_tracked _ _ _ ∅) in E as (Hl & -> & _ & Hin); [|set_solver..].
  rewrite (union_empty_l_L (tracked t1)). rewrite Hlen in Hl.
  pose proof (size_tracked t1) as Hs1. rewrite Hl in Hs1.
  assert (forall p, p ∈ tracked t1 ->
    p ∈ tracked t /\ rv_sweep e p <> HasExited \/ rv_fork e = Some p) as Hold
    by (intros p Hp; left; by apply Hin).
  destruct (stale_resolver_slot_free t1) eqn:Hfree; [|by eauto 10].
  destruct (rv_pipe e); [|by eauto 10]. cbn [negb].
  destruct (rv_fork e) as [pid|]; [|by eauto 10].
  destruct (Hfork pid eq_refl) as [Hpos Hnew].
  assert (pid ∉ tracked t1) as Hni by (intros [? ?]%Hin; auto).
  destruct (collect_total (rv_step e) max (max * RECORD_SIZE + 1) 0 (rv_sent e) [])
    as [recs ->]; [unfold RECORD_SIZE; cbn; lia|cbn [length]; lia|].
  destruct (waitpid_loop_ends (rv_reap e) (rv_elapsed e) pid RESOLVE_REAP_MS n 0
    ({[ pid ]} ∪ tracked t1)) as (r & kids2 & Hr & Hcase); [set_solver|done|].
  unfold waitpid_timeout. rewrite Hr. destruct Hcase as [[-> ->]|[-> ->]].
  - assert (({[ pid ]} ∪ tracked t1) ∖ {[ pid ]} = tracked t1) as -> by set_solver.
    by eauto 10.
  - destruct (abandon_resolver_child _ _ t1 pid) as [t2 kids2] eqn:Eab.
    apply abandon_tracks in Eab as (Hl2 & -> & Hsub); [|done..|by apply slot_free].
    pose proof (size_tracked t2). eexists _, _, _. split_and!; [done|lia|done|lia|].
    intros p [->%elem_of_singleton|Hp]%Hsub%elem_of_union; auto.
Qed.

(** The addresses survive the pipe.  However [read] cuts the stream into
    pieces, the parent gets whole records, in order: a prefix of the first
    [max] addresses the child could send, byte for byte; and all of them when
    neither the deadline nor an error interrupts the reading. *)
Theorem resolved_addresses_exact e t max pid ais written addrs t'
    turns kids kids' :
  rv_fork e = Some pid -> rv_sent e = child_send ais written ->
  (forall ai, ai ∈ ais ->
     word32 (ai_family ai) /\ word32 (ai_socktype ai) /\ word32 (ai_protocol ai)) ->
  ac_resolve_timeout turns e kids t max = Some (Some addrs, t', kids') ->
  addrs `prefix_of` take max (take written (omap child_addr ais)) /\
  ((forall i, 0 < rs_remaining (rv_step e i) /\ 0 < rs_poll (rv_step e i) /\
              0 < rs_read (rv_step e i)) ->
   addrs = take max (take written (omap child_addr ais))).
Proof.
  intros Hf Hsent Hr. unfold ac_resolve_timeout.
  destruct (reap_stale_resolvers (rv_sweep e) kids t) as [t1 kids1].
  destruct (stale_resolver_slot_free t1); [|done]. destruct (rv_pipe e); [|done].
  cbn [negb]. rewrite Hf, Hsent.
  destruct (collect _ _ _ _ _ _) as [recs|] eqn:Hc; [|done].
  destruct (waitpid_timeout _ _ _ _ _ _) as [[r kids2]|]; [|done]. intros Hret.
  assert (addrs = addr_of <$> recs) as -> by (repeat case_match; simplify_eq; done).
  destruct (collect_records (rv_step e) (take written (addr_bytes <$> omap child_addr ais))
    _ _ [] _ _ _ (Forall_take _ _ _ (child_records ais))
    ltac:(unfold RECORD_SIZE; cbn; lia) eq_refl Hc) as [Hp Hw].
  assert (take max (take written (omap child_addr ais)) =
    addr_of <$> take max (take written (addr_bytes <$> omap child_addr ais))) as ->
    by (by rewrite !fmap_take, child_addrs_read).
  split; [|intros Hs; by rewrite (Hw Hs)].
  destruct Hp as [k ->]. rewrite fmap_app. by eexists.
Qed.

End Resolve.

(** A resolver child that has to be abandoned, and one that answers. *)
Module ResolveDemo.
Import Resolve.

Definition v4 : addrinfo := mk_ai 2 1 6 [2; 0; 34; 83; 127; 0; 0; 1].

(** Seven bytes at a time; the child never dies, the other seven neither. *)
Definition stuck : resolve_env :=
  mk_resolve_env (fun _ => StillRuns) true (Some 41) (child_send [v4] 1)
    (fun _ => mk_step 3000 1 7) (fun _ => StillRuns) (fun i => 20 * Z.of_nat i)
    (fun _ => StillRuns).

Definition seven_stale : list Z := [31; 32; 33; 34; 35; 36; 37; 0].

Lemma resolver_children_tracked_witness :
  exists addrs t' kids',
    ac_resolve_timeout 101 stuck (tracked seven_stale) seven_stale 8
      = Some (addrs, t', kids') /\
    length t' = AC_MAX_STALE_RESOLVERS /\ kids' = tracked t'.
Proof.
  destruct (resolver_children_tracked stuck seven_stale 8 100) as (addrs & t' & kids' & H).
  - reflexivity.
  - intros pid [= <-]. split; [reflexivity|]. rewrite in_tracked. unfold seven_stale.
    intros [H _]. repeat (apply elem_of_cons in H as [H|H]; [discriminate|]).
    apply elem_of_nil in H. contradiction.
  - cbn. unfold RESOLVE_REAP_MS. lia.
  - exists addrs, t', kids'. destruct H as (H1 & H2 & H3 & _). split; [exact H1|].
    split; [exact H2|exact H3].
Defined.

Lemma resolved_addresses_exact_witness :
  exists addrs t' kids',
    ac_resolve_timeout 101 stuck (tracked seven_stale) seven_stale 8
      = Some (Some addrs, t', kids') /\
    addrs = omap child_addr [v4].
Proof.
  destruct (ac_resolve_timeout 101 stuck (tracked seven_stale) seven_stale 8)
    as [[[[addrs|] t'] kids']|] eqn:E; [|vm_compute in E; discriminate..].
  exists addrs, t', kids'. split; [reflexivity|].
  apply (resolved_addresses_exact stuck seven_stale 8 41 [v4] 1 addrs t' 101
    (tracked seven_stale) kids').
  - reflexivity.
  - reflexivity.
  - intros ai ->%list_elem_of_singleton. unfold word32. cbn. lia.
  - exact E.
  - intros i. cbn. lia.
Defined.

Lemma child_descriptors_exact_witness :
  ac_close_extra_fds (mk_fds_env false false (fun s => if bool_decide (5 ∈ s) then None else Some 5) 1024) 4
    {[ 0; 1; 2; 3; 4; 9000 ]} = kept 4 {[ 0; 1; 2; 3; 4; 9000 ]}.
Proof.
  apply child_descriptors_exact.
  - intros fd Hfd. unfold INT_MAX. set_solver by lia.
  - intros s d. cbn. case_bool_decide; [discriminate|]. intros [= <-].
    split; [assumption|]. unfold INT_MAX. lia.
  - cbn. unfold INT_MAX. lia.
  - right. left. intros s Hs. cbn. case_bool_decide; [|discriminate]. set_solver by lia.
Defined.

End ResolveDemo.
