(* ===== verification/Host.v ===== *)
(** The virtual machine check of the daemon (src/anticheat_daemon.c): the
    hypervisor leaf of CPUID, the firmware's DMI strings, and the [vmcheck]
    command. *)

From S2P Require Import Prelude CText CScan Abi DLog.
Import DLog.DLog.

#[local] Open Scope Z_scope.

Module Host.

(** [strstr(s, w) != NULL] *)
Fixpoint has_word (w s : list Z) : bool :=
  streq (take (length w) s) w ||
  match s with _ :: s' => has_word w s' | [] => false end.

(** ** CPUID *)

Record cpuid_regs := mk_regs { eax : Z; ebx : Z; ecx : Z; edx : Z }.

(** The vendor when the hypervisor bit of leaf 1 is set; the callers' buffers
    have 16 bytes. *)
Definition detect_hypervisor_cpuid (cpuid : Z -> cpuid_regs) : option (list Z) :=
  if negb (Z.testbit (ecx (cpuid 1)) 31) then None
  else
    let r := cpuid 0x40000000 in
    Some (cstr (put_le 4 (ebx r) ++ put_le 4 (ecx r) ++ put_le 4 (edx r))).

(** ** DMI *)

(** Trailing line breaks removed. *)
Fixpoint rtrim_breaks (s : list Z) : list Z :=
  match s with
  | c :: s' =>
      match rtrim_breaks s' with
      | [] => if (c =? 10) || (c =? 13) then [] else [c]
      | t => c :: t
      end
  | [] => []
  end.

(** [file]: the contents of /sys/class/dmi/id/<name>, [None] when it cannot be
    opened. *)
Definition read_dmi_field (file : option (list Z)) (outsz : nat) : Z * list Z :=
  match file with
  | None | Some [] => (-1, [])
  | Some f => (0, rtrim_breaks (cstr (fst (fgets_n (outsz - 1) f))))
  end.

Record dmi := mk_dmi {
  dmi_sys_vendor : option (list Z);
  dmi_product_name : option (list Z);
  dmi_board_vendor : option (list Z);
}.

(** [outsz] is 192 at both callers. *)
Definition detect_hypervisor_dmi (d : dmi) : option (list Z) :=
  let sys_vendor := snd (read_dmi_field (dmi_sys_vendor d) 128) in
  let product_name := snd (read_dmi_field (dmi_product_name d) 128) in
  let board_vendor := snd (read_dmi_field (dmi_board_vendor d) 128) in
  let by_vendor what :=
    Some (strscpy 192 (concat [lit what; lit " (sys_vendor="; [34]; sys_vendor; [34]; lit ")"])) in
  let by_product what :=
    Some (strscpy 192 (concat [lit what; lit " (product_name="; [34]; product_name; [34]; lit ")"])) in
  let vendor w := has_word (lit w) sys_vendor in
  let product w := has_word (lit w) product_name in
  if vendor "QEMU" || product "QEMU" then by_vendor "QEMU"
  else if vendor "VMware" then by_vendor "VMware"
  else if vendor "innotek GmbH" || product "VirtualBox" then by_vendor "VirtualBox"
  else if streq sys_vendor (lit "Microsoft Corporation") && product "Virtual Machine"
  then by_product "Hyper-V"
  else if vendor "Xen" then by_vendor "Xen"
  else if vendor "Parallels" then by_vendor "Parallels"
  else if vendor "Google" then by_vendor "Google Compute Engine"
  else if vendor "Amazon EC2" || has_word (lit "Amazon EC2") board_vendor
  then by_vendor "Amazon EC2"
  else if product "Bochs" then by_product "Bochs"
  else None.

(** ** The command *)

Definition cmd_vmcheck (cpuid : Z -> cpuid_regs) (d : dmi) : Z * list (list Z) :=
  let hv := detect_hypervisor_cpuid cpuid in
  let fw := detect_hypervisor_dmi d in
  (0,
   [lit "VM/hypervisor check:";
    match hv with
    | Some vendor =>
        concat [lit "  CPUID hypervisor bit : present (vendor id: "; vendor; lit ")"]
    | None => lit "  CPUID hypervisor bit : not present"
    end;
    match fw with
    | Some desc => lit "  DMI/SMBIOS strings   : " ++ desc
    | None => lit "  DMI/SMBIOS strings   : no known VM vendor string found"
    end]
   ++ match hv, fw with
      | None, None => [lit "  result               : no hypervisor detected"]
      | _, _ =>
          [lit "  result               : running inside a virtual machine";
           lit "    (informational only -- common for entirely legitimate";
           lit "     reasons: cloud gaming, CI, testing, GPU-passthrough";
           lit "     streaming rigs. Not a verdict -- and not something a";
           lit "     hypervisor configured to hide these signatures would";
           lit "     even show here. See THREAT_MODEL.md.)"]
      end).

(** What the daemon logs about it when it starts. *)
Definition vm_start_msg (cpuid : Z -> cpuid_regs) (d : dmi) : msg :=
  match detect_hypervisor_cpuid cpuid, detect_hypervisor_dmi d with
  | Some vendor, fw =>
      logm LOG_WARNING [lit "running inside a virtual machine (CPUID vendor id: ";
        vendor; match fw with Some _ => lit "; " | None => [] end; default [] fw;
        lit ") -- informational, not a verdict"]
  | None, Some desc =>
      logm LOG_WARNING [lit "running inside a virtual machine ("; desc;
        lit ") -- informational, not a verdict"]
  | None, None => logm LOG_INFO [lit "no hypervisor detected (CPUID/DMI checks)"]
  end.

(** ** Facts *)

Lemma has_word_spec w s : has_word w s = true <-> exists p q, s = p ++ w ++ q.
Proof.
  split.
  - induction s as [|c s IH]; cbn [has_word]; intros Hh; apply orb_true_iff in Hh as [Hh|Hh].
    + apply streq_true in Hh. exists [], []. rewrite take_nil in Hh. by subst.
    + done.
    + apply streq_true in Hh. exists [], (drop (length w) (c :: s)).
      rewrite <- Hh at 1. by rewrite app_nil_l, take_drop.
    + destruct (IH Hh) as (p & q & ->). by exists (c :: p), q.
  - intros (p & q & ->). induction p as [|c p IH]; cbn [app].
    + assert (forall t : list Z, has_word w (w ++ t) = true) as Hw; [|done].
      intros t. destruct (w ++ t) eqn:E; cbn [has_word]; rewrite <- E, take_app_length;
        by destruct (streq_spec w w).
    + cbn [has_word]. rewrite IH. apply orb_true_r.
Qed.

(** A machine without the bit whose vendor string names no hypervisor. *)
Example surface_is_not_a_vm :
  detect_hypervisor_dmi (mk_dmi (Some (lit "Microsoft Corporation"))
    (Some (lit "Surface Laptop 5")) (Some (lit "Microsoft Corporation"))) = None.
Proof. by vm_compute. Qed.

Example kvm_vendor :
  detect_hypervisor_cpuid (fun leaf => if leaf =? 1 then mk_regs 0 0 (2 ^ 31) 0
    else mk_regs 0 0x4b4d564b 0x564b4d56 0x4d) = Some (lit "KVMKVMKVM").
Proof. by vm_compute. Qed.

End Host.
