(* ===== verification/Daemon.v ===== *)
(** The monitoring daemon (src/anticheat_daemon.c, [cmd_start]): the start-up
    handshake, the descriptors of the background process, and the monitor loop
    that composes the drain of the event ring with the periodic checks. *)

From S2P Require Import Prelude CText CScan Abi DLog Baseline Runs.
From S2P Require Import Monitor Environ Elf Render Host.
Import DLog.DLog Baseline.Baseline Runs.Runs Monitor.Monitor Environ.Environ Render.Render
  Host.Host.

#[local] Open Scope Z_scope.

Module Daemon.

(** ** The monitor loop *)

Definition AC_MONITOR_BLOCK_MS : Z := 1000.

(** The periodic checks, in the order the loop takes them. *)
Inductive check :=
  | Syscalls | Modules | Scan | Baselines | RenderHooks | Preload | VkLayers
  | Implicit.

Definition all_checks : list check :=
  [Syscalls; Modules; Scan; Baselines; RenderHooks; Preload; VkLayers; Implicit].

#[export] Instance check_eq_dec : EqDecision check.
Proof. solve_decision. Defined.

(** The daemon's memory between turns. *)
Record daemon_st := mk_daemon {
  dm_sys : sys_st;
  dm_drops : drops_st;
  dm_anon : anon_table;
  dm_preload : list (slot unit);
  dm_vk : list (slot unit);
  dm_implicit : list (slot Z);
  sys_check_failing : bool;
  dm_next : check -> Z;                     (** the [next_*] deadlines *)
}.

Definition daemon_init : daemon_st :=
  mk_daemon sys_init drops_init slots_init slots_init slots_init slots_init false
    (fun _ => 0).

(** What one turn of the loop gets from outside. *)
Record turn := mk_turn {
  tn_events : option ac_event_list;         (** GET_EVENTS, [None] on failure *)
  tn_waited : Z;                            (** milliseconds the call took *)
  tn_stop : bool;                           (** [g_stop] after the call *)
  tn_drops_now : Z;                         (** the clock in [note_ring_drops] *)
  tn_now : Z;
  tn_errno : list Z;                        (** the text of [errno] *)
  tn_check : option ac_syscall_check;
  tn_mods_begin : option Z;
  tn_mods_get : Z -> option ac_mod_info;
  tn_proc_modules : option (list Z);
  tn_list : check -> option (Z * list ac_prot_item);
  tn_begin : Z -> option ac_scan_begin;
  tn_files : files;
  tn_dir : list Z;
  tn_view : Z -> proc_view;
  tn_render : Z -> render_view;
  tn_environ : Z -> option (list Z);
  tn_layers : Z -> list ac_implicit_layer;
  tn_interval : check -> option (list Z);   (** the AC_*_CHECK_INTERVAL variables *)
}.

(** Seconds between two runs. *)
Definition interval (t : turn) (c : check) : Z :=
  match c with
  | Syscalls => 5
  | Modules => 10
  | Scan => ac_env_interval (tn_interval t c) 30
  | Baselines => ac_env_interval (tn_interval t c) 60
  | RenderHooks => ac_env_interval (tn_interval t c) 30
  | Preload => ac_env_interval (tn_interval t c) 10
  | VkLayers => ac_env_interval (tn_interval t c) 10
  | Implicit => ac_env_interval (tn_interval t c) 30
  end.

(** The check of the system call table, with a message when it starts or stops
    failing. *)
Definition run_syscalls (t : turn) (s : daemon_st) : list msg * daemon_st :=
  let '(rc, ms, sys) := check_syscalls_periodic (dm_sys s) (tn_check t) in
  let note :=
    if (rc <? 0) && negb (sys_check_failing s) then
      [logm LOG_WARNING [lit "periodic syscall table check failed: "; tn_errno t]]
    else if (0 <=? rc) && sys_check_failing s then
      [logm LOG_INFO [lit "periodic syscall table check recovered"]]
    else [] in
  (ms ++ note,
   mk_daemon sys (dm_drops s) (dm_anon s) (dm_preload s) (dm_vk s) (dm_implicit s)
     (rc <? 0) (dm_next s)).

(** One check. *)
Definition run_check (t : turn) (s : daemon_st) (c : check) : list msg * daemon_st :=
  let put anon pre vk imp :=
    mk_daemon (dm_sys s) (dm_drops s) anon pre vk imp (sys_check_failing s) (dm_next s) in
  match c with
  | Syscalls => run_syscalls t s
  | Modules =>
      (snd (check_modules_periodic (tn_mods_begin t) (tn_mods_get t)
              (tn_proc_modules t) (tn_errno t)), s)
  | Scan =>
      let '(_, ms, anon) := scan_protected_periodic (tn_begin t) (dm_anon s)
                              (tn_list t c) in
      (ms, put anon (dm_preload s) (dm_vk s) (dm_implicit s))
  | Baselines =>
      (snd (check_baselines_periodic (tn_files t) (tn_dir t) (tn_list t c)
              (tn_view t)), s)
  | RenderHooks => (check_render_hooks_periodic (tn_render t) (tn_list t c), s)
  | Preload =>
      let '(ms, pre) := check_ld_preload_periodic (tn_environ t) (dm_preload s)
                          (tn_list t c) in
      (ms, put (dm_anon s) pre (dm_vk s) (dm_implicit s))
  | VkLayers =>
      let '(ms, vk) := check_vk_layers_periodic (tn_environ t) (dm_vk s)
                         (tn_list t c) in
      (ms, put (dm_anon s) (dm_preload s) vk (dm_implicit s))
  | Implicit =>
      let '(ms, imp) := check_implicit_layers_periodic (tn_layers t)
                          (dm_implicit s) (tn_list t c) in
      (ms, put (dm_anon s) (dm_preload s) (dm_vk s) imp)
  end.

Definition set_next (s : daemon_st) (c : check) (v : Z) : daemon_st :=
  mk_daemon (dm_sys s) (dm_drops s) (dm_anon s) (dm_preload s) (dm_vk s)
    (dm_implicit s) (sys_check_failing s)
    (fun d => if decide (d = c) then v else dm_next s d).

(** [if (now >= next_c) { ...; next_c = now + interval; }]: the messages, the
    checks run, the state. *)
Definition gated (t : turn) (st : list msg * list check * daemon_st) (c : check)
    : list msg * list check * daemon_st :=
  let '(ms, ran, s) := st in
  if dm_next s c <=? tn_now t then
    let '(ms', s') := run_check t s c in
    (ms ++ ms', ran ++ [c], set_next s' c (tn_now t + interval t c))
  else st.

(** The drain of a successful GET_EVENTS. *)
Definition drain_turn (t : turn) (s : daemon_st) : list msg * daemon_st :=
  match tn_events t with
  | None => ([], s)
  | Some el =>
      let '(ms, sys, drops) := drain (dm_sys s) (dm_drops s) (tn_drops_now t) el in
      (ms, mk_daemon sys drops (dm_anon s) (dm_preload s) (dm_vk s) (dm_implicit s)
             (sys_check_failing s) (dm_next s))
  end.

(** The fallback pause, in microseconds. *)
Definition pause (t : turn) : Z :=
  let empty := match tn_events t with
               | None => true
               | Some el => (el_count el =? 0)%nat
               end in
  if empty && (tn_waited t <? AC_MONITOR_BLOCK_MS)
  then u32 (u32 (AC_MONITOR_BLOCK_MS - tn_waited t) * 1000) else 0.

(** One turn: [None] when the loop breaks out of it. *)
Definition monitor_turn (t : turn) (s : daemon_st)
    : option (list msg * list check * daemon_st) :=
  if negb (bool_decide (is_Some (tn_events t))) && tn_stop t then None
  else
    let '(ms, s) := drain_turn t s in
    Some (foldl (gated t) (ms, [], s) all_checks).

(** Turns until the loop ends: what each logged and ran. *)
Fixpoint monitor (ts : list turn) (s : daemon_st)
    : list (list msg * list check) * daemon_st :=
  match ts with
  | [] => ([], s)
  | t :: ts' =>
      match monitor_turn t s with
      | None => ([], s)
      | Some (ms, ran, s') =>
          let '(log, s'') := monitor ts' s' in ((ms, ran) :: log, s'')
      end
  end.

(** ** Starting *)

(** What an open descriptor refers to. *)
Inductive open_file := Inherited (fd : Z) | Device | PipeEnd | DevNull | LogFile.

Notation fd_table := (gmap Z open_file).

(** [open] takes the lowest free descriptor; among the first [size] numbers and
    the next one, one is free. *)
Fixpoint lowest_from (fuel : nat) (n : Z) (f : fd_table) : Z :=
  match fuel with
  | O => n
  | S fuel' => match f !! n with
               | Some _ => lowest_from fuel' (n + 1) f
               | None => n
               end
  end.

Definition open_lowest (x : open_file) (f : fd_table) : Z * fd_table :=
  let fd := lowest_from (size f) 0 f in (fd, <[fd := x]> f).

Record stat := mk_stat {
  st_isreg : bool;
  st_isdir : bool;
  st_uid : Z;
  st_nlink : Z;
  st_mode : Z;
}.

(** [S_IWGRP | S_IWOTH] *)
Definition others_write (s : stat) : bool := negb (Z.land (st_mode s) 18 =? 0).

Definition log_dir_ok (d : stat) : bool :=
  st_isdir d && (st_uid d =? 0) && negb (others_write d).

Definition log_file_ok (l : stat) : bool :=
  st_isreg l && (st_uid l =? 0) && (st_nlink l =? 1) && negb (others_write l).

Record log_env := mk_log_env {
  le_open : bool;                  (** the log opens, and is not a symlink *)
  le_fstat : option stat;
  le_dir : option stat;            (** [stat] of /var/log *)
}.

Definition log_ok (e : log_env) : bool :=
  match le_fstat e, le_dir e with
  | Some l, Some d => log_dir_ok d && log_file_ok l
  | _, _ => false
  end.

(** The log file opened, checked, and put in place of the two output streams;
    a descriptor above 2 is closed again. *)
Definition redirect_log (e : log_env) (f : fd_table) : fd_table :=
  if le_open e then
    let '(logfd, f) := open_lowest LogFile f in
    let f := if log_ok e then <[2 := LogFile]> (<[1 := LogFile]> f) else f in
    if 2 <? logfd then delete logfd f else f
  else f.

Record start_env := mk_start_env {
  sn_euid : Z;
  sn_device : bool;                (** the device opens *)
  sn_status : option Z;            (** the version STATUS reports *)
  sn_errno : list Z;               (** the text of [errno] *)
  sn_foreground : bool;
  sn_pid : Z;                      (** the daemon's own process *)
  sn_self : bool;                  (** ADD_PROC of it succeeds *)
  sn_cpuid : Z -> cpuid_regs;
  sn_dmi : dmi;
}.

(** What is printed when the daemon refuses to start; [None] when it goes
    on. *)
Definition start_check (e : start_env) : option (list (list Z)) :=
  if negb (sn_euid e =? 0) then Some [lit "anticheat start must run as root"]
  else if negb (sn_device e) then
    Some [concat [lit "cannot open /dev/anticheat: "; sn_errno e;
            lit " (is the module loaded? try: sudo insmod anticheat.ko)"]]
  else
    match sn_status e with
    | None =>
        Some [concat [lit "ioctl "; fmt_sx AC_IOCTL_STATUS; lit " failed: "; sn_errno e];
              lit "cannot query module status via /dev/anticheat -- refusing to start"]
    | Some v =>
        if negb (v =? AC_IOCTL_VERSION) then
          Some [concat [lit "ioctl ABI version mismatch: daemon built for AC_IOCTL_VERSION=";
            fmt_d AC_IOCTL_VERSION;
            lit ", but the loaded kernel module reports version="; fmt_u v;
            lit " -- refusing to start. Rebuild/reload a matching daemon and module pair."]]
        else None
    end.

(** What is logged before the loop. *)
Definition start_msgs (e : start_env) : list msg :=
  [logm LOG_INFO [lit "anticheat daemon started (foreground=";
     fmt_d (if sn_foreground e then 1 else 0); lit ")"];
   if sn_self e then logm LOG_INFO [lit "self-protected (pid "; fmt_d (sn_pid e); lit ")"]
   else logm LOG_WARNING [lit "failed to self-protect (pid "; fmt_d (sn_pid e); lit "): ";
          sn_errno e];
   vm_start_msg (sn_cpuid e) (sn_dmi e)].

(** The daemon from start to stop: the lines it refuses with, or everything it
    logs. *)
Definition cmd_start (e : start_env) (ts : list turn) : list (list Z) + list msg :=
  match start_check e with
  | Some lines => inl lines
  | None =>
      inr (start_msgs e ++ concat (fst <$> fst (monitor ts daemon_init))
           ++ [logm LOG_INFO [lit "anticheat daemon stopped"]])
  end.

(** The descriptors of the background process: the device, the pipe to the
    parent (both ends closed again, one in each of the two children), the
    standard streams.  The result is the device's descriptor and the table. *)
Definition background_fds (e : log_env) (f : fd_table) : Z * fd_table :=
  let '(dev_fd, f) := open_lowest Device f in
  let '(pfd0, f) := open_lowest PipeEnd f in
  let '(pfd1, f) := open_lowest PipeEnd f in
  let f := delete pfd1 (delete pfd0 f) in
  let f := <[0 := DevNull]> f in
  (dev_fd, redirect_log e f).

(** ** The schedule *)

Lemma env_interval_pos v d : 0 < d -> 0 < ac_env_interval v d.
Proof.
  intros Hd. unfold ac_env_interval. destruct v as [[|c e]|]; [done| |done].
  destruct (strtol10 (c :: e)) as [[x err] end_].
  destruct (err || _ || _ || (x <=? 0) || _) eqn:Hb; [done|]. boolp. lia.
Qed.

Lemma interval_pos t c : 0 < interval t c.
Proof. destruct c; cbn [interval]; (lia || apply env_interval_pos; lia). Qed.

Lemma run_check_next t s c : dm_next (snd (run_check t s c)) = dm_next s.
Proof.
  destruct c; cbn [run_check snd]; try done.
  - unfold run_syscalls. by destruct (check_syscalls_periodic _ _) as [[? ?] ?].
  - by destruct (scan_protected_periodic _ _ _) as [[? ?] ?].
  - by destruct (check_ld_preload_periodic _ _ _).
  - by destruct (check_vk_layers_periodic _ _ _).
  - by destruct (check_implicit_layers_periodic _ _ _).
Qed.

(** What one check does to the deadlines. *)
Lemma gated_next t ms ran s c :
  let '(_, ran', s') := gated t (ms, ran, s) c in
  ran' = ran ++ (if dm_next s c <=? tn_now t then [c] else []) /\
  forall d, dm_next s' d =
    if decide (d = c) then
      if dm_next s c <=? tn_now t then tn_now t + interval t c else dm_next s c
    else dm_next s d.
Proof.
  unfold gated. destruct (dm_next s c <=? tn_now t).
  - pose proof (run_check_next t s c) as Hn. destruct (run_check t s c) as [ms' s'].
    cbn [snd] in Hn. cbn [set_next dm_next]. rewrite Hn. done.
  - rewrite app_nil_r. split; [done|]. intros d. by destruct (decide (d = c)) as [->|].
Qed.

Lemma gated_all t l : forall ms ran s,
  NoDup l ->
  let '(_, ran', s') := foldl (gated t) (ms, ran, s) l in
  ran' = ran ++ filter (fun c => dm_next s c <= tn_now t) l /\
  forall d, dm_next s' d =
    if decide (d ∈ l /\ dm_next s d <= tn_now t) then tn_now t + interval t d
    else dm_next s d.
Proof.
  induction l as [|c l IH]; intros ms ran s Hnd; cbn [foldl].
  { rewrite filter_nil, app_nil_r. split; [done|]. intros d. case_decide; set_solver. }
  apply NoDup_cons in Hnd as [Hc Hnd].
  pose proof (gated_next t ms ran s c) as Hg.
  destruct (gated t (ms, ran, s) c) as [[ms1 ran1] s1]. destruct Hg as [-> Hn].
  specialize (IH ms1 (ran ++ if dm_next s c <=? tn_now t then [c] else []) s1 Hnd).
  destruct (foldl _ _ l) as [[ms2 ran2] s2]. destruct IH as [-> Hn2]. split.
  - rewrite <- app_assoc. f_equal. rewrite filter_cons.
    assert (filter (fun c => dm_next s1 c <= tn_now t) l =
      filter (fun c => dm_next s c <= tn_now t) l) as ->.
    { apply filter_iff_on. intros d Hd. rewrite Hn, decide_False; [done|]. by intros ->. }
    destruct (Z.leb_spec (dm_next s c) (tn_now t)); case_decide; (done || lia).
  - intros d. rewrite Hn2, Hn. destruct (decide (d = c)) as [->|Hne].
    + rewrite decide_False by tauto.
      destruct (Z.leb_spec (dm_next s c) (tn_now t)).
      * rewrite decide_True; [done|]. split; [apply list_elem_of_here|done].
      * rewrite decide_False; [done|]. lia.
    + destruct (decide (d ∈ l /\ dm_next s d <= tn_now t)) as [[Hd ?]|Hno].
      * rewrite decide_True; [done|]. split; [by apply list_elem_of_further|done].
      * rewrite decide_False; [done|]. intros [[?|?]%elem_of_cons ?]; [done|]. by apply Hno.
Qed.

Lemma in_all_checks c : c ∈ all_checks.
Proof. destruct c; unfold all_checks; set_solver. Qed.

Lemma turn_schedule t s ms ran s' :
  monitor_turn t s = Some (ms, ran, s') ->
  (forall c, c ∈ ran <-> dm_next s c <= tn_now t) /\
  (forall c, dm_next s' c =
     if decide (dm_next s c <= tn_now t) then tn_now t + interval t c else dm_next s c).
Proof.
  unfold monitor_turn. destruct (negb _ && _); [done|].
  assert (dm_next (snd (drain_turn t s)) = dm_next s) as Hd.
  { unfold drain_turn. destruct (tn_events t); [|done]. by destruct (drain _ _ _ _) as [[? ?] ?]. }
  destruct (drain_turn t s) as [dms s1]. cbn [snd] in Hd. intros Hf%(inj Some).
  pose proof (gated_all t all_checks dms [] s1) as Hg. rewrite Hf in Hg.
  destruct Hg as [-> Hn]; [by apply (bool_decide_unpack _); vm_compute|].
  rewrite Hd in *. split; intros c.
  - cbn [app]. rewrite list_elem_of_filter. pose proof (in_all_checks c). tauto.
  - rewrite Hn. pose proof (in_all_checks c). do 2 case_decide; tauto.
Qed.

(** Deadlines only move forward. *)
Lemma turn_next_le t s ms ran s' c :
  monitor_turn t s = Some (ms, ran, s') -> dm_next s c <= dm_next s' c.
Proof.
  intros [_ Hn]%turn_schedule. rewrite Hn. pose proof (interval_pos t c).
  case_decide; lia.
Qed.

Lemma monitor_due ts : forall s k t ms ran c,
  ts !! k = Some t -> fst (monitor ts s) !! k = Some (ms, ran) -> c ∈ ran ->
  dm_next s c <= tn_now t.
Proof.
  induction ts as [|t0 ts IH]; intros s k t ms ran c Ht Hl Hc; [done|].
  cbn [monitor] in Hl. destruct (monitor_turn t0 s) as [[[ms0 ran0] s1]|] eqn:E; [|done].
  specialize (IH s1). destruct (monitor ts s1) as [log s2]. cbn [fst] in *.
  destruct k as [|k]; cbn in Ht, Hl; simplify_eq.
  - by apply (turn_schedule _ _ _ _ _ E).
  - specialize (IH k t ms ran c Ht Hl Hc). pose proof (turn_next_le _ _ _ _ _ c E). lia.
Qed.

Lemma monitor_schedule ts : forall s k t ms ran c,
  ts !! k = Some t -> fst (monitor ts s) !! k = Some (ms, ran) ->
  c ∈ ran \/
  (exists j t' ms' ran', (j < k)%nat /\ ts !! j = Some t' /\
     fst (monitor ts s) !! j = Some (ms', ran') /\ c ∈ ran' /\
     tn_now t < tn_now t' + interval t' c) \/
  tn_now t < dm_next s c.
Proof.
  induction ts as [|t0 ts IH]; intros s k t ms ran c Ht Hl; [done|].
  cbn [monitor] in *. destruct (monitor_turn t0 s) as [[[ms0 ran0] s1]|] eqn:E; [|done].
  specialize (IH s1). destruct (monitor ts s1) as [log s2]. cbn [fst] in *.
  pose proof (turn_schedule _ _ _ _ _ E) as [Hran Hn].
  destruct k as [|k]; cbn in Ht, Hl; simplify_eq.
  - rewrite Hran. destruct (decide (dm_next s c <= tn_now t)); [by left|right; right; lia].
  - destruct (IH k t ms ran c Ht Hl) as [?|[(j & t' & ms' & ran' & Hj & Ht' & Hl' & Hrest)|Hlt]];
      [by left| |].
    + right. left. exists (S j), t', ms', ran'. split; [lia|]. done.
    + rewrite Hn in Hlt. case_decide as Hd; [|by right; right].
      right. left. exists 0%nat, t0, ms0, ran0. split; [lia|]. split; [done|].
      split; [done|]. split; [by apply Hran|done].
Qed.

Lemma monitor_spacing ts : forall s j k tj tk msj msk ranj rank c,
  (j < k)%nat -> ts !! j = Some tj -> ts !! k = Some tk ->
  fst (monitor ts s) !! j = Some (msj, ranj) ->
  fst (monitor ts s) !! k = Some (msk, rank) -> c ∈ ranj -> c ∈ rank ->
  tn_now tj + interval tj c <= tn_now tk.
Proof.
  induction ts as [|t0 ts IH]; intros s j k tj tk msj msk ranj rank c Hjk Hj Hk Hlj Hlk Hcj Hck;
    [done|].
  cbn [monitor] in *. destruct (monitor_turn t0 s) as [[[ms0 ran0] s1]|] eqn:E; [|done].
  specialize (IH s1). pose proof (monitor_due ts s1) as Hdue.
  destruct (monitor ts s1) as [log s2]. cbn [fst] in *.
  destruct k as [|k]; [lia|]. cbn in Hk, Hlk.
  destruct j as [|j]; cbn in Hj, Hlj; simplify_eq.
  - pose proof (turn_schedule _ _ _ _ _ E) as [Hran Hn].
    specialize (Hdue k tk msk rank c Hk Hlk Hck). rewrite Hn in Hdue.
    rewrite decide_True in Hdue by (by apply Hran). done.
  - by eapply (IH j k); [lia|..].
Qed.

(** ** The system call table in the loop *)

Lemma run_check_sys t s c :
  c <> Syscalls ->
  dm_sys (snd (run_check t s c)) = dm_sys s /\ dm_drops (snd (run_check t s c)) = dm_drops s.
Proof.
  destruct c; cbn [run_check snd]; try done; intros _.
  - by destruct (scan_protected_periodic _ _ _) as [[? ?] ?].
  - by destruct (check_ld_preload_periodic _ _ _).
  - by destruct (check_vk_layers_periodic _ _ _).
  - by destruct (check_implicit_layers_periodic _ _ _).
Qed.

Lemma gated_others t l : forall ms ran s,
  Syscalls ∉ l ->
  let '(ms', _, s') := foldl (gated t) (ms, ran, s) l in
  dm_sys s' = dm_sys s /\ dm_drops s' = dm_drops s /\
  (has_hook ms = true -> has_hook ms' = true).
Proof.
  induction l as [|c l IH]; intros ms ran s Hl; cbn [foldl]; [done|].
  apply not_elem_of_cons in Hl as [Hc Hl]. unfold gated at 2.
  destruct (_ <=? _); [|by apply IH].
  pose proof (run_check_sys t s c ltac:(done)) as [Hs Hd].
  destruct (run_check t s c) as [ms1 s1]. cbn [snd] in *.
  specialize (IH (ms ++ ms1) (ran ++ [c]) (set_next s1 c (tn_now t + interval t c)) Hl).
  destruct (foldl _ _ l) as [[ms' ran'] s']. destruct IH as (-> & -> & Hc').
  cbn [set_next dm_sys dm_drops]. split_and!; [done|done|]. intros Hm. apply Hc'.
  by rewrite has_hook_app, Hm.
Qed.

(** What a turn does about the system call table. *)
Definition turn_ops (t : turn) (due : bool) : list sys_op :=
  match tn_events t with Some el => [OpDrain (tn_drops_now t) el] | None => [] end
  ++ (if due then match tn_check t with Some c => [OpCheck c] | None => [] end else []).

Lemma turn_sys t s ms ran s' m0 :
  monitor_turn t s = Some (ms, ran, s') ->
  let '(m1, sys, drops) :=
    foldl sys_do (m0, dm_sys s, dm_drops s)
      (turn_ops t (bool_decide (dm_next s Syscalls <= tn_now t))) in
  sys = dm_sys s' /\ drops = dm_drops s' /\
  (has_hook m1 = true -> has_hook m0 || has_hook ms = true).
Proof.
  unfold monitor_turn, turn_ops. destruct (negb _ && _); [done|].
  rewrite foldl_app.
  assert (exists dms s1, drain_turn t s = (dms, s1) /\ dm_next s1 = dm_next s /\
    foldl sys_do (m0, dm_sys s, dm_drops s)
      (match tn_events t with Some el => [OpDrain (tn_drops_now t) el] | None => [] end)
    = (m0 ++ dms, dm_sys s1, dm_drops s1)) as (dms & s1 & Hd & Hn & ->).
  { unfold drain_turn. destruct (tn_events t) as [el|]; cbn [foldl sys_do].
    - destruct (drain _ _ _ _) as [[dms sys] drops]. by eexists _, _.
    - eexists _, _. by rewrite app_nil_r. }
  rewrite Hd. intros Hf%(inj Some). unfold all_checks in Hf. cbn [foldl] in Hf.
  unfold gated at 8 in Hf. rewrite Hn in Hf.
  assert (Syscalls ∉ [Modules; Scan; Baselines; RenderHooks; Preload; VkLayers; Implicit])
    as Hno by (by apply (bool_decide_unpack _); vm_compute).
  destruct (Z.leb_spec (dm_next s Syscalls) (tn_now t)).
  - rewrite bool_decide_eq_true_2 by done. cbn [run_check] in Hf. unfold run_syscalls in Hf.
    destruct (check_syscalls_periodic (dm_sys s1) (tn_check t)) as [[rc cms] sys] eqn:Ec.
    match type of Hf with gated t (gated t (gated t (gated t (gated t (gated t (gated t
      (?m, ?r, ?st) _) _) _) _) _) _) _ = _ =>
      pose proof (gated_others t _ m r st Hno) as Hg end.
    cbn [foldl] in Hg. rewrite Hf in Hg. destruct Hg as (-> & -> & Hc).
    cbn [set_next dm_sys dm_drops].
    destruct (tn_check t) as [c|]; cbn [foldl sys_do].
    + rewrite Ec. split_and!; [done|done|]. rewrite !has_hook_app, <- orb_assoc.
      destruct (has_hook m0); [done|]. cbn [orb]. intros Hm. apply Hc.
      by rewrite !has_hook_app, orb_assoc, Hm.
    + cbn in Ec. simplify_eq. split_and!; [done|done|]. rewrite has_hook_app.
      destruct (has_hook m0); [done|]. cbn [orb]. intros Hm. apply Hc.
      by rewrite !has_hook_app, Hm.
  - rewrite bool_decide_eq_false_2 by lia. cbn [foldl].
    pose proof (gated_others t _ dms [] s1 Hno) as Hg. cbn [foldl] in Hg.
    rewrite Hf in Hg. destruct Hg as (-> & -> & Hc). split_and!; [done|done|].
    rewrite has_hook_app. destruct (has_hook m0); [done|]. apply Hc.
Qed.

(** All the operations of a run. *)
Fixpoint run_ops (ts : list turn) (s : daemon_st) : list sys_op :=
  match ts with
  | [] => []
  | t :: ts' =>
      match monitor_turn t s with
      | None => []
      | Some (_, _, s') =>
          turn_ops t (bool_decide (dm_next s Syscalls <= tn_now t)) ++ run_ops ts' s'
      end
  end.

Lemma run_sys ts : forall s m0,
  has_hook (fst (fst (foldl sys_do (m0, dm_sys s, dm_drops s) (run_ops ts s)))) = true ->
  has_hook m0 || existsb (fun e => has_hook (fst e)) (fst (monitor ts s)) = true.
Proof.
  induction ts as [|t ts IH]; intros s m0; cbn [run_ops monitor].
  { cbn [foldl fst]. by intros ->. }
  destruct (monitor_turn t s) as [[[ms ran] s1]|] eqn:E; [|cbn [foldl fst]; by intros ->].
  rewrite foldl_app. pose proof (turn_sys t s ms ran s1 m0 E) as Ht.
  destruct (foldl sys_do (m0, _, _) _) as [[m1 sys] drops]. destruct Ht as (-> & -> & Hc).
  intros Hm. specialize (IH s1 m1 Hm). destruct (monitor ts s1) as [log s2].
  cbn [fst existsb] in *. apply orb_true_iff in IH as [H1|H2].
  - specialize (Hc H1). rewrite orb_assoc, Hc. done.
  - rewrite H2. by rewrite !orb_true_r.
Qed.

(** A turn in which the check finds a hook. *)
Definition hooked_turn (t : turn) : Prop :=
  exists c, tn_check t = Some c /\ 1 <= sc_hooked c < 2 ^ 32.

Lemma run_ops_hooked ts : forall s,
  Forall hooked_turn ts -> Forall stays_hooked (run_ops ts s).
Proof.
  induction ts as [|t ts IH]; intros s Hh; cbn [run_ops]; [done|].
  apply Forall_cons_1 in Hh as [(c & Hc & Hr) Hh].
  destruct (monitor_turn t s) as [[[? ?] s1]|]; [|done].
  apply Forall_app. split; [|by apply IH]. unfold turn_ops. rewrite Hc.
  apply Forall_app. split; [by destruct (tn_events t); [apply Forall_singleton|]|].
  case_bool_decide; [|constructor]. by apply Forall_singleton.
Qed.

(** Each turn that runs the check contributes one. *)
Lemma run_ops_checks ts : forall s,
  Forall hooked_turn ts ->
  length (filter (fun o => is_check o = true) (run_ops ts s)) =
  length (filter (fun e => Syscalls ∈ snd e) (fst (monitor ts s))).
Proof.
  induction ts as [|t ts IH]; intros s Hh; cbn [run_ops monitor]; [done|].
  apply Forall_cons_1 in Hh as [(c & Hc & Hr) Hh].
  destruct (monitor_turn t s) as [[[ms ran] s1]|] eqn:E; [|done].
  specialize (IH s1 Hh). destruct (monitor ts s1) as [log s2]. cbn [fst] in *.
  rewrite filter_app, length_app, IH, filter_cons. cbn [snd].
  apply turn_schedule in E as [Hran _]. specialize (Hran Syscalls).
  assert (filter (fun o => is_check o = true) (turn_ops t
    (bool_decide (dm_next s Syscalls <= tn_now t))) =
    if bool_decide (dm_next s Syscalls <= tn_now t) then [OpCheck c] else []) as ->.
  { unfold turn_ops. rewrite Hc. by case_bool_decide; destruct (tn_events t). }
  case_bool_decide; case_decide; (done || tauto).
Qed.

Lemma two_in_filter {A} (P : A -> Prop) `{!forall x, Decision (P x)} (l : list A) i j a b :
  (i < j)%nat -> l !! i = Some a -> l !! j = Some b -> P a -> P b ->
  (2 <= length (filter P l))%nat.
Proof.
  intros Hij Hi Hj Ha Hb. rewrite <- (take_drop (S i) l), filter_app, length_app.
  assert (forall m x, x ∈ m -> P x -> (1 <= length (filter P m))%nat) as Hone.
  { intros m x Hx Hp. assert (x ∈ filter P m) as Hf by (by apply list_elem_of_filter).
    destruct (filter P m); [by apply elem_of_nil in Hf|cbn; lia]. }
  pose proof (Hone (take (S i) l) a) as H1. pose proof (Hone (drop (S i) l) b) as H2.
  assert (a ∈ take (S i) l).
  { apply list_elem_of_lookup. exists i. rewrite lookup_take_lt by lia. done. }
  assert (b ∈ drop (S i) l).
  { apply list_elem_of_lookup. exists (j - S i)%nat. rewrite lookup_drop.
    by replace (S i + (j - S i))%nat with j by lia. }
  specialize (H1 ltac:(done) Ha). specialize (H2 ltac:(done) Hb). lia.
Qed.

(** ** Descriptors *)

Lemma lowest_free_from fuel : forall n (f : fd_table),
  (forall i, 0 <= i < n -> is_Some (f !! i)) -> 0 <= n ->
  (size f < Z.to_nat n + S fuel)%nat ->
  let fd := lowest_from fuel n f in
  f !! fd = None /\ n <= fd /\ forall i, 0 <= i < fd -> is_Some (f !! i).
Proof.
  induction fuel as [|fuel IH]; intros n f Hocc Hn Hsz; cbn [lowest_from].
  - split_and!; [|lia|done]. destruct (f !! n) as [x|] eqn:Hx; [exfalso|done].
    assert (list_to_set (seqZ 0 (n + 1)) ⊆ dom f) as Hsub.
    { intros i Hi%elem_of_list_to_set%elem_of_seqZ. apply elem_of_dom.
      destruct (decide (i = n)) as [->|]; [by eexists|]. apply Hocc. lia. }
    apply subseteq_size in Hsub. rewrite size_list_to_set in Hsub by apply NoDup_seqZ.
    rewrite length_seqZ, size_dom in Hsub. lia.
  - destruct (f !! n) as [x|] eqn:Hx; [|by split_and!; [|lia|]].
    destruct (IH (n + 1) f) as (H1 & H2 & H3); [|lia|lia|split_and!; [done|lia|done]].
    intros i Hi. destruct (decide (i = n)) as [->|]; [by eexists|]. apply Hocc. lia.
Qed.

Lemma open_lowest_fresh x (f : fd_table) :
  let '(fd, f') := open_lowest x f in
  f !! fd = None /\ 0 <= fd /\ f' = <[fd := x]> f /\
  (forall i, 0 <= i < fd -> is_Some (f !! i)).
Proof.
  unfold open_lowest.
  destruct (lowest_free_from (size f) 0 f) as (H1 & H2 & H3); [lia|lia|lia|done].
Qed.

(** With the standard streams open, every new descriptor is above 2. *)
Definition std_open (f : fd_table) : Prop := forall i, 0 <= i <= 2 -> is_Some (f !! i).

Lemma open_above_std x f :
  std_open f ->
  let '(fd, f') := open_lowest x f in f !! fd = None /\ 2 < fd /\ f' = <[fd := x]> f.
Proof.
  intros Hstd. pose proof (open_lowest_fresh x f) as Ho.
  destruct (open_lowest x f) as [fd f']. destruct Ho as (H1 & H2 & H3 & _).
  split_and!; [done| |done]. destruct (decide (2 < fd)); [done|].
  destruct (Hstd fd ltac:(lia)). congruence.
Qed.

Lemma std_insert f fd x : std_open f -> std_open (<[fd := x]> f).
Proof.
  intros Hs i Hi. destruct (decide (i = fd)) as [->|];
    [rewrite lookup_insert_eq|rewrite lookup_insert_ne by done; by apply Hs]. by eexists.
Qed.

Lemma redirect_log_exact e f :
  std_open f ->
  redirect_log e f =
  if le_open e && log_ok e then <[2 := LogFile]> (<[1 := LogFile]> f) else f.
Proof.
  intros Hs. unfold redirect_log. destruct (le_open e); [|done]. cbn [andb].
  pose proof (open_above_std LogFile f Hs) as Ho.
  destruct (open_lowest LogFile f) as [fd f']. destruct Ho as (Hn & Hgt & ->).
  rewrite (proj2 (Z.ltb_lt 2 fd)) by done. destruct (log_ok e).
  - rewrite !delete_insert_ne by lia. by rewrite delete_insert_id.
  - by rewrite delete_insert_id.
Qed.

(** ** Severities *)

(** Not severe enough to be reported. *)
Definition quiet (m : msg) : Prop := LOG_CRIT < m_pri m.

Lemma clamp_prot_quiet n : Forall quiet (snd (clamp_prot_count n)).
Proof.
  destruct (clamps_bounded n) as (_ & (_ & _ & Hw) & _).
  eapply Forall_impl; [exact Hw|]. unfold quiet. by intros m ->.
Qed.

Lemma pass_quiet {A} (step : ac_prot_item -> option A -> list msg * option A) t lst :
  (forall it o, Forall quiet (fst (step it o))) ->
  Forall quiet (snd (fst (periodic_pass step t lst))).
Proof.
  intros Hs. unfold periodic_pass. destruct lst as [[count items]|]; [|constructor].
  pose proof (clamp_prot_quiet count) as Hw.
  destruct (clamp_prot_count count) as [c warn]. cbn [snd] in Hw.
  set (pl := take _ _). set (t0 := forget_stale _ _). clearbody t0 pl.
  enough (Forall quiet (fst (table_pass step t0 pl))) as Hp.
  { destruct (table_pass step t0 pl). cbn [fst snd] in *. by apply Forall_app_2. }
  revert t0. induction pl as [|it pl IH]; intros t0; cbn [table_pass]; [constructor|].
  specialize (Hs it (slot_get t0 (pi_pid it))). destruct (step _ _) as [ms new].
  set (t1 := match new with Some _ => _ | None => _ end). specialize (IH t1).
  destruct (table_pass step t1 pl). cbn [fst] in *. by apply Forall_app_2.
Qed.

Lemma preload_quiet env it o : Forall quiet (fst (preload_step env it o)).
Proof. unfold preload_step. by repeat (case_match; simplify_eq; try by repeat constructor). Qed.

Lemma vklayer_quiet env it o : Forall quiet (fst (vklayer_step env it o)).
Proof.
  unfold vklayer_step. destruct o; [constructor|].
  destruct (ac_read_environ_vars _ _) as [rc vars]. case_test; [constructor|].
  cbn [fst]. apply Forall_fmap, Forall_true. by intros q.
Qed.

Lemma implicit_quiet active it o : Forall quiet (fst (implicit_step active it o)).
Proof.
  unfold implicit_step. cbn [fst]. destruct o; [|constructor].
  case_test; by repeat constructor.
Qed.

Lemma check_quiet t s c :
  c ∈ [Preload; VkLayers; Implicit] -> Forall quiet (fst (run_check t s c)).
Proof.
  intros Hc. rewrite !elem_of_cons, elem_of_nil in Hc.
  destruct Hc as [->|[->|[->|[]]]]; cbn [run_check];
    unfold check_ld_preload_periodic, check_vk_layers_periodic,
      check_implicit_layers_periodic.
  - pose proof (pass_quiet (preload_step (tn_environ t)) (dm_preload s)
      (tn_list t Preload) (preload_quiet _)) as H.
    by destruct (periodic_pass _ _ _) as [[? ?] ?].
  - pose proof (pass_quiet (vklayer_step (tn_environ t)) (dm_vk s)
      (tn_list t VkLayers) (vklayer_quiet _)) as H.
    by destruct (periodic_pass _ _ _) as [[? ?] ?].
  - pose proof (pass_quiet (implicit_step (tn_layers t)) (dm_implicit s)
      (tn_list t Implicit) (implicit_quiet _)) as H.
    by destruct (periodic_pass _ _ _) as [[? ?] ?].
Qed.

Lemma vm_quiet cpuid d : quiet (vm_start_msg cpuid d).
Proof.
  unfold vm_start_msg. by destruct (detect_hypervisor_cpuid cpuid), (detect_hypervisor_dmi d).
Qed.

(** ** Properties *)

(** C29: every periodic check keeps its schedule.  At every turn of the monitor
    loop each check runs, or ran at an earlier turn less than its interval ago;
    and two runs of a check are at least its interval apart.  This holds for
    any values of the interval variables, whatever the other checks do. *)
Theorem checks_on_schedule ts k t ms ran c :
  Forall (fun t => 0 <= tn_now t) ts -> ts !! k = Some t ->
  fst (monitor ts daemon_init) !! k = Some (ms, ran) ->
  (c ∈ ran \/
   exists j t' ms' ran', (j < k)%nat /\ ts !! j = Some t' /\
     fst (monitor ts daemon_init) !! j = Some (ms', ran') /\ c ∈ ran' /\
     tn_now t < tn_now t' + interval t' c) /\
  (c ∈ ran -> forall j t' ms' ran', (j < k)%nat -> ts !! j = Some t' ->
     fst (monitor ts daemon_init) !! j = Some (ms', ran') -> c ∈ ran' ->
     tn_now t' + interval t' c <= tn_now t).
Proof.
  intros Hpos Ht Hl. split.
  - destruct (monitor_schedule ts daemon_init k t ms ran c Ht Hl) as [?|[?|Hlt]]; auto.
    cbn in Hlt. eapply Forall_lookup_1 in Hpos; [|exact Ht]. cbn in Hpos. lia.
  - intros Hc j t' ms' ran' Hj Ht' Hl' Hc'. by eapply monitor_spacing.
Qed.

(** the running daemon reports a hooked system call table.  If every check
    finds a hooked slot, then once the loop has run for five seconds a critical
    message has been logged, whatever happened to the ring's events and
    whatever the other checks and the clock did. *)
Theorem daemon_reports_hook ts k t0 tk :
  Forall (fun t => 0 <= tn_now t) ts -> Forall hooked_turn ts ->
  length (fst (monitor ts daemon_init)) = length ts ->
  ts !! 0%nat = Some t0 -> ts !! k = Some tk -> tn_now t0 + 5 <= tn_now tk ->
  existsb (fun e => has_hook (fst e)) (fst (monitor ts daemon_init)) = true.
Proof.
  intros Hpos Hh Hlen H0 Hk Ht. apply (run_sys ts daemon_init []).
  assert (forall i t, ts !! i = Some t ->
    exists e, fst (monitor ts daemon_init) !! i = Some e) as Hlog.
  { intros i t Hi%lookup_lt_Some. apply lookup_lt_is_Some_2. lia. }
  destruct (Hlog 0%nat t0 H0) as [[ms0 ran0] Hl0], (Hlog k tk Hk) as [[msk rank] Hlk].
  assert (Syscalls ∈ ran0) as Hr0.
  { destruct (monitor_schedule ts daemon_init 0 t0 ms0 ran0 Syscalls H0 Hl0)
      as [?|[(j & ? & ? & ? & ? & _)|Hlt]]; [done|lia|].
    eapply Forall_lookup_1 in Hpos; [|exact H0]. cbn in Hlt, Hpos. lia. }
  assert (exists j msj ranj, (0 < j)%nat /\ fst (monitor ts daemon_init) !! j = Some (msj, ranj)
    /\ Syscalls ∈ ranj) as (j & msj & ranj & Hj & Hlj & Hrj).
  { destruct (monitor_schedule ts daemon_init k tk msk rank Syscalls Hk Hlk)
      as [?|[(j & t' & ms' & ran' & Hj & Ht' & Hl' & Hc & Hlt)|Hlt]].
    - exists k, msk, rank. split_and!; [|done|done]. destruct k; [simplify_eq; lia|lia].
    - exists j, ms', ran'. split_and!; [|done|done]. destruct j; [|lia].
      simplify_eq. cbn [interval] in Hlt. lia.
    - eapply Forall_lookup_1 in Hpos; [|exact Hk]. cbn in Hlt, Hpos. lia. }
  pose proof (run_ops_checks ts daemon_init Hh) as Hn.
  pose proof (two_in_filter (fun e => Syscalls ∈ snd e) _ 0 j (ms0, ran0) (msj, ranj)
    Hj Hl0 Hlj Hr0 Hrj) as H2.
  pose proof (sys_run_quiet _ [] sys_init drops_init (run_ops_hooked ts daemon_init Hh)
    eq_refl) as Hq.
  cbn [dm_sys dm_drops daemon_init].
  destruct (foldl sys_do _ _) as [[ms s] d]. cbn [fst].
  destruct (has_hook ms); [done|]. cbn in Hq. specialize (Hq ltac:(lia) eq_refl). lia.
Qed.

(** The descriptors of the background daemon.  Started with the standard
    streams open, it ends with the device on a descriptor of its own, standard
    input on /dev/null, and both output streams on the log exactly when that is
    a regular file of root, with one link, that nobody else can write, in a
    directory of root that nobody else can write; no other descriptor is
    opened or closed. *)
Theorem daemon_descriptors e f :
  std_open f ->
  let '(dev_fd, f') := background_fds e f in
  2 < dev_fd /\ f !! dev_fd = None /\
  let f1 := <[0 := DevNull]> (<[dev_fd := Device]> f) in
  f' = if le_open e && log_ok e then <[2 := LogFile]> (<[1 := LogFile]> f1) else f1.
Proof.
  intros Hs. unfold background_fds.
  pose proof (open_above_std Device f Hs) as Ho.
  destruct (open_lowest Device f) as [dev f1]. destruct Ho as (Hn & Hgt & ->).
  pose proof (open_above_std PipeEnd _ (std_insert f dev Device Hs)) as Ho.
  destruct (open_lowest PipeEnd _) as [p0 f2]. destruct Ho as (Hn0 & Hgt0 & ->).
  pose proof (open_above_std PipeEnd _ (std_insert _ p0 PipeEnd (std_insert f dev Device Hs)))
    as Ho.
  destruct (open_lowest PipeEnd _) as [p1 f3]. destruct Ho as (Hn1 & Hgt1 & ->).
  split_and!; [done|done|]. cbn zeta.
  assert (p0 <> p1) by (intros ->; by rewrite lookup_insert_eq in Hn1).
  rewrite delete_insert_ne, (delete_insert_id _ p0) by done.
  rewrite delete_insert_id by (by rewrite lookup_insert_ne in Hn1).
  apply redirect_log_exact. by apply std_insert, std_insert.
Qed.

(** What only hints at tampering never reaches the ban server.  The
    preload, Vulkan layer and implicit layer checks, and the virtual machine
    check at start-up, log nothing that [logmsg] reports, whatever they find and
    in whatever state the daemon is. *)
Theorem heuristics_never_reported e t s c g ty d :
  c ∈ [Preload; VkLayers; Implicit] ->
  Report ty d ∉ concat (logmsg g <$> (start_msgs e ++ fst (run_check t s c))).
Proof.
  intros Hc Hj. apply list_elem_of_In, in_concat in Hj as (l & Hl & Hr).
  apply list_elem_of_In, list_elem_of_fmap in Hl as (m & -> & Hm).
  apply list_elem_of_In in Hr.
  assert (quiet m) as Hq.
  { apply elem_of_app in Hm as [Hm|Hm].
    - unfold start_msgs in Hm. rewrite !elem_of_cons, elem_of_nil in Hm.
      destruct Hm as [->|[->|[->|[]]]]; [done|by destruct (sn_self e)|apply vm_quiet].
    - eapply Forall_forall; [by apply check_quiet|exact Hm]. }
  apply logmsg_reports in Hr as [Hle _]. unfold quiet in Hq. lia.
Qed.

End Daemon.

(** A daemon watching a hooked table, and start-ups with and without standard
    output. *)
Module DaemonDemo.
Import Daemon.

Definition hooked_reply : ac_syscall_check :=
  mk_syscall_check 4096 450 430 1 1 false true 0 false [] [].

Definition quiet_turn (now : Z) : turn :=
  mk_turn None 0 false now now [] (Some hooked_reply) None (fun _ => None) None
    (fun _ => None) (fun _ => None) ∅ [] (fun _ => mk_proc_view None (fun _ => None) 0
      (fun _ _ => None) (fun _ => true))
    (fun _ => mk_render_view (mk_proc_files (fun _ _ => Unreadable) (fun _ _ => None)
      (fun _ _ => None) true true) None (fun _ _ => None))
    (fun _ => None) (fun _ => []) (fun _ => None).

Definition six_seconds : list turn := [quiet_turn 7; quiet_turn 9; quiet_turn 13].

Lemma clocks_ok : Forall (fun t => 0 <= tn_now t) six_seconds.
Proof. repeat constructor; discriminate. Qed.

Lemma checks_on_schedule_witness :
  exists ms ran, fst (monitor six_seconds daemon_init) !! 1%nat = Some (ms, ran) /\
  (Modules ∈ ran \/
   exists j t' ms' ran', (j < 1)%nat /\ six_seconds !! j = Some t' /\
     fst (monitor six_seconds daemon_init) !! j = Some (ms', ran') /\ Modules ∈ ran' /\
     9 < tn_now t' + interval t' Modules).
Proof.
  destruct (fst (monitor six_seconds daemon_init) !! 1%nat) as [[ms ran]|] eqn:E;
    [|vm_compute in E; discriminate].
  exists ms, ran. split; [reflexivity|].
  apply (checks_on_schedule six_seconds 1 (quiet_turn 9) ms ran Modules).
  - apply clocks_ok.
  - reflexivity.
  - exact E.
Defined.

Lemma daemon_reports_hook_witness :
  existsb (fun e => Monitor.Monitor.has_hook (fst e)) (fst (monitor six_seconds daemon_init))
  = true.
Proof.
  apply (daemon_reports_hook six_seconds 2 (quiet_turn 7) (quiet_turn 13)).
  - apply clocks_ok.
  - repeat apply Forall_cons_2; [..|apply Forall_nil_2];
      (exists hooked_reply; split; [reflexivity|cbn; lia]).
  - vm_compute. reflexivity.
  - reflexivity.
  - reflexivity.
  - cbn. lia.
Defined.

Definition stdio : gmap Z open_file :=
  <[0 := Inherited 0]> (<[1 := Inherited 1]> (<[2 := Inherited 2]> ∅)).

Definition good_log : log_env :=
  mk_log_env true (Some (mk_stat true false 0 1 416)) (Some (mk_stat false true 0 8 493)).

Lemma daemon_descriptors_witness :
  let '(dev_fd, f') := background_fds good_log stdio in
  2 < dev_fd /\ stdio !! dev_fd = None /\
  let f1 := <[0 := DevNull]> (<[dev_fd := Device]> stdio) in
  f' = if le_open good_log && log_ok good_log
       then <[2 := LogFile]> (<[1 := LogFile]> f1) else f1.
Proof.
  apply (daemon_descriptors good_log stdio).
  intros i Hi. assert (i = 0 \/ i = 1 \/ i = 2) as [-> | [-> | ->]] by lia;
    vm_compute; eexists; reflexivity.
Defined.

(** A protected process started with LD_PRELOAD on a machine under KVM. *)
Definition preload_turn : turn :=
  mk_turn None 0 false 7 7 [] None None (fun _ => None) None
    (fun _ => Some (1, [mk_prot_item 42 false (lit "game")])) (fun _ => None) ∅ []
    (tn_view (quiet_turn 7)) (tn_render (quiet_turn 7))
    (fun _ => Some (lit "LD_PRELOAD=/tmp/x.so" ++ [0])) (fun _ => []) (fun _ => None).

Definition kvm_start : start_env :=
  mk_start_env 0 true (Some AC_IOCTL_VERSION) [] true 99 true
    (fun leaf => if leaf =? 1 then mk_regs 0 0 (2 ^ 31) 0
                 else mk_regs 0 0x4b4d564b 0x564b4d56 0x4d) (mk_dmi None None None).

Lemma heuristics_never_reported_witness :
  length (fst (run_check preload_turn daemon_init Preload)) = 1%nat /\
  Report (lit "CRITICAL") [] ∉ concat (logmsg true <$>
    (start_msgs kvm_start ++ fst (run_check preload_turn daemon_init Preload))).
Proof.
  split; [vm_compute; reflexivity|].
  apply (heuristics_never_reported kvm_start preload_turn daemon_init Preload). by left.
Defined.

(** With standard output closed at start, the device takes descriptor 1, and
    the redirection of the output replaces it: the daemon is left without its
    device. *)
Example closed_stdout_loses_device :
  background_fds good_log (<[0 := Inherited 0]> (<[2 := Inherited 2]> ∅)) =
  (1, <[0 := DevNull]> (<[1 := LogFile]> (<[2 := LogFile]> ∅))).
Proof. vm_compute. reflexivity. Qed.

(** With both output streams closed, a log that is refused (here, writable by
    everybody) stays in place as standard error. *)
Example refused_log_becomes_stderr :
  background_fds (mk_log_env true (Some (mk_stat true false 0 1 438)) (le_dir good_log))
    (<[0 := Inherited 0]> ∅) =
  (1, <[0 := DevNull]> (<[1 := Device]> (<[2 := LogFile]> ∅))).
Proof. vm_compute. reflexivity. Qed.

End DaemonDemo.
