(* ===== verification/Cli.v ===== *)
(** The command line (src/anticheat_daemon.c): the arguments, the search for
    processes by name, and the commands that act on the module, each composed
    with the module's own ioctl handlers. *)

From S2P Require Import Prelude CText CScan Abi DLog Ring Modules SyscallTable.
From S2P Require Import SyscallCheck Registry Handlers Scan Ioctl Monitor Render.
Import DLog.DLog Modules.Mods SyscallTable.Table SyscallCheck.Check
  Registry.Reg Handlers.Handlers Scan.Scan Ioctl.Ioctl.

#[local] Open Scope Z_scope.

Module Cli.

(** ** Arguments *)

(** A value, or the message the program dies with. *)
Definition parsed (A : Type) : Type := list Z + A.

Definition ac_parse_pid (s what : list Z) : parsed Z :=
  let '(v, err, end_) := strtol10 s in
  if err || (length end_ =? length s)%nat || negb (length end_ =? 0)%nat
     || (v <=? 0) || (INT_MAX <? v)
  then inl (concat [lit "invalid "; what; lit " '"; s;
              lit "': must be a positive integer pid"])
  else inr v.

Record protect_args := mk_protect_args {
  pa_pid : Z;
  pa_ref_pid : Z;
  pa_jit : Z;
  pa_comm : option (list Z);
}.

Definition requires_value (opt : list Z) : list Z :=
  concat [lit "usage: "; opt; lit " requires a value"].

Fixpoint protect_loop (argv : list (list Z)) (a : protect_args)
    : parsed protect_args :=
  match argv with
  | [] => inr a
  | w :: rest =>
      if streq w (lit "--pid") then
        match rest with
        | [] => inl (requires_value w)
        | v :: rest' =>
            match ac_parse_pid v w with
            | inl m => inl m
            | inr p => protect_loop rest'
                         (mk_protect_args p (pa_ref_pid a) (pa_jit a) (pa_comm a))
            end
        end
      else if streq w (lit "--comm") then
        match rest with
        | [] => inl (requires_value w)
        | v :: rest' =>
            protect_loop rest'
              (mk_protect_args (pa_pid a) (pa_ref_pid a) (pa_jit a) (Some v))
        end
      else if streq w (lit "--ns-of") then
        match rest with
        | [] => inl (requires_value w)
        | v :: rest' =>
            match ac_parse_pid v w with
            | inl m => inl m
            | inr p => protect_loop rest'
                         (mk_protect_args (pa_pid a) p (pa_jit a) (pa_comm a))
            end
        end
      else if streq w (lit "--jit") then
        protect_loop rest (mk_protect_args (pa_pid a) (pa_ref_pid a) 1 (pa_comm a))
      else protect_loop rest a
  end.

(** The combinations the command refuses. *)
Definition parse_protect (argv : list (list Z)) : parsed protect_args :=
  match protect_loop argv (mk_protect_args (-1) (-1) 0 None) with
  | inl m => inl m
  | inr a =>
      let named := bool_decide (is_Some (pa_comm a)) in
      if (pa_pid a <? 0) && negb named then
        inl (lit "usage: anticheat protect --pid N [--ns-of REFPID] [--jit] | --comm NAME [--jit]")
      else if (0 <=? pa_ref_pid a) && named then
        inl (lit "usage: --ns-of cannot be combined with --comm")
      else if (0 <=? pa_ref_pid a) && (pa_pid a <? 0) then
        inl (lit "usage: --ns-of requires --pid")
      else inr a
  end.

(** [unprotect] looks at [--pid] and [--ns-of] only. *)
Fixpoint unprotect_loop (argv : list (list Z)) (pid ref_pid : Z)
    : parsed (Z * Z) :=
  match argv with
  | [] => inr (pid, ref_pid)
  | w :: rest =>
      if streq w (lit "--pid") then
        match rest with
        | [] => inl (requires_value w)
        | v :: rest' =>
            match ac_parse_pid v w with
            | inl m => inl m
            | inr p => unprotect_loop rest' p ref_pid
            end
        end
      else if streq w (lit "--ns-of") then
        match rest with
        | [] => inl (requires_value w)
        | v :: rest' =>
            match ac_parse_pid v w with
            | inl m => inl m
            | inr p => unprotect_loop rest' pid p
            end
        end
      else unprotect_loop rest pid ref_pid
  end.

(** ** Processes by name *)

(** What /proc/<pid> shows: the target of exe, the contents of comm. *)
Record proc_info := mk_proc_info {
  px_exe : option (list Z);
  px_comm : option (list Z);
}.

Definition PATH_MAX : nat := 4096.

Definition proc_exe_path (i : proc_info) : option (list Z) :=
  strscpy PATH_MAX <$> px_exe i.

(** Trailing newlines and blanks removed. *)
Fixpoint rtrim_comm (s : list Z) : list Z :=
  match s with
  | c :: s' =>
      match rtrim_comm s' with
      | [] => if (c =? 10) || (c =? 32) then [] else [c]
      | t => c :: t
      end
  | [] => []
  end.

(** [None] when the file cannot be read or is empty. *)
Definition read_comm (i : proc_info) (bufsz : nat) : option (list Z) :=
  match px_comm i with
  | None | Some [] => None
  | Some s => Some (rtrim_comm (strscpy bufsz s))
  end.

(** 1 the base name is [comm], 0 it is not, -1 cannot tell. *)
Definition exe_path_matches (i : proc_info) (comm : list Z) : Z :=
  match proc_exe_path i with
  | None => -1
  | Some link =>
      let n := length link in
      if (10 <? n)%nat && streq (drop (n - 10) link) (lit " (deleted)") then -1
      else if streq (Render.Render.basename link link) comm then 1 else 0
  end.

(** The process's comm when it identifies as [comm]. *)
Definition pid_identifies_as (i : proc_info) (comm : list Z) : option (list Z) :=
  let exe_match := exe_path_matches i comm in
  if exe_match =? 0 then None
  else if exe_match <? 0 then
    match read_comm i (AC_MAX_COMM + 1) with
    | Some buf => if streq buf comm then Some buf else None
    | None => None
    end
  else Some (default [] (read_comm i (AC_MAX_COMM + 1))).

(** The process of a directory entry of /proc: [atoi] of a name that starts
    with a digit. *)
Definition entry_pid (name : list Z) : option Z :=
  match name with
  | c :: _ =>
      if (c <? 48) || (57 <? c) then None
      else let '(v, _, _) := strtol10 name in
           if s32 v <=? 0 then None else Some (s32 v)
  | [] => None
  end.

(** All matching processes; the caller keeps the first [max]. *)
Definition pid_of_comm (names : list (list Z)) (proc : Z -> proc_info)
    (comm : list Z) : list Z :=
  filter (fun pid => is_Some (pid_identifies_as (proc pid) comm))
    (omap entry_pid names).

(** ** Commands *)

Section commands.
Context `{!TaskEnv, !ModuleEnv, !KernelEnv}.

(** Exit status, the lines on standard output and on standard error, and the
    module's state. *)
Definition run : Type := Z * list (list Z) * list (list Z) * dev_st.

Definition die (m : list Z) (v : dev_st) : run := (1, [], [m], v).

(** [ac_open()], then the rest. *)
Definition with_device (e : call_env) (err : list Z) (v : dev_st) (k : run) : run :=
  if fst (ac_open e None) <? 0 then
    die (concat [lit "cannot open /dev/anticheat: "; err;
           lit " (is the module loaded? try: sudo insmod anticheat.ko)"]) v
  else k.

(** [ioctl_ok]'s message. *)
Definition ioctl_failed (req : Z) (err : list Z) : list Z :=
  concat [lit "ioctl "; fmt_sx req; lit " failed: "; err].

Definition no_args : user_in := mk_in None None None None.
Definition proc_arg (p : ac_proc_id) : user_in := mk_in (Some p) None None None.

(** One protect request. *)
Definition add_request (e : call_env) (p : ac_proc_id) (v : dev_st) : Z * dev_st :=
  let '(ret, v', _, _) := ac_ioctl e AC_IOCTL_ADD_PROC (proc_arg p) v None in (ret, v').

Definition protected_line (pid : Z) (comm : list Z) : list Z :=
  concat [lit "protected pid "; fmt_d pid; lit " ("; comm; lit ")"].

Definition COMM_MAX : nat := 256.

(** The loop over the processes found by name: [env pid] is the kernel at the
    request for [pid], [now] what /proc shows just before it. *)
Fixpoint protect_all (env : Z -> call_env) (now : Z -> proc_info) (err : list Z)
    (comm : list Z) (jit : Z) (pids : list Z) (count : Z) (out errs : list (list Z))
    (v : dev_st) : run :=
  match pids with
  | [] => (0, out ++ [fmt_d count ++ lit " process(es) protected"], errs, v)
  | pid :: pids' =>
      match pid_identifies_as (now pid) comm with
      | None =>
          protect_all env now err comm jit pids' count out
            (errs ++ [concat [lit "skipping pid "; fmt_d pid;
               lit ": no longer matches '"; comm; lit "' (exited/reused?)"]]) v
      | Some cur =>
          let id := mk_proc_id pid 0 jit (strscpy AC_MAX_COMM cur) in
          let '(ret, v') := add_request (env pid) id v in
          if ret =? 0 then
            protect_all env now err comm jit pids' (count + 1)
              (out ++ [protected_line pid (pr_comm id)]) errs v'
          else
            protect_all env now err comm jit pids' count out
              (errs ++ [ioctl_failed AC_IOCTL_ADD_PROC err]) v'
      end
  end.

(** [names] and [scan]: the entries of /proc and what they show when the
    processes are searched. *)
Definition cmd_protect (e : call_env) (env : Z -> call_env) (err : list Z)
    (names : list (list Z)) (scan now : Z -> proc_info) (argv : list (list Z))
    (v : dev_st) : run :=
  match parse_protect argv with
  | inl m => die m v
  | inr a =>
      with_device e err v
        match pa_comm a with
        | Some comm =>
            let pids := pid_of_comm names scan comm in
            match pids with
            | [] => (1, [], [concat [lit "no process with comm '"; comm; lit "'"]], v)
            | _ =>
                let warn :=
                  if (COMM_MAX <? length pids)%nat then
                    [concat [lit "warning: "; fmt_d (Z.of_nat (length pids));
                       lit " processes match '"; comm;
                       lit "', protecting only the first 256"]]
                  else [] in
                protect_all env now err comm (pa_jit a) (take COMM_MAX pids) 0 [] warn v
            end
        | None =>
            let id := mk_proc_id (pa_pid a) (pa_ref_pid a) (pa_jit a) [] in
            let '(ret, v') := add_request e id v in
            if ret <? 0 then (1, [], [ioctl_failed AC_IOCTL_ADD_PROC err], v')
            else (0, [protected_line (pa_pid a) (pr_comm id)], [], v')
        end
  end.

Definition cmd_unprotect (e : call_env) (err : list Z) (argv : list (list Z))
    (v : dev_st) : run :=
  match unprotect_loop argv (-1) (-1) with
  | inl m => die m v
  | inr (pid, ref_pid) =>
      if pid <? 0 then die (lit "usage: anticheat unprotect --pid N [--ns-of REFPID]") v
      else
        with_device e err v
          (let '(ret, v', _, _) := ac_ioctl e AC_IOCTL_DEL_PROC
                                     (proc_arg (mk_proc_id pid ref_pid 0 [])) v None in
           if ret <? 0 then (1, [], [ioctl_failed AC_IOCTL_DEL_PROC err], v')
           else (0, [lit "protection removed from pid " ++ fmt_d pid], [], v'))
  end.

(** [%-8d], [%-16s] *)
Definition pad (n : nat) (s : list Z) : list Z := s ++ replicate (n - length s) 32.

Definition list_line (it : ac_prot_item) : list Z :=
  concat [lit "  pid "; pad 8 (fmt_d (pi_pid it)); lit " "; pad 16 (pi_comm it);
    lit " jit="; if pi_jit_allowed it then lit "yes" else lit "no"].

Definition cmd_list (e : call_env) (err : list Z) (v : dev_st) : run :=
  with_device e err v
    match ac_ioctl e AC_IOCTL_LIST_PROTECTED no_args v None with
    | (_, v', _, Some (RProts items)) =>
        let '(count, warn) := clamp_prot_count (Z.of_nat (length items)) in
        (0, [fmt_u count ++ lit " protected process(es):"]
            ++ (list_line <$> take (Z.to_nat count) items),
         m_text <$> warn, v')
    | (_, v', _, _) => (1, [], [ioctl_failed AC_IOCTL_LIST_PROTECTED err], v')
    end.

Definition cmd_status (e : call_env) (err : list Z) (v : dev_st) : run :=
  with_device e err v
    match ac_ioctl e AC_IOCTL_STATUS no_args v None with
    | (_, v', _, Some (RStatus st)) =>
        (0, [lit "anticheat kernel module";
             lit "  version           : " ++ fmt_u (st_version st);
             lit "  syscall table     : " ++ fmt_sx (st_syscall_table_addr st);
             lit "  protected procs   : " ++ fmt_u (st_active_procs st);
             lit "  events dropped    : " ++ fmt_u (st_events_dropped st);
             lit "  locked            : " ++ fmt_u (st_locked st);
             lit "  syscall hooks     : " ++ fmt_u (st_syscall_hook_count st)
               ++ lit " (last check)"], [], v')
    | (_, v', _, _) => (1, [], [ioctl_failed AC_IOCTL_STATUS err], v')
    end.

Definition cmd_lock (e : call_env) (err : list Z) (lock : bool) (v : dev_st) : run :=
  let req := if lock then AC_IOCTL_LOCK else AC_IOCTL_UNLOCK in
  with_device e err v
    (let '(ret, v', _, _) := ac_ioctl e req no_args v None in
     if ret <? 0 then (1, [], [ioctl_failed req err], v')
     else (0, [concat [lit "module "; if lock then lit "pinned" else lit "unpinned";
                 lit " (rmmod will "; if lock then lit "fail" else lit "succeed";
                 lit " while pinned)"]], [], v')).

(** [events] without [--watch]. *)
Definition zero_list : ac_event_list :=
  mk_event_list 0 0 0 (replicate AC_MAX_EVENTS zero_event).

Definition cmd_events (e : call_env) (err : list Z)
    (clock_text : Z -> option (list Z)) (v : dev_st) : run :=
  with_device e err v
    match ac_ioctl e AC_IOCTL_GET_EVENTS (mk_in None None None (Some zero_list)) v None with
    | (_, v', _, Some (REvents el)) =>
        let '(n, warn) := clamp_event_count (Z.of_nat (el_count el)) in
        (0, (print_event clock_text <$> take (Z.to_nat n) (el_events el))
            ++ (if el_dropped el =? 0 then []
                else [concat [lit "(ring dropped "; fmt_u (el_dropped el);
                        lit " events)"]]),
         m_text <$> warn, v')
    | (_, v', _, _) => (1, [], [ioctl_failed AC_IOCTL_GET_EVENTS err], v')
    end.

(** The verdict lines of [syscalls] and its exit status. *)
Definition syscalls_verdict (c : ac_syscall_check) : Z * list (list Z) :=
  if (sc_hooked c =? 0) && (sc_redirected c =? 0) && negb (sc_checksum_mismatch c)
  then (0, [lit "  result           : OK — no hooks detected"])
  else
    (2, (if sc_hooked c =? 0 then []
         else [lit "  result           : COMPROMISED — syscall hooks present!"])
        ++ (if sc_redirected c =? 0 then []
            else [lit "  result           : COMPROMISED — in-text syscall redirect(s) present!"])
        ++ (if sc_checksum_mismatch c && (sc_hooked c =? 0) && (sc_redirected c =? 0)
            then [lit "  result           : COMPROMISED — syscall checksum mismatch (handler churn not caught by per-slot checks)!"]
            else [])).

Definition cmd_syscalls (e : call_env) (err : list Z) (v : dev_st) : run :=
  with_device e err v
    match ac_ioctl e AC_IOCTL_CHECK_SYSCALLS no_args v None with
    | (_, v', _, Some (RCheck c)) =>
        let '(code, verdict) := syscalls_verdict c in
        (code,
         [lit "syscall table @ " ++ fmt_sx (sc_table_addr c);
          lit "  entries examined : " ++ fmt_u (sc_nr_syscalls c);
          lit "  non-NULL entries : " ++ fmt_u (sc_total c);
          lit "  hooked           : " ++ fmt_u (sc_hooked c)]
         ++ (if sc_baseline_ready c then
               [lit "  boot baseline    : " ++ sc_baseline_sha256 c;
                concat [lit "  current checksum : "; sc_current_sha256 c;
                  if sc_checksum_mismatch c then lit " (MISMATCH)" else []];
                concat [lit "  redirected       : "; fmt_u (sc_redirected c);
                  lit " (in-text handler swap since boot)"]]
             else
               [lit "  boot baseline    : unavailable (syscall table not located at load)"])
         ++ verdict, [], v')
    | (ret, v', _, _) =>
        (1, [], [if ret =? - ENODEV
                 then lit "syscall table was not located at module load; integrity check unavailable"
                 else ioctl_failed AC_IOCTL_CHECK_SYSCALLS err], v')
    end.

(** [modules]: the cross-check fed by the device; [env i] is the kernel at the
    [i]-th MODS_GET. *)
Definition mods_get (env : Z -> call_env) (v : dev_st) (pd : option ac_fd_state)
    (i : Z) : option ac_mod_info :=
  match ac_ioctl (env i) AC_IOCTL_MODS_GET (mk_in None None (Some i) None) v pd with
  | (_, _, _, Some (RMod _ m)) => Some m
  | _ => None
  end.

Definition crosscheck_device (e : call_env) (env : Z -> call_env)
    (proc : option (list Z)) (err : list Z) (v : dev_st) : Z * list msg :=
  match ac_ioctl e AC_IOCTL_MODS_BEGIN no_args v None with
  | (_, v', pd, Some (RModCount n)) =>
      Monitor.Monitor.crosscheck_modules (Some (Z.of_nat n)) (mods_get env v' pd) proc err
  | _ => Monitor.Monitor.crosscheck_modules None (fun _ => None) proc err
  end.

Definition cmd_modules (e : call_env) (env : Z -> call_env)
    (proc : option (list Z)) (err : list Z) (v : dev_st) : Z :=
  if fst (ac_open e None) <? 0 then 1
  else
    let hidden := fst (crosscheck_device e env proc err v) in
    if hidden <? 0 then 1 else if hidden =? 0 then 0 else 2.
End commands.

(** ** Arguments read back *)

Lemma parse_pid_fmt n what : 0 < n <= INT_MAX -> ac_parse_pid (fmt_d n) what = inr n.
Proof.
  unfold INT_MAX. intros Hn. unfold ac_parse_pid, fmt_d.
  destruct (Z.ltb_spec n 0); [lia|].
  pose proof (strtol10_fmt n []) as Hs. rewrite app_nil_r in Hs.
  rewrite Hs by (unfold LONG_MAX; done || lia).
  assert (fmt_u n <> []) as Hne.
  { intros E. rewrite E in Hs. specialize (Hs ltac:(unfold LONG_MAX; lia) I).
    by cbn in Hs; simplify_eq. }
  destruct (fmt_u n); [done|]. cbn [length Nat.eqb negb orb].
  destruct (Z.leb_spec n 0), (Z.ltb_spec INT_MAX n); (done || unfold INT_MAX in *; lia).
Qed.

Lemma parse_pid_range s what p : ac_parse_pid s what = inr p -> 0 < p <= INT_MAX.
Proof.
  unfold ac_parse_pid. destruct (strtol10 s) as [[v err] end_].
  destruct (err || _ || _ || _ || _) eqn:Hb; [done|]. intros [= <-]. boolp. lia.
Qed.

Lemma parse_protect_pid n (jit : bool) :
  0 < n <= INT_MAX ->
  parse_protect ([lit "--pid"; fmt_d n] ++ (if jit then [lit "--jit"] else [])) =
  inr (mk_protect_args n (-1) (if jit then 1 else 0) None).
Proof.
  intros Hn. unfold parse_protect.
  assert (protect_loop ([lit "--pid"; fmt_d n] ++ (if jit then [lit "--jit"] else []))
    (mk_protect_args (-1) (-1) 0 None) =
    inr (mk_protect_args n (-1) (if jit then 1 else 0) None)) as ->.
  { cbn [app protect_loop]. change (streq (lit "--pid") (lit "--pid")) with true.
    cbn iota. rewrite parse_pid_fmt by done. by destruct jit. }
  cbn [pa_pid pa_ref_pid pa_comm]. destruct (Z.ltb_spec n 0); [lia|]. done.
Qed.

(** ** Requests *)

Section requests.
Context `{!TaskEnv, !ModuleEnv, !KernelEnv}.

(** A privileged native caller whose buffers are readable and writable. *)
Definition root_call (e : call_env) : Prop :=
  capable e = true /\ compat e = false /\ copy_to_ok e = true.

Lemma root_open e : root_call e -> fst (ac_open e None) = 0.
Proof. intros (Hc & _). unfold ac_open. by rewrite Hc. Qed.

(** What a protect request does. *)
Lemma add_request_spec e p v ret v' :
  root_call e -> mm_addresses -> dev_ok v -> add_request e p v = (ret, v') ->
  dev_ok v' /\
  match ac_resolve (pr_pid p) (pr_ref_pid p) with
  | Some t =>
      if tk_mm t =? NULL then ret = - ESRCH /\ v' = v
      else 1 < tk_mm t /\ add_outcome (v_reg v) (v_reg v') (tk_mm t) (tk_pid t)
             (strscpy AC_MAX_COMM (tk_comm t)) (negb (pr_jit_allowed p =? 0))
             (notifier_ret e) ret
  | None => ret = - ESRCH /\ v' = v
  end.
Proof.
  intros (Hc & Hco & _) Hmm Hv. unfold add_request.
  assert (ac_ioctl e AC_IOCTL_ADD_PROC (proc_arg p) v None =
    do_add_proc e v None (proc_arg p)) as -> by (unfold ac_ioctl; by rewrite Hc, Hco).
  pose proof (add_proc_keeps e v None (proc_arg p) Hmm Hv I) as Hk.
  unfold do_add_proc, ac_add_prot_pid, proc_arg in *. cbn [u_proc] in *.
  destruct (ac_resolve _ _) as [t|] eqn:Er.
  2: { destruct v. intros ?. simplify_eq. by destruct Hk. }
  destruct (Z.eqb_spec (tk_mm t) NULL).
  { destruct v. intros ?. simplify_eq. by destruct Hk. }
  destruct (resolve_mm _ _ _ Hmm Er) as [|Hlt]; [done|].
  destruct Hv as (Hs & _).
  pose proof (add_refines (v_reg v) (tk_mm t) (tk_pid t) (strscpy AC_MAX_COMM (tk_comm t))
    (negb (pr_jit_allowed p =? 0)) (notifier_ret e) Hs Hlt) as Ha.
  destruct (ac_add_prot_mm _ _ _ _ _ _) as [r reg]. destruct Ha as [_ Ha].
  intros ?. simplify_eq. by destruct Hk.
Qed.

(** The address spaces protected after a request. *)
Lemma add_outcome_protects st st' mm pid comm jit reg ret :
  settled st -> settled st' -> 1 < mm -> add_outcome st st' mm pid comm jit reg ret ->
  (forall m, 1 < m -> m <> mm -> ac_is_protected_mm st' m = ac_is_protected_mm st m) /\
  (ret = 0 -> exists x, has st' mm x /\ pi_jit_allowed x = jit).
Proof.
  intros S S' Hmm [(x & Hx & -> & Hh)|(Hno & [(_ & -> & ->)|(_ & -> & Hh)])].
  - split.
    + intros m Hm Hne. apply eq_true_iff_eq. rewrite !is_protected_has by done.
      setoid_rewrite Hh; [|done]. by destruct (decide (m = mm)).
    + intros _. exists (mk_prot_item (pi_pid x) jit (pi_comm x)). split; [|done].
      apply Hh; [done|]. by rewrite decide_True.
  - split; [done|]. unfold ENOSPC. lia.
  - split.
    + intros m Hm Hne. apply eq_true_iff_eq. rewrite !is_protected_has by done.
      setoid_rewrite Hh; [|done]. by destruct (decide (m = mm /\ reg = 0)) as [[]|].
    + intros ->. exists (mk_prot_item pid jit (strscpy AC_MAX_COMM comm)). split; [|done].
      apply Hh; [done|]. by rewrite decide_True.
Qed.

Lemma list_shows e err v x mm :
  root_call e -> dev_ok v -> 1 < mm -> has (v_reg v) mm x ->
  exists out errs, cmd_list e err v = (0, out, errs, v) /\ list_line x ∈ out.
Proof.
  intros Hr (Hs & _) Hmm Hx. pose proof Hr as (Hc & Hco & Hto).
  unfold cmd_list, with_device. rewrite root_open by done. cbn [Z.ltb Z.compare].
  assert (ac_ioctl e AC_IOCTL_LIST_PROTECTED no_args v None =
    (0, v, None, Some (RProts (ac_list_protected (v_reg v))))) as ->.
  { unfold ac_ioctl. rewrite Hc, Hco. unfold do_list, reply_with. cbn. by rewrite Hto. }
  destruct (queries_exact (v_reg v) Hs) as (_ & Hl & Hn).
  assert (Z.of_nat (length (ac_list_protected (v_reg v))) <= Z.of_nat AC_MAX_PROTS) as Hle.
  { rewrite Hn. unfold ac_protected_count. rewrite (set_count _ Hs).
    pose proof (count_if_le published (ac_prots (v_reg v))). rewrite (set_len _ Hs) in *.
    unfold AC_PROT_MAX, AC_MAX_PROTS in *. lia. }
  unfold clamp_prot_count. destruct (Z.ltb_spec (Z.of_nat AC_MAX_PROTS)
    (Z.of_nat (length (ac_list_protected (v_reg v))))); [lia|].
  eexists _, _. split; [done|]. apply elem_of_app. right. apply list_elem_of_fmap.
  exists x. split; [done|]. rewrite Nat2Z.id, take_ge by lia. apply Hl. eauto.
Qed.

Lemma add_request_protects e p v ret v' :
  root_call e -> mm_addresses -> dev_ok v -> add_request e p v = (ret, v') ->
  dev_ok v' /\
  (forall m, 1 < m -> ac_is_protected_mm (v_reg v') m = true ->
     ac_is_protected_mm (v_reg v) m = true \/
     exists t, ac_resolve (pr_pid p) (pr_ref_pid p) = Some t /\ tk_mm t = m) /\
  (forall m, 1 < m -> ac_is_protected_mm (v_reg v) m = true ->
     ac_is_protected_mm (v_reg v') m = true) /\
  (ret = 0 -> exists t x, ac_resolve (pr_pid p) (pr_ref_pid p) = Some t /\ 1 < tk_mm t /\
     has (v_reg v') (tk_mm t) x /\ pi_jit_allowed x = negb (pr_jit_allowed p =? 0)).
Proof.
  intros Hr Hmm Hv E. destruct (add_request_spec e p v ret v' Hr Hmm Hv E) as [Hv' Hspec].
  split; [done|]. destruct (ac_resolve _ _) as [t|] eqn:Er.
  2: { destruct Hspec as [-> ->]. unfold ESRCH. split_and!; [by left|done|lia]. }
  destruct (Z.eqb_spec (tk_mm t) NULL).
  { destruct Hspec as [-> ->]. unfold ESRCH. split_and!; [by left|done|lia]. }
  destruct Hspec as [Hlt Ho].
  pose proof (proj1 Hv) as S. pose proof (proj1 Hv') as S'.
  destruct (add_outcome_protects _ _ _ _ _ _ _ _ S S' Hlt Ho) as [Hother Hnew].
  split_and!.
  - intros m Hm Hp. destruct (decide (m = tk_mm t)) as [->|Hne]; [right; eauto|].
    left. by rewrite <- Hother.
  - intros m Hm Hp. destruct (decide (m = tk_mm t)) as [->|Hne]; [|by rewrite Hother].
    apply is_protected_has in Hp as [x Hx]; [|done]. apply is_protected_has; [done|].
    destruct Ho as [(y & _ & _ & Hh)|(Hno & _)]; [|by destruct (Hno x)].
    eexists. apply Hh; [done|]. by rewrite decide_True.
  - intros Hret. destruct (Hnew Hret) as (x & Hx & Hj). by exists t, x.
Qed.

(** A process the loop may act on. *)
Definition matching (now : Z -> proc_info) (comm : list Z) (pids : list Z) (pid : Z)
    (t : task) : Prop :=
  pid ∈ pids /\ is_Some (pid_identifies_as (now pid) comm) /\ ac_resolve pid 0 = Some t.

(** From [v] to [v'] protection was added, only to matching processes, and to
    those listed in [added]. *)
Record adds (now : Z -> proc_info) (comm : list Z) (pids : list Z) (v v' : dev_st)
    (added : list Z) : Prop := {
  adds_ok : dev_ok v';
  adds_keeps : forall m, 1 < m -> ac_is_protected_mm (v_reg v) m = true ->
    ac_is_protected_mm (v_reg v') m = true;
  adds_only : forall m, 1 < m -> ac_is_protected_mm (v_reg v') m = true ->
    ac_is_protected_mm (v_reg v) m = true \/
    exists pid t, matching now comm pids pid t /\ tk_mm t = m;
  adds_each : forall pid, pid ∈ added -> exists t, matching now comm pids pid t /\
    1 < tk_mm t /\ ac_is_protected_mm (v_reg v') (tk_mm t) = true;
}.

Lemma adds_refl now comm pids v : dev_ok v -> adds now comm pids v v [].
Proof. intros Hv. split; [done|done|by left|]. intros pid Hin. by apply elem_of_nil in Hin. Qed.

Lemma adds_trans now comm pids v1 v2 v3 a b :
  adds now comm pids v1 v2 a -> adds now comm pids v2 v3 b ->
  adds now comm pids v1 v3 (a ++ b).
Proof.
  intros [_ K1 O1 E1] [V K2 O2 E2]. split; [done|by auto| |].
  - intros m Hm Hp. destruct (O2 m Hm Hp) as [Hp2|?]; [by apply O1|by right].
  - intros pid [Hin|Hin]%elem_of_app; [|by apply E2].
    destruct (E1 pid Hin) as (t & ? & ? & ?). exists t. auto.
Qed.

Lemma adds_further now comm pid pids v v' a :
  adds now comm pids v v' a -> adds now comm (pid :: pids) v v' a.
Proof.
  assert (forall q t, matching now comm pids q t -> matching now comm (pid :: pids) q t)
    as Hf by (intros q t (? & ? & ?); split_and!; [by apply list_elem_of_further|done|done]).
  intros [V K O E]. split; [done|done| |].
  - intros m Hm Hp. destruct (O m Hm Hp) as [?|(q & t & ? & ?)]; [by left|right; eauto].
  - intros q Hin. destruct (E q Hin) as (t & ? & ?). eauto.
Qed.

Lemma adds_one now comm pid pids e jit cur c v ret v' :
  root_call e -> mm_addresses -> dev_ok v -> pid_identifies_as (now pid) comm = Some cur ->
  add_request e (mk_proc_id pid 0 jit c) v = (ret, v') ->
  adds now comm (pid :: pids) v v' (if ret =? 0 then [pid] else []).
Proof.
  intros Hr Hmm Hv Hid Ea.
  destruct (add_request_protects _ _ _ _ _ Hr Hmm Hv Ea) as (Hv1 & Hnew & Hmono & Hok).
  cbn [pr_pid pr_ref_pid pr_jit_allowed] in *.
  assert (forall t, ac_resolve pid 0 = Some t -> matching now comm (pid :: pids) pid t) as Hm.
  { intros t Ht. split_and!; [by apply list_elem_of_here|by rewrite Hid|done]. }
  split; [done|done| |].
  - intros m Hlt Hp. destruct (Hnew m Hlt Hp) as [?|(t & ? & ?)]; [by left|right; eauto].
  - intros q. destruct (Z.eqb_spec ret 0) as [->|]; [|by intros Hin%elem_of_nil].
    intros ->%list_elem_of_singleton. destruct (Hok eq_refl) as (t & x & Ht & Hlt & Hx & _).
    exists t. split_and!; [by apply Hm|done|]. apply is_protected_has; [done|]. by exists x.
Qed.

(** The loop over the processes found by name. *)
Lemma protect_all_spec env now err comm jit pids : forall count out errs v,
  (forall pid, root_call (env pid)) -> mm_addresses -> dev_ok v ->
  let '(code, out', _, v') := protect_all env now err comm jit pids count out errs v in
  exists added lines, code = 0 /\ adds now comm pids v v' added /\
    length lines = length added /\
    out' = out ++ lines
      ++ [fmt_d (count + Z.of_nat (length added)) ++ lit " process(es) protected"].
Proof.
  induction pids as [|pid pids IH]; intros count out errs v Hr Hmm Hv; cbn [protect_all].
  { exists [], []. cbn [length app]. rewrite Z.add_0_r.
    split_and!; [done|by apply adds_refl|done|done]. }
  destruct (pid_identifies_as (now pid) comm) as [cur|] eqn:Hid.
  2: { match goal with |- context [protect_all _ _ _ _ _ pids count out ?es v] =>
         specialize (IH count out es v Hr Hmm Hv) end.
       destruct (protect_all _ _ _ _ _ pids _ _ _ v) as [[[code out'] errs'] v'].
       destruct IH as (added & lines & ? & ? & ? & ?). exists added, lines.
       split_and!; [done|by apply adds_further|done|done]. }
  destruct (add_request (env pid) _ v) as [ret v1] eqn:Ea.
  pose proof (adds_one now comm pid pids _ _ _ _ _ _ _ (Hr pid) Hmm Hv Hid Ea) as Hone.
  pose proof (adds_ok _ _ _ _ _ _ Hone) as Hv1. cbn [pr_comm].
  destruct (Z.eqb_spec ret 0) as [->|Hne].
  - specialize (IH (count + 1) (out ++ [protected_line pid (strscpy AC_MAX_COMM cur)]) errs v1
      Hr Hmm Hv1).
    destruct (protect_all _ _ _ _ _ pids _ _ _ v1) as [[[code out'] errs'] v'].
    destruct IH as (added & lines & -> & Hrest & Hlen & ->).
    exists (pid :: added), (protected_line pid (strscpy AC_MAX_COMM cur) :: lines).
    split_and!; [done|by apply (adds_trans _ _ _ _ v1 _ [pid]); [|apply adds_further]| |].
    + cbn [length]. by rewrite Hlen.
    + rewrite <- !app_assoc. cbn [app length].
      by replace (count + Z.of_nat (S (length added)))
        with (count + 1 + Z.of_nat (length added)) by lia.
  - specialize (IH count out (errs ++ [ioctl_failed AC_IOCTL_ADD_PROC err]) v1 Hr Hmm Hv1).
    destruct (protect_all _ _ _ _ _ pids _ _ _ v1) as [[[code out'] errs'] v'].
    destruct IH as (added & lines & ? & Hrest & ? & ?). exists added, lines.
    split_and!; [done|by apply (adds_trans _ _ _ _ v1 _ []); [|apply adds_further]|done|done].
Qed.

(** ** Properties *)

(** protecting a process by its number works end to end.  When
    [protect --pid N] succeeds, the address space of the process N resolves to
    is in the module's registry with the JIT flag given, every other one is
    protected or not as before, and [list] shows it; and it succeeds whenever
    the process has an address space, the kernel accepts the notifier, and the
    address space is already registered or a slot is free. *)
Theorem protect_pid_listed e env err names scan now n (jit : bool) v code out errs v' :
  root_call e -> notifier_ret e <= 0 -> mm_addresses -> dev_ok v -> 0 < n <= INT_MAX ->
  cmd_protect e env err names scan now
    ([lit "--pid"; fmt_d n] ++ (if jit then [lit "--jit"] else [])) v
    = (code, out, errs, v') ->
  (code = 0 ->
   exists t x, ac_resolve n (-1) = Some t /\ 1 < tk_mm t /\
     has (v_reg v') (tk_mm t) x /\ pi_jit_allowed x = jit /\
     (forall m, 1 < m -> m <> tk_mm t ->
        ac_is_protected_mm (v_reg v') m = ac_is_protected_mm (v_reg v) m) /\
     exists lout lerrs, cmd_list e err v' = (0, lout, lerrs, v') /\ list_line x ∈ lout) /\
  (forall t, ac_resolve n (-1) = Some t -> tk_mm t <> NULL -> notifier_ret e = 0 ->
   (exists x, has (v_reg v) (tk_mm t) x) \/ ac_prot_count (v_reg v) < Z.of_nat AC_PROT_MAX ->
   code = 0).
Proof.
  intros Hr Hnr Hmm Hv Hn. unfold cmd_protect. rewrite parse_protect_pid by done.
  unfold with_device. rewrite root_open by done. cbn [Z.ltb Z.compare pa_comm pa_pid
    pa_ref_pid pa_jit]. destruct (add_request e _ v) as [ret v1] eqn:Ea.
  destruct (add_request_spec _ _ _ _ _ Hr Hmm Hv Ea) as [Hv1 Hspec].
  cbn [pr_pid pr_ref_pid pr_jit_allowed] in Hspec.
  replace (negb ((if jit then 1 else 0) =? 0)) with jit in Hspec by (by destruct jit).
  intros Hc. split.
  - intros ->. assert (0 <= ret /\ v' = v1) as [Hret ->].
    { by destruct (Z.ltb_spec ret 0); simplify_eq. }
    unfold ESRCH in *. destruct (ac_resolve n (-1)) as [t|]; [|lia].
    destruct (Z.eqb_spec (tk_mm t) NULL); [lia|]. destruct Hspec as [Hlt Ho].
    destruct (add_outcome_protects _ _ _ _ _ _ _ _ (proj1 Hv) (proj1 Hv1) Hlt Ho)
      as [Hother Hnew].
    assert (ret = 0) as ->.
    { destruct Ho as [(? & _ & -> & _)|[_ [(_ & -> & _)|(_ & -> & _)]]];
        unfold ENOSPC in *; lia. }
    destruct (Hnew eq_refl) as (x & Hx & Hj). exists t, x. split_and!; try done.
    by eapply list_shows.
  - intros t Ht Hnn Hreg Hroom. rewrite Ht in Hspec.
    destruct (Z.eqb_spec (tk_mm t) NULL); [done|]. destruct Hspec as [_ Ho].
    assert (ret = 0) as ->; [|by destruct (0 <? 0) eqn:E; simplify_eq].
    destruct Ho as [(? & _ & -> & _)|[Hno [(Hfull & _)|(_ & -> & _)]]]; [done| |done].
    destruct Hroom as [[x Hx]|]; [by destruct (Hno x)|lia].
Qed.

(** Protecting by name touches only processes that match.  Whatever
    happens between the search and the requests, [protect --comm NAME] leaves
    every protected address space protected and adds only those of processes
    that it found and that identify as NAME again just before the request; each
    process it reports is protected, and the number it prints is how many. *)
Theorem protect_comm_only_matching e env err names scan now comm (jit : bool) v :
  root_call e -> (forall pid, root_call (env pid)) -> mm_addresses -> dev_ok v ->
  pid_of_comm names scan comm <> [] ->
  let argv := [lit "--comm"; comm] ++ (if jit then [lit "--jit"] else []) in
  let '(code, out, _, v') := cmd_protect e env err names scan now argv v in
  exists added lines, code = 0 /\
    adds now comm (take COMM_MAX (pid_of_comm names scan comm)) v v' added /\
    length lines = length added /\
    out = lines ++ [fmt_d (Z.of_nat (length added)) ++ lit " process(es) protected"].
Proof.
  intros Hr Henv Hmm Hv Hne. cbn zeta.
  assert (parse_protect ([lit "--comm"; comm] ++ (if jit then [lit "--jit"] else [])) =
    inr (mk_protect_args (-1) (-1) (if jit then 1 else 0) (Some comm))) as Hp
    by (by destruct jit).
  unfold cmd_protect. rewrite Hp. unfold with_device. rewrite root_open by done.
  cbn [Z.ltb Z.compare pa_comm pa_jit].
  destruct (pid_of_comm names scan comm) as [|pid pids] eqn:E; [done|].
  match goal with |- context [protect_all ?a ?b ?c ?d ?f ?g ?h ?i ?j v] =>
    pose proof (protect_all_spec a b c d f g h i j v Henv Hmm Hv) as Hs;
    destruct (protect_all a b c d f g h i j v) as [[[code out] errs'] v'] end.
  destruct Hs as (added & lines & ? & ? & ? & ?). by exists added, lines.
Qed.

(** [modules] finds exactly the hidden modules.  With the module list
    read through the device and /proc/modules made of well-formed lines, the
    exit status is 2 when one of the first [AC_MAX_MODS] sane modules of the
    kernel's list has a name that /proc/modules does not show, and 0 when there
    is none. *)
Theorem modules_command_exact e env err ls v :
  root_call e -> alloc_fd e = true -> alloc_array e = true ->
  (forall i, root_call (env i)) -> Forall Monitor.Monitor.mod_line_ok ls ->
  (length ls < Monitor.Monitor.AC_MAX_PROC_MODS)%nat ->
  let mods := mod_entry <$> take AC_MAX_MODS (filter (fun m => ac_module_sane m) (walk e)) in
  cmd_modules e env (Some (concat (Monitor.Monitor.mod_line <$> ls))) err v =
  if bool_decide (Forall (fun m => mi_name m ∈ (fst <$> ls)) mods) then 0 else 2.
Proof.
  intros Hr Hfd Harr Henv Hls Hcap. cbn zeta. unfold cmd_modules, crosscheck_device.
  rewrite root_open by done. cbn [Z.ltb Z.compare]. pose proof Hr as (Hc & Hco & Hto).
  set (ms := take AC_MAX_MODS (filter (fun m => ac_module_sane m) (walk e))).
  destruct (ac_ioctl e AC_IOCTL_MODS_BEGIN no_args v None) as [[[ret v'] pd'] rep] eqn:E.
  assert (ret = 0 /\ rep = Some (RModCount (length ms))) as [-> ->].
  { assert (ac_ioctl e AC_IOCTL_MODS_BEGIN no_args v None = do_mods_begin e v None) as Hd
      by (unfold ac_ioctl; by rewrite Hc, Hco).
    rewrite Hd in E. unfold do_mods_begin in E.
    destruct (ac_get_fd_state None (alloc_fd e)) as [st|] eqn:Eg;
      [|by rewrite Hfd in Eg].
    pose proof (mods_exact (walk e) (alloc_array e) st (get_fd_ok None _ _ I Eg)) as Hb.
    destruct (ac_build_mod_snapshot _ _ _) as [r st']. rewrite Harr in Hb.
    destruct Hb as ((_ & _ & Hn & _) & _ & -> & Hm). cbn [Z.eqb negb] in E.
    unfold reply_with in E. rewrite Hto in E. simplify_eq. split; [done|].
    rewrite Hm in Hn. cbn [from_option id] in Hn. rewrite length_fmap in Hn.
    by rewrite <- Hn. }
  destruct (mods_roundtrip e no_args v None v' pd' (length ms) I Hc Hco E) as [_ Hget].
  rewrite <- (length_fmap mod_entry ms).
  rewrite (Monitor.Monitor.hidden_count_exact (mod_entry <$> ms) ls); [| |done| |].
  - cbn [fst]. destruct (Z.ltb_spec (Z.of_nat (count_if (fun m =>
      bool_decide (mi_name m ∉ (fst <$> ls))) (mod_entry <$> ms))) 0); [lia|].
    pose proof (count_if_none (fun m => bool_decide (mi_name m ∉ (fst <$> ls)))
      (mod_entry <$> ms)) as Hz.
    assert (Forall (fun m => bool_decide (mi_name m ∉ (fst <$> ls)) = false)
      (mod_entry <$> ms) <-> Forall (fun m => mi_name m ∈ (fst <$> ls)) (mod_entry <$> ms))
      as Hiff.
    { split; (intros Hf; eapply Forall_impl; [exact Hf|]); intros m;
        rewrite bool_decide_eq_false; [|tauto].
      intros Hm. by destruct (decide (mi_name m ∈ (fst <$> ls))). }
    case_bool_decide as Hall; destruct (Z.eqb_spec (Z.of_nat (count_if (fun m =>
      bool_decide (mi_name m ∉ (fst <$> ls))) (mod_entry <$> ms))) 0); try done; exfalso.
    + apply Hiff, Hz in Hall. lia.
    + apply Hall, Hiff, Hz. lia.
  - done.
  - rewrite length_fmap. unfold ms. rewrite length_take. lia.
  - intros k Hk. rewrite length_fmap in Hk. unfold mods_get.
    destruct (Henv (Z.of_nat k)) as (Hc' & Hco' & Hto').
    rewrite (Hget (env (Z.of_nat k)) (Z.of_nat k)) by (done || lia).
    fold ms. rewrite Nat2Z.id, list_lookup_fmap. by destruct (ms !! k).
Qed.
End requests.
End Cli.

(** A game, a look-alike, and the commands that act on them. *)
Module CliDemo.
Import Cli Ring.Ring Ioctl.Ioctl.IoctlDemo.

#[local] Existing Instances demo_tasks demo_mods demo_kernel.

Definition proc (exe comm : list Z) : proc_info := mk_proc_info (Some exe) (Some comm).

(** Process 5 is the game; 7 only shares its truncated comm. *)
Definition shown (pid : Z) : proc_info :=
  if pid =? 5 then proc (lit "/opt/game/bin/game") (lit "game" ++ [10])
  else proc (lit "/tmp/other") (lit "game" ++ [10]).

Definition empty_device : dev_st := mk_dev reg_init ring_init (sc_init 4 0) 0 0 0 0.

Lemma empty_device_ok : dev_ok empty_device.
Proof.
  split; [apply settled_init|]. split; [apply ring_init_wf|].
  cbn. unfold AC_LOCK_MAX. lia.
Qed.

Definition no_names : list (list Z) := [].

Lemma protect_pid_listed_witness :
  exists out errs v',
    cmd_protect (root true) (fun _ => root true) [] no_names shown shown
      ([lit "--pid"; fmt_d 5] ++ [lit "--jit"]) empty_device = (0, out, errs, v') /\
    exists t x, ac_resolve 5 (-1) = Some t /\ 1 < tk_mm t /\
      has (v_reg v') (tk_mm t) x /\ pi_jit_allowed x = true /\
      (forall m, 1 < m -> m <> tk_mm t ->
         ac_is_protected_mm (v_reg v') m = ac_is_protected_mm (v_reg empty_device) m) /\
      exists lout lerrs, cmd_list (root true) [] v' = (0, lout, lerrs, v') /\
        list_line x ∈ lout.
Proof.
  destruct (cmd_protect (root true) (fun _ => root true) [] no_names shown shown
    ([lit "--pid"; fmt_d 5] ++ [lit "--jit"]) empty_device) as [[[code out] errs] v'] eqn:E.
  assert (code = 0) as -> by (vm_compute in E; congruence).
  exists out, errs, v'. split; [reflexivity|].
  apply (protect_pid_listed (root true) (fun _ => root true) [] no_names shown shown 5 true
    empty_device 0 out errs v').
  - split; [reflexivity|split; reflexivity].
  - discriminate.
  - apply mms_ok.
  - apply empty_device_ok.
  - unfold INT_MAX. lia.
  - exact E.
  - reflexivity.
Defined.

Lemma protect_comm_only_matching_witness :
  let argv := [lit "--comm"; lit "game"] ++ [] in
  let '(code, out, _, v') :=
    cmd_protect (root true) (fun _ => root true) [] [lit "5"; lit "7"; lit "self"]
      shown shown argv empty_device in
  exists added lines, code = 0 /\
    adds shown (lit "game")
      (take COMM_MAX (pid_of_comm [lit "5"; lit "7"; lit "self"] shown (lit "game")))
      empty_device v' added /\
    length lines = length added /\
    out = lines ++ [fmt_d (Z.of_nat (length added)) ++ lit " process(es) protected"].
Proof.
  apply (protect_comm_only_matching (root true) (fun _ => root true) []
    [lit "5"; lit "7"; lit "self"] shown shown (lit "game") false empty_device).
  - split; [reflexivity|split; reflexivity].
  - intros _. split; [reflexivity|split; reflexivity].
  - apply mms_ok.
  - apply empty_device_ok.
  - vm_compute. discriminate.
Defined.

(** The look-alike is not searched for: its executable has another name. *)
Example look_alike_not_found :
  pid_of_comm [lit "5"; lit "7"; lit "self"] shown (lit "game") = [5].
Proof. vm_compute. reflexivity. Qed.

Lemma modules_command_exact_witness :
  cmd_modules (root true) (fun _ => root true)
    (Some (concat (Monitor.Monitor.mod_line <$> [(lit "ext4", lit "16384 1 - Live")])))
    [] empty_device = 2.
Proof.
  pose proof (modules_command_exact (root true) (fun _ => root true) []
    [(lit "ext4", lit "16384 1 - Live")] empty_device) as Hw. cbn zeta in Hw.
  rewrite Hw; [vm_compute; reflexivity|..].
  - split; [reflexivity|split; reflexivity].
  - reflexivity.
  - reflexivity.
  - intros _. split; [reflexivity|split; reflexivity].
  - repeat constructor; cbn; try lia; discriminate.
  - unfold Monitor.Monitor.AC_MAX_PROC_MODS. cbn. lia.
Defined.

(** [protect --pid] reports the process with an empty name: the module does not
    write the name back. *)
Example protect_pid_prints_no_name :
  snd (fst (fst (cmd_protect (root true) (fun _ => root true) [] no_names shown shown
    [lit "--pid"; lit "5"] empty_device))) = [lit "protected pid 5 ()"].
Proof. vm_compute. reflexivity. Qed.

End CliDemo.
