(* ===== verification/ScanCmd.v ===== *)
(** The scan command (src/anticheat_daemon.c, [cmd_scan]): the report on the
    mappings of a process, the saving of baselines and the check against them,
    and the command-line forms of the render hook and environment checks. *)

From S2P Require Import Prelude CText CScan Abi Sha256 DLog Modules SyscallTable.
From S2P Require Import Registry Handlers Scan Ioctl Baseline Runs Environ Render Cli.
Import DLog.DLog Sha256.Sha Baseline.Baseline Runs.Runs Environ.Environ.
Import Modules.Mods SyscallTable.Table Handlers.Handlers Scan.Scan Ioctl.Ioctl Cli.Cli.

#[local] Open Scope Z_scope.

Module ScanCmd.

(** ** Arguments *)

Record scan_args := mk_scan_args {
  sa_pid : Z;
  sa_ref_pid : Z;
  sa_hash : bool;
  sa_save : bool;
  sa_check : bool;
  sa_hooks : bool;
  sa_preload : bool;
  sa_vklayers : bool;
  sa_implicit : bool;
}.

Definition no_scan_args : scan_args :=
  mk_scan_args (-1) (-1) false false false false false false false.

(** The options without a value. *)
Definition scan_flag (w : list Z) (a : scan_args) : scan_args :=
  let '(mk_scan_args p r h s c k l v i) := a in
  if streq w (lit "--hash") then mk_scan_args p r true s c k l v i
  else if streq w (lit "--save") then mk_scan_args p r h true c k l v i
  else if streq w (lit "--check") then mk_scan_args p r h s true k l v i
  else if streq w (lit "--check-hooks") then mk_scan_args p r h s c true l v i
  else if streq w (lit "--check-preload") then mk_scan_args p r h s c k true v i
  else if streq w (lit "--check-vklayers") then mk_scan_args p r h s c k l true i
  else if streq w (lit "--check-implicit-layers") then mk_scan_args p r h s c k l v true
  else a.

Fixpoint scan_arg_loop (argv : list (list Z)) (a : scan_args) : parsed scan_args :=
  match argv with
  | [] => inr a
  | w :: rest =>
      if streq w (lit "--pid") then
        match rest with
        | [] => inl (requires_value w)
        | x :: rest' =>
            match ac_parse_pid x w with
            | inl m => inl m
            | inr n =>
                scan_arg_loop rest'
                  (mk_scan_args n (sa_ref_pid a) (sa_hash a) (sa_save a) (sa_check a)
                     (sa_hooks a) (sa_preload a) (sa_vklayers a) (sa_implicit a))
            end
        end
      else if streq w (lit "--ns-of") then
        match rest with
        | [] => inl (requires_value w)
        | x :: rest' =>
            match ac_parse_pid x w with
            | inl m => inl m
            | inr n =>
                scan_arg_loop rest'
                  (mk_scan_args (sa_pid a) n (sa_hash a) (sa_save a) (sa_check a)
                     (sa_hooks a) (sa_preload a) (sa_vklayers a) (sa_implicit a))
            end
        end
      else scan_arg_loop rest (scan_flag w a)
  end.

Definition parse_scan (argv : list (list Z)) : parsed scan_args :=
  match scan_arg_loop argv no_scan_args with
  | inl m => inl m
  | inr a =>
      if sa_pid a <? 0 then
        inl (lit "usage: anticheat scan --pid N [--ns-of REFPID] [--hash [--save|--check]] [--check-hooks] [--check-preload] [--check-vklayers] [--check-implicit-layers]")
      else inr a
  end.

(** ** The environment checks, as the command prints them *)

(** The return value and the lines. *)
Definition check_ld_preload (pid : Z) (environ : option (list Z)) (err : list Z)
    : Z * list (list Z) :=
  match ac_read_ld_preload environ 512 with
  | None =>
      (-1, [concat [lit "  LD_PRELOAD check: could not read /proc/"; fmt_d pid;
              lit "/environ ("; err; lit ")"]])
  | Some None => (0, [lit "  LD_PRELOAD check: not set"])
  | Some (Some val) =>
      (1, [lit "  LD_PRELOAD check: " ++ val;
           lit "    (informational only -- also used by legitimate overlay/compat";
           lit "     tools like MangoHud, gamemode, gamescope; not a verdict)"])
  end.

Definition check_vk_layer_env (pid : Z) (environ : option (list Z)) (err : list Z)
    : Z * list (list Z) :=
  let '(rc, vars) := ac_read_environ_vars environ (query <$> AC_VK_LAYER_ENV_VARS) in
  if rc <? 0 then
    (-1, [concat [lit "  Vulkan-layer check: could not fully read /proc/"; fmt_d pid;
            lit "/environ ("; err; lit ")"]])
  else
    match filter (fun q => q_found q = true) vars with
    | [] => (0, [lit "  Vulkan-layer check: no layer-activation environment variables set"])
    | found =>
        (1, ((fun q => concat [lit "  Vulkan-layer check: "; q_name q; lit "="; q_value q])
               <$> found)
            ++ [lit "    (informational only -- also used by legitimate overlay tools";
                lit "     like MangoHud; not a verdict. An implicit layer manifest";
                lit "     dropped into the loader's default search directories needs";
                lit "     no environment variable and is not detected by this check --";
                lit "     see --check-implicit-layers for that)"])
    end.

Definition or_else (s alt : list Z) : list Z := match s with [] => alt | _ => s end.

Definition check_implicit_layers (layers : list ac_implicit_layer)
    : Z * list (list Z) :=
  match layers with
  | [] => (0, [lit "  Implicit Vulkan-layer check: none active for this process"])
  | _ =>
      (if existsb (fun l => negb (ac_layer_name_known (ly_name l))) layers then 1 else 0,
       ((fun l => concat [lit "  Implicit Vulkan-layer: ";
           or_else (ly_name l) (lit "(unnamed)"); lit " -> ";
           or_else (ly_library_path l) (lit "(no library_path)");
           if ac_layer_name_known (ly_name l) then []
           else lit "  [not in the known-overlay allowlist]"]) <$> layers)
       ++ [lit "    (informational only -- also used by legitimate overlay tools";
           lit "     like MangoHud; not a verdict. Name-based allowlist matching";
           lit "     can be spoofed by a layer that names itself similarly)"])
  end.

Definition print_render_hook_result (pid : Z) (api : Render.Render.render_api)
    (status : Z) (libpath : list Z) : Z * list (list Z) :=
  let tag := lit "  render-hook check (" ++ Render.Render.label api ++ lit "): " in
  let sym := Render.Render.symbol api in
  if status =? -2 then
    (0, [tag ++ lit "not loaded in this process, skipping"])
  else if status =? -1 then
    (0, [concat [tag; lit "could not verify "; sym; lit " in ";
           or_else libpath (lit "(not located)"); lit ", skipping"]])
  else if status =? 1 then
    (1, [concat [lit "  [!] render hook ("; Render.Render.label api; lit "): "; sym;
           lit " in "; libpath; lit " (target pid "; fmt_d pid; lit ") differs"];
         lit "      from a freshly-loaded reference copy of the same file --";
         lit "      possible ESP/overlay/render hijack"])
  else (0, [concat [tag; sym; lit " clean ("; libpath; lit ")"]]).

Definition check_render_hooks (pid : Z) (w : Render.Render.render_view)
    : Z * list (list Z) :=
  let results :=
    zip_with (fun api '(st, path) => print_render_hook_result pid api st path)
      Render.Render.AC_RENDER_APIS
      (Render.Render.render_hook_statuses_for (Render.Render.rw_files w)
         (Render.Render.rw_snap w) (Render.Render.rw_in_load w)) in
  (if existsb (fun r => negb (fst r =? 0)) results then 1 else 0,
   concat (snd <$> results)).

(** ** The baseline directory *)

Definition AC_BASELINE_DIR : list Z := lit "/var/lib/anticheat/baselines".

Definition ac_baseline_dir (env : option (list Z)) : list Z :=
  match env with Some (c :: d) => c :: d | _ => AC_BASELINE_DIR end.

(** Where the last '/' is. *)
Fixpoint last_slash (i : nat) (s : list Z) : option nat :=
  match s with
  | [] => None
  | c :: s' =>
      match last_slash (S i) s' with
      | Some j => Some j
      | None => if c =? 47 then Some i else None
      end
  end.

(** The directories made, in order. *)
Definition ac_mkdir_baselines (d : list Z) : list (list Z) :=
  match last_slash 0 d with
  | Some (S i) => [strscpy Baseline.Baseline.PATH_MAX (take (S i) d); d]
  | _ => [d]
  end.

(** ** One process *)

(** What the scan gets from outside the device. *)
Record scan_sys := mk_scan_sys {
  sy_verbose : bool;
  sy_dir : option (list Z);                 (** AC_BASELINE_DIR in the environment *)
  sy_open : Z;                              (** open of /proc/<pid>/mem *)
  sy_pread : Z -> Z -> option (list Z);
  sy_fopen : Z -> bool;                     (** [fopen] of a checked run's records works *)
  sy_save : Z -> save_env;                  (** the save of the mapping of an index *)
  sy_errno : Z -> list Z;                   (** the text of [errno] after it *)
  sy_render : Render.Render.render_view;
  sy_environ : option (list Z);
  sy_layers : list ac_implicit_layer;
}.

(** Standard output and error, the mappings to check, how many were fetched,
    the files and the directories made. *)
Record scan_out := mk_scan_out {
  so_out : list (list Z);
  so_err : list (list Z);
  so_vmas : list ac_bl_vma;
  so_scanned : Z;
  so_files : files;
  so_dirs : list (list Z);
}.

Definition range (a b : Z) : list Z := concat [lit "["; fmt_sx a; lit "-"; fmt_sx b; lit "]"].

Definition has (flags bit : Z) : bool := negb (Z.land flags bit =? 0).

(** The line on one mapping. *)
Definition vma_line (verbose : bool) (vi : ac_vma_info) : list (list Z) :=
  let shown := or_else (vi_path vi) (lit "(anonymous)") in
  let r := range (vi_start vi) (vi_end vi) in
  if has (vi_flags vi) AC_VM_EXEC && has (vi_flags vi) AC_VM_WRITE then
    [concat [lit "  [!] RWX "; r; lit " "; shown]]
  else if has (vi_flags vi) AC_VM_EXEC && negb (vi_is_file vi) then
    [lit "  [?] anon-exec " ++ r]
  else if has (vi_flags vi) AC_VM_EXEC && verbose then
    [concat [lit "  exec "; r; lit " "; shown]]
  else [].

Section scanning.
Context (a : scan_args) (sy : scan_sys) (mem_fd : Z).

Definition hash_size (vi : ac_vma_info) : Z :=
  let size := u64 (vi_end vi - vi_start vi) in
  if AC_HASH_CAP <? size then AC_HASH_CAP else size.

Definition baseline_file (path : list Z) : list Z :=
  baseline_path_for (ac_baseline_dir (sy_dir sy)) path.

(** The saving of one digest: output, errors, files, directories. *)
Definition save_vma (v : Z) (vi : ac_vma_info) (hex : list Z) (fs : files)
    : list (list Z) * list (list Z) * files * list (list Z) :=
  let blpath := baseline_file (vi_path vi) in
  let '(rc, _, fs', _) :=
    baseline_save_record (sy_save sy v) fs blpath (vi_inode vi) (vi_offset vi)
      (hash_size vi) hex in
  let dirs := ac_mkdir_baselines (ac_baseline_dir (sy_dir sy)) in
  if rc =? AC_BASELINE_SAVE_FULL then
    ([], [concat [lit "cannot save baseline for "; vi_path vi; lit ": "; blpath;
            lit " already holds the maximum ";
            fmt_d (Z.of_nat AC_BASELINE_MAX_RECORDS); lit " segment records"]],
     fs', dirs)
  else if rc <? 0 then
    ([], [concat [lit "cannot write baseline "; blpath; lit ": "; sy_errno sy v]],
     fs', dirs)
  else ([lit "    baseline saved: " ++ blpath], [], fs', dirs).

(** The [do_hash] part of the loop. *)
Definition hash_vma (v : Z) (vi : ac_vma_info) (fs : files)
    : list (list Z) * list (list Z) * files * list (list Z) :=
  let failed := ([lit "  hash failed for " ++ vi_path vi], [], fs, []) in
  if mem_fd <? 0 then failed
  else
    match hash_proc_mem (sy_pread sy) (vi_start vi) (hash_size vi) with
    | None => failed
    | Some hex =>
        let line := concat [lit "  "; vi_path vi; lit " ["; fmt_sx (vi_start vi);
          lit ".."; fmt_sx (u64 (vi_start vi + hash_size vi)); lit "] (offset ";
          fmt_sx (vi_offset vi); lit ") "; hex] in
        if sa_save a then
          let '(out, err, fs', dirs) := save_vma v vi hex fs in
          (line :: out, err, fs', dirs)
        else ([line], [], fs, [])
    end.

(** One turn of the loop over the mappings. *)
Definition scan_one (v : Z) (vi : ac_vma_info) (st : scan_out) : scan_out :=
  let out := so_out st ++ vma_line (sy_verbose sy) vi in
  let vmas := if sa_hash a && sa_check a && exec_file vi
              then so_vmas st ++ [bl_vma_of vi] else so_vmas st in
  let scanned := so_scanned st + 1 in
  if sa_hash a && exec_file vi then
    let '(o, e, fs, dirs) := hash_vma v vi (so_files st) in
    mk_scan_out (out ++ o) (so_err st ++ e) vmas scanned fs (so_dirs st ++ dirs)
  else mk_scan_out out (so_err st) vmas scanned (so_files st) (so_dirs st).

Fixpoint scan_vmas (get : Z -> option ac_vma_info) (n : nat) (v : Z) (st : scan_out)
    : scan_out :=
  match n with
  | O => st
  | S n' =>
      match get v with
      | None => st
      | Some vi => scan_vmas get n' (v + 1) (scan_one v vi st)
      end
  end.
End scanning.

(** The line on a run's verdict; [cut] when it ends a snapshot that is not
    complete. *)
Definition verdict_line (first : ac_bl_vma) (cut : bool) (res : ac_bl_run_result)
    : list Z :=
  let path := bv_path first in
  let at_ off := concat [lit "  "; path; lit " (offset "; fmt_sx off; lit "): "] in
  let v := rr_verdict res in
  if v =? AC_BL_UNBASELINED then
    at_ (bv_offset first) ++ lit "no baseline (run with --save first)"
  else if v =? AC_BL_LEGACY then
    concat [lit "  "; path; lit ": legacy-format baseline -- re-run --save to regenerate"]
  else if v =? AC_BL_OK then at_ (bv_offset first) ++ lit "ok: matches baseline"
  else if v =? AC_BL_HASH_FAILED then
    at_ (rr_off res) ++ lit "hash failed -- cannot check against baseline"
  else if v =? AC_BL_PARTIAL then
    if cut then
      concat [lit "  "; path;
        lit ": VMA snapshot incomplete -- cannot check against baseline"]
    else
      concat [lit "  [ALERT] "; path; lit ": baselined range "; fmt_sx (rr_off res);
        lit ".."; fmt_sx (u64 (rr_off res + rr_size res));
        lit " is only partly mapped executable -- cannot verify (split and unmapped/remapped since --save? if rebuilt in place, re-run --save)"]
  else
    concat [lit "  [ALERT] "; path; lit " (offset "; fmt_sx (rr_off res);
      lit "): memory content differs from baseline (possible runtime patching)";
      if rr_len_changed res
      then lit "; mapping size also changed since --save (rebuilt in place? re-run --save)"
      else []].

(** The lines of the [--check] part. *)
Definition check_lines (sy : scan_sys) (mem_fd : Z) (complete : bool) (fs : files)
    (vmas : list ac_bl_vma) : list (list Z) :=
  let '(runs, _) :=
    check_runs (sy_pread sy) (sy_open sy) (sy_fopen sy) (length vmas) fs
      (ac_baseline_dir (sy_dir sy)) vmas (if mem_fd <? 0 then -2 else mem_fd) in
  (fun '(first, at_end, res) => verdict_line first (negb complete && at_end) res) <$> runs.

(** The first lines of the report. *)
Definition scan_header (a : scan_args) (b : ac_scan_begin) (n : Z) : list (list Z) :=
  [concat [lit "scan of pid "; fmt_d (sa_pid a); lit ": "; fmt_u n; lit " VMA(s), ";
     fmt_u (sb_exec_count b); lit " executable, "; fmt_u (sb_rwx_count b);
     lit " RWX, "; fmt_u (sb_anon_exec_count b); lit " anon-exec"]]
  ++ (if sb_anon_exec_count b =? 0 then []
      else [lit "  (anon-exec = executable with no backing file; vdso/vvar are";
            lit "   expected here -- treat a *growing* count across repeated";
            lit "   scans as the signal, not the raw number)"])
  ++ (if sb_truncated b then
        [concat [lit "  (VMA snapshot truncated at "; fmt_u (Z.of_nat AC_MAX_VMAS);
           lit " entries)"]]
      else []).

(** Everything after SCAN_BEGIN's reply [b]. *)
Definition scan_report (a : scan_args) (sy : scan_sys) (b : ac_scan_begin)
    (get : Z -> option ac_vma_info) (fs : files) : scan_out :=
  let '(n, warn) := clamp_vma_count (sb_n_vmas b) in
  let host_pid := sb_resolved_pid b in
  let mem_fd := if sa_hash a then sy_open sy else -1 in
  let errs := (m_text <$> warn) ++
    (if sa_hash a && (mem_fd <? 0) then
       [concat [lit "cannot open /proc/"; fmt_d host_pid; lit "/mem: "; sy_errno sy (-1)]]
     else []) in
  let st := scan_vmas a sy mem_fd get (Z.to_nat n) 0
              (mk_scan_out (scan_header a b n) errs [] 0 fs []) in
  let complete := negb (sb_truncated b) && (so_scanned st =? n) in
  let checks := if sa_hash a && sa_check a
                then check_lines sy mem_fd complete (so_files st) (so_vmas st) else [] in
  let last :=
    (if sa_hooks a then snd (check_render_hooks host_pid (sy_render sy)) else [])
    ++ (if sa_preload a
        then snd (check_ld_preload host_pid (sy_environ sy) (sy_errno sy (-1))) else [])
    ++ (if sa_vklayers a
        then snd (check_vk_layer_env host_pid (sy_environ sy) (sy_errno sy (-1))) else [])
    ++ (if sa_implicit a then snd (check_implicit_layers (sy_layers sy)) else []) in
  mk_scan_out (so_out st ++ checks ++ last) (so_err st) (so_vmas st) (so_scanned st)
    (so_files st) (so_dirs st).

(** ** The command *)

Section command.
Context `{!TaskEnv, !ModuleEnv, !KernelEnv}.

Definition scan_get (env : Z -> call_env) (v : dev_st) (pd : option ac_fd_state)
    (i : Z) : option ac_vma_info :=
  match ac_ioctl (env i) AC_IOCTL_SCAN_GET (mk_in None None (Some i) None) v pd with
  | (_, _, _, Some (RVma _ vi)) => Some vi
  | _ => None
  end.

(** [env i] is the kernel at the [i]-th SCAN_GET, [env (-1)] at SCAN_END.  Exit
    status, output, errors, the module's state, the files. *)
Definition cmd_scan (e : call_env) (env : Z -> call_env) (err : list Z)
    (sy : scan_sys) (argv : list (list Z)) (v : dev_st) (fs : files)
    : run * files :=
  match parse_scan argv with
  | inl m => (die m v, fs)
  | inr a =>
      if fst (ac_open e None) <? 0 then (with_device e err v (0, [], [], v), fs)
      else
        let req := mk_scan_begin (sa_pid a) (sa_ref_pid a) 1 0 0 0 0 0 false in
        match ac_ioctl e AC_IOCTL_SCAN_BEGIN (mk_in None (Some req) None None) v None with
        | (_, v1, pd, Some (RScan b)) =>
            let st := scan_report a sy b (scan_get env v1 pd) fs in
            let '(_, v2, _, _) := ac_ioctl (env (-1)) AC_IOCTL_SCAN_END no_args v1 pd in
            ((0, so_out st, so_err st, v2), so_files st)
        | (_, v1, _, _) => ((1, [], [ioctl_failed AC_IOCTL_SCAN_BEGIN err], v1), fs)
        end
  end.
End command.

(** ** Runs of intact mappings *)

(** A mapping of the lower half whose file range does not wrap. *)
Definition vma_ok (v : ac_bl_vma) : Prop :=
  0 <= bv_start v < bv_end v /\ bv_end v < 9223372036854775808 /\
  0 <= bv_offset v /\ bv_offset v + (bv_end v - bv_start v) < 2 ^ 64 /\
  0 <= bv_inode v < 2 ^ 64.

(** How much of a mapping is hashed. *)
Definition hashed (v : ac_bl_vma) : Z := Z.min (bv_end v - bv_start v) AC_HASH_CAP.

Lemma hashed_bounds v : vma_ok v -> 0 < hashed v <= bv_end v - bv_start v.
Proof. intros (Hs & _). unfold hashed, AC_HASH_CAP. lia. Qed.

Lemma off_end_ok v : vma_ok v -> off_end v = bv_offset v + (bv_end v - bv_start v).
Proof.
  intros (Hs & He & Ho & Hoe & _). unfold off_end.
  rewrite !u64_id by (rewrite ?u64_id; lia). done.
Qed.

(** [v] lies in the run of [first]: same file, same distance between address
    and file offset. *)
Definition aligned (first v : ac_bl_vma) : Prop :=
  bv_inode v = bv_inode first /\ bv_path v = bv_path first /\
  bv_start v - bv_offset v = bv_start first - bv_offset first.

(** The mappings of a run tile its file range. *)
Lemma run_tiles first l : forall prev,
  Forall vma_ok l -> vma_ok prev -> aligned first prev ->
  let m := take (run_ext first prev l) l in
  let last := default prev (last m) in
  vma_ok last /\ aligned first last /\ off_end prev <= off_end last /\
  (forall v, v ∈ m -> aligned first v /\ off_end prev <= bv_offset v /\
     off_end v <= off_end last) /\
  (forall x, off_end prev <= x < off_end last ->
     exists v, v ∈ m /\ bv_offset v <= x < off_end v).
Proof.
  induction l as [|v l IH]; intros prev Hl Hp Ha; cbn zeta.
  { cbn [run_ext take last default]. split_and!; try done; try apply Ha.
    - intros v Hv. by apply elem_of_nil in Hv.
    - lia. }
  apply Forall_cons in Hl as [Hv Hl]. cbn [run_ext].
  destruct (extends first prev v) eqn:Hx.
  2: { cbn [take last default]. split_and!; try done; try apply Ha; [|lia].
       intros w Hw. by apply elem_of_nil in Hw. }
  unfold extends in Hx. boolp. destruct Hx as [[[Hi Hpa%streq_true] Hst] Hof].
  assert (aligned first v) as Hav.
  { split_and!; [done|done|]. destruct Ha as (_ & _ & Hd).
    pose proof (off_end_ok prev Hp). lia. }
  destruct (IH v Hl Hv Hav) as (Hok & Hal & Hle & Hin & Hcov). cbn zeta in *.
  cbn [take]. rewrite default_last_cons. pose proof (off_end_ok v Hv) as Hev.
  destruct Hv as (Hvs & _). split_and!; [done|apply Hal..|lia| |].
  - intros w [->|Hw]%elem_of_cons; [split; [done|lia]|].
    destruct (Hin w Hw) as (? & ? & ?). split; [done|lia].
  - intros x Hxr. destruct (Z.lt_ge_cases x (off_end v)).
    + exists v. split; [by left|lia].
    + destruct (Hcov x) as (w & Hw & ?); [lia|]. exists w. split; [by right|done].
Qed.

(** The same with the first mapping included. *)
Lemma run_tiles_all first l :
  Forall vma_ok (first :: l) ->
  let m := first :: take (run_ext first first l) l in
  let last := default first (last (take (run_ext first first l) l)) in
  vma_ok last /\ aligned first last /\
  (forall v, v ∈ m -> aligned first v /\ bv_offset first <= bv_offset v /\
     off_end v <= off_end last) /\
  (forall x, bv_offset first <= x < off_end last ->
     exists v, v ∈ m /\ bv_offset v <= x < off_end v).
Proof.
  intros [Hf Hl]%Forall_cons.
  destruct (run_tiles first l first Hl Hf ltac:(done)) as (Hok & Hal & Hle & Hin & Hcov).
  cbn zeta in *. pose proof (off_end_ok first Hf) as Hef. destruct Hf as (Hs & _).
  split_and!; [done|apply Hal..| |].
  - intros v [->|Hv]%elem_of_cons; [split; [done|lia]|].
    destruct (Hin v Hv) as (? & ? & ?). split; [done|lia].
  - intros x Hx. destruct (Z.lt_ge_cases x (off_end first)).
    + exists first. split; [by left|lia].
    + destruct (Hcov x) as (v & Hv & ?); [lia|]. exists v. split; [by right|done].
Qed.

(** ** Records of intact files *)

Section intact.
(** The bytes of each file, by inode and offset. *)
Context (image : Z -> Z -> Z).

Definition image_range (inode off : Z) (n : nat) : list Z :=
  (fun k => image inode (off + Z.of_nat k)) <$> seq 0 n.

(** The mapping holds the file's bytes. *)
Definition shows (mem : Z -> option Z) (v : ac_bl_vma) : Prop :=
  forall x, bv_offset v <= x < off_end v ->
  mem (bv_start v + (x - bv_offset v)) = Some (image (bv_inode v) x).

(** The digest of a record is that of the file's bytes. *)
Definition good_rec (r : ac_baseline_rec) : Prop :=
  r_hex r = ac_sha256_hex (image_range (r_inode r) (r_offset r) (Z.to_nat (r_size r))).

(** What saving the mapping stores: its first bytes' digest. *)
Definition rec_for (v : ac_bl_vma) : ac_baseline_rec :=
  mk_rec (bv_inode v) (bv_offset v) (hashed v)
    (ac_sha256_hex (image_range (bv_inode v) (bv_offset v) (Z.to_nat (hashed v)))).

Lemma image_mem_range mem start inode off n :
  (forall k : Z, 0 <= k < Z.of_nat n -> mem (start + k) = Some (image inode (off + k))) ->
  mem_range mem start n = Some (image_range inode off n).
Proof.
  intros Hm. assert (length (image_range inode off n) = n) as Hlen
    by (unfold image_range; by rewrite length_fmap, length_seq).
  rewrite <- Hlen at 1. apply mem_range_read. rewrite Hlen. intros i Hi.
  unfold image_range. rewrite list_lookup_fmap, lookup_seq_lt by done. cbn.
  apply Hm. lia.
Qed.

(** The record of a mapping of a run is inside the run. *)
Lemma rec_for_inside first last v recs :
  vma_ok v -> vma_ok last -> aligned first v -> bv_offset first <= bv_offset v ->
  off_end v <= off_end last -> rec_for v ∈ recs ->
  inside first last recs (rec_for v) /\
  forall x, bv_offset v <= x < bv_offset v + hashed v -> speaks first recs (rec_for v) x.
Proof.
  intros Hv Hl (Hi & _) Hlo Hhi Hin. rewrite !off_end_ok in Hhi by done.
  pose proof (hashed_bounds v Hv) as Hb. destruct Hv as (_ & _ & _ & Hoe & _).
  assert (forall x, bv_offset v <= x < bv_offset v + hashed v <->
    speaks first recs (rec_for v) x) as Hsp.
  { intros x. unfold speaks. cbn [rec_for r_inode r_offset r_size].
    split; [intros; split_and!; done || lia|lia]. }
  unfold inside, in_run. setoid_rewrite <- Hsp. split; [|done].
  split; [exists (bv_offset v); lia|lia].
Qed.

Lemma inside_bounds first last recs r :
  inside first last recs r ->
  r ∈ recs /\ r_inode r = bv_inode first /\ bv_offset first <= r_offset r /\
  r_offset r + r_size r <= bv_offset last + (bv_end last - bv_start last).
Proof.
  intros [[x (Hr & Hi & Hx & He)] Hall]. unfold speaks, in_run in Hall.
  pose proof (Hall (r_offset r)) as H1. pose proof (Hall (r_offset r + r_size r - 1)) as H2.
  destruct H1; [split_and!; done || lia|]. destruct H2; [split_and!; done || lia|].
  split_and!; done || lia.
Qed.
End intact.

(** With the memory already open the descriptor stays as it is. *)
Lemma check_run_fd pread op ok fs dir first last fd :
  0 <= fd -> snd (baseline_check_run pread op ok fs dir first last fd) = fd.
Proof.
  intros Hfd. unfold baseline_check_run.
  destruct (baseline_load_records _ _ _) as [recs lg].
  assert (forall l res, snd (foldl (check_rec pread op (bv_start first) (bv_inode first)
    (bv_offset first) (off_end last)
    (Z.min (u64 (off_end last - bv_offset first)) AC_HASH_CAP)) (res, fd) l) = fd) as Hf.
  { intros l. induction l as [|r l IH]; intros res; [done|]. cbn [foldl].
    unfold check_rec at 2. unfold lazy_open. destruct (Z.eqb_spec fd (-1)); [lia|].
    repeat case_test; apply IH. }
  specialize (Hf recs (mk_run_result AC_BL_UNBASELINED 0 0 true)).
  destruct (foldl _ _ _) as [res fd']. cbn [snd] in Hf. subst. by destruct (_ && _).
Qed.

Section verdicts.
Context (image : Z -> Z -> Z) (pread : Z -> Z -> option (list Z)) (mem : Z -> option Z).
Context (op fd : Z) (fopen_ok : Z -> bool) (fs : files) (dir : list Z).
Hypothesis Hlaw : mem_laws pread mem.
Hypothesis Hfd : 0 <= fd.
Hypothesis Hfopen : forall x, fopen_ok x = true.

Lemma opened : negb (lazy_open op fd <? 0) = true.
Proof. unfold lazy_open. destruct (Z.eqb_spec fd (-1)); [lia|]. by destruct (Z.ltb_spec fd 0); [lia|]. Qed.

(** The first and last mapping of a run, and the reference verdict on it. *)
Lemma run_verdict first l recs legacy :
  let m := first :: take (run_ext first first l) l in
  let last := default first (last (take (run_ext first first l) l)) in
  Forall vma_ok (first :: l) ->
  baseline_load_records true fs (baseline_path_for dir (bv_path first)) = (recs, legacy) ->
  vma_ok last /\ (forall v, v ∈ m -> vma_ok v) /\
  verdict_ref mem true legacy first last recs
    (rr_verdict (fst (baseline_check_run pread op fopen_ok fs dir first last fd))).
Proof.
  intros m last Hok Hload.
  destruct (run_tiles_all first l Hok) as (Hlast & Hal & _). cbn zeta in *.
  fold last in Hlast, Hal. split; [done|].
  assert (forall v, v ∈ m -> vma_ok v) as Hmok.
  { intros v Hv. eapply Forall_forall; [exact Hok|]. unfold m in Hv.
    apply elem_of_cons in Hv as [->|Hv]; [by left|]. right.
    by eapply elem_of_subseteq; [apply subseteq_take|]. }
  split; [done|]. rewrite <- opened. apply check_run_ref; [done| |by rewrite Hfopen].
  destruct Hlast as (? & ? & ? & ? & _), Hal as (_ & _ & ?).
  destruct (Hmok first) as (? & _ & ? & _); [by left|]. unfold run_ok. lia.
Qed.

(** Everything the store says of the run's file is right and every mapping of
    the run has its record: the run matches. *)
Lemma intact_run first l recs :
  let m := first :: take (run_ext first first l) l in
  let last := default first (last (take (run_ext first first l) l)) in
  Forall vma_ok (first :: l) ->
  (forall v, v ∈ m -> shows image mem v /\ bv_end v - bv_start v <= AC_HASH_CAP) ->
  baseline_load_records true fs (baseline_path_for dir (bv_path first)) = (recs, false) ->
  (forall r, r ∈ recs -> good_rec image r) ->
  (forall v, v ∈ m -> rec_for image v ∈ recs) ->
  rr_verdict (fst (baseline_check_run pread op fopen_ok fs dir first last fd)) = AC_BL_OK.
Proof.
  intros m last Hok Hsh Hload Hgood Hsaved.
  destruct (run_tiles_all first l Hok) as (_ & _ & Hin & Hcov).
  destruct (run_verdict first l recs false Hok Hload) as (Hlast & Hmok & Hver).
  cbn zeta in *. fold last m in Hlast, Hin, Hcov, Hmok, Hver.
  pose proof (off_end_ok last Hlast) as Hend.
  assert (first ∈ m) as Hfm by (by left).
  destruct Hver as (_ & _ & _ & HOK & _). apply HOK. split_and!.
  - exists (rec_for image first). destruct (Hin first Hfm) as (? & ? & ?).
    by apply rec_for_inside; auto.
  - intros r Hr. apply inside_bounds in Hr as (Hr & Hi & Hlo & Hhi).
    unfold current. rewrite (image_mem_range image _ _ (r_inode r) (r_offset r)).
    + cbn [fmap option_fmap option_map]. f_equal. symmetry. by apply Hgood.
    + intros k Hk. destruct (Hcov (r_offset r + k)) as (v & Hv & Hx); [lia|].
      destruct (Hin v Hv) as ((Hi' & _ & Hd) & _). destruct (Hsh v Hv) as [Hs _].
      rewrite Hi, <- Hi', <- Hs by done. f_equal. lia.
  - intros (r & x & _ & Hx & Hnc). unfold in_run in Hx. rewrite <- Hend in Hx.
    destruct (Hcov x Hx) as (v & Hv & Hvx). destruct (Hin v Hv) as (? & ? & ?).
    destruct (rec_for_inside image first last v recs) as [Hi Hs]; auto.
    apply (Hnc _ Hi), Hs. rewrite (off_end_ok v) in Hvx by auto.
    unfold hashed. destruct (Hsh v Hv) as [_ ?]. lia.
Qed.

(** A saved mapping of the run whose hashed bytes have another digest now: the
    run does not match. *)
Lemma patched_run first l recs legacy v bs :
  let m := first :: take (run_ext first first l) l in
  let last := default first (last (take (run_ext first first l) l)) in
  Forall vma_ok (first :: l) ->
  baseline_load_records true fs (baseline_path_for dir (bv_path first)) = (recs, legacy) ->
  v ∈ m -> rec_for image v ∈ recs ->
  mem_range mem (bv_start v) (Z.to_nat (hashed v)) = Some bs ->
  ac_sha256_hex bs <> r_hex (rec_for image v) ->
  rr_verdict (fst (baseline_check_run pread op fopen_ok fs dir first last fd))
    = AC_BL_MISMATCH.
Proof.
  intros m last Hok Hload Hv Hsaved Hmem Hdiff.
  destruct (run_tiles_all first l Hok) as (_ & _ & Hin & _).
  destruct (run_verdict first l recs legacy Hok Hload) as (Hlast & Hmok & Hver).
  cbn zeta in *. fold last m in Hlast, Hin, Hmok, Hver.
  destruct Hver as (Hmis & _). apply Hmis. destruct (Hin v Hv) as (Hav & ? & ?).
  exists (rec_for image v). split; [by apply rec_for_inside; auto|].
  exists (ac_sha256_hex bs). split; [|done].
  unfold current. cbn [rec_for r_offset r_size]. destruct Hav as (_ & _ & Hd).
  replace (bv_start first + (bv_offset v - bv_offset first)) with (bv_start v) by lia.
  by rewrite Hmem.
Qed.
End verdicts.

(** ** The store *)

Lemma hexd_nonblank n : (n < 16)%nat ->
  hexd !!! n <> 0 /\ isspace (hexd !!! n) = false.
Proof.
  intros Hn. assert (Forall (fun c => c <> 0 /\ isspace c = false) hexd) as Hall
    by (by repeat constructor).
  eapply (Forall_lookup_total_1 _ _ n) in Hall; [done|]. done.
Qed.

Lemma sha_hex_wf bs : wf_hex (ac_sha256_hex bs).
Proof.
  unfold ac_sha256_hex. set (c := ac_sha256_update _ _).
  destruct (final_bytes c) as [Hlen Hb].
  pose proof (length_hex_digest (ac_sha256_final c)) as H64.
  split; [intros E; by rewrite E in H64|]. split; [lia|].
  rewrite hex_digest_bytes by done. apply Forall_concat, Forall_fmap.
  eapply Forall_impl; [exact Hb|]. intros b Hr. cbn [compose] in *.
  assert (0 <= Z.shiftr b 4 < 16) by (rewrite Z.shiftr_div_pow2 by done;
    change (2 ^ 4) with 16; split; [apply Z.div_pos|apply Z.div_lt_upper_bound]; lia).
  assert (0 <= Z.land b 15 < 16) by (change 15 with (Z.ones 4);
    rewrite Z.land_ones by done; apply Z.mod_pos_bound; lia).
  repeat constructor; apply hexd_nonblank; lia.
Qed.

Section store.
Context (image : Z -> Z -> Z) (dir : list Z).

Definition recs_of (fs : files) (v : ac_bl_vma) : list ac_baseline_rec * bool :=
  baseline_load_records true fs (baseline_path_for dir (bv_path v)).

(** The records the store holds of the mapping's file are right. *)
Definition sound (fs : files) (v : ac_bl_vma) : Prop :=
  forall r, r ∈ fst (recs_of fs v) -> good_rec image r.

(** The store holds the mapping's record, and no line of the old format is left
    in that file. *)
Definition saved (fs : files) (v : ac_bl_vma) : Prop :=
  rec_for image v ∈ fst (recs_of fs v) /\ snd (recs_of fs v) = false.

Lemma rec_for_wf v : vma_ok v -> wf_rec (rec_for image v).
Proof.
  intros Hv. pose proof (hashed_bounds v Hv). destruct Hv as (Hs & He & Ho & Hoe & Hi).
  unfold wf_rec. cbn [rec_for r_inode r_offset r_size r_hex].
  do 3 (split; [lia|]). apply sha_hex_wf.
Qed.

Lemma same_key_rec v w :
  same_key (bv_inode v) (bv_offset v) (hashed v) (rec_for image w) = true ->
  rec_for image w = rec_for image v.
Proof.
  unfold same_key. cbn [rec_for r_inode r_offset r_size]. intros Hk. boolp.
  destruct Hk as [[Hi Ho] Hz]. unfold rec_for. by rewrite Hi, Ho, Hz.
Qed.

(** A successful save of a mapping, the load of which could open the file,
    keeps the store sound and what it holds. *)
Lemma save_keeps e fs v err fs' ops :
  vma_ok v -> se_fopen e = true ->
  baseline_save_record e fs (baseline_path_for dir (bv_path v)) (bv_inode v)
    (bv_offset v) (hashed v) (r_hex (rec_for image v)) = (0, err, fs', ops) ->
  saved fs' v /\
  forall w, (sound fs w -> sound fs' w) /\ (saved fs w -> saved fs' w).
Proof.
  intros Hv Hfo Hs. set (p := baseline_path_for dir (bv_path v)) in *.
  pose proof (save_cases e fs p (bv_inode v) (bv_offset v) (hashed v)
    (r_hex (rec_for image v))) as Hc.
  rewrite Hs, Hfo in Hc. destruct Hc as [[(_ & -> & Hk)|[[? _]|[? _]]] _]; try done.
  pose proof (load_saved true fs p (rec_for image v) (rec_for_wf v Hv) Hk) as Hload.
  set (kept := kept_recs _ _ _ _ _ _) in *.
  change (kept_for true fs p (rec_for image v)) with kept in Hload.
  change (mk_rec _ _ _ _) with (rec_for image v).
  split. { unfold saved, recs_of. fold p. rewrite Hload. cbn [fst snd]. split; [|done].
    apply elem_of_app. right. by apply list_elem_of_singleton. }
  intros w. unfold sound, saved, recs_of.
  destruct (decide (baseline_path_for dir (bv_path w) = p)) as [->|Hne].
  - rewrite Hload. cbn [fst snd]. split.
    + intros Hg r [Hr|Hr]%elem_of_app.
      * apply Hg. by apply list_elem_of_filter in Hr as [_ Hr].
      * by apply list_elem_of_singleton in Hr as ->.
    + intros [Hw _]. split; [|done]. apply elem_of_app.
      destruct (same_key (bv_inode v) (bv_offset v) (hashed v) (rec_for image w)) eqn:Hkey.
      * right. apply list_elem_of_singleton. by apply same_key_rec.
      * left. by apply list_elem_of_filter.
  - unfold baseline_load_records. rewrite lookup_insert_ne by congruence. done.
Qed.
End store.

(** ** The runs of a snapshot *)

(** The first mapping of each run. *)
Fixpoint run_heads (fuel : nat) (l : list ac_bl_vma) : list ac_bl_vma :=
  match fuel, l with
  | S f, first :: l' => first :: run_heads f (drop (run_ext first first l') l')
  | _, _ => []
  end.

Definition ok_line (first : ac_bl_vma) : list Z :=
  concat [lit "  "; bv_path first; lit " (offset "; fmt_sx (bv_offset first); lit "): "]
  ++ lit "ok: matches baseline".

Lemma run_mem first (l : list ac_bl_vma) v :
  v ∈ first :: take (run_ext first first l) l -> v ∈ first :: l.
Proof.
  intros [->|Hv]%elem_of_cons; [by left|]. right.
  by eapply elem_of_subseteq; [apply subseteq_take|].
Qed.

Section run_lists.
Context (image : Z -> Z -> Z) (pread : Z -> Z -> option (list Z)) (mem : Z -> option Z).
Context (op fd : Z) (ok : Z -> bool) (fs : files) (dir : list Z).
Hypothesis Hlaw : mem_laws pread mem.
Hypothesis Hfd : 0 <= fd.
Hypothesis Hfopen : forall x, ok x = true.

(** The verdict of every run, one per head, in order. *)
Lemma check_runs_cons n first l :
  fst (check_runs pread op ok (S n) fs dir (first :: l) fd) =
  (first, match drop (run_ext first first l) l with [] => true | _ => false end,
   fst (baseline_check_run pread op ok fs dir first
     (default first (last (take (run_ext first first l) l))) fd))
  :: fst (check_runs pread op ok n fs dir (drop (run_ext first first l) l) fd).
Proof.
  cbn [check_runs]. rewrite run_end_0.
  set (last := default first _).
  pose proof (check_run_fd pread op ok fs dir first last fd Hfd) as Hs.
  destruct (baseline_check_run _ _ _ _ _ _ _ _) as [res fd']. cbn [snd] in Hs. subst.
  by destruct (check_runs _ _ _ n _ _ _ _).
Qed.

Lemma intact_runs n : forall l,
  (length l <= n)%nat -> Forall vma_ok l ->
  (forall v, v ∈ l -> (shows image mem v /\ bv_end v - bv_start v <= AC_HASH_CAP) /\
     sound image dir fs v /\ saved image dir fs v) ->
  Forall2 (fun v '(first, _, res) => first = v /\ rr_verdict res = AC_BL_OK)
    (run_heads n l) (fst (check_runs pread op ok n fs dir l fd)).
Proof.
  induction n as [|n IH]; intros [|first l] Hn Hok Hall; try (by constructor).
  rewrite check_runs_cons. cbn [run_heads]. constructor.
  - split; [done|]. destruct (recs_of dir fs first) as [recs lg] eqn:Hr.
    destruct (Hall first) as (_ & Hg & [_ Hlg]); [by left|]. unfold sound in Hg.
    rewrite Hr in Hlg, Hg. cbn [fst snd] in *. subst lg.
    eapply (intact_run image pread mem op fd ok fs dir Hlaw Hfd Hfopen first l recs Hok);
      [|exact Hr|exact Hg|]; intros v Hv;
      destruct (Hall v (run_mem _ _ _ Hv)) as (? & _ & [Hs _]).
    + done.
    + destruct (run_tiles_all first l Hok) as (_ & _ & Hin & _).
      destruct (Hin v Hv) as ((_ & Hp & _) & _). unfold recs_of in Hs, Hr.
      rewrite Hp, Hr in Hs. done.
  - apply IH.
    + rewrite length_drop. simpl in Hn. lia.
    + apply Forall_drop. by apply Forall_cons in Hok as [_ ?].
    + intros v Hv. apply Hall. right. by eapply elem_of_subseteq; [apply subseteq_drop|].
Qed.

Lemma patched_runs n v bs : forall l,
  (length l <= n)%nat -> Forall vma_ok l -> v ∈ l ->
  rec_for image v ∈ fst (recs_of dir fs v) ->
  mem_range mem (bv_start v) (Z.to_nat (hashed v)) = Some bs ->
  ac_sha256_hex bs <> r_hex (rec_for image v) ->
  exists first at_end res, (first, at_end, res) ∈ fst (check_runs pread op ok n fs dir l fd) /\
    rr_verdict res = AC_BL_MISMATCH.
Proof.
  induction n as [|n IH]; intros [|first l] Hn Hok Hv Hs Hm Hd;
    try (by apply elem_of_nil in Hv). { simpl in Hn. lia. }
  rewrite check_runs_cons.
  assert (v ∈ first :: take (run_ext first first l) l \/
    v ∈ drop (run_ext first first l) l) as [Hin|Hout].
  { rewrite <- (take_drop (run_ext first first l) l) in Hv at 1.
    rewrite elem_of_cons, elem_of_app in Hv. rewrite elem_of_cons. tauto. }
  - do 3 eexists. split; [by left|]. destruct (recs_of dir fs first) as [recs lg] eqn:Hr.
    eapply (patched_run image pread mem op fd ok fs dir Hlaw Hfd Hfopen first l recs lg v bs Hok);
      [exact Hr|done| |done|done].
    destruct (run_tiles_all first l Hok) as (_ & _ & Ht & _).
    destruct (Ht v Hin) as ((_ & Hp & _) & _). unfold recs_of in Hs, Hr.
    rewrite Hp, Hr in Hs. done.
  - edestruct (IH (drop (run_ext first first l) l)) as (f & ae & res & Hr & Hver);
      [rewrite length_drop; simpl in Hn; lia|..|done|done|done|].
    + apply Forall_drop. by apply Forall_cons in Hok as [_ ?].
    + exact Hout.
    + exists f, ae, res. split; [by right|done].
Qed.
End run_lists.

(** The lines a check adds. *)
Lemma check_lines_intact image mem sy fd fs complete l :
  mem_laws (sy_pread sy) mem -> 0 <= fd -> (forall x, sy_fopen sy x = true) ->
  Forall vma_ok l ->
  (forall v, v ∈ l -> (shows image mem v /\ bv_end v - bv_start v <= AC_HASH_CAP) /\
     sound image (ac_baseline_dir (sy_dir sy)) fs v /\
     saved image (ac_baseline_dir (sy_dir sy)) fs v) ->
  check_lines sy fd complete fs l = ok_line <$> run_heads (length l) l.
Proof.
  intros Hlaw Hfd Hfo Hok Hall. unfold check_lines.
  destruct (Z.ltb_spec fd 0); [lia|].
  pose proof (intact_runs image (sy_pread sy) mem (sy_open sy) fd (sy_fopen sy) fs
    (ac_baseline_dir (sy_dir sy)) Hlaw Hfd Hfo (length l) l (le_n _) Hok Hall) as H2.
  destruct (check_runs _ _ _ _ _ _ _ _) as [runs ?]. cbn [fst] in H2.
  induction H2 as [|v [[first ae] res] vs rs [-> Hv] _ IH]; [done|].
  cbn [fmap list_fmap]. f_equal; [|exact IH]. unfold verdict_line. by rewrite Hv.
Qed.

Lemma check_lines_patched image mem sy fd fs complete l v bs :
  mem_laws (sy_pread sy) mem -> 0 <= fd -> (forall x, sy_fopen sy x = true) ->
  Forall vma_ok l -> v ∈ l ->
  rec_for image v ∈ fst (recs_of (ac_baseline_dir (sy_dir sy)) fs v) ->
  mem_range mem (bv_start v) (Z.to_nat (hashed v)) = Some bs ->
  ac_sha256_hex bs <> r_hex (rec_for image v) ->
  exists line, line ∈ check_lines sy fd complete fs l /\
    lit "  [ALERT] " `prefix_of` line.
Proof.
  intros Hlaw Hfd Hfo Hok Hv Hs Hm Hd. unfold check_lines.
  destruct (Z.ltb_spec fd 0); [lia|].
  destruct (patched_runs image (sy_pread sy) mem (sy_open sy) fd (sy_fopen sy) fs
    (ac_baseline_dir (sy_dir sy)) Hlaw Hfd Hfo (length l) v bs l (le_n _) Hok Hv Hs Hm Hd)
    as (first & ae & res & Hin & Hver).
  destruct (check_runs _ _ _ _ _ _ _ _) as [runs ?]. cbn [fst] in Hin.
  exists (verdict_line first (negb complete && ae) res). split.
  - apply list_elem_of_fmap. by exists (first, ae, res).
  - unfold verdict_line. rewrite Hver. cbn [concat]. apply prefix_app_r. done.
Qed.

(** ** The loop over the mappings *)

(** What the theorems ask of the executable file mappings of a snapshot. *)
Definition snapshot_ok (get : Z -> option ac_vma_info) : Prop :=
  forall i vi, get i = Some vi -> exec_file vi = true ->
  (length (vi_path vi) < AC_VMA_PATH)%nat /\ vma_ok (bl_vma_of vi).

(** The executable file mappings the loop sees. *)
Definition exec_vmas (get : Z -> option ac_vma_info) (b : ac_scan_begin)
    : list ac_bl_vma :=
  fst (gather get (Z.to_nat (fst (clamp_vma_count (sb_n_vmas b)))) 0).

Definition without_check (a : scan_args) : scan_args :=
  mk_scan_args (sa_pid a) (sa_ref_pid a) (sa_hash a) (sa_save a) false (sa_hooks a)
    (sa_preload a) (sa_vklayers a) (sa_implicit a).

Lemma gather_ok get n : snapshot_ok get -> forall i v,
  v ∈ fst (gather get n i) ->
  exists k vi, get k = Some vi /\ exec_file vi = true /\ v = bl_vma_of vi.
Proof.
  intros Hsn. induction n as [|n IH]; intros i v Hv; cbn [gather] in Hv.
  { by apply elem_of_nil in Hv. }
  destruct (get i) as [vi|] eqn:Hg; [|by apply elem_of_nil in Hv].
  specialize (IH (i + 1) v). destruct (gather get n (i + 1)) as [l c]. cbn [fst] in *.
  destruct (exec_file vi) eqn:Hx; [|by apply IH].
  apply elem_of_cons in Hv as [->|Hv]; [by exists i, vi|by apply IH].
Qed.

Lemma gather_vma_ok get n i : snapshot_ok get -> Forall vma_ok (fst (gather get n i)).
Proof.
  intros Hsn. apply Forall_forall. intros v Hv.
  destruct (gather_ok get n Hsn i v Hv) as (k & vi & Hg & Hx & ->). by eapply Hsn.
Qed.

Section loop.
Context (a : scan_args) (sy : scan_sys) (fd : Z) (get : Z -> option ac_vma_info).

Lemma scan_one_err v vi st : so_err st `prefix_of` so_err (scan_one a sy fd v vi st).
Proof.
  unfold scan_one. destruct (_ && exec_file vi); [|done].
  destruct (hash_vma _ _ _ _ _ _) as [[[o e] f] d]. cbn [so_err]. by apply prefix_app_r.
Qed.

Lemma scan_vmas_err n : forall i st,
  so_err st `prefix_of` so_err (scan_vmas a sy fd get n i st).
Proof.
  induction n as [|n IH]; intros i st; cbn [scan_vmas]; [done|].
  destruct (get i) as [vi|]; [|done]. etrans; [apply (scan_one_err i vi)|apply IH].
Qed.

(** Without [--save] nothing is written. *)
Lemma scan_vmas_files n : sa_save a = false -> forall i st,
  so_files (scan_vmas a sy fd get n i st) = so_files st.
Proof.
  intros Hsv. induction n as [|n IH]; intros i st; cbn [scan_vmas]; [done|].
  destruct (get i) as [vi|]; [|done]. rewrite IH. unfold scan_one, hash_vma. rewrite Hsv.
  repeat (case_match; simplify_eq); done.
Qed.

Lemma scan_vmas_vmas n : sa_hash a = true -> sa_check a = true -> forall i st,
  so_vmas (scan_vmas a sy fd get n i st) = so_vmas st ++ fst (gather get n i).
Proof.
  intros Hh Hc. induction n as [|n IH]; intros i st; cbn [scan_vmas gather].
  { by rewrite app_nil_r. }
  destruct (get i) as [vi|]; [|by rewrite app_nil_r]. rewrite IH.
  destruct (gather get n (i + 1)) as [l c]. cbn [fst].
  unfold scan_one. rewrite Hh, Hc. cbn [andb]. destruct (exec_file vi); [|done].
  destruct (hash_vma _ _ _ _ _ _) as [[[o e] f] d]. cbn [so_vmas].
  by rewrite <- app_assoc.
Qed.

(** [--check] changes nothing in the loop but the mappings kept. *)
Lemma scan_vmas_check n : forall i st st',
  so_out st = so_out st' -> so_err st = so_err st' -> so_scanned st = so_scanned st' ->
  so_files st = so_files st' ->
  let r := scan_vmas a sy fd get n i st in
  let r' := scan_vmas (without_check a) sy fd get n i st' in
  so_out r = so_out r' /\ so_err r = so_err r' /\ so_scanned r = so_scanned r' /\
  so_files r = so_files r'.
Proof.
  induction n as [|n IH]; intros i st st' Ho He Hs Hf; cbn [scan_vmas]; [done|].
  destruct (get i) as [vi|]; [|done].
  apply IH; unfold scan_one; cbn [without_check sa_hash];
    change (hash_vma (without_check a)) with (hash_vma a);
    rewrite ?Ho, ?He, ?Hs, ?Hf; destruct (sa_hash a && exec_file vi); try done;
    by destruct (hash_vma _ _ _ _ _ _) as [[[o e] f] d].
Qed.
End loop.

Section saving.
Context (image : Z -> Z -> Z) (mem : Z -> option Z).
Context (a : scan_args) (sy : scan_sys) (fd : Z) (get : Z -> option ac_vma_info).
Let dir := ac_baseline_dir (sy_dir sy).
Hypothesis Hhash : sa_hash a = true.
Hypothesis Hsave : sa_save a = true.
Hypothesis Hlaw : mem_laws (sy_pread sy) mem.
Hypothesis Hfd : 0 <= fd.

Lemma hash_intact vi :
  vma_ok (bl_vma_of vi) -> shows image mem (bl_vma_of vi) ->
  hash_size vi = hashed (bl_vma_of vi) /\
  hash_proc_mem (sy_pread sy) (vi_start vi) (hash_size vi) =
  Some (r_hex (rec_for image (bl_vma_of vi))).
Proof.
  intros Hok Hsh. pose proof (off_end_ok _ Hok) as Hoe.
  pose proof (hashed_bounds _ Hok) as Hb.
  destruct Hok as (Hs & He & Ho & _). cbn [bl_vma_of bv_start bv_end bv_offset] in *.
  assert (hash_size vi = hashed (bl_vma_of vi)) as Hz.
  { unfold hash_size, hashed. cbn [bl_vma_of bv_start bv_end].
    rewrite u64_id by lia. case_test; lia. }
  split; [done|]. rewrite Hz, (hash_proc_mem_spec _ mem) by (done || lia).
  rewrite (image_mem_range image _ _ (vi_inode vi) (vi_offset vi)); [done|].
  intros k Hk. specialize (Hsh (vi_offset vi + k)).
  cbn [bl_vma_of bv_start bv_offset bv_inode] in Hsh. rewrite <- Hsh by lia.
  f_equal. lia.
Qed.

(** One executable file mapping, saved without an error message. *)
Lemma scan_one_saves v vi st :
  exec_file vi = true -> (length (vi_path vi) < AC_VMA_PATH)%nat ->
  vma_ok (bl_vma_of vi) -> shows image mem (bl_vma_of vi) ->
  se_fopen (sy_save sy v) = true ->
  so_err (scan_one a sy fd v vi st) = [] ->
  let fs' := so_files (scan_one a sy fd v vi st) in
  saved image dir fs' (bl_vma_of vi) /\
  forall w, (sound image dir (so_files st) w -> sound image dir fs' w) /\
            (saved image dir (so_files st) w -> saved image dir fs' w).
Proof.
  intros Hx Hlen Hok Hsh Hfo. destruct (hash_intact vi Hok Hsh) as [Hz Hh].
  unfold scan_one, hash_vma. rewrite Hhash, Hx, Hsave, Hh. cbn [andb].
  destruct (Z.ltb_spec fd 0); [lia|]. unfold save_vma, baseline_file. fold dir.
  assert (bv_path (bl_vma_of vi) = vi_path vi) as Hp
    by (apply strscpy_id; unfold AC_VMA_PATH in *; lia).
  pose proof (fun err fs' ops => save_keeps image dir (sy_save sy v) (so_files st)
    (bl_vma_of vi) err fs' ops Hok Hfo) as Hk.
  rewrite Hp in Hk. cbn [bl_vma_of bv_inode bv_offset] in Hk.
  pose proof (save_cases (sy_save sy v) (so_files st)
    (baseline_path_for dir (vi_path vi)) (vi_inode vi) (vi_offset vi) (hash_size vi)
    (r_hex (rec_for image (bl_vma_of vi)))) as Hc.
  rewrite Hz in *. fold (bl_vma_of vi) in Hk.
  destruct (baseline_save_record _ _ _ _ _ _ _) as [[[rc err] fs'] ops].
  destruct Hc as [Hc _].
  destruct Hc as [(-> & _)|[[-> _]|[-> _]]]; cbn -[concat].
  - intros _. exact (Hk _ _ _ eq_refl).
  - intros He. by destruct (so_err st).
  - intros He. by destruct (so_err st).
Qed.

Lemma scan_saves n : snapshot_ok get -> (forall j, se_fopen (sy_save sy j) = true) ->
  forall i st,
  (forall w, w ∈ fst (gather get n i) -> shows image mem w) ->
  so_err (scan_vmas a sy fd get n i st) = [] ->
  let fs' := so_files (scan_vmas a sy fd get n i st) in
  (forall w, w ∈ fst (gather get n i) -> saved image dir fs' w) /\
  forall w, (sound image dir (so_files st) w -> sound image dir fs' w) /\
            (saved image dir (so_files st) w -> saved image dir fs' w).
Proof.
  intros Hsn Hfo. induction n as [|n IH]; intros i st Hsh He; cbn [scan_vmas gather] in *.
  { split; [|done]. intros w Hw. by apply elem_of_nil in Hw. }
  destruct (get i) as [vi|] eqn:Hg.
  2: { split; [|done]. intros w Hw. by apply elem_of_nil in Hw. }
  specialize (IH (i + 1) (scan_one a sy fd i vi st)).
  destruct (gather get n (i + 1)) as [l c]. cbn [fst] in *.
  assert (so_err (scan_one a sy fd i vi st) = []) as He1.
  { pose proof (scan_vmas_err a sy fd get n (i + 1) (scan_one a sy fd i vi st)) as Hpre.
    rewrite He in Hpre. by apply prefix_nil_inv in Hpre. }
  destruct (exec_file vi) eqn:Hx.
  - destruct (Hsn i vi Hg Hx) as [Hlen Hok].
    destruct (scan_one_saves i vi st Hx Hlen Hok) as [H1 H2]; [|by apply Hfo|done|].
    { apply Hsh. by left. }
    destruct IH as [H3 H4]; [intros w Hw; apply Hsh; by right|done|]. split.
    + intros w [->|Hw]%elem_of_cons; [by apply H4|by apply H3].
    + intros w. split; intros Hw; by apply H4, H2.
  - assert (so_files (scan_one a sy fd i vi st) = so_files st) as Hf
      by (unfold scan_one; by rewrite Hx, andb_false_r).
    rewrite Hf in IH. by apply IH.
Qed.
End saving.

(** What a [--hash --save] scan without an error message leaves behind. *)
Lemma report_saves image mem a sy b get fs :
  let dir := ac_baseline_dir (sy_dir sy) in
  sa_hash a = true -> sa_save a = true -> mem_laws (sy_pread sy) mem ->
  snapshot_ok get -> (forall j, se_fopen (sy_save sy j) = true) ->
  (forall v, v ∈ exec_vmas get b -> shows image mem v) ->
  so_err (scan_report a sy b get fs) = [] ->
  forall v, v ∈ exec_vmas get b ->
  (sound image dir fs v -> sound image dir (so_files (scan_report a sy b get fs)) v) /\
  saved image dir (so_files (scan_report a sy b get fs)) v.
Proof.
  intros dir Hh Hsv Hlaw Hsn Hfo Hall He v Hv. unfold scan_report, exec_vmas in *.
  destruct (clamp_vma_count _) as [n warn]. rewrite Hh in *. cbn [fst andb] in *.
  cbn [so_err so_files] in *. set (st0 := mk_scan_out _ _ _ _ _ _) in *.
  pose proof (scan_vmas_err a sy (sy_open sy) get (Z.to_nat n) 0 st0) as Hpre.
  rewrite He in Hpre. apply prefix_nil_inv in Hpre. cbn [st0 so_err] in Hpre.
  apply app_eq_nil in Hpre as [_ Hop].
  assert (0 <= sy_open sy) as Hfd by (destruct (Z.ltb_spec (sy_open sy) 0); done || lia).
  destruct (scan_saves image mem a sy (sy_open sy) get Hh Hsv Hlaw Hfd (Z.to_nat n) Hsn
    Hfo 0 st0 ltac:(intros w Hw; by apply Hall) He) as [Hs Hk].
  split; [by apply Hk|by apply Hs].
Qed.

(** A [--hash --check] scan is the plain scan with the check's lines put in. *)
Lemma report_check a sy b get fs :
  sa_hash a = true -> sa_check a = true -> sa_save a = false ->
  let r := scan_report a sy b get fs in
  let plain := scan_report (without_check a) sy b get fs in
  so_files r = fs /\ so_err r = so_err plain /\
  exists complete before after,
    so_out plain = before ++ after /\
    so_out r = before ++ check_lines sy (sy_open sy) complete fs (exec_vmas get b) ++ after.
Proof.
  intros Hh Hc Hsv. unfold scan_report, exec_vmas.
  destruct (clamp_vma_count _) as [n warn]. cbn [without_check sa_hash sa_check sa_hooks
    sa_preload sa_vklayers sa_implicit]. rewrite Hh, Hc. cbn [fst andb].
  change (scan_header (without_check a) b n) with (scan_header a b n).
  cbn [so_files so_err so_out so_vmas]. set (st0 := mk_scan_out _ _ _ _ _ _).
  destruct (scan_vmas_check a sy (sy_open sy) get (Z.to_nat n) 0 st0 st0) as (Ho & He & _);
    [done..|].
  rewrite (scan_vmas_files a sy (sy_open sy) get (Z.to_nat n) Hsv),
    (scan_vmas_vmas a sy (sy_open sy) get (Z.to_nat n) Hh Hc).
  cbn [st0 so_files so_vmas app]. split; [done|]. split; [done|].
  do 3 eexists. split; [by rewrite <- Ho|]. done.
Qed.

(** ** Properties *)

(** C10: an untampered process passes the check it was saved for.  Let every
    executable file mapping hold the bytes of its file and `scan --hash
    --save` print no error, the records already stored for those files being
    right and readable.  Then a later `scan --hash --check`, of mappings that
    are all among the saved ones, none above the 16 MiB that are hashed,
    prints what the plain scan prints and, for each run of mappings, the line
    saying it matches the baseline; it writes nothing. *)
Theorem save_then_check image mem mem' a a' sy sy' b b' get get' fs :
  let dir := ac_baseline_dir (sy_dir sy) in
  sa_hash a = true -> sa_save a = true ->
  sa_hash a' = true -> sa_check a' = true -> sa_save a' = false ->
  mem_laws (sy_pread sy) mem -> mem_laws (sy_pread sy') mem' ->
  sy_dir sy' = sy_dir sy -> 0 <= sy_open sy' ->
  (forall i, se_fopen (sy_save sy i) = true) -> (forall x, sy_fopen sy' x = true) ->
  snapshot_ok get -> snapshot_ok get' ->
  (forall v, v ∈ exec_vmas get b -> shows image mem v /\ sound image dir fs v) ->
  (forall v, v ∈ exec_vmas get' b' -> v ∈ exec_vmas get b /\ shows image mem' v /\
     bv_end v - bv_start v <= AC_HASH_CAP) ->
  so_err (scan_report a sy b get fs) = [] ->
  let fs' := so_files (scan_report a sy b get fs) in
  let check := scan_report a' sy' b' get' fs' in
  let plain := scan_report (without_check a') sy' b' get' fs' in
  let vmas := exec_vmas get' b' in
  so_files check = fs' /\ so_err check = so_err plain /\
  exists before after, so_out plain = before ++ after /\
    so_out check = before ++ (ok_line <$> run_heads (length vmas) vmas) ++ after.
Proof.
  intros dir Hh Hsv Hh' Hc' Hsv' Hlaw Hlaw' Hdir Hop Hfo Hfo' Hsn Hsn' Hall Hall' He
    fs' check plain vmas.
  destruct (report_check a' sy' b' get' fs' Hh' Hc' Hsv')
    as (Hf & Her & complete & before & after & Hp & Hr).
  split; [done|]. split; [done|]. exists before, after. split; [done|].
  unfold check. rewrite Hr. do 2 f_equal.
  eapply (check_lines_intact image mem'); try done; [by apply gather_vma_ok|].
  intros v Hv. destruct (Hall' v Hv) as (Hb & Hsh & Hz).
  destruct (report_saves image mem a sy b get fs Hh Hsv Hlaw Hsn Hfo
    (fun w Hw => proj1 (Hall w Hw)) He v Hb) as [Hg Hs].
  rewrite Hdir. split; [done|]. split; [|done]. by apply Hg, Hall.
Qed.

(** C20: a patched process does not.  After a `scan --hash --save` that printed
    no error, of a process whose executable file mappings hold the bytes of
    their files, `scan --hash --check` prints an alert if any one of the
    saved mappings is still there and the part of it that is hashed, its
    first 16 MiB, now has another digest, whatever else the process has
    mapped and whatever the store held before. *)
Theorem scan_alerts image mem mem' a a' sy sy' b b' get get' fs v bs :
  sa_hash a = true -> sa_save a = true ->
  sa_hash a' = true -> sa_check a' = true -> sa_save a' = false ->
  mem_laws (sy_pread sy) mem -> mem_laws (sy_pread sy') mem' ->
  sy_dir sy' = sy_dir sy -> 0 <= sy_open sy' ->
  (forall i, se_fopen (sy_save sy i) = true) -> (forall x, sy_fopen sy' x = true) ->
  snapshot_ok get -> snapshot_ok get' ->
  (forall w, w ∈ exec_vmas get b -> shows image mem w) ->
  so_err (scan_report a sy b get fs) = [] ->
  v ∈ exec_vmas get b -> v ∈ exec_vmas get' b' ->
  mem_range mem' (bv_start v) (Z.to_nat (hashed v)) = Some bs ->
  ac_sha256_hex bs <> r_hex (rec_for image v) ->
  exists line,
    line ∈ so_out (scan_report a' sy' b' get' (so_files (scan_report a sy b get fs))) /\
    lit "  [ALERT] " `prefix_of` line.
Proof.
  intros Hh Hsv Hh' Hc' Hsv' Hlaw Hlaw' Hdir Hop Hfo Hfo' Hsn Hsn' Hall He Hv Hv' Hm Hd.
  destruct (report_saves image mem a sy b get fs Hh Hsv Hlaw Hsn Hfo Hall He v Hv)
    as [_ [Hs _]].
  set (fs' := so_files _) in *.
  destruct (report_check a' sy' b' get' fs' Hh' Hc' Hsv')
    as (_ & _ & complete & before & after & _ & ->).
  rewrite <- Hdir in Hs.
  destruct (check_lines_patched image mem' sy' (sy_open sy') fs' complete
    (exec_vmas get' b') v bs) as (line & Hin & Hpre); try done; [by apply gather_vma_ok|].
  exists line. split; [|done]. apply elem_of_app. right. apply elem_of_app. by left.
Qed.

End ScanCmd.

(** One library, saved, then checked intact and patched. *)
Module ScanCmdDemo.
Import ScanCmd Baseline.BaselineDemo.

Definition lib : list Z := lit "/usr/lib/libgame.so".
Definition clean : list Z := lit "0123456789".
Definition patched : list Z := lit "0123X56789".
Definition text_vma : ac_vma_info := mk_vma_info 65536 65546 4096 7 AC_VM_EXEC true lib.
Definition get (i : Z) : option ac_vma_info := if i =? 0 then Some text_vma else None.
Definition reply : ac_scan_begin := mk_scan_begin 42 (-1) 1 42 1 0 1 0 false.

Definition image (inode off : Z) : Z := default 0 (clean !! Z.to_nat (off - 4096)).

Definition no_view : Render.Render.render_view :=
  Render.Render.mk_render_view Render.RenderDemo.files None (fun _ _ => None).

Definition sys (bytes : list Z) : scan_sys :=
  mk_scan_sys false None 5 (image_pread 65536 bytes) (fun _ => true) (fun _ => all_ok) (fun _ => [])
    no_view None [].

Definition args (save check : bool) : scan_args :=
  mk_scan_args 42 (-1) true save check false false false false.

Lemma get_ok : snapshot_ok get.
Proof.
  intros i vi Hg _. unfold get in Hg. destruct (i =? 0); [|done]. simplify_eq.
  split; [vm_compute; lia|]. repeat split; vm_compute; done.
Qed.

Lemma only_text v : v ∈ exec_vmas get reply -> v = bl_vma_of text_vma.
Proof. intros Hv. by apply list_elem_of_singleton in Hv. Qed.

Lemma text_shown : shows image (image_mem 65536 clean) (bl_vma_of text_vma).
Proof.
  intros x Hx. cbn [bl_vma_of bv_start bv_offset bv_inode text_vma vi_start vi_offset
    vi_inode] in *. assert (4096 <= x < 4106) as Hr by exact Hx.
  unfold image_mem, image. destruct (Z.ltb_spec (65536 + (x - 4096)) 65536); [lia|].
  replace (65536 + (x - 4096) - 65536) with (x - 4096) by lia.
  destruct (lookup_lt_is_Some_2 clean (Z.to_nat (x - 4096))) as [c Hc].
  { change (length clean) with 10%nat. lia. }
  by rewrite Hc.
Qed.

Lemma nothing_stored v : sound image (ac_baseline_dir None) ∅ v.
Proof.
  unfold sound, recs_of, baseline_load_records. rewrite lookup_empty.
  intros r Hr. by apply elem_of_nil in Hr.
Qed.

Lemma saved_quietly : so_err (scan_report (args true false) (sys clean) reply get ∅) = [].
Proof. by vm_compute. Qed.

Lemma save_then_check_witness :
  let fs' := so_files (scan_report (args true false) (sys clean) reply get ∅) in
  exists before after,
    so_out (scan_report (args false true) (sys clean) reply get fs') =
    before ++ [ok_line (bl_vma_of text_vma)] ++ after.
Proof.
  destruct (save_then_check image (image_mem 65536 clean) (image_mem 65536 clean)
    (args true false) (args false true) (sys clean) (sys clean) reply reply get get ∅)
    as (_ & _ & before & after & _ & Hout).
  1-5: reflexivity.
  1-2: apply image_laws.
  - reflexivity.
  - vm_compute. discriminate.
  - reflexivity.
  - reflexivity.
  - exact get_ok.
  - exact get_ok.
  - intros v ->%only_text. split; [exact text_shown|]. apply nothing_stored.
  - intros v ->%only_text. split; [by left|]. split; [exact text_shown|].
    vm_compute. discriminate.
  - exact saved_quietly.
  - exists before, after. exact Hout.
Defined.

Lemma scan_alerts_witness : exists line,
  line ∈ so_out (scan_report (args false true) (sys patched) reply get
    (so_files (scan_report (args true false) (sys clean) reply get ∅))) /\
  lit "  [ALERT] " `prefix_of` line.
Proof.
  apply (scan_alerts image (image_mem 65536 clean) (image_mem 65536 patched)
    (args true false) (args false true) (sys clean) (sys patched) reply reply get get ∅
    (bl_vma_of text_vma) patched).
  1-5: reflexivity.
  1-2: apply image_laws.
  - reflexivity.
  - vm_compute. discriminate.
  - reflexivity.
  - reflexivity.
  - exact get_ok.
  - exact get_ok.
  - intros v ->%only_text. exact text_shown.
  - exact saved_quietly.
  - by left.
  - by left.
  - vm_compute. reflexivity.
  - vm_compute. discriminate.
Defined.

(** A record of an older build, of the same inode and offset and another size,
    survives the re-save the alert asks for, and the alert stays. *)
Definition stale_store : files :=
  <[baseline_path_for (ac_baseline_dir None) lib :=
     print_rec (mk_rec 7 4096 8 (ac_sha256_hex (lit "old text")))]> ∅.

Example resave_keeps_alert :
  let saved := scan_report (args true false) (sys clean) reply get stale_store in
  so_err saved = [] /\
  take 10 <$> so_out (scan_report (args false true) (sys clean) reply get (so_files saved))
  = take 10 <$> [lit "scan of pid 42"; lit "  /usr/lib/libgame.so"; lit "  [ALERT] "].
Proof. by vm_compute. Qed.

End ScanCmdDemo.
