(* ===== verification/Main.v ===== *)
(** The command line's entry and what was left of its commands
    (src/anticheat_daemon.c): the dispatch in [main], [events --watch], the
    double fork that puts the daemon in the background, and the home directory
    of a process with the layer directories it adds. *)

From S2P Require Import Prelude CText CScan Abi DLog Ring Modules SyscallTable.
From S2P Require Import SyscallCheck Registry Handlers Scan Ioctl Baseline Monitor.
From S2P Require Import Environ Report Cli.
Import DLog.DLog Modules.Mods SyscallTable.Table SyscallCheck.Check
  Registry.Reg Handlers.Handlers Scan.Scan Ioctl.Ioctl Cli.Cli Environ.Environ.

#[local] Open Scope Z_scope.

Module Main.

(** ** Dispatch *)

Inductive command :=
  | CStatus | CProtect (argv : list (list Z)) | CUnprotect (argv : list (list Z)) | CList
  | CScanPid (argv : list (list Z)) | CSyscalls | CModules | CVmcheck
  | CEvents (argv : list (list Z)) | CLock (lock : bool) | CStart (argv : list (list Z))
  | CHelp | CUnknown (name : list Z).

(** The usage text, line by line. *)
Definition usage (prog : list Z) : list (list Z) :=
  [concat [lit "usage: "; prog; lit " <command> [options]"];
   [];
   lit "  status                     kernel module status";
   lit "  protect --pid N [--ns-of REFPID] [--jit] | --comm NAME [--jit]";
   lit "  unprotect --pid N [--ns-of REFPID]";
   lit "  list                       list protected processes";
   lit "  scan --pid N [--ns-of REFPID] [--hash [--save|--check]] [--check-hooks] [--check-preload]";
   lit "           [--check-vklayers] [--check-implicit-layers]";
   lit "  syscalls                   verify syscall table integrity";
   lit "  modules                    kernel module list + hidden module check";
   lit "  vmcheck                    VM/hypervisor detection (heuristic)";
   lit "  events [--watch]           dump security events";
   lit "  lock | unlock              pin / unpin the kernel module";
   lit "  start [--foreground]       run the monitoring daemon";
   [];
   lit "All commands except 'start' may also require root."].

Definition dispatch (cmd : list Z) (argv : list (list Z)) : command :=
  if streq cmd (lit "status") then CStatus
  else if streq cmd (lit "protect") then CProtect argv
  else if streq cmd (lit "unprotect") then CUnprotect argv
  else if streq cmd (lit "list") then CList
  else if streq cmd (lit "scan") then CScanPid argv
  else if streq cmd (lit "syscalls") then CSyscalls
  else if streq cmd (lit "modules") then CModules
  else if streq cmd (lit "vmcheck") then CVmcheck
  else if streq cmd (lit "events") then CEvents argv
  else if streq cmd (lit "lock") then CLock true
  else if streq cmd (lit "unlock") then CLock false
  else if streq cmd (lit "start") then CStart argv
  else if streq cmd (lit "help") || streq cmd (lit "--help") || streq cmd (lit "-h") then CHelp
  else CUnknown cmd.

(** [main]: the exit status and the lines on the two streams; [run] stands for
    the commands. *)
Definition main (run : command -> Z * list (list Z) * list (list Z)) (euid : Z)
    (argv : list (list Z)) : Z * list (list Z) * list (list Z) :=
  let prog := default [] (argv !! 0%nat) in
  let cmd := default (lit "help") (argv !! 1%nat) in
  let warn :=
    if negb (euid =? 0) && negb (streq cmd (lit "help"))
    then [lit "warning: this tool is designed to run as root"] else [] in
  let '(code, out, err) :=
    match dispatch cmd (drop 2 argv) with
    | CHelp => (0, usage prog, [])
    | CUnknown name =>
        (1, usage prog, [concat [lit "unknown command '"; name; lit "'"]; []])
    | c => run c
    end in
  (code, out, warn ++ err).

(** ** [events --watch] *)

Section watch.
Context `{!TaskEnv, !ModuleEnv, !KernelEnv}.

(** One turn of the loop; the exit status when it ends the command. *)
Definition events_turn (e : call_env) (err : list Z) (clock_text : Z -> option (list Z))
    (watch : bool) (v : dev_st) : option Z * list (list Z) * list (list Z) * dev_st :=
  match ac_ioctl e AC_IOCTL_GET_EVENTS (mk_in None None None (Some zero_list)) v None with
  | (_, v', _, Some (REvents el)) =>
      let '(n, warn) := clamp_event_count (Z.of_nat (el_count el)) in
      (if watch then None else Some 0,
       (print_event clock_text <$> take (Z.to_nat n) (el_events el))
         ++ (if el_dropped el =? 0 then []
             else [concat [lit "(ring dropped "; fmt_u (el_dropped el); lit " events)"]]),
       m_text <$> warn, v')
  | (_, v', _, _) => (Some 1, [], [ioctl_failed AC_IOCTL_GET_EVENTS err], v')
  end.

(** The loop, [envs] the kernel at each turn and [other] what the rest of the
    system does to the module in between; [None] while it still runs. *)
Fixpoint events_loop (envs : list call_env) (other : dev_st -> dev_st) (err : list Z)
    (clock_text : Z -> option (list Z)) (watch : bool) (v : dev_st)
    : option Z * list (list Z) * list (list Z) * dev_st :=
  match envs with
  | [] => (None, [], [], v)
  | e :: envs' =>
      let '(code, out, errs, v1) := events_turn e err clock_text watch v in
      match code with
      | Some c => (Some c, out, errs, v1)
      | None =>
          let '(code', out', errs', v2) :=
            events_loop envs' other err clock_text watch (other v1) in
          (code', out ++ out', errs ++ errs', v2)
      end
  end.

Definition is_watch (argv : list (list Z)) : bool :=
  existsb (fun a => streq a (lit "--watch")) argv.

(** [cmd_events] on the whole: the device is opened first. *)
Definition cmd_events_watch (e0 : call_env) (envs : list call_env) (other : dev_st -> dev_st)
    (err : list Z) (clock_text : Z -> option (list Z)) (argv : list (list Z)) (v : dev_st)
    : option Z * list (list Z) * list (list Z) * dev_st :=
  if fst (ac_open e0 None) <? 0 then
    (Some 1, [],
     [concat [lit "cannot open /dev/anticheat: "; err;
        lit " (is the module loaded? try: sudo insmod anticheat.ko)"]], v)
  else events_loop envs other err clock_text (is_watch argv) v.

End watch.

(** ** The background process *)

Record fork_env := mk_fork_env {
  fe_pipe : bool;
  fe_first : bool;                 (** the first fork succeeds *)
  fe_second : option Z;            (** the second one: the daemon's process *)
  fe_write : bool;                 (** the pid goes through the pipe whole *)
  fe_errno : list Z;
}.

(** What the process that was started prints and exits with, and the daemon
    left running, if any.  [die] in the first child exits that child, and its
    end of the pipe closes unwritten. *)
Definition daemonize (e : fork_env) : Z * list (list Z) * list (list Z) * option Z :=
  if negb (fe_pipe e) then (1, [], [lit "pipe: " ++ fe_errno e], None)
  else if negb (fe_first e) then (1, [], [lit "fork: " ++ fe_errno e], None)
  else
    let failed := lit "anticheat: daemon failed to start" in
    match fe_second e with
    | None => (1, [], [lit "fork: " ++ fe_errno e; failed], None)
    | Some pid =>
        if fe_write e && (0 <? pid)
        then (0, [concat [lit "anticheat daemon started (pid "; fmt_d pid; lit ")"]], [], Some pid)
        else (1, [], [failed], Some pid)
    end.

(** ** The home directory of a process *)

(** [sscanf(line, "Uid: %lu", &v)]. *)
Definition scan_uid (l : list Z) : option Z :=
  if Report.starts_with (lit "Uid:") l then
    let '(neg, t) := sign (skip_space (drop 4 l)) in
    match some_digits decval 10 t with
    | Some (n, _) =>
        Some (if 2 ^ 64 <=? n then 2 ^ 64 - 1 else u64 (if neg then - n else n))
    | None => None
    end
  else None.

(** The first line of the status that gives it, in pieces of 255 bytes. *)
Fixpoint uid_loop (fuel : nat) (s : list Z) : option Z :=
  match fuel, s with
  | S f, _ :: _ =>
      let '(l, rest) := fgets_n 255 s in
      match scan_uid (cstr l) with
      | Some v => Some (u32 v)
      | None => uid_loop f rest
      end
  | _, _ => None
  end.

(** [status]: the contents of /proc/<pid>/status; [getpw]: the directory of the
    entry [getpwuid_r] finds. *)
Definition ac_resolve_pid_home (status : option (list Z)) (getpw : Z -> option (list Z))
    (homesz : nat) : option (list Z) :=
  match status with
  | None => None
  | Some s =>
      match uid_loop (length s) s with
      | None => None
      | Some uid =>
          if uid =? 4294967295 then None else strscpy homesz <$> getpw uid
      end
  end.

(** The directories searched for layer manifests. *)
Definition layer_dirs (home : option (list Z)) : list (list Z) :=
  match home with
  | Some h => [h ++ lit "/.config/vulkan/implicit_layer.d";
               h ++ lit "/.local/share/vulkan/implicit_layer.d"]
  | None => []
  end
  ++ [lit "/etc/vulkan/implicit_layer.d"; lit "/usr/local/etc/vulkan/implicit_layer.d";
      lit "/usr/share/vulkan/implicit_layer.d"; lit "/usr/local/share/vulkan/implicit_layer.d"].

(** The layers active for a process, from its status, the password database,
    the directories and its environment. *)
Definition process_layers (status : option (list Z)) (getpw : Z -> option (list Z))
    (readdir : list Z -> list dirent) (environ : option (list Z)) : list ac_implicit_layer :=
  ac_scan_active_implicit_layers
    (readdir <$> layer_dirs (ac_resolve_pid_home status getpw Baseline.Baseline.PATH_MAX)) environ.

(** ** Dispatch is total *)

Definition command_names : list (list Z) :=
  [lit "status"; lit "protect"; lit "unprotect"; lit "list"; lit "scan"; lit "syscalls";
   lit "modules"; lit "vmcheck"; lit "events"; lit "lock"; lit "unlock"; lit "start";
   lit "help"; lit "--help"; lit "-h"].

Theorem unknown_exactly cmd argv :
  dispatch cmd argv = CUnknown cmd <-> cmd ∉ command_names.
Proof.
  unfold dispatch, command_names. rewrite !not_elem_of_cons.
  repeat match goal with |- context [streq cmd ?l] => destruct (streq_spec cmd l) end;
    cbn [orb]; split; intros Hd; try done; try (by split_and!; try done; apply not_elem_of_nil);
    naive_solver.
Qed.

(** ** Without [--watch] the loop is the one-shot command *)

Section once.
Context `{!TaskEnv, !ModuleEnv, !KernelEnv}.

Theorem events_once e envs other err clock_text argv v :
  is_watch argv = false ->
  cmd_events_watch e (e :: envs) other err clock_text argv v =
  let '(code, out, errs, v') := cmd_events e err clock_text v in (Some code, out, errs, v').
Proof.
  unfold cmd_events_watch, cmd_events, with_device. intros ->. case_test; [done|].
  cbn [events_loop]. unfold events_turn.
  destruct (ac_ioctl _ _ _ _ _) as [[[ret v'] pd] [[]|]]; try done.
  by destruct (clamp_event_count _).
Qed.

(** With it, the command goes on until a request fails, and its output is that
    of the turns in order. *)
Theorem events_watch_ends envs other err clock_text v code out errs v' :
  events_loop envs other err clock_text true v = (code, out, errs, v') ->
  code = None \/ (code = Some 1 /\ exists pre, errs = pre ++ [ioctl_failed AC_IOCTL_GET_EVENTS err]).
Proof.
  revert v code out errs v'. induction envs as [|e envs IH]; intros v code out errs v'; cbn [events_loop].
  { intros [= <- _ _ _]. by left. }
  unfold events_turn.
  destruct (ac_ioctl _ _ _ _ _) as [[[ret v1] pd] [[]|]];
    try (intros [= <- _ <- _]; right; split; [done|by exists []]).
  destruct (clamp_event_count _) as [n warn].
  destruct (events_loop envs other err clock_text true (other v1)) as [[[code' out'] errs'] v2] eqn:Hl.
  intros [= <- _ <- _]. apply IH in Hl as [->|(-> & pre & ->)]; [by left|right].
  split; [done|]. eexists. by rewrite app_assoc.
Qed.

End once.

(** ** The pid printed is the daemon's *)

Theorem started_pid_is_daemon e code out errs d :
  daemonize e = (code, out, errs, d) ->
  (code = 0 /\ exists pid, d = Some pid /\ 0 < pid /\ errs = [] /\
     out = [concat [lit "anticheat daemon started (pid "; fmt_d pid; lit ")"]]) \/
  (code = 1 /\ out = [] /\ errs <> [] /\
     (d <> None -> fe_write e = false \/ exists pid, d = Some pid /\ pid <= 0)).
Proof.
  unfold daemonize. destruct (fe_pipe e); cbn; [|intros [= <- <- <- <-]; by right].
  destruct (fe_first e); cbn; [|intros [= <- <- <- <-]; by right].
  destruct (fe_second e) as [pid|]; [|intros [= <- <- <- <-]; by right].
  destruct (fe_write e); cbn [andb]; [|intros [= <- <- <- <-]; right; split_and!; auto; done].
  destruct (Z.ltb_spec 0 pid); intros [= <- <- <- <-]; [left|right].
  - split; [done|]. by exists pid.
  - split_and!; try done. intros _. right. exists pid. split; [done|lia].
Qed.

(** ** The uid of a process *)

Lemma uid_loop_skip l s fuel :
  (length l < 255)%nat -> Forall (fun c => c <> 10) l -> scan_uid (cstr (l ++ [10])) = None ->
  uid_loop (S fuel) (l ++ 10 :: s) = uid_loop fuel s.
Proof.
  intros Hl Hn Hs. cbn [uid_loop]. destruct (l ++ 10 :: s) as [|c t] eqn:E; [by destruct l|].
  rewrite <- E, fgets_line by done. by rewrite Hs.
Qed.

Lemma scan_uid_line n rest :
  0 <= n < 2 ^ 32 -> scan_uid (lit "Uid:" ++ 9 :: fmt_u n ++ 9 :: rest) = Some n.
Proof.
  intros Hn. unfold scan_uid.
  assert (Report.starts_with (lit "Uid:") (lit "Uid:" ++ 9 :: fmt_u n ++ 9 :: rest) = true) as ->.
  { apply Report.starts_with_spec. by eexists. }
  change (drop 4 (lit "Uid:" ++ ?t)) with t. cbn [skip_space]. change (isspace 9) with true. cbn iota.
  destruct (fmt_base_digits 10 decval ltac:(lia) digit_char_decval 20 n ltac:(lia) ltac:(lia))
    as (ds & Hne & Hall & _ & Heq & Hread).
  unfold fmt_u. rewrite Heq, app_nil_r. destruct ds as [|d ds]; [done|].
  pose proof Hall as Hall'. apply Forall_cons_1 in Hall' as [Hd _].
  pose proof (digit_of_10 d Hd) as Hr. cbn [app].
  assert (skip_space (d :: ds ++ 9 :: rest) = d :: ds ++ 9 :: rest) as ->.
  { cbn [skip_space]. unfold isspace. rewrite (proj2 (Z.eqb_neq d 32)), (proj2 (Z.leb_gt d 13)) by lia.
    by rewrite andb_false_r. }
  assert (sign (d :: ds ++ 9 :: rest) = (false, d :: ds ++ 9 :: rest)) as ->.
  { unfold sign. destruct d as [|q|q]; try lia. repeat (destruct q as [q|q|]; try done; try lia). }
  unfold some_digits.
  assert (decval d = Some (d - 48)) as -> by (unfold decval, isdigit; rewrite !(proj2 (Z.leb_le _ _)) by lia; done).
  change (d :: ds ++ 9 :: rest) with ((d :: ds) ++ 9 :: rest). rewrite Hread.
  cbn [digits]. change (decval 9) with (@None Z). cbn iota.
  rewrite (proj2 (Z.leb_gt _ _)) by lia. f_equal. rewrite u64_id by lia. lia.
Qed.

(** The line the kernel writes: the real uid and the three others. *)
Definition uid_line (n : Z) (rest : list Z) : list Z := lit "Uid:" ++ 9 :: fmt_u n ++ 9 :: rest.

Lemma uid_line_found fuel n rest tail :
  0 <= n < 2 ^ 32 -> Forall (fun c => c <> 10 /\ c <> 0) rest -> (length rest < 200)%nat ->
  uid_loop (S fuel) (uid_line n rest ++ 10 :: tail) = Some n.
Proof.
  intros Hn Hrest Hlen. pose proof (length_fmt_u n) as H20.
  assert (Forall (fun c => c <> 10 /\ c <> 0) (uid_line n rest)) as Hc.
  { apply list.Forall_app. split; [by repeat constructor|]. constructor; [done|].
    apply list.Forall_app. split; [|by constructor].
    apply (list.Forall_impl _ _ _ (fmt_u_chars n)). cbn beta. lia. }
  cbn [uid_loop]. destruct (uid_line n rest ++ 10 :: tail) as [|c t] eqn:E; [done|].
  rewrite <- E, fgets_line.
  - rewrite cstr_id.
    + unfold uid_line. rewrite <- app_assoc. cbn [app]. rewrite <- app_assoc. cbn [app].
      rewrite scan_uid_line by lia. by rewrite u32_id by lia.
    + apply list.Forall_app. split; [|by repeat constructor].
      apply (list.Forall_impl _ _ _ Hc). naive_solver.
  - unfold uid_line. rewrite length_app. cbn [length]. rewrite length_app. cbn [length].
    change (length (lit "Uid:")) with 4%nat. lia.
  - apply (list.Forall_impl _ _ _ Hc). naive_solver.
Qed.

(** A line before it: short enough for the buffer and not itself a uid. *)
Definition other_line (l : list Z) : Prop :=
  (length l < 255)%nat /\ Forall (fun c => c <> 10) l /\ scan_uid (cstr (l ++ [10])) = None.

Lemma uid_loop_found pre n rest tail fuel :
  Forall other_line pre -> 0 <= n < 2 ^ 32 ->
  Forall (fun c => c <> 10 /\ c <> 0) rest -> (length rest < 200)%nat -> (length pre < fuel)%nat ->
  uid_loop fuel (concat ((fun l => l ++ [10]) <$> pre) ++ uid_line n rest ++ 10 :: tail) = Some n.
Proof.
  intros Hpre Hn Hrest Hlen. revert fuel.
  induction Hpre as [|x pre (Hx & Hnl & Hs) _ IH]; intros fuel Hf; (destruct fuel as [|fuel]; [cbn in Hf; lia|]).
  - by apply uid_line_found.
  - cbn [fmap list_fmap concat]. rewrite <- !app_assoc. cbn [app]. rewrite uid_loop_skip by done.
    apply IH. cbn in Hf. lia.
Qed.

Lemma lines_length (p : list (list Z)) :
  (length p <= length (concat ((fun l => l ++ [10%Z]) <$> p)))%nat.
Proof. induction p as [|x p IH]; [done|]. cbn. rewrite !length_app. cbn. lia. Qed.

(** The real uid of /proc/<pid>/status is found behind any other lines, and the
    directory is that of its password entry. *)
Theorem home_of_uid pre n rest tail getpw dir homesz :
  Forall other_line pre -> 0 <= n < 2 ^ 32 - 1 ->
  Forall (fun c => c <> 10 /\ c <> 0) rest -> (length rest < 200)%nat -> getpw n = Some dir ->
  ac_resolve_pid_home
    (Some (concat ((fun l => l ++ [10]) <$> pre) ++ uid_line n rest ++ 10 :: tail)) getpw homesz
  = Some (strscpy homesz dir).
Proof.
  intros Hpre Hn Hrest Hlen Hpw. unfold ac_resolve_pid_home. rewrite uid_loop_found; try done; [|lia|].
  - rewrite (proj2 (Z.eqb_neq _ _)) by lia. by rewrite Hpw.
  - pose proof (lines_length pre). rewrite !length_app. cbn. lia.
Qed.

End Main.
