(* ===== verification/Stop.v ===== *)
(** Signals and the end of the monitor loop (src/anticheat_daemon.c,
    [sig_handler] and [cmd_start]): the dispositions the daemon installs, and
    the loop as steps between which a signal may arrive at any point, with the
    time spent in the wait and the pause.  The steps refine
    [Daemon.monitor]. *)

From S2P Require Import Prelude CText Abi DLog Monitor Daemon.
Import DLog.DLog Daemon.Daemon.

#[local] Open Scope Z_scope.

Module Stop.

(** ** Dispositions *)

Definition SIGHUP : Z := 1.
Definition SIGINT : Z := 2.
Definition SIGPIPE : Z := 13.
Definition SIGTERM : Z := 15.

(** The signals whose default action does not terminate: SIGCHLD, SIGCONT, the
    four that suspend, SIGURG and SIGWINCH. *)
Definition harmless (sig : Z) : bool := bool_decide (sig ∈ [17; 18; 19; 20; 21; 22; 23; 28]).

(** [Handle]: [sig_handler], with or without SA_RESTART. *)
Inductive action := Default | Ignore | Handle (restart : bool).

(** The daemon's attributes: what signals do, whether its memory may be read
    through /proc, and [g_stop]. *)
Record proc := mk_proc {
  p_disp : Z -> action;
  p_dumpable : bool;
  g_stop : bool;
}.

Definition set_action (sig : Z) (a : action) (p : proc) : proc :=
  mk_proc (fun s => if s =? sig then a else p_disp p s) (p_dumpable p) (g_stop p).

(** [prctl(PR_SET_DUMPABLE, 0)] of the background process, best effort. *)
Definition set_dumpable (foreground prctl_ok : bool) (p : proc) : proc :=
  mk_proc (p_disp p) (if foreground then p_dumpable p else p_dumpable p && negb prctl_ok)
    (g_stop p).

Definition install_signals (p : proc) : proc :=
  set_action SIGPIPE Ignore (set_action SIGHUP Ignore
    (set_action SIGINT (Handle false) (set_action SIGTERM (Handle false) p))).

Definition sig_handler (p : proc) : proc := mk_proc (p_disp p) (p_dumpable p) true.

(** ** The clock *)

(** [waited_ms] from two readings of the monotonic clock, in nanoseconds: the
    division truncates towards zero. *)
Definition waited_ms (t0 t1 : Z) : Z :=
  (t1 / 1000000000 - t0 / 1000000000) * 1000
  + Z.quot (t1 mod 1000000000 - t0 mod 1000000000) 1000000.

(** ** The loop *)

(** Where the loop is: before the test of [g_stop], past it, blocked in
    GET_EVENTS since a time and up to another, with its answer, in the round of
    checks of a turn, whose outcome is known, in the fallback pause up to a
    time, out of the loop; or terminated by a signal. *)
Inductive pc :=
  | Top | Calling | Waiting (since limit : Z) | Got (t : turn)
  | Checking (t : turn) (r : list msg * list check * daemon_st) | Pausing (till : Z)
  | Stopped | Killed.

Record st := mk_st {
  s_pc : pc;
  s_proc : proc;
  s_now : Z;
  s_blocked : Z;                              (** time in the wait and the pause since
                                                  [g_stop] was set *)
  s_bodies : nat;                             (** rounds of checks that ran since then,
                                                  that under way included *)
  s_ds : daemon_st;
  s_log : list (list msg * list check);
  s_turns : list turn;                        (** the turns run *)
  s_sigs : list Z;                            (** the signals that arrived *)
}.

Definition init (p : proc) (now : Z) : st := mk_st Top p now 0 0 daemon_init [] [] [].

(** At another point, after [dt] of which [blocked] tells whether it was spent
    in the wait or the pause. *)
Definition goto (q : pc) (dt : Z) (blocked : bool) (s : st) : st :=
  mk_st q (s_proc s) (s_now s + dt)
    (s_blocked s + if g_stop (s_proc s) && blocked then dt else 0) (s_bodies s)
    (s_ds s) (s_log s) (s_turns s) (s_sigs s).

(** The handler runs; a round of checks under way is the first since. *)
Definition handled (s : st) : st :=
  mk_st (s_pc s) (sig_handler (s_proc s)) (s_now s) (s_blocked s)
    (match s_pc s with
     | Checking _ _ => if g_stop (s_proc s) then s_bodies s else S (s_bodies s)
     | _ => s_bodies s
     end) (s_ds s) (s_log s) (s_turns s) (s_sigs s).

Definition note (sig : Z) (s : st) : st :=
  mk_st (s_pc s) (s_proc s) (s_now s) (s_blocked s) (s_bodies s) (s_ds s) (s_log s) (s_turns s)
    (s_sigs s ++ [sig]).

(** The turn with [g_stop] as the test after the call reads it. *)
Definition with_stop (b : bool) (t : turn) : turn :=
  mk_turn (tn_events t) (tn_waited t) b (tn_drops_now t) (tn_now t) (tn_errno t) (tn_check t)
    (tn_mods_begin t) (tn_mods_get t) (tn_proc_modules t) (tn_list t) (tn_begin t)
    (tn_files t) (tn_dir t) (tn_view t) (tn_render t) (tn_environ t) (tn_layers t)
    (tn_interval t).

(** The round of checks begins. *)
Definition begin_checks (t : turn) (r : list msg * list check * daemon_st) (s : st) : st :=
  mk_st (Checking t r) (s_proc s) (s_now s) (s_blocked s)
    (if g_stop (s_proc s) then S (s_bodies s) else s_bodies s) (s_ds s) (s_log s) (s_turns s)
    (s_sigs s).

(** It ends, having taken [dt], with its log and the pause that follows. *)
Definition end_checks (t : turn) (r : list msg * list check * daemon_st) (dt : Z) (s : st) : st :=
  let '(ms, ran, ds) := r in
  mk_st (Pausing (s_now s + dt + pause t * 1000)) (s_proc s) (s_now s + dt) (s_blocked s)
    (s_bodies s) ds (s_log s ++ [(ms, ran)]) (s_turns s ++ [t]) (s_sigs s).

(** What the loop does by itself. *)
Inductive move : st -> st -> Prop :=
  | move_stop s : s_pc s = Top -> g_stop (s_proc s) = true -> move s (goto Stopped 0 false s)
  | move_enter s : s_pc s = Top -> g_stop (s_proc s) = false -> move s (goto Calling 0 false s)
  | move_block s : s_pc s = Calling ->
      move s (goto (Waiting (s_now s) (s_now s + AC_MONITOR_BLOCK_MS * 1000000)) 0 false s)
  | move_return s t0 lim dt t : s_pc s = Waiting t0 lim -> 0 <= dt -> s_now s + dt <= lim ->
      tn_waited t = waited_ms t0 (s_now s + dt) -> move s (goto (Got t) dt true s)
  | move_break s t : s_pc s = Got t -> monitor_turn (with_stop (g_stop (s_proc s)) t) (s_ds s) = None ->
      move s (goto Stopped 0 false s)
  | move_check s t r : s_pc s = Got t ->
      monitor_turn (with_stop (g_stop (s_proc s)) t) (s_ds s) = Some r ->
      move s (begin_checks (with_stop (g_stop (s_proc s)) t) r s)
  | move_checked s t r dt : s_pc s = Checking t r -> 0 <= dt -> move s (end_checks t r dt s)
  | move_resume s till : s_pc s = Pausing till ->
      move s (goto Top (Z.max 0 (till - s_now s)) true s).

(** A signal.  A handled one interrupts the pause, and the wait unless the call
    is restarted; a fatal one ends the process. *)
Inductive signal (sig : Z) : st -> st -> Prop :=
  | sig_ignored s :
      p_disp (s_proc s) sig = Ignore \/ p_disp (s_proc s) sig = Default /\ harmless sig = true ->
      signal sig s s
  | sig_fatal s : p_disp (s_proc s) sig = Default -> harmless sig = false -> s_pc s <> Stopped ->
      signal sig s (goto Killed 0 false s)
  | sig_running s rs : p_disp (s_proc s) sig = Handle rs ->
      match s_pc s with Top | Calling | Got _ | Checking _ _ => True | _ => False end ->
      signal sig s (handled s)
  | sig_interrupts s t0 lim dt t : p_disp (s_proc s) sig = Handle false ->
      s_pc s = Waiting t0 lim -> 0 <= dt -> s_now s + dt <= lim -> tn_events t = None ->
      tn_waited t = waited_ms t0 (s_now s + dt) ->
      signal sig s (handled (goto (Got t) dt true s))
  | sig_restarts s t0 lim dt : p_disp (s_proc s) sig = Handle true ->
      s_pc s = Waiting t0 lim -> 0 <= dt -> s_now s + dt <= lim ->
      signal sig s (handled
        (goto (Waiting t0 (s_now s + dt + AC_MONITOR_BLOCK_MS * 1000000)) dt true s))
  | sig_wakes s rs till dt : p_disp (s_proc s) sig = Handle rs ->
      s_pc s = Pausing till -> 0 <= dt -> s_now s + dt <= till ->
      signal sig s (handled (goto Top dt true s)).

Definition step (s s' : st) : Prop :=
  move s s' \/ exists sig s1, signal sig s s1 /\ s' = note sig s1.

(** ** Blocking *)

Lemma waited_floor t0 t1 :
  t0 <= t1 -> 0 <= waited_ms t0 t1 /\ t1 - t0 < (waited_ms t0 t1 + 1) * 1000000.
Proof. intros Ht. unfold waited_ms. Z.to_euclidean_division_equations. lia. Qed.

Lemma pause_bound t :
  0 <= tn_waited t -> pause t = 0 \/
  tn_waited t < AC_MONITOR_BLOCK_MS /\ pause t = (AC_MONITOR_BLOCK_MS - tn_waited t) * 1000.
Proof.
  intros Hw. unfold pause, AC_MONITOR_BLOCK_MS.
  destruct (_ && _) eqn:E; [right|by left]. apply andb_true_iff in E as [_ E%Z.ltb_lt].
  split; [done|]. by rewrite !u32_id by (rewrite ?u32_id; lia).
Qed.

(** A turn with nothing fetched and [g_stop] set is not run. *)
Lemma interrupted_breaks t s : tn_events t = None -> monitor_turn (with_stop true t) s = None.
Proof. intros He. unfold monitor_turn. cbn. by rewrite He. Qed.

(** What is left of the second at each point, and that the dispositions are
    those installed.  A round of checks is followed by the pause its wait
    leaves. *)
Definition limit_ns : Z := 1001 * 1000000.

Definition installed (p : proc) : Prop :=
  p_disp p SIGTERM = Handle false /\ p_disp p SIGINT = Handle false /\
  p_disp p SIGHUP = Ignore /\ p_disp p SIGPIPE = Ignore /\
  forall sig rs, p_disp p sig = Handle rs -> rs = false /\ (sig = SIGTERM \/ sig = SIGINT).

Definition inv (s : st) : Prop :=
  installed (s_proc s) /\ 0 <= s_blocked s /\
  (g_stop (s_proc s) = false -> s_blocked s = 0 /\ s_bodies s = 0%nat) /\
  (g_stop (s_proc s) = true -> SIGTERM ∈ s_sigs s \/ SIGINT ∈ s_sigs s) /\
  match s_pc s with
  | Top | Stopped | Killed => s_blocked s <= limit_ns /\ (s_bodies s <= 1)%nat
  | Calling => s_blocked s = 0 /\ s_bodies s = 0%nat
  | Waiting t0 lim =>
      s_blocked s <= s_now s - t0 /\ s_bodies s = 0%nat /\ s_now s <= lim /\
      lim = t0 + AC_MONITOR_BLOCK_MS * 1000000
  | Got t =>
      0 <= tn_waited t /\ s_blocked s < (tn_waited t + 1) * 1000000 /\
      s_blocked s <= AC_MONITOR_BLOCK_MS * 1000000 /\ s_bodies s = 0%nat
  | Checking t _ =>
      s_blocked s + Z.max 0 (pause t * 1000) <= limit_ns /\ (s_bodies s <= 1)%nat /\
      (g_stop (s_proc s) = true -> s_bodies s = 1%nat)
  | Pausing till =>
      s_blocked s + Z.max 0 (till - s_now s) <= limit_ns /\ (s_bodies s <= 1)%nat
  end.

(** Evaluate a step, decide [g_stop], and leave the arithmetic to [lia]. *)
Ltac step_inv :=
  cbn [goto begin_checks end_checks handled note sig_handler s_pc s_proc s_now s_blocked s_bodies
       s_sigs g_stop p_disp] in *;
  try match goal with
  | Hz : g_stop (s_proc ?s) = false -> _ |- _ =>
      destruct (g_stop (s_proc s)) eqn:?; [clear Hz|destruct (Hz eq_refl)]
  end;
  cbn [andb] in *; unfold limit_ns, AC_MONITOR_BLOCK_MS in *; split_and!; try done; try lia.

Lemma pause_with_stop b t : pause (with_stop b t) = pause t.
Proof. done. Qed.

Lemma move_inv s s' : move s s' -> inv s -> inv s'.
Proof.
  intros Hm (Hi & Hb & Hz & Hg & Hp).
  destruct Hm as [s Hpc Hs|s Hpc Hs|s Hpc|s t0 lim dt t Hpc Hdt Hlim Hw|s t Hpc Hn|s t r Hpc Hr
    |s t r dt Hpc Hdt|s till Hpc]; rewrite Hpc in Hp; unfold inv.
  - step_inv.
  - step_inv.
  - step_inv.
  - destruct Hp as (Hp1 & Hp2 & Hp3 & Hp4).
    pose proof (waited_floor t0 (s_now s + dt) ltac:(lia)). rewrite <- Hw in *.
    step_inv.
  - destruct Hp as (Hp1 & Hp2 & Hp3 & Hp4). step_inv.
  - destruct Hp as (Hp1 & Hp2 & Hp3 & Hp4).
    destruct (pause_bound t Hp1) as [Hpa|[Hpl Hpa]]; step_inv; rewrite pause_with_stop; lia.
  - destruct r as [[ms ran] ds]. destruct Hp as (Hp1 & Hp2 & Hp3). step_inv.
  - destruct Hp as [Hp1 Hp2]. step_inv.
Qed.

Lemma note_inv sig s : inv s -> inv (note sig s).
Proof.
  intros (Hi & Hb & Hz & Hg & Hp). split_and!; try done.
  intros Hs. cbn. rewrite !elem_of_app. destruct (Hg Hs); auto.
Qed.

(** The signal is not yet noted when the handler has set [g_stop]. *)
Lemma signal_inv sig s s' : signal sig s s' -> inv s -> inv (note sig s').
Proof.
  intros Hm (Hi & Hb & Hz & Hg & Hp).
  assert (forall rs, p_disp (s_proc s) sig = Handle rs ->
    SIGTERM ∈ s_sigs s ++ [sig] \/ SIGINT ∈ s_sigs s ++ [sig]) as Hsig.
  { intros rs Hd. destruct Hi as (_ & _ & _ & _ & Hi).
    destruct (Hi sig rs Hd) as [_ [-> | ->]]; [left|right]; apply elem_of_app; right; left. }
  destruct Hm as [s _|s Hd Hh Hns|s rs Hd Hpc|s t0 lim dt t Hd Hpc Hdt Hlim He Hw|s t0 lim dt Hd
    |s rs till dt Hd Hpc Hdt Hlim].
  - by apply note_inv.
  - apply note_inv. unfold inv. destruct (s_pc s) as [| | | |t r| | |] eqn:E; step_inv.
  - specialize (Hsig rs Hd). unfold inv.
    destruct (s_pc s) as [| | | |t r| | |] eqn:E; try done;
      cbn [note handled s_pc s_bodies]; rewrite E; step_inv; rewrite ?E; (lia || auto with lia).
  - specialize (Hsig false Hd). unfold inv.
    rewrite Hpc in Hp. destruct Hp as (Hp1 & Hp2 & Hp3 & Hp4).
    pose proof (waited_floor t0 (s_now s + dt) ltac:(lia)). rewrite <- Hw in *.
    step_inv.
  - destruct Hi as (_ & _ & _ & _ & Hi). by destruct (Hi sig true Hd).
  - specialize (Hsig rs Hd). unfold inv. rewrite Hpc in Hp. destruct Hp as [Hp1 Hp2]. step_inv.
Qed.

(** ** Refinement of the monitor loop *)

Lemma monitor_snoc ts : forall s0 log ds t ms ran ds',
  monitor ts s0 = (log, ds) -> length log = length ts ->
  monitor_turn t ds = Some (ms, ran, ds') ->
  monitor (ts ++ [t]) s0 = (log ++ [(ms, ran)], ds').
Proof.
  induction ts as [|t0 ts IH]; intros s0 log ds t ms ran ds' Hm Hl Ht; cbn [monitor app] in *.
  - injection Hm as <- <-. by rewrite Ht.
  - destruct (monitor_turn t0 s0) as [[[ms0 ran0] s1]|]; [|by injection Hm as <- <-].
    destruct (monitor ts s1) as [log1 ds1] eqn:E. injection Hm as <- <-.
    rewrite (IH s1 log1 ds1 t ms ran ds' E) by (done || by injection Hl). done.
Qed.

(** The log is the monitor's on the turns run; the loop is only left on
    request. *)
Definition refines (s : st) : Prop :=
  monitor (s_turns s) daemon_init = (s_log s, s_ds s) /\ length (s_log s) = length (s_turns s) /\
  (s_pc s = Stopped -> g_stop (s_proc s) = true) /\
  (forall t r, s_pc s = Checking t r -> monitor_turn t (s_ds s) = Some r).

Lemma break_requested t s : monitor_turn t s = None -> tn_stop t = true.
Proof.
  unfold monitor_turn. destruct (tn_stop t); [done|]. rewrite andb_false_r.
  by destruct (drain_turn t s).
Qed.

Lemma move_refines s s' : move s s' -> refines s -> refines s'.
Proof.
  intros Hm (Hr & Hl & Hs & Hc). unfold refines.
  destruct Hm as [s Hpc Hg|s Hpc Hg|s Hpc|s t0 lim dt t Hpc Hdt Hlim Hw|s t Hpc Hn|s t r Hpc Ht
    |s t r dt Hpc Hdt|s till Hpc]; cbn; try by split_and!.
  - split_and!; [done|done| |done]. intros _. exact (break_requested _ _ Hn).
  - split_and!; [done|done|done|]. by intros ? ? [= <- <-].
  - specialize (Hc t r Hpc). destruct r as [[ms ran] ds]. cbn.
    split_and!; [by eapply monitor_snoc|rewrite !length_app; cbn; lia|done|done].
Qed.

Lemma signal_refines sig s s' : signal sig s s' -> refines s -> refines (note sig s').
Proof.
  intros Hm (Hr & Hl & Hs & Hc). unfold refines. destruct Hm; cbn; by split_and!.
Qed.

(** ** Stopping *)

(** Moves left once [g_stop] is set. *)
Definition rank (s : st) : nat :=
  match s_pc s with
  | Stopped | Killed => 0 | Top => 1 | Pausing _ => 2 | Checking _ _ => 3 | Got _ => 4
  | Waiting _ _ => 5 | Calling => 6
  end.

Lemma move_rank s s' : move s s' -> g_stop (s_proc s) = true -> (rank s' < rank s)%nat.
Proof.
  intros Hm Hg. unfold rank. destruct Hm as [s Hpc|s Hpc Hs|s Hpc|s ? ? ? ? Hpc|s ? Hpc|s t r Hpc
    |s t r dt Hpc|s ? Hpc]; rewrite Hpc; cbn; try lia; [congruence|].
  destruct r as [[? ?] ?]. cbn. lia.
Qed.

Lemma move_proc s s' : move s s' -> s_proc s' = s_proc s.
Proof. by destruct 1 as [| | | | | |s t [[? ?] ?] dt|]. Qed.

Lemma moves_rank n s s' :
  nsteps move n s s' -> g_stop (s_proc s) = true -> (n + rank s' <= rank s)%nat.
Proof.
  induction 1 as [s|n s s1 s' Hm Hn IH]; intros Hg; [done|].
  pose proof (move_rank s s1 Hm Hg). rewrite (move_proc s s1 Hm) in IH. specialize (IH Hg). lia.
Qed.

Lemma move_exists s : inv s -> rank s <> 0%nat -> exists s', move s s'.
Proof.
  intros (_ & _ & _ & _ & Hp) Hr. unfold rank in Hr.
  destruct (s_pc s) as [| |t0 lim|t|t r|till| |] eqn:E; try done.
  - destruct (g_stop (s_proc s)) eqn:Hg; eexists; [by apply move_stop|by apply move_enter].
  - eexists. by apply move_block.
  - destruct Hp as (_ & _ & Hlim & _).
    set (q := DaemonDemo.quiet_turn 0).
    eexists. apply (move_return s t0 lim 0 (mk_turn (tn_events q) (waited_ms t0 (s_now s + 0)) false 0 0 []
      (tn_check q) (tn_mods_begin q) (tn_mods_get q) (tn_proc_modules q) (tn_list q) (tn_begin q)
      (tn_files q) (tn_dir q) (tn_view q) (tn_render q) (tn_environ q) (tn_layers q)
      (tn_interval q))); [done|done|lia|done].
  - destruct (monitor_turn (with_stop (g_stop (s_proc s)) t) (s_ds s)) as [r|] eqn:Hm;
      eexists; [by apply (move_check s t r)|by apply (move_break s t)].
  - eexists. by apply (move_checked s t r 0).
  - eexists. by apply (move_resume s till).
Qed.

(** ** Property *)

(** How the process starts: no signal handled, [g_stop] clear. *)
Definition unhandled (p : proc) : Prop :=
  g_stop p = false /\ forall sig rs, p_disp p sig <> Handle rs.

Lemma install_installed p : unhandled p -> installed (install_signals p).
Proof.
  intros [_ Hp]. split_and!; try done. intros sig rs. cbn.
  destruct (Z.eqb_spec sig SIGPIPE); [done|]. destruct (Z.eqb_spec sig SIGHUP); [done|].
  destruct (Z.eqb_spec sig SIGINT); [naive_solver|].
  destruct (Z.eqb_spec sig SIGTERM); [naive_solver|]. by intros ?%Hp.
Qed.

Lemma reachable_invs p now s :
  unhandled p -> rtc step (init (install_signals p) now) s -> inv s /\ refines s.
Proof.
  intros Hp Hr. apply (rtc_invariant step (fun s => inv s /\ refines s) _ _ Hr).
  - split; [|done]. split; [by apply install_installed|]. destruct Hp as [Hp _]. cbn.
    rewrite Hp. unfold limit_ns. repeat split; done || lia.
  - intros x y [Hm|(sig & y' & Hm & ->)] [Hi Hf]; split;
      eauto using move_inv, move_refines, signal_inv, signal_refines.
Qed.

(** C30: the daemon stops when it is told to, and only then.  However signals
    interleave with the loop, its checks included, what it has logged is the
    monitor loop's log on the turns it ran; it leaves the loop only after
    SIGTERM or SIGINT has arrived.  From then on it spends at most 1.001
    seconds in the wait for events and the pause, runs at most one round of
    checks, that under way included, however long that takes, and is out of
    the loop after at most six further moves, one of which is always possible;
    and neither those two signals nor SIGHUP or the SIGPIPE of a report ends
    it in any other way. *)
Theorem daemon_stops p now s :
  unhandled p -> rtc step (init (install_signals p) now) s ->
  s_log s = fst (monitor (s_turns s) daemon_init) /\
  (s_pc s = Stopped -> g_stop (s_proc s) = true) /\
  (g_stop (s_proc s) = true ->
     (SIGTERM ∈ s_sigs s \/ SIGINT ∈ s_sigs s) /\
     s_blocked s <= limit_ns /\ (s_bodies s <= 1)%nat /\
     forall n s', nsteps move n s s' ->
       (n <= 6)%nat /\ (s_pc s' = Stopped \/ s_pc s' = Killed \/ exists s'', move s' s'')) /\
  (forall sig s', sig ∈ [SIGTERM; SIGINT; SIGHUP; SIGPIPE] -> signal sig s s' ->
     s_pc s' = Killed -> s_pc s = Killed).
Proof.
  intros Hp Hr. destruct (reachable_invs p now s Hp Hr) as [Hi (Hm & Hl & Hs & _)].
  rewrite Hm. split_and!; [done|done| |].
  - intros Hg. split_and!.
    + by apply Hi.
    + destruct Hi as (_ & _ & _ & _ & Hi). unfold limit_ns, AC_MONITOR_BLOCK_MS in *.
      destruct (s_pc s); lia.
    + destruct Hi as (_ & _ & _ & _ & Hi). destruct (s_pc s); lia.
    + intros n s' Hn. pose proof (moves_rank n s s' Hn Hg) as Hk. split.
      { assert (rank s <= 6)%nat by (unfold rank; destruct (s_pc s); lia). lia. }
      assert (inv s') as Hi'.
      { clear -Hn Hi. induction Hn; eauto using move_inv. }
      destruct (decide (rank s' = 0%nat)) as [Hz|Hz].
      * unfold rank in Hz. destruct (s_pc s'); try done; auto.
      * right. right. by apply move_exists.
  - intros sig s' Hsig Hst Hk. destruct Hi as ((H15 & H2 & H1 & H13 & _) & _).
    destruct Hst as [|s Hd| | | |]; cbn in Hk; try done; try (by destruct (s_pc s)).
    repeat (apply elem_of_cons in Hsig as [->|Hsig]; [congruence|]). by apply elem_of_nil in Hsig.
Qed.

End Stop.

(** SIGTERM half a second into the wait. *)
Module StopDemo.
Import Stop.

Definition fresh : proc := mk_proc (fun _ => Default) true false.
Definition start : st := init (install_signals (set_dumpable false true fresh)) 7000000000.

Definition waiting : st :=
  goto (Waiting 7000000000 8000000000) 0 false (goto Calling 0 false start).

Definition answer : turn :=
  mk_turn None 500 false 0 7 [] None None (fun _ => None) None (fun _ => None) (fun _ => None) ∅ []
    (tn_view (DaemonDemo.quiet_turn 7)) (tn_render (DaemonDemo.quiet_turn 7)) (fun _ => None)
    (fun _ => []) (fun _ => None).

Definition told : st :=
  note SIGTERM (handled (goto (Got answer) 500000000 true waiting)).

Lemma told_reachable : rtc step start told.
Proof.
  eapply rtc_l; [left; by apply move_enter|]. eapply rtc_l; [left; by apply move_block|].
  apply rtc_once. right. exists SIGTERM. eexists. split; [|reflexivity].
  by apply (sig_interrupts SIGTERM waiting 7000000000 8000000000 500000000 answer).
Qed.

Lemma daemon_stops_witness :
  s_log told = fst (monitor (s_turns told) daemon_init) /\
  (s_pc told = Stopped -> g_stop (s_proc told) = true) /\
  (g_stop (s_proc told) = true ->
     (SIGTERM ∈ s_sigs told \/ SIGINT ∈ s_sigs told) /\
     s_blocked told <= limit_ns /\ (s_bodies told <= 1)%nat /\
     forall n s', nsteps move n told s' ->
       (n <= 6)%nat /\ (s_pc s' = Stopped \/ s_pc s' = Killed \/ exists s'', move s' s'')) /\
  (forall sig s', sig ∈ [SIGTERM; SIGINT; SIGHUP; SIGPIPE] -> signal sig told s' ->
     s_pc s' = Killed -> s_pc told = Killed).
Proof.
  apply (daemon_stops (set_dumpable false true fresh) 7000000000 told).
  - split; [reflexivity|]. intros sig rs. discriminate.
  - exact told_reachable.
Defined.

(** The interrupted turn is not run: the next move leaves the loop. *)
Example told_stops : move told (goto Stopped 0 false told).
Proof. by apply (move_break told answer). Qed.

End StopDemo.
