(* ===== verification/Limiter.v ===== *)
(** The report server's request limiter (src/server/ac_server.py,
    [RateLimiter]): a sliding window per key in an insertion-ordered
    dictionary, with eviction of the least recently seen key and periodic
    removal of stale keys.

    The monotonic clock is a number of ticks ([Z]).  A thread reads it before
    it takes the limiter's lock, so calls of [allow] are sequential, in the
    order in which they get the lock, and take a reading that another thread's
    may be ahead of. *)

From stdpp Require Import sorting.
From S2P Require Import Prelude CText.

#[local] Open Scope Z_scope.

Module Limiter.

Notation key := (list Z).

(** [_hits]: the keys in insertion order with the times of their granted
    requests, oldest first. *)
Record limiter := mk_limiter {
  l_hits : list (key * list Z);
  l_last_prune : Z;
}.

Definition get (k : key) (h : list (key * list Z)) : option (list Z) :=
  snd <$> head (filter (fun e => e.1 = k) h).

Definition pop (k : key) (h : list (key * list Z)) : list (key * list Z) :=
  filter (fun e => e.1 <> k) h.

Section Ops.
Context (limit window : Z) (max_keys : nat).

(** [__init__]: [None] is the [ValueError]. *)
Definition new_limiter (now : Z) : option limiter :=
  if (max_keys <? 1)%nat then None else Some (mk_limiter [] now).

(** The [popleft] loop. *)
Fixpoint expire (now : Z) (dq : list Z) : list Z :=
  match dq with
  | t :: dq' => if window <=? now - t then expire now dq' else dq
  | [] => []
  end.

Definition stale (now : Z) (dq : list Z) : bool :=
  match list.last dq with
  | None => true
  | Some t => window <=? now - t
  end.

Definition prune (now : Z) (s : limiter) : limiter :=
  mk_limiter (filter (fun e => stale now e.2 = false) (l_hits s)) now.

Definition maybe_prune (now : Z) (s : limiter) : limiter :=
  if window <=? now - l_last_prune s then prune now s else s.

(** The key's deque and the dictionary without it: a new key evicts the
    first one when the table is full, a known key is taken out to be put
    back at the end. *)
Definition touch (k : key) (h : list (key * list Z))
    : list (key * list Z) * list Z :=
  match get k h with
  | None => (if (max_keys <=? length h)%nat then tail h else h, [])
  | Some dq => (pop k h, dq)
  end.

(** [now] was read before the lock; the rest is done under it. *)
Definition allow (now : Z) (k : key) (s : limiter) : bool * limiter :=
  let '(rest, dq) := touch k (l_hits s) in
  let dq := expire now dq in
  let put dq := maybe_prune now (mk_limiter (rest ++ [(k, dq)]) (l_last_prune s)) in
  if limit <=? Z.of_nat (length dq) then (false, put dq)
  else (true, put (dq ++ [now])).

(** A sequence of requests, each a time and a key. *)
Fixpoint run (reqs : list (Z * key)) (s : limiter) : list bool * limiter :=
  match reqs with
  | [] => ([], s)
  | (now, k) :: reqs' =>
      let '(b, s1) := allow now k s in
      let '(bs, s2) := run reqs' s1 in
      (b :: bs, s2)
  end.

(** ** Reference

    A limiter that forgets nothing: the granted requests of all time, a
    request granted when fewer than [limit] of its key's lie in the window. *)

Definition fresh (now t : Z) : bool := negb (window <=? now - t).

Definition times (k : key) (hist : list (Z * key)) : list Z :=
  fst <$> filter (fun e => e.2 = k) hist.

Definition in_window (now : Z) (ts : list Z) : list Z :=
  filter (fun t => fresh now t = true) ts.

Definition spec_allow (now : Z) (k : key) (hist : list (Z * key))
    : bool * list (Z * key) :=
  if limit <=? Z.of_nat (length (in_window now (times k hist)))
  then (false, hist) else (true, hist ++ [(now, k)]).

Fixpoint spec_run (reqs hist : list (Z * key)) : list bool * list (Z * key) :=
  match reqs with
  | [] => ([], hist)
  | (now, k) :: reqs' =>
      let '(b, h1) := spec_allow now k hist in
      let '(bs, h2) := spec_run reqs' h1 in
      (b :: bs, h2)
  end.

(** Times never go back from one lock to the next. *)
Fixpoint monotone (t0 : Z) (reqs : list (Z * key)) : Prop :=
  match reqs with
  | [] => True
  | (now, _) :: reqs' => t0 <= now /\ monotone now reqs'
  end.

(** The keys in the order they were last seen. *)
Fixpoint seen_order (reqs : list (Z * key)) (acc : list key) : list key :=
  match reqs with
  | [] => acc
  | (_, k) :: reqs' => seen_order reqs' (filter (fun k' => k' <> k) acc ++ [k])
  end.

(** ** The dictionary *)

Lemma get_None k h : get k h = None <-> k ∉ h.*1.
Proof.
  unfold get. rewrite fmap_None. split.
  - intros Hh (e & -> & He)%list_elem_of_fmap.
    assert (e ∈ filter (fun e' => e'.1 = e.1) h) as Hin by by apply list_elem_of_filter.
    destruct (filter _ h); [by apply elem_of_nil in Hin|done].
  - intros Hn. destruct (filter _ h) as [|e l] eqn:E; [done|].
    assert (e ∈ filter (fun e' => e'.1 = k) h) as [Hk He]%list_elem_of_filter
      by (rewrite E; left).
    destruct Hn. rewrite <- Hk. by apply list_elem_of_fmap_2.
Qed.

Lemma pop_keys k h : (pop k h).*1 = filter (fun k' => k' <> k) h.*1.
Proof.
  unfold pop. induction h as [|[k' dq] h IH]; [done|].
  cbn [fmap list_fmap fst]. rewrite !filter_cons. cbn [fst].
  case_decide; cbn [fmap list_fmap fst]; [by f_equal|done].
Qed.

Lemma get_pop_ne k k' h : k' <> k -> get k' (pop k h) = get k' h.
Proof.
  intros Hne. unfold get, pop. rewrite list_filter_filter. do 2 f_equal.
  apply list_filter_iff. intros e. naive_solver.
Qed.

Lemma get_app k h h' :
  get k (h ++ h') = match get k h with Some dq => Some dq | None => get k h' end.
Proof. unfold get. rewrite list.filter_app. by destruct (filter _ h). Qed.

Lemma get_filter_Some k h (P : key * list Z -> Prop) `{!∀ e, Decision (P e)} dq :
  NoDup h.*1 ->
  get k (filter P h) = Some dq <-> get k h = Some dq /\ P (k, dq).
Proof.
  unfold get. induction h as [|[k' dq'] h IH]; intros Hnd; [naive_solver|].
  cbn [fmap list_fmap fst] in Hnd. apply list.NoDup_cons in Hnd as [Hni Hnd].
  rewrite (filter_cons P), (filter_cons _ (k', dq') h). cbn [fst].
  destruct (decide (k' = k)) as [->|Hne].
  - assert (forall Q `{!∀ e : key * list Z, Decision (Q e)},
      get k (filter Q h) = None) as Hnone.
    { intros Q ?. apply get_None. intros (e & -> & [_ He]%list_elem_of_filter)%list_elem_of_fmap.
      apply Hni. by apply list_elem_of_fmap_2. }
    cbn [head fmap option_fmap option_map snd]. case_decide as HP.
    + rewrite filter_cons_True by done. cbn. naive_solver.
    + specialize (Hnone P _). unfold get in Hnone. rewrite Hnone. naive_solver.
  - case_decide; [rewrite filter_cons_False by done|]; by apply IH.
Qed.

Lemma get_filter_None k h (P : key * list Z -> Prop) `{!∀ e, Decision (P e)} dq :
  NoDup h.*1 -> get k (filter P h) = None -> get k h = Some dq -> ~ P (k, dq).
Proof.
  intros Hnd Hn Hg HP.
  assert (get k (filter P h) = Some dq) by by apply get_filter_Some.
  congruence.
Qed.

Lemma touch_keys k h rest dq :
  touch k h = (rest, dq) -> k ∉ rest.*1 \/ get k h = None.
Proof.
  unfold touch. destruct (get k h) eqn:E; intros [= <- <-]; [left|by right].
  rewrite pop_keys. rewrite list_elem_of_filter. naive_solver.
Qed.

(** The rest is a sublist of what was there, without the key. *)
Lemma touch_rest k h rest dq :
  touch k h = (rest, dq) ->
  rest `sublist_of` h /\ rest.*1 `sublist_of` filter (fun k' => k' <> k) h.*1.
Proof.
  unfold touch. destruct (get k h) eqn:E; intros [= <- <-].
  - split; [apply sublist_filter|by rewrite pop_keys].
  - apply get_None in E.
    assert (filter (fun k' => k' <> k) h.*1 = h.*1) as ->.
    { apply filter_all, list.Forall_forall. intros k' Hk' ->. by apply E. }
    case_test; [|done]. destruct h as [|e h]; cbn; [done|].
    split; by apply sublist_cons.
Qed.

(** ** Bounds that hold whatever the requests *)

Definition bounded (s : limiter) : Prop :=
  NoDup (l_hits s).*1 /\ (length (l_hits s) <= max_keys)%nat
  /\ Forall (fun e => Z.of_nat (length e.2) <= limit) (l_hits s).

Lemma expire_suffix now dq : exists old, dq = old ++ expire now dq.
Proof.
  induction dq as [|t dq [old IH]]; cbn [expire]; [by exists []|].
  case_test; [exists (t :: old); by rewrite IH at 1|by exists []].
Qed.

Lemma maybe_prune_sublist now s : l_hits (maybe_prune now s) `sublist_of` l_hits s.
Proof. unfold maybe_prune. case_test; [apply sublist_filter|done]. Qed.

Lemma allow_hits now k s : exists rest dq dq',
  touch k (l_hits s) = (rest, dq) /\
  l_hits (allow now k s).2 `sublist_of` rest ++ [(k, dq')] /\
  dq' = (if (allow now k s).1 then expire now dq ++ [now] else expire now dq) /\
  (allow now k s).1 = negb (limit <=? Z.of_nat (length (expire now dq))).
Proof.
  unfold allow. destruct (touch k (l_hits s)) as [rest dq] eqn:E.
  exists rest, dq. destruct (limit <=? Z.of_nat (length (expire now dq))) eqn:El;
    [exists (expire now dq)|exists (expire now dq ++ [now])]; cbn [fst snd];
    (split_and!; [done|apply maybe_prune_sublist|done|done]).
Qed.

Lemma touch_bound k h rest dq :
  touch k h = (rest, dq) -> (1 <= max_keys)%nat -> (length h <= max_keys)%nat ->
  (S (length rest) <= max_keys)%nat.
Proof.
  unfold touch. destruct (get k h) as [dq'|] eqn:E; intros [= <- <-] H1 Hl.
  - assert (k ∈ h.*1) as (e & -> & He)%list_elem_of_fmap.
    { destruct (decide (k ∈ h.*1)) as [|Hn]; [done|]. apply get_None in Hn. congruence. }
    eapply Nat.lt_le_trans; [|done]. apply (length_filter_lt _ _ e); [done|].
    naive_solver.
  - case_test; [|lia]. destruct h; cbn in *; lia.
Qed.

Lemma get_elem k h dq : get k h = Some dq -> (k, dq) ∈ h.
Proof.
  unfold get. intros (e & He & ->)%fmap_Some.
  assert (e ∈ filter (fun e' => e'.1 = k) h) as [<- Hin]%list_elem_of_filter.
  { destruct (filter _ h); [done|]. injection He as ->. left. }
  by destruct e.
Qed.

Lemma touch_deque k h rest dq :
  touch k h = (rest, dq) -> (0 <= limit)%Z ->
  Forall (fun e => Z.of_nat (length e.2) <= limit) h ->
  Z.of_nat (length dq) <= limit.
Proof.
  unfold touch. destruct (get k h) as [dq'|] eqn:E; intros [= <- <-] H0 Hf; [|done].
  apply get_elem in E. by apply (proj1 (list.Forall_forall _ _) Hf _ E).
Qed.

Lemma allow_bounded now k s :
  (1 <= max_keys)%nat -> 0 <= limit -> bounded s -> bounded (allow now k s).2.
Proof.
  intros H1 H0 (Hnd & Hlen & Hdq).
  destruct (allow_hits now k s) as (rest & dq & dq' & Ht & Hsub & Hdq' & Hb).
  destruct (touch_rest _ _ _ _ Ht) as [Hr Hrk].
  assert (k ∉ rest.*1) as Hk.
  { intros Hin. eapply elem_of_sublist in Hin; [|done].
    apply list_elem_of_filter in Hin. naive_solver. }
  split_and!.
  - eapply sublist_NoDup; [|by apply fmap_sublist]. rewrite fmap_app. cbn.
    apply list.NoDup_app. split_and!; [|set_solver|apply NoDup_singleton].
    eapply sublist_NoDup; [|by apply fmap_sublist]. done.
  - apply sublist_length in Hsub. rewrite length_app in Hsub. cbn in Hsub.
    pose proof (touch_bound _ _ _ _ Ht H1 Hlen). lia.
  - eapply sublist_Forall; [done|]. apply list.Forall_app. split.
    { by eapply sublist_Forall. }
    apply list.Forall_singleton. cbn. pose proof (touch_deque _ _ _ _ Ht H0 Hdq).
    destruct (expire_suffix now dq) as [old Hold].
    apply (f_equal length) in Hold. rewrite length_app in Hold.
    destruct (allow now k s).1; subst dq'; [|lia].
    symmetry in Hb. apply negb_true_iff in Hb. boolp. rewrite length_app. cbn. lia.
Qed.

Lemma run_bounded reqs s :
  (1 <= max_keys)%nat -> 0 <= limit -> bounded s -> bounded (run reqs s).2.
Proof.
  intros H1 H0. revert s. induction reqs as [|[now k] reqs IH]; intros s Hs; [done|].
  cbn [run]. pose proof (allow_bounded now k s H1 H0 Hs) as Ha.
  destruct (allow now k s) as [b s1]. cbn [snd] in Ha. specialize (IH _ Ha).
  by destruct (run reqs s1).
Qed.

(** ** Eviction drops the least recently seen *)

Lemma run_seen reqs s acc :
  (l_hits s).*1 `sublist_of` acc ->
  (l_hits (run reqs s).2).*1 `sublist_of` seen_order reqs acc.
Proof.
  revert s acc. induction reqs as [|[now k] reqs IH]; intros s acc Hs; [done|].
  cbn [run seen_order].
  destruct (allow_hits now k s) as (rest & dq & dq' & Ht & Hsub & _ & _).
  destruct (allow now k s) as [b s1]. cbn [fst snd] in *.
  specialize (IH s1 (filter (fun k' => k' <> k) acc ++ [k])).
  destruct (run reqs s1). apply IH. etrans; [by apply fmap_sublist|].
  rewrite fmap_app. apply sublist_app; [|done].
  etrans; [by eapply touch_rest|]. by apply sublist_filter_mono.
Qed.

(** ** Exactness while the table is large enough *)

Notation view k s := (default [] (get k (l_hits s))).

Definition ascending (now : Z) (dq : list Z) : Prop := StronglySorted Z.le (dq ++ [now]).

Lemma ascending_nil now : ascending now [].
Proof. repeat constructor. Qed.

Lemma in_window_in_window now now' ts :
  now <= now' -> in_window now' (in_window now ts) = in_window now' ts.
Proof.
  intros Hn. unfold in_window. rewrite list_filter_filter. apply list_filter_iff.
  unfold fresh. intros t. rewrite !negb_true_iff, !Z.leb_gt. lia.
Qed.

Lemma ascending_le now dq t : ascending now dq -> t ∈ dq -> t <= now.
Proof.
  unfold ascending. induction dq as [|t' dq IH]; [set_solver|]. cbn.
  intros [Hs Hf]%StronglySorted_inv [->|Hin]%elem_of_cons; [|auto].
  apply list.Forall_app in Hf as [_ Hf]. by apply Forall_cons_1 in Hf as [Hf _].
Qed.

Lemma expire_window now0 now dq :
  ascending now0 dq -> expire now dq = in_window now dq.
Proof.
  unfold ascending, in_window. induction dq as [|t dq IH]; [done|]. cbn [expire app].
  intros [Hs Hf]%StronglySorted_inv. destruct (window <=? now - t) eqn:E.
  { rewrite filter_cons_False by (unfold fresh; by rewrite E). by apply IH. }
  rewrite filter_cons_True by (unfold fresh; by rewrite E). f_equal. boolp.
  symmetry. apply filter_all. apply list.Forall_app in Hf as [Hf _].
  apply (list.Forall_impl _ _ _ Hf). unfold fresh. intros t' Ht'. cbn in Ht'.
  rewrite negb_true_iff, Z.leb_gt. lia.
Qed.

Lemma stale_window now0 now now' dq :
  ascending now0 dq -> stale now dq = true -> now <= now' -> in_window now' dq = [].
Proof.
  intros Ha Hst Hn. unfold stale in Hst.
  destruct dq as [|t dq _] using rev_ind; [done|]. rewrite last_snoc in Hst. boolp.
  assert (forall t', t' ∈ dq ++ [t] -> fresh now' t' = false) as Hall.
  { assert (StronglySorted Z.le (dq ++ [t])) as Hs.
    { by eapply StronglySorted_app_1_l. }
    unfold fresh. intros t' [Hin| ->%list_elem_of_singleton]%elem_of_app;
      rewrite negb_false_iff, Z.leb_le; [|lia].
    pose proof (ascending_le t dq t' Hs Hin). lia. }
  unfold in_window. clear -Hall. revert Hall. generalize (dq ++ [t]).
  intros l Hall. induction l as [|t' l IH]; [done|].
  rewrite filter_cons_False; [|rewrite Hall; [done|left]].
  apply IH. intros t'' Ht. apply Hall. by right.
Qed.

(** What the table knows of a history: every key's recent times, in order. *)
Definition agrees (now : Z) (s : limiter) (hist : list (Z * key)) : Prop :=
  NoDup (l_hits s).*1
  /\ (forall k, ascending now (view k s))
  /\ (forall k now', now <= now' ->
        in_window now' (view k s) = in_window now' (times k hist)).

Lemma ascending_later now now' dq : ascending now dq -> now <= now' -> ascending now' dq.
Proof.
  unfold ascending. intros Ha Hn. induction dq as [|t dq IH]; [by repeat constructor|].
  cbn in *. apply StronglySorted_inv in Ha as [Ha Hf]. constructor; [auto|].
  apply list.Forall_app in Hf as [Hf Hl]. apply list.Forall_app. split; [done|].
  apply Forall_cons_1 in Hl as [Hl _]. repeat constructor. lia.
Qed.

Lemma agrees_later now now' s hist :
  agrees now s hist -> now <= now' -> agrees now' s hist.
Proof.
  intros (Hnd & Ha & Hw) Hn. split_and!; [done| |].
  - intros k. by eapply ascending_later.
  - intros k t Ht. apply Hw. lia.
Qed.

Lemma prune_view now s :
  NoDup (l_hits s).*1 ->
  NoDup (l_hits (prune now s)).*1 /\
  forall k, view k (prune now s) = view k s \/
    view k (prune now s) = [] /\ stale now (view k s) = true.
Proof.
  intros Hnd. split; [cbn; eapply sublist_NoDup; [|apply fmap_sublist, sublist_filter]; done|].
  intros k. unfold prune. cbn [l_hits].
  destruct (get k (filter (fun e => stale now e.2 = false) (l_hits s))) as [dq|] eqn:E.
  - apply get_filter_Some in E as [-> _]; [by left|done].
  - right. split; [done|]. destruct (get k (l_hits s)) as [dq|] eqn:E'; [|done].
    pose proof (get_filter_None _ _ _ _ Hnd E E') as Hst. cbn in Hst |- *.
    by destruct (stale now dq).
Qed.

Lemma maybe_prune_agrees now s hist :
  agrees now s hist -> agrees now (maybe_prune now s) hist.
Proof.
  intros Hag. unfold maybe_prune. case_test; [|done].
  destruct Hag as (Hnd & Ha & Hw). destruct (prune_view now s Hnd) as [Hnd' Hv].
  split_and!.
  - done.
  - intros k. destruct (Hv k) as [->|[-> _]]; [done|apply ascending_nil].
  - intros k t Ht. destruct (Hv k) as [->|[-> Hst]]; [auto|].
    rewrite <- Hw by done. symmetry. by eapply stale_window.
Qed.

Lemma times_snoc k now k' hist :
  times k (hist ++ [(now, k')]) = times k hist ++ (if decide (k' = k) then [now] else []).
Proof.
  unfold times. rewrite list.filter_app, fmap_app. f_equal.
  rewrite filter_cons. cbn [snd]. by case_decide.
Qed.

(** The key's deque replaced, at the end of the table. *)
Lemma put_view k dq s :
  NoDup (l_hits s).*1 ->
  let s' := mk_limiter (pop k (l_hits s) ++ [(k, dq)]) (l_last_prune s) in
  NoDup (l_hits s').*1 /\
  forall k', view k' s' = if decide (k' = k) then dq else view k' s.
Proof.
  intros Hnd. cbn [l_hits]. split.
  - rewrite fmap_app, pop_keys. apply list.NoDup_app.
    split_and!; [by apply list.NoDup_filter| |apply NoDup_singleton].
    intros x [Hx _]%list_elem_of_filter ->%list_elem_of_singleton. done.
  - intros k'. rewrite get_app. case_decide as Hd.
    + subst k'. assert (get k (pop k (l_hits s)) = None) as ->.
      { apply get_None. rewrite pop_keys, list_elem_of_filter. naive_solver. }
      unfold get. rewrite filter_cons_True by done. done.
    + rewrite get_pop_ne by done. destruct (get k' (l_hits s)); [done|].
      unfold get. by rewrite filter_cons_False by (cbn; congruence).
Qed.

Lemma put_agrees now k s hist hist' dq :
  agrees now s hist -> ascending now dq ->
  (forall now', now <= now' -> in_window now' dq = in_window now' (times k hist')) ->
  (forall k', k' <> k -> times k' hist' = times k' hist) ->
  agrees now (mk_limiter (pop k (l_hits s) ++ [(k, dq)]) (l_last_prune s)) hist'.
Proof.
  intros (Hnd & Ha & Hw) Hdq Hk Hother. destruct (put_view k dq s Hnd) as [Hnd' Hv].
  split_and!.
  - done.
  - intros k'. rewrite Hv. by case_decide.
  - intros k' t Ht. rewrite Hv. case_decide; [subst; auto|]. rewrite Hother by done. auto.
Qed.

Lemma ascending_sub now dq : ascending now dq -> ascending now (in_window now dq).
Proof.
  unfold ascending, in_window. induction dq as [|t dq IH]; [done|]. cbn [app].
  intros [Hs Hf]%StronglySorted_inv. rewrite filter_cons. case_decide; [|auto].
  cbn [app]. constructor; [auto|]. apply list.Forall_app in Hf as [Hf Hl].
  apply list.Forall_app. split; [|done]. eapply sublist_Forall; [apply sublist_filter|done].
Qed.

Lemma ascending_snoc now dq : ascending now dq -> ascending now (dq ++ [now]).
Proof.
  unfold ascending. induction dq as [|t dq IH]; cbn; [by repeat constructor|].
  intros [Hs Hf]%StronglySorted_inv. constructor; [auto|].
  apply list.Forall_app. split; [done|]. apply list.Forall_app in Hf. naive_solver.
Qed.

Lemma touch_view k s :
  (k ∉ (l_hits s).*1 -> (length (l_hits s) < max_keys)%nat) ->
  touch k (l_hits s) = (pop k (l_hits s), view k s).
Proof.
  intros Hroom. unfold touch. destruct (get k (l_hits s)) eqn:E; [done|]. apply get_None in E.
  specialize (Hroom E). case_test; [lia|]. f_equal. symmetry. apply filter_all.
  apply list.Forall_forall. intros e He <-. apply E. by apply list_elem_of_fmap_2.
Qed.

(** One request, when the table need not evict. *)
Lemma allow_agrees now0 now k s hist :
  agrees now0 s hist -> now0 <= now ->
  (k ∉ (l_hits s).*1 -> (length (l_hits s) < max_keys)%nat) ->
  (allow now k s).1 = (spec_allow now k hist).1 /\
  agrees now (allow now k s).2 (spec_allow now k hist).2.
Proof.
  intros Hag Hn Hroom. eapply agrees_later in Hag; [|done].
  unfold allow, spec_allow. rewrite (touch_view k s Hroom). destruct Hag as (Hnd & Ha & Hw).
  rewrite (expire_window now) by auto. rewrite (Hw k now) by lia.
  assert (agrees now s hist) as Hag by done.
  assert (ascending now (in_window now (times k hist))) as Hasc.
  { rewrite <- Hw by lia. by apply ascending_sub. }
  case_test; cbn [fst snd]; (split; [done|]); apply maybe_prune_agrees;
    (eapply put_agrees; [exact Hag| | |]).
  - done.
  - intros now' Hn'. by apply in_window_in_window.
  - done.
  - by apply ascending_snoc.
  - intros now' Hn'. rewrite times_snoc, decide_True by done.
    unfold in_window at 1 3. rewrite !list.filter_app. f_equal.
    by apply in_window_in_window.
  - intros k' Hk'. by rewrite times_snoc, decide_False, app_nil_r by done.
Qed.

(** Keys of a table that never had to evict are keys that were requested. *)
Lemma no_evict (keys : list key) k s :
  NoDup (l_hits s).*1 -> (l_hits s).*1 ⊆ keys -> k ∈ keys ->
  (length keys <= max_keys)%nat ->
  k ∉ (l_hits s).*1 -> (length (l_hits s) < max_keys)%nat.
Proof.
  intros Hnd Hsub Hk Hlen Hni.
  assert (NoDup (k :: (l_hits s).*1)) as Hnd' by by constructor.
  eapply NoDup_submseteq in Hnd'; [|intros x [->|Hx]%elem_of_cons; [exact Hk|by apply Hsub]].
  apply submseteq_length in Hnd'. cbn in Hnd'. rewrite length_fmap in Hnd'. lia.
Qed.

Lemma allow_keys now k s (keys : list key) :
  k ∈ keys -> (l_hits s).*1 ⊆ keys -> (l_hits (allow now k s).2).*1 ⊆ keys.
Proof.
  intros Hk Hs. destruct (allow_hits now k s) as (rest & dq & dq' & Ht & Hsub & _ & _).
  destruct (touch_rest _ _ _ _ Ht) as [Hr _]. intros x Hx.
  eapply elem_of_sublist in Hx; [|by apply fmap_sublist]. rewrite fmap_app in Hx.
  apply elem_of_app in Hx as [Hx| ->%list_elem_of_singleton]; [|done]. apply Hs.
  eapply elem_of_sublist; [done|by apply fmap_sublist].
Qed.

Lemma run_agrees now0 reqs s hist (keys : list key) :
  agrees now0 s hist -> monotone now0 reqs ->
  (l_hits s).*1 ⊆ keys -> reqs.*2 ⊆ keys -> (length keys <= max_keys)%nat ->
  (run reqs s).1 = (spec_run reqs hist).1.
Proof.
  revert now0 s hist. induction reqs as [|[now k] reqs IH];
    intros now0 s hist Hag Hm Hs Hr Hlen; [done|].
  cbn [run spec_run monotone fmap list_fmap snd] in *. destruct Hm as [Hn Hm].
  assert (k ∈ keys) as Hk by (apply Hr; left).
  destruct (allow_agrees now0 now k s hist Hag Hn) as [Hb Hag'].
  { eapply no_evict; [apply Hag|exact Hs|exact Hk|exact Hlen]. }
  pose proof (allow_keys now k s keys Hk Hs) as Hs'.
  destruct (allow now k s) as [b s1], (spec_allow now k hist) as [b' h1].
  cbn [fst snd] in *. subst b'.
  assert ((run reqs s1).1 = (spec_run reqs h1).1) as IH'.
  { eapply IH; [exact Hag'|exact Hm|exact Hs'| |exact Hlen].
    intros x Hx. apply Hr. by right. }
  destruct (run reqs s1), (spec_run reqs h1). cbn in *. by f_equal.
Qed.

(** The requests that were answered yes. *)
Fixpoint granted (reqs : list (Z * key)) (bs : list bool) : list (Z * key) :=
  match reqs, bs with
  | r :: reqs', b :: bs' => (if b then [r] else []) ++ granted reqs' bs'
  | _, _ => []
  end.

(** The times of a stretch one window long. *)
Definition stretch (t0 : Z) (ts : list Z) : list Z :=
  filter (fun t => t0 <= t < t0 + window) ts.

Lemma run_exact now0 reqs (keys : list key) :
  monotone now0 reqs -> reqs.*2 ⊆ keys -> (length keys <= max_keys)%nat ->
  (run reqs (mk_limiter [] now0)).1 = (spec_run reqs []).1.
Proof.
  intros Hm Hk Hlen. apply (run_agrees now0 _ _ _ keys); [|done|intros x Hx; by apply elem_of_nil in Hx|done|done].
  split_and!; [constructor|intros; apply ascending_nil|done].
Qed.

(** ** Readings out of order

    A thread that reads the clock and then waits up to [lag] for the lock
    calls [allow] with a reading up to [lag] behind one already used. *)
Section lagging.
Context (lag : Z).
Hypothesis Hlag : 0 <= lag.

Notation later c ts := (filter (fun t => c < t) ts).

(** What the table knows: of a key's granted requests, those the window still
    shows at every reading that can come, [hi] being the latest so far. *)
Definition remembers (hi : Z) (s : limiter) (hist : list (Z * key)) : Prop :=
  NoDup (l_hits s).*1 /\
  (forall k i j t t', (i < j)%nat -> view k s !! i = Some t -> view k s !! j = Some t' ->
     t - lag <= t') /\
  (forall k, Forall (fun t => t <= hi) (view k s)) /\
  (forall k c, hi - window + lag <= c ->
     (length (later c (times k hist)) <= length (later c (view k s)))%nat).

Lemma later_none c ts : Forall (fun t => t <= c) ts -> later c ts = [].
Proof.
  induction 1 as [|t ts Ht _ IH]; [done|]. by rewrite filter_cons_False by lia.
Qed.

(** The [popleft] loop takes out what no reading still shows. *)
Lemma expire_later now c dq :
  now - window <= c -> later c (expire now dq) = later c dq.
Proof.
  intros Hc. induction dq as [|t dq IH]; [done|]. cbn [expire]. case_test; [|done].
  boolp. by rewrite IH, filter_cons_False by lia.
Qed.

Lemma stale_later now c dq :
  (forall i j t t', (i < j)%nat -> dq !! i = Some t -> dq !! j = Some t' -> t - lag <= t') ->
  now - window + lag <= c -> stale now dq = true -> later c dq = [].
Proof.
  intros Hl Hc. unfold stale. destruct dq as [|t dq _] using rev_ind; [done|].
  rewrite last_snoc. intros Hst. boolp. apply later_none, list.Forall_forall.
  intros t' [Ht'| ->%list_elem_of_singleton]%elem_of_app; [|lia].
  apply list_elem_of_lookup in Ht' as [i Hi].
  assert (t' - lag <= t); [|lia].
  apply (Hl i (length dq)); [by eapply lookup_lt_Some| |by rewrite list_lookup_middle].
  rewrite lookup_app_l; [done|by eapply lookup_lt_Some].
Qed.

Lemma maybe_prune_remembers now hi s hist :
  now <= hi -> remembers hi s hist -> remembers hi (maybe_prune now s) hist.
Proof.
  intros Hn (Hnd & Hl & Hh & Hc). unfold maybe_prune. case_test; [|done].
  destruct (prune_view now s Hnd) as [Hnd' Hv]. split_and!; [done|..].
  - intros k i j t t' Hij. destruct (Hv k) as [->|[-> _]]; [by apply Hl|done].
  - intros k. destruct (Hv k) as [->|[-> _]]; [done|constructor].
  - intros k c Hge. specialize (Hc k c Hge). destruct (Hv k) as [->|[-> Hst]]; [done|].
    by rewrite (stale_later now c (view k s) (Hl k) ltac:(lia) Hst) in Hc.
Qed.

Lemma expire_lookup now dq : exists n, forall i, expire now dq !! i = dq !! (n + i)%nat.
Proof.
  destruct (expire_suffix now dq) as [old Hd]. exists (length old). intros i.
  rewrite Hd at 2. rewrite lookup_app_r by lia. f_equal. lia.
Qed.

(** One request: what is granted, and what is remembered of it. *)
Lemma allow_remembers now k hi s hist :
  remembers hi s hist -> hi - lag <= now ->
  (k ∉ (l_hits s).*1 -> (length (l_hits s) < max_keys)%nat) ->
  let '(b, s') := allow now k s in
  let hist' := if b then hist ++ [(now, k)] else hist in
  remembers (Z.max hi now) s' hist' /\
  (b = true -> Z.of_nat (length (later (now - window + 2 * lag) (times k hist))) < limit).
Proof.
  intros (Hnd & Hl & Hh & Hc) Hn Hroom. unfold allow. rewrite (touch_view k s Hroom).
  destruct (expire_lookup now (view k s)) as [n Hx].
  set (dq := expire now (view k s)) in *.
  assert (forall c, now - window <= c -> later c dq = later c (view k s)) as He
    by (intros; by apply expire_later).
  assert (forall t, t ∈ dq -> t <= hi) as Hhi.
  { intros t [i Hi]%list_elem_of_lookup. rewrite Hx in Hi.
    by apply (proj1 (Forall_lookup _ _) (Hh k) _ _ Hi). }
  assert (forall dq' hist',
    (forall k', times k' hist' = times k' hist ++ if decide (k' = k) then drop (length dq) dq' else []) ->
    dq' = dq \/ dq' = dq ++ [now] ->
    remembers (Z.max hi now) (mk_limiter (pop k (l_hits s) ++ [(k, dq')]) (l_last_prune s)) hist')
    as Hput.
  { intros dq' hist' Ht Hdq. destruct (put_view k dq' s Hnd) as [Hnd' Hv].
    split_and!; [done|..].
    - intros k' i j t t' Hij. rewrite Hv. case_decide; [|by apply Hl].
      destruct Hdq as [->| ->]; [rewrite !Hx; apply Hl; lia|].
      intros Hi [Hj|(Hj & Hj')]%lookup_app_Some.
      + rewrite lookup_app_l in Hi by (apply lookup_lt_Some in Hj; lia).
        rewrite Hx in Hi, Hj. eapply Hl; [|exact Hi|exact Hj]. lia.
      + destruct (j - length dq)%nat eqn:Ej; [|done]. injection Hj' as <-.
        rewrite lookup_app_l in Hi by lia.
        specialize (Hhi t ltac:(by eapply list_elem_of_lookup_2)). lia.
    - intros k'. rewrite Hv. case_decide.
      + destruct Hdq as [->| ->]; [|apply list.Forall_app; split;
          [|apply list.Forall_singleton; lia]];
          apply list.Forall_forall; intros t Ht'; specialize (Hhi t Ht'); lia.
      + eapply list.Forall_impl; [apply Hh|]. cbn. lia.
    - intros k' c Hge. rewrite Ht, Hv, list.filter_app, length_app.
      specialize (Hc k' c ltac:(lia)).
      case_decide; [subst k'|cbn; lia].
      rewrite <- He in Hc by lia.
      destruct Hdq as [->| ->]; [rewrite drop_all; cbn; lia|].
      rewrite drop_app_length, list.filter_app, length_app. lia. }
  assert (Z.of_nat (length (later (Z.max hi now - window + lag) (times k hist)))
    <= Z.of_nat (length dq)) as Hcount.
  { specialize (Hc k (Z.max hi now - window + lag) ltac:(lia)). rewrite <- He in Hc by lia.
    pose proof (length_filter (fun t => Z.max hi now - window + lag < t) dq). lia. }
  destruct (Z.leb_spec limit (Z.of_nat (length dq))) as [Hfull|Hfree].
  - split; [|done]. apply maybe_prune_remembers; [lia|]. apply Hput; [|by left].
    intros k'. rewrite drop_all. case_decide; by rewrite app_nil_r.
  - split.
    + apply maybe_prune_remembers; [lia|]. apply Hput; [|by right].
      intros k'. rewrite times_snoc, drop_app_length.
      destruct (decide (k = k')), (decide (k' = k)); congruence || done.
    + intros _. eapply Z.le_lt_trans; [|exact Hfree]. etrans; [|exact Hcount].
      apply Nat2Z.inj_le. clear -Hn Hlag.
      induction (times k hist) as [|t ts IH]; [done|]. rewrite !filter_cons.
      repeat case_decide; cbn [length]; lia.
Qed.

Notation short t0 ts := (filter (fun t => t0 <= t < t0 + (window - 2 * lag)) ts).

(** Any two readings: the later call's is at most [lag] behind. *)
Fixpoint lagged (hi : Z) (reqs : list (Z * key)) : Prop :=
  match reqs with
  | [] => True
  | (now, _) :: reqs' => hi - lag <= now /\ lagged (Z.max hi now) reqs'
  end.

Lemma run_lagged reqs : forall hi s hist (keys : list key),
  0 <= limit -> remembers hi s hist -> lagged hi reqs ->
  (l_hits s).*1 ⊆ keys -> reqs.*2 ⊆ keys -> (length keys <= max_keys)%nat ->
  (forall k t0, Z.of_nat (length (short t0 (times k hist))) <= limit) ->
  forall k t0, Z.of_nat (length (short t0 (times k
    (hist ++ granted reqs (run reqs s).1)))) <= limit.
Proof.
  induction reqs as [|[now k1] reqs IH]; intros hi s hist keys Hlim Hr Hlg Hs Hk Hlen Hq k t0.
  { cbn. rewrite app_nil_r. apply Hq. }
  cbn [run lagged fmap list_fmap snd] in *. destruct Hlg as [Hn Hlg].
  assert (k1 ∈ keys) as Hk1 by (apply Hk; left).
  pose proof (allow_remembers now k1 hi s hist Hr Hn) as Ha.
  pose proof (allow_keys now k1 s keys Hk1 Hs) as Hs'.
  destruct (allow now k1 s) as [b s1]. cbn [snd] in Hs'.
  destruct Ha as [Hr' Hb]; [eapply no_evict; [apply Hr|exact Hs|exact Hk1|exact Hlen]|].
  specialize (IH _ s1 _ keys Hlim Hr' Hlg Hs' ltac:(set_solver) Hlen).
  destruct (run reqs s1) as [bs s2]. cbn [fst granted] in *. rewrite app_assoc.
  assert (hist ++ (if b then [(now, k1)] else []) = if b then hist ++ [(now, k1)] else hist)
    as -> by (by destruct b; rewrite ?app_nil_r).
  apply IH. intros k' t1. destruct b; [|apply Hq]. specialize (Hq k' t1). specialize (Hb eq_refl).
  rewrite times_snoc. case_decide; [subst k'|by rewrite app_nil_r].
  rewrite list.filter_app, length_app, filter_cons. case_decide as Ht; cbn; [|lia].
  enough (Z.of_nat (length (short t1 (times k1 hist))) <=
    Z.of_nat (length (later (now - window + 2 * lag) (times k1 hist)))) by lia.
  clear -Ht. induction (times k1 hist) as [|t ts IH]; [done|]. rewrite !filter_cons.
  repeat case_decide; cbn [length]; lia.
Qed.

Lemma limiter_lagged_rate now0 reqs (keys : list key) k t0 :
  0 <= limit -> lagged now0 reqs -> reqs.*2 ⊆ keys -> (length keys <= max_keys)%nat ->
  Z.of_nat (length (short t0 (times k
    (granted reqs (run reqs (mk_limiter [] now0)).1)))) <= limit.
Proof.
  intros Hl Hm Hk Hlen.
  apply (run_lagged reqs now0 (mk_limiter [] now0) [] keys); try done.
  - split_and!; [constructor|done|constructor|done].
  - intros x Hx. by apply elem_of_nil in Hx.
Qed.

(** [lk]: when each request, in turn, got the lock; its reading is from at most
    [lag] before. *)
Definition locked_within (now0 : Z) (lk : list Z) (reqs : list (Z * key)) : Prop :=
  StronglySorted Z.le (now0 :: lk) /\ Forall2 (fun t r => t - lag <= r.1 <= t) lk reqs.

Lemma locked_lagged lk : forall reqs hi t0,
  hi <= t0 -> locked_within t0 lk reqs -> lagged hi reqs.
Proof.
  induction lk as [|t lk IH]; intros [|[now k] reqs] hi t0 Hhi [Hs Hf];
    try done; try (by inversion Hf).
  inversion Hf as [|? ? ? ? Hr Hf']. subst. cbn [fst lagged] in *.
  apply StronglySorted_inv in Hs as [Hs Hle]. apply Forall_cons_1 in Hle as [Ht _].
  split; [lia|]. apply (IH _ _ t); [lia|done].
Qed.
End lagging.

End Ops.

(** ** Properties *)

(** C19: as long as no more than [max_keys] clients are active since the
    limiter was made, and the clock readings, which a thread takes before the
    lock, come in order, the limiter's answers are exactly those of a limiter
    that remembers every granted request of all time, so neither moving a key
    to the end, expiring old times nor removing stale keys is ever visible.
    When a thread may get the lock up to [lag] after its reading, so that
    readings come out of order, still no stretch of time [2 * lag] shorter
    than the window holds more than [limit] granted requests of one client. *)
Theorem limiter_exact limit window max_keys now0 reqs (keys : list key) :
  0 <= limit -> reqs.*2 ⊆ keys -> (length keys <= max_keys)%nat ->
  let answers := (run limit window max_keys reqs (mk_limiter [] now0)).1 in
  (monotone now0 reqs -> answers = (spec_run limit window reqs []).1) /\
  forall lag lk, 0 <= lag -> locked_within lag now0 lk reqs -> forall k t0,
    Z.of_nat (length (stretch (window - 2 * lag) t0 (times k (granted reqs answers)))) <= limit.
Proof.
  intros Hl Hk Hlen answers. split; [intros; by eapply run_exact|].
  intros lag lk H0 Hlk k t0. eapply limiter_lagged_rate; [done|done| |done|done].
  by eapply locked_lagged.
Qed.

(** whatever arrives, from however many clients, the table holds each key
    once, never more than [max_keys] of them and never more than [limit] times
    for one; and its keys are in the order in which they were last seen, so
    the key an insertion evicts is the least recently seen of those held. *)
Theorem limiter_memory limit window max_keys now0 s0 reqs :
  0 <= limit -> new_limiter max_keys now0 = Some s0 ->
  bounded limit max_keys (run limit window max_keys reqs s0).2 /\
  (l_hits (run limit window max_keys reqs s0).2).*1 `sublist_of` seen_order reqs [].
Proof.
  unfold new_limiter. intros Hl. case_test; intros [= <-]. split.
  - apply run_bounded; [lia|done|]. split_and!; [constructor|cbn; lia|constructor].
  - by apply run_seen.
Qed.

End Limiter.

Module LimiterDemo.
Import Limiter.

Definition a : key := lit "10.0.0.1".
Definition b : key := lit "10.0.0.2".

Definition reqs : list (Z * key) := [(0, a); (1, a); (2, a); (3, b); (61, a)].

Lemma limiter_exact_witness :
  (run 2 60 2 reqs (mk_limiter [] 0)).1 = [true; true; false; true; true] /\
  (run 2 60 2 reqs (mk_limiter [] 0)).1 = (spec_run 2 60 reqs []).1 /\
  Z.of_nat (length (stretch 58 0 (times a
    (granted reqs (run 2 60 2 reqs (mk_limiter [] 0)).1)))) <= 2.
Proof.
  split; [vm_compute; reflexivity|].
  destruct (limiter_exact 2 60 2 0 reqs [a; b]) as [He Hr];
    [lia|intros x Hx; cbn in Hx; set_solver|cbn; lia|].
  split; [apply He; cbn; lia|]. apply (Hr 1 [1; 2; 2; 3; 61]); [lia|].
  split; repeat constructor; cbn; lia.
Defined.

(** Two threads whose readings overtake each other: the request of [b], read at
    5, gets the lock before one of [a] read at 4, and drops [a] as stale; [a]
    is granted twice within one window. *)
Example overtaken_reading_exceeds_limit :
  (run 1 5 2 [(0, a); (5, b); (4, a)] (mk_limiter [] 0)).1 = [true; true; true] /\
  (spec_run 1 5 [(0, a); (5, b); (4, a)] []).1 = [true; true; false].
Proof. by vm_compute. Qed.

Lemma limiter_memory_witness :
  (l_hits (run 2 60 1 [(0, a); (1, b)] (mk_limiter [] 0)).2).*1 = [b] /\
  bounded 2 1 (run 2 60 1 [(0, a); (1, b)] (mk_limiter [] 0)).2.
Proof.
  split; [vm_compute; reflexivity|].
  by apply (limiter_memory 2 60 1 0 (mk_limiter [] 0) [(0, a); (1, b)]).
Defined.

End LimiterDemo.
