(* ===== verification/Store.v ===== *)
(** The report server's database (src/server/ac_server.py, [Store]): the
    tables of reports and bans, the trims that bound the first, paging,
    the VACUUM cadence, the checks of opening it and the file modes.

    A table is what its statements see of it: the reports newest first (the
    order of [ORDER BY id DESC]), the bans by client.  Each write holds
    [_write_lock] and commits once, so operations are sequential.  Text is a
    list of code points. *)

From stdpp Require Import gmap sorting.
From S2P Require Import Prelude CText.

#[local] Open Scope Z_scope.

Module Store.

Notation text := (list Z).

(** A JSON number as a client may give it: an integer, or [m * 10 ^ e]. *)
Inductive num := NInt (z : Z) | NFloat (m e : Z).

#[global] Instance num_eq_dec : EqDecision num.
Proof. solve_decision. Defined.

Record row := mk_row {
  r_id : Z;
  r_client : text;
  r_event : text;
  r_detail : text;
  r_ts : option num;
  r_received : Z;
  r_source : text;
}.

(** A file of the database: its mode, and whether [chmod] may change it. *)
Inductive file := Absent | Link | File (mode : Z) (own : bool).

Record store := mk_store {
  reports : list row;                (** newest first *)
  last_id : Z;                           (** the last id AUTOINCREMENT gave *)
  bans : gmap text (text * Z);       (** reason, banned_at *)
  writes_since_vacuum : nat;
  files : list file;                 (** the file, -wal and -shm *)
}.

Record config := mk_config {
  max_reports_per_client : nat;      (** 0 disables *)
  max_total_reports : nat;
  vacuum_interval : nat;
}.

(** What the system gives one operation. *)
Record env := mk_env {
  e_now : Z;
  e_sql_ok : bool;                   (** no SQLite error up to the commit *)
  e_files : list file;               (** the files as SQLite leaves them *)
  e_freelist : option Z;             (** [None]: the pragma failed *)
  e_vacuum_ok : bool;
}.

(** A call returns or raises. *)
Inductive res (A : Type) := Ok (a : A) | Raise.
Arguments Ok {A} _.
Arguments Raise {A}.

(** ** Binding parameters *)

Definition surrogate (c : Z) : bool := (55296 <=? c) && (c <=? 57343).

(** Text that has a UTF-8 form. *)
Definition encodable (s : text) : bool := forallb (fun c => negb (surrogate c)) s.

(** An SQLite integer. *)
Definition int64 (z : Z) : bool := (- 2 ^ 63 <=? z) && (z <? 2 ^ 63).

Definition ts_bindable (ts : option num) : bool :=
  match ts with Some (NInt z) => int64 z | _ => true end.

(** ** File modes *)

(** [_ensure_private]: whether every [chmod] went through. *)
Fixpoint ensure_private (fs : list file) : bool * list file :=
  match fs with
  | [] => (true, [])
  | File m true :: fs' =>
      let '(ok, fs2) := ensure_private fs' in (ok, File 384 true :: fs2)
  | File m false :: fs' => (false, fs)
  | f :: fs' => let '(ok, fs2) := ensure_private fs' in (ok, f :: fs2)
  end.

(** ** Trims *)

(** [DELETE ... WHERE P AND id <= (SELECT id ... WHERE P ORDER BY id DESC
    LIMIT 1 OFFSET cap)]: nothing matches a NULL bound. *)
Definition trim (P : row -> bool) (cap : nat) (rows : list row) : list row :=
  match filter (fun r => P r = true) rows !! cap with
  | None => rows
  | Some x => filter (fun r => negb (P r && (r_id r <=? r_id x)) = true) rows
  end.

Definition same_client (c : text) (r : row) : bool := bool_decide (r_client r = c).

Definition trim_client (c : text) (cap : nat) : list row -> list row :=
  trim (same_client c) cap.

Definition trim_global (cap : nat) : list row -> list row := trim (fun _ => true) cap.

(** ** Writing *)

Definition VACUUM_MIN_FREELIST_PAGES : Z := 100.

(** The counter, and whether VACUUM was run to its end. *)
Definition maybe_vacuum (cfg : config) (e : env) (trimmed writes : nat) : nat * bool :=
  if (trimmed =? 0)%nat || (vacuum_interval cfg =? 0)%nat then (writes, false)
  else
    let w := S writes in
    if (w <? vacuum_interval cfg)%nat then (w, false)
    else
      match e_freelist e with
      | None => (0%nat, false)
      | Some n => (0%nat, negb (n <? VACUUM_MIN_FREELIST_PAGES) && e_vacuum_ok e)
      end.

(** The rows after the insert and the trims. *)
Definition insert_and_trim (cfg : config) (r : row) (rows : list row) : list row :=
  let rows := r :: rows in
  let rows :=
    if (max_reports_per_client cfg =? 0)%nat then rows
    else trim_client (r_client r) (max_reports_per_client cfg) rows in
  if (max_total_reports cfg =? 0)%nat then rows
  else trim_global (max_total_reports cfg) rows.

(** The result, the store, and whether VACUUM ran. *)
Definition add_report (cfg : config) (e : env) (s : store)
    (c ty d : text) (ts : option num) (src : text) : res Z * store * bool :=
  if negb (e_sql_ok e) || negb (encodable c) || negb (encodable ty)
     || negb (encodable d) || negb (ts_bindable ts) || negb (encodable src)
  then (Raise, s, false)
  else
    let r := mk_row (last_id s + 1) c ty d ts (e_now e) src in
    let rows := insert_and_trim cfg r (reports s) in
    let trimmed := (S (length (reports s)) - length rows)%nat in
    let '(w, vac) := maybe_vacuum cfg e trimmed (writes_since_vacuum s) in
    let '(ok, fs) := ensure_private (e_files e) in
    ((if ok then Ok (e_now e) else Raise),
     mk_store rows (last_id s + 1) (bans s) w fs, vac).

Definition set_bans (b : gmap text (text * Z)) (fs : list file) (s : store) : store :=
  mk_store (reports s) (last_id s) b (writes_since_vacuum s) fs.

Definition ban (e : env) (s : store) (c reason : text) : res unit * store :=
  if negb (e_sql_ok e) || negb (encodable c) || negb (encodable reason) then (Raise, s)
  else
    let '(ok, fs) := ensure_private (e_files e) in
    ((if ok then Ok tt else Raise), set_bans (<[c := (reason, e_now e)]> (bans s)) fs s).

Definition unban (e : env) (s : store) (c : text) : res bool * store :=
  if negb (e_sql_ok e) || negb (encodable c) then (Raise, s)
  else
    let '(ok, fs) := ensure_private (e_files e) in
    ((if ok then Ok (bool_decide (is_Some (bans s !! c))) else Raise),
     set_bans (delete c (bans s)) fs s).

(** ** Reading *)

Definition ban_status (e : env) (s : store) (c : text) : res (option (text * Z)) :=
  if negb (e_sql_ok e) || negb (encodable c) then Raise else Ok (bans s !! c).

Definition MAX_LIST_LIMIT : Z := 1000.
Definition DEFAULT_LIST_LIMIT : Z := 200.

Definition list_reports (e : env) (s : store) (c : text) (limit offset : Z)
    : res (list row) :=
  let limit := Z.min (Z.max limit 0) MAX_LIST_LIMIT in
  let offset := Z.max offset 0 in
  if negb (e_sql_ok e) || negb (encodable c) || negb (int64 offset) then Raise
  else Ok (take (Z.to_nat limit) (drop (Z.to_nat offset)
             (filter (fun r => r_client r = c) (reports s)))).

(** ** Opening *)

Definition SCHEMA_VERSION : Z := 1.

Inductive open_error := SymlinkedPath | UnknownSchema (v : Z) | OpenFailed.

(** What is at the path: the file [lstat] saw, [PRAGMA user_version] ([None]
    when it could not be read) and the tables. *)
Record disk := mk_disk {
  k_files : list file;
  k_version : option Z;
  k_reports : list row;
  k_seq : Z;
  k_bans : gmap text (text * Z);
}.

Definition symlinked (fs : list file) : bool :=
  match fs with Link :: _ => true | _ => false end.

(** [Store.__init__]: [e_files] are the files after the schema was written.
    The disk is what the path holds afterwards. *)
Definition open_store (e : env) (k : disk) : (open_error + store) * disk :=
  if symlinked (k_files k) then (inl SymlinkedPath, k)
  else
    let '(ok, fs) := ensure_private (k_files k) in
    let k1 := mk_disk fs (k_version k) (k_reports k) (k_seq k) (k_bans k) in
    if negb ok then (inl OpenFailed, k1)
    else
      let v := default 0 (k_version k) in
      if negb (v =? 0) && negb (v =? SCHEMA_VERSION) then (inl (UnknownSchema v), k1)
      else if negb (e_sql_ok e) then (inl OpenFailed, k1)
      else
        let '(ok, fs) := ensure_private (e_files e) in
        let k2 := mk_disk fs (Some SCHEMA_VERSION) (k_reports k) (k_seq k) (k_bans k) in
        if ok then (inr (mk_store (k_reports k) (k_seq k) (k_bans k) 0 fs), k2)
        else (inl OpenFailed, k2).

(** ** Well-formedness *)

(** Ids go down along the list and none is above the last one given. *)
Definition newest_first (rows : list row) : Prop :=
  StronglySorted (fun r r' => r_id r' < r_id r) rows.

Definition wf (s : store) : Prop :=
  newest_first (reports s) /\ Forall (fun r => r_id r <= last_id s) (reports s).

Lemma filter_sorted (P : row -> Prop) `{!∀ r, Decision (P r)} rows :
  newest_first rows -> newest_first (filter P rows).
Proof.
  unfold newest_first. induction 1 as [|r rows Hs IH Hf]; [constructor|].
  rewrite filter_cons. case_decide; [|done]. constructor; [done|].
  apply list.Forall_forall. intros r' [_ Hr']%list_elem_of_filter.
  by apply (proj1 (list.Forall_forall _ _) Hf).
Qed.

Lemma trim_sublist P cap rows : trim P cap rows ⊆ rows.
Proof.
  unfold trim. destruct (_ !! cap); [|done]. intros r' Hr.
  by apply list_elem_of_filter in Hr as [_ Hr].
Qed.

Lemma trim_sorted P cap rows : newest_first rows -> newest_first (trim P cap rows).
Proof. unfold trim. destruct (_ !! cap); [apply filter_sorted|done]. Qed.

(** ** A trim keeps the newest rows *)

(** In a list in order, the rows at or below the one at [cap] are those from
    [cap] on. *)
Lemma sorted_cut rows cap x :
  newest_first rows -> rows !! cap = Some x ->
  filter (fun r => ~ r_id r <= r_id x) rows = take cap rows.
Proof.
  unfold newest_first. intros Hs. revert cap.
  induction Hs as [|r rows Hs IH Hf]; intros cap Hx; [done|].
  destruct cap as [|cap]; cbn [take].
  - injection Hx as ->. rewrite filter_cons_False by lia.
    clear IH Hs. induction Hf as [|r rows Hr Hf IH]; [done|].
    by rewrite filter_cons_False by lia.
  - assert (r_id x < r_id r) as Hlt.
    { apply (proj1 (list.Forall_forall _ _) Hf). by eapply list_elem_of_lookup_2. }
    rewrite filter_cons_True by lia. f_equal. by apply IH.
Qed.

(** What the trim leaves of the rows it is about, and of the others. *)
Lemma trim_keeps P cap rows :
  newest_first rows ->
  filter (fun r => P r = true) (trim P cap rows)
    = take cap (filter (fun r => P r = true) rows) /\
  filter (fun r => P r = false) (trim P cap rows) = filter (fun r => P r = false) rows.
Proof.
  intros Hs. unfold trim.
  destruct (filter (fun r => P r = true) rows !! cap) as [x|] eqn:Hx.
  - split.
    + rewrite <- (sorted_cut _ cap x) by (done || by apply filter_sorted).
      rewrite !list_filter_filter. apply list_filter_iff. intros r.
      rewrite negb_true_iff, andb_false_iff, Z.leb_gt. destruct (P r); naive_solver lia.
    + rewrite list_filter_filter. apply list_filter_iff. intros r.
      destruct (P r); naive_solver.
  - split; [|done]. by rewrite take_ge by by apply lookup_ge_None.
Qed.

(** The statement this one replaced: [id NOT IN (SELECT id ... LIMIT cap)]. *)
Definition trim_not_in (P : row -> bool) (cap : nat) (rows : list row) : list row :=
  let kept := r_id <$> take cap (filter (fun r => P r = true) rows) in
  filter (fun r => P r = false \/ r_id r ∈ kept) rows.

Lemma trim_equiv P cap rows : newest_first rows -> trim P cap rows = trim_not_in P cap rows.
Proof.
  intros Hs. unfold trim, trim_not_in. set (l := filter (fun r => P r = true) rows).
  destruct (l !! cap) as [x|] eqn:Hx.
  - apply filter_iff_on. intros r Hr.
    rewrite <- (sorted_cut l cap x) by (done || by apply filter_sorted).
    rewrite negb_true_iff, andb_false_iff, Z.leb_gt, list_elem_of_fmap.
    split; (intros [Hp|Hp]; [by left|]).
    + destruct (P r) eqn:HP; [right|by left]. exists r. split; [done|].
      apply list_elem_of_filter. split; [lia|]. by apply list_elem_of_filter.
    + destruct Hp as (r' & Hid & [Hr' _]%list_elem_of_filter). right. lia.
  - symmetry. rewrite take_ge by by apply lookup_ge_None.
    apply filter_all, list.Forall_forall. intros r Hr. destruct (P r) eqn:HP; [right|by left].
    apply list_elem_of_fmap_2. by apply list_elem_of_filter.
Qed.

Lemma trim_global_take cap rows : newest_first rows -> trim_global cap rows = take cap rows.
Proof.
  intros Hs. pose proof (proj1 (trim_keeps (fun _ => true) cap rows Hs)) as Hk.
  rewrite !filter_all in Hk by by apply Forall_true. exact Hk.
Qed.

Lemma trim_head P cap r rows :
  newest_first (r :: rows) -> (cap <> 0)%nat -> exists rows', trim P cap (r :: rows) = r :: rows'.
Proof.
  intros Hs Hc. unfold trim.
  destruct (filter (fun r => P r = true) (r :: rows) !! cap) as [x|] eqn:Hx; [|by exists rows].
  rewrite filter_cons_True; [by eexists|].
  destruct (P r) eqn:HP; [|done]. rewrite filter_cons_True in Hx by done.
  destruct cap as [|cap]; [done|]. change (filter (fun r => P r = true) rows !! cap = Some x) in Hx.
  apply StronglySorted_inv in Hs as [_ Hf].
  apply list_elem_of_lookup_2, list_elem_of_filter in Hx as [_ Hx].
  pose proof (proj1 (list.Forall_forall _ _) Hf _ Hx). cbn [andb].
  rewrite negb_true_iff, Z.leb_gt. done.
Qed.

(** ** The rows a report leaves behind *)

(** The newest [cap] rows the predicate is about, and all the others; 0 keeps
    everything. *)
Definition keep (P : row -> bool) (cap : nat) (rows : list row) : list row :=
  if (cap =? 0)%nat then rows else trim_not_in P cap rows.

Definition newest (cap : nat) (rows : list row) : list row :=
  if (cap =? 0)%nat then rows else take cap rows.

Lemma newest_sublist cap rows : newest cap rows `sublist_of` rows.
Proof. unfold newest. case_test; [done|apply sublist_take]. Qed.

Section AddReport.
Context (cfg : config) (r : row) (rows : list row).
Context (Hsorted : newest_first (r :: rows)).

Notation client_cap := (max_reports_per_client cfg).
Notation total_cap := (max_total_reports cfg).

Lemma insert_exact :
  insert_and_trim cfg r rows
    = newest total_cap (keep (same_client (r_client r)) client_cap (r :: rows)).
Proof using Hsorted.
  unfold insert_and_trim, newest, keep, trim_client.
  case_test; case_test; rewrite ?trim_equiv by done; try done; [by apply trim_global_take|].
  apply trim_global_take. rewrite <- trim_equiv by done. by apply trim_sorted.
Qed.

Lemma insert_sorted : newest_first (insert_and_trim cfg r rows).
Proof using Hsorted.
  unfold insert_and_trim, trim_client, trim_global.
  case_test; case_test; repeat apply trim_sorted; done.
Qed.

Lemma insert_head : exists rows', insert_and_trim cfg r rows = r :: rows'.
Proof using Hsorted.
  unfold insert_and_trim, trim_client.
  destruct (Nat.eqb_spec client_cap 0) as [_|Hc].
  - case_test; [by eexists|]. by apply trim_head.
  - destruct (trim_head (same_client (r_client r)) client_cap r rows) as [rows' Hr];
      [done|done|]. rewrite Hr.
    case_test; [by eexists|]. apply trim_head; [|done]. rewrite <- Hr. by apply trim_sorted.
Qed.

Lemma insert_subset : insert_and_trim cfg r rows ⊆ r :: rows.
Proof.
  unfold insert_and_trim. case_test; case_test; repeat (etrans; [apply trim_sublist|]); done.
Qed.

Lemma insert_total : total_cap <> O -> (length (insert_and_trim cfg r rows) <= total_cap)%nat.
Proof using Hsorted.
  intros Ht. rewrite insert_exact. unfold newest. case_test; [done|].
  rewrite length_take. lia.
Qed.

Lemma insert_client : client_cap <> O ->
  (length (filter (fun r' => r_client r' = r_client r) (insert_and_trim cfg r rows))
   <= client_cap)%nat.
Proof using Hsorted.
  intros Hc.
  assert (forall l, filter (fun r' => r_client r' = r_client r) l
    = filter (fun r' => same_client (r_client r) r' = true) l) as ->.
  { intros l. apply list_filter_iff. intros x. unfold same_client.
    by rewrite bool_decide_eq_true. }
  rewrite insert_exact. unfold keep. rewrite (proj2 (Nat.eqb_neq _ _) Hc).
  rewrite <- trim_equiv by done.
  pose proof (proj1 (trim_keeps (same_client (r_client r)) client_cap _ Hsorted)) as Hk.
  apply (f_equal length) in Hk. rewrite length_take in Hk.
  etrans; [apply sublist_length, sublist_filter_mono, newest_sublist|lia].
Qed.

End AddReport.

(** ** Pages *)

Lemma pages_concat {A} (k n : nat) (l : list A) :
  concat ((fun i => take k (drop (i * k) l)) <$> seq 0 n) = take (n * k) l.
Proof.
  induction n as [|n IH]; [done|].
  rewrite seq_S, fmap_app, concat_app, IH. cbn. rewrite app_nil_r, take_take_drop.
  f_equal. lia.
Qed.

Lemma list_reports_page e s c limit offset :
  e_sql_ok e = true -> encodable c = true ->
  1 <= limit <= MAX_LIST_LIMIT -> 0 <= offset < 2 ^ 63 ->
  list_reports e s c limit offset
    = Ok (take (Z.to_nat limit) (drop (Z.to_nat offset)
        (filter (fun r => r_client r = c) (reports s)))).
Proof.
  unfold list_reports, int64. intros -> -> Hl Ho.
  rewrite !Z.max_l, Z.min_l by lia. case_test; [|done]. cbn in *. boolp. lia.
Qed.

(** ** Bans *)

(** What the rest of the server does to the store. *)
Inductive op :=
  | OpBan (e : env) (c reason : text)
  | OpUnban (e : env) (c : text)
  | OpReport (e : env) (c ty d : text) (ts : option num) (src : text).

Definition apply_op (cfg : config) (o : op) (s : store) : store :=
  match o with
  | OpBan e c reason => (ban e s c reason).2
  | OpUnban e c => (unban e s c).2
  | OpReport e c ty d ts src => (add_report cfg e s c ty d ts src).1.2
  end.

Definition apply_ops (cfg : config) (ops : list op) (s : store) : store :=
  foldl (fun s o => apply_op cfg o s) s ops.

(** The last committed decision about a client, over what held before. *)
Fixpoint last_decision (c : text) (ops : list op) (cur : option (text * Z))
    : option (text * Z) :=
  match ops with
  | [] => cur
  | OpBan e c' reason :: ops' =>
      last_decision c ops'
        (if bool_decide (c' = c) && e_sql_ok e && encodable c' && encodable reason
         then Some (reason, e_now e) else cur)
  | OpUnban e c' :: ops' =>
      last_decision c ops'
        (if bool_decide (c' = c) && e_sql_ok e && encodable c' then None else cur)
  | OpReport _ _ _ _ _ _ :: ops' => last_decision c ops' cur
  end.

Lemma add_report_bans cfg e s c ty d ts src :
  bans (add_report cfg e s c ty d ts src).1.2 = bans s.
Proof.
  unfold add_report. case_test; [done|].
  destruct (maybe_vacuum _ _ _ _), (ensure_private _). done.
Qed.

Lemma ban_lookup e s c reason c' :
  bans (ban e s c reason).2 !! c'
    = if bool_decide (c = c') && e_sql_ok e && encodable c && encodable reason
      then Some (reason, e_now e) else bans s !! c'.
Proof.
  unfold ban. destruct (ensure_private _) as [ok fs].
  destruct (e_sql_ok e), (encodable c), (encodable reason); cbn;
    rewrite ?andb_false_r, ?andb_true_r; try done.
  case_bool_decide as Hc; [subst; by rewrite lookup_insert_eq|by rewrite lookup_insert_ne].
Qed.

Lemma unban_lookup e s c c' :
  bans (unban e s c).2 !! c'
    = if bool_decide (c = c') && e_sql_ok e && encodable c then None else bans s !! c'.
Proof.
  unfold unban. destruct (ensure_private _) as [ok fs].
  destruct (e_sql_ok e), (encodable c); cbn; rewrite ?andb_false_r, ?andb_true_r; try done.
  case_bool_decide as Hc; [subst; by rewrite lookup_delete_eq|by rewrite lookup_delete_ne].
Qed.

Lemma apply_ops_bans cfg ops s c :
  bans (apply_ops cfg ops s) !! c = last_decision c ops (bans s !! c).
Proof.
  unfold apply_ops. revert s. induction ops as [|o ops IH]; intros s; [done|].
  cbn [foldl]. rewrite IH. destruct o; cbn [apply_op last_decision].
  - by rewrite ban_lookup.
  - by rewrite unban_lookup.
  - by rewrite add_report_bans.
Qed.

(** ** File modes *)

Definition private (f : file) : Prop :=
  match f with File m _ => m = 384 | _ => True end.

Lemma ensure_private_spec fs :
  (ensure_private fs).1 = true -> Forall private (ensure_private fs).2.
Proof.
  induction fs as [|f fs IH]; [constructor|]. cbn [ensure_private].
  destruct f as [| |m []]; try done; destruct (ensure_private fs); cbn [fst snd] in *;
    intros Hok; constructor; auto; done.
Qed.

(** ** The invariant *)

Lemma wf_insert s r :
  wf s -> r_id r = last_id s + 1 -> newest_first (r :: reports s).
Proof.
  intros [Hs Hf] Hr. constructor; [done|]. apply (list.Forall_impl _ _ _ Hf).
  intros r' Hr'. cbn in Hr'. lia.
Qed.

Lemma add_report_wf cfg e s c ty d ts src :
  wf s -> wf (add_report cfg e s c ty d ts src).1.2.
Proof.
  intros Hwf. unfold add_report. case_test; [done|].
  destruct (maybe_vacuum _ _ _ _), (ensure_private _). cbn [fst snd].
  assert (newest_first (mk_row (last_id s + 1) c ty d ts (e_now e) src :: reports s)) as Hs
    by by apply wf_insert.
  split; cbn [reports last_id].
  - by apply insert_sorted.
  - apply list.Forall_forall. intros r Hr%insert_subset.
    apply elem_of_cons in Hr as [->|Hr]; [done|].
    destruct Hwf as [_ Hf]. pose proof (proj1 (list.Forall_forall _ _) Hf _ Hr) as Hle.
    cbn in Hle. lia.
Qed.

Lemma apply_ops_wf cfg ops s : wf s -> wf (apply_ops cfg ops s).
Proof.
  unfold apply_ops. revert s. induction ops as [|o ops IH]; intros s Hs; [done|].
  cbn [foldl]. apply IH. destruct o; cbn [apply_op].
  - unfold ban. destruct (ensure_private _). by case_test.
  - unfold unban. destruct (ensure_private _). by case_test.
  - by apply add_report_wf.
Qed.

(** ** VACUUM cadence *)

(** Along a sequence of operations: how often VACUUM ran, and how many reports
    made a trim delete something. *)
Fixpoint vacuums (cfg : config) (ops : list op) (s : store) : nat * nat :=
  match ops with
  | [] => (0, 0)%nat
  | o :: ops' =>
      let '(v, t) := vacuums cfg ops' (apply_op cfg o s) in
      match o with
      | OpReport e c ty d ts src =>
          let '(_, s', vac) := add_report cfg e s c ty d ts src in
          ((if vac then S v else v),
           if (length (reports s') <? S (length (reports s)))%nat
              && (last_id s <? last_id s') then S t else t)
      | _ => (v, t)
      end
  end.

Lemma maybe_vacuum_counts cfg e trimmed w w' vac :
  maybe_vacuum cfg e trimmed w = (w', vac) ->
  (w' + (if vac then vacuum_interval cfg else 0)
   <= w + (if (trimmed =? 0)%nat then 0 else 1))%nat.
Proof.
  unfold maybe_vacuum. destruct (Nat.eqb_spec trimmed 0); cbn [orb].
  { intros [= <- <-]. lia. }
  destruct (Nat.eqb_spec (vacuum_interval cfg) 0); [intros [= <- <-]; lia|].
  destruct (Nat.ltb_spec (S w) (vacuum_interval cfg)); [intros [= <- <-]; lia|].
  destruct (e_freelist e); intros [= <- <-]; [|lia]. destruct (_ && _); lia.
Qed.

Lemma add_report_vacuum cfg e s c ty d ts src :
  let '(_, s', vac) := add_report cfg e s c ty d ts src in
  (writes_since_vacuum s' + (if vac then vacuum_interval cfg else 0)
   <= writes_since_vacuum s
      + if (length (reports s') <? S (length (reports s)))%nat
           && (last_id s <? last_id s')%Z then 1 else 0)%nat.
Proof.
  unfold add_report. case_test; [lia|].
  set (rows := insert_and_trim _ _ _).
  destruct (maybe_vacuum _ _ _ _) as [w vac] eqn:Hv, (ensure_private _) as [ok fs].
  cbn [writes_since_vacuum reports last_id]. apply maybe_vacuum_counts in Hv.
  rewrite (proj2 (Z.ltb_lt _ _)) by lia. rewrite andb_true_r.
  destruct (Nat.eqb_spec (S (length (reports s)) - length rows) 0);
    destruct (Nat.ltb_spec (length rows) (S (length (reports s)))); lia.
Qed.

Lemma vacuums_bound cfg ops s :
  ((vacuums cfg ops s).1 * vacuum_interval cfg
   <= (vacuums cfg ops s).2 + writes_since_vacuum s)%nat.
Proof.
  revert s. induction ops as [|o ops IH]; intros s; [cbn; lia|]. cbn [vacuums].
  specialize (IH (apply_op cfg o s)).
  destruct (vacuums cfg ops (apply_op cfg o s)) as [v t]. cbn [fst snd] in IH.
  destruct o as [e c reason|e c|e c ty d ts src]; cbn [apply_op fst snd] in *.
  - unfold ban in IH. destruct (ensure_private _). by case_test_in IH.
  - unfold unban in IH. destruct (ensure_private _). by case_test_in IH.
  - pose proof (add_report_vacuum cfg e s c ty d ts src) as Hv.
    destruct (add_report cfg e s c ty d ts src) as [[r s'] vac]. cbn [fst snd] in *.
    destruct vac, (_ && _); cbn [fst snd]; lia.
Qed.

(** ** Properties *)

(** C22: a report that is accepted is stored under a fresh id as the newest
    row.  Of the rows before it exactly those stay that are among the client's
    newest [max_reports_per_client] (or another client's) and then among the
    newest [max_total_reports], which are the rows of the full-table-scan
    statement the bounded one replaced; both caps hold afterwards whatever
    they were before, and every file of the database is left at mode 0600. *)
Theorem report_retention cfg e s c ty d ts src s' v now :
  wf s -> add_report cfg e s c ty d ts src = (Ok now, s', v) ->
  let r := mk_row (last_id s + 1) c ty d ts now src in
  wf s' /\ head (reports s') = Some r /\
  reports s' = newest (max_total_reports cfg)
                 (keep (same_client c) (max_reports_per_client cfg) (r :: reports s)) /\
  (max_total_reports cfg <> O -> (length (reports s') <= max_total_reports cfg)%nat) /\
  (max_reports_per_client cfg <> O ->
    (length (filter (fun r' => r_client r' = c) (reports s'))
     <= max_reports_per_client cfg)%nat) /\
  Forall private (files s').
Proof.
  intros Hwf Hadd r. pose proof (add_report_wf cfg e s c ty d ts src Hwf) as Hwf'.
  rewrite Hadd in Hwf'. split; [done|]. revert Hadd. unfold add_report. case_test; [done|].
  pose proof (ensure_private_spec (e_files e)) as Hp.
  destruct (maybe_vacuum _ _ _ _), (ensure_private _) as [[] fs]; [|done].
  intros [= <- <- <-]. cbn [reports files]. fold r.
  assert (newest_first (r :: reports s)) as Hs by by apply wf_insert.
  split_and!; [|by apply insert_exact|by apply insert_total|by apply (insert_client cfg r)|by apply Hp].
  destruct (insert_head cfg r (reports s) Hs) as [rows' ->]. done.
Qed.

(** asking for page after page lists every report of the client exactly
    once, newest first. *)
Theorem pages_complete e s c limit n :
  e_sql_ok e = true -> encodable c = true ->
  1 <= limit <= MAX_LIST_LIMIT -> Z.of_nat n * limit < 2 ^ 63 ->
  Z.of_nat (length (filter (fun r => r_client r = c) (reports s))) <= Z.of_nat n * limit ->
  (fun i => list_reports e s c limit (Z.of_nat i * limit)) <$> seq 0 n
    = Ok <$> ((fun i => take (Z.to_nat limit) (drop (i * Z.to_nat limit)
                (filter (fun r => r_client r = c) (reports s)))) <$> seq 0 n) /\
  concat ((fun i => take (Z.to_nat limit) (drop (i * Z.to_nat limit)
            (filter (fun r => r_client r = c) (reports s)))) <$> seq 0 n)
    = filter (fun r => r_client r = c) (reports s).
Proof.
  intros He Hc Hl Hn Hlen. split.
  - rewrite <- list_fmap_compose. apply list_fmap_ext. intros j i Hi.
    apply lookup_seq in Hi as [-> Hi]. cbn [Nat.add]. rewrite list_reports_page by (done || nia).
    cbn. do 3 f_equal. lia.
  - rewrite pages_concat, take_ge; [done|]. lia.
Qed.

(** whatever reports, bans and unbans are interleaved, the status of a
    client is the last committed decision about it: reports never touch a ban,
    a decision about one client never touches another, and one that failed
    changes nothing. *)
Theorem ban_status_exact cfg ops s e c :
  e_sql_ok e = true -> encodable c = true ->
  ban_status e (apply_ops cfg ops s) c = Ok (last_decision c ops (bans s !! c)).
Proof. unfold ban_status. intros -> ->. cbn. by rewrite apply_ops_bans. Qed.

(** VACUUM runs at most once per [vacuum_interval] reports that made a
    trim delete rows, over any sequence of operations. *)
Theorem vacuum_cadence cfg ops s :
  writes_since_vacuum s = 0%nat ->
  ((vacuums cfg ops s).1 * vacuum_interval cfg <= (vacuums cfg ops s).2)%nat.
Proof. intros Hw. pose proof (vacuums_bound cfg ops s). lia. Qed.

(** opening a database never loses a row or a ban, whether it succeeds or
    not; a symlinked path is refused with nothing changed, a schema this
    server does not know with at most the modes changed; and what is opened is
    stamped with this schema and private. *)
Theorem open_store_safe e k r k' :
  open_store e k = (r, k') ->
  k_reports k' = k_reports k /\ k_bans k' = k_bans k /\ k_seq k' = k_seq k /\
  (symlinked (k_files k) = true -> r = inl SymlinkedPath /\ k' = k) /\
  (forall v, k_version k = Some v -> v <> 0 -> v <> SCHEMA_VERSION ->
    k_version k' = Some v /\ forall s, r <> inr s) /\
  (forall s, r = inr s -> k_version k' = Some SCHEMA_VERSION /\
    reports s = k_reports k /\ bans s = k_bans k /\ Forall private (files s)).
Proof.
  unfold open_store. pose proof (ensure_private_spec (e_files e)) as Hp.
  destruct (ensure_private (k_files k)) as [ok fs], (ensure_private (e_files e)) as [ok' fs'].
  destruct (symlinked (k_files k)) eqn:Hl.
  { intros [= <- <-]. by split_and!. }
  destruct ok; [|intros [= <- <-]; by split_and!].
  cbn [negb]. destruct (_ && _) eqn:Hv.
  { intros [= <- <-]. by split_and!. }
  assert (forall v, k_version k = Some v -> v <> 0 -> v <> SCHEMA_VERSION -> False) as Hno.
  { intros v Hk H0 H1. rewrite Hk in Hv. cbn in Hv. boolp. lia. }
  destruct (e_sql_ok e), ok'; intros [= <- <-]; split_and!; try done;
    try (intros v Hk H0 H1; by destruct (Hno v)).
  intros s [= <-]. split_and!; try done. by apply Hp.
Qed.

End Store.

Module StoreDemo.
Import Store.

Definition cfg : config := mk_config 2 3 1.
Definition e (now : Z) : env :=
  mk_env now true [File 420 true; Absent; File 420 true] (Some 150) true.
Definition alice : text := lit "alice".
Definition bob : text := lit "bob".

Definition add (now : Z) (c : text) (s : store) : store :=
  (add_report cfg (e now) s c (lit "ALERT") (lit "hook") (Some (NInt now)) (lit "::1")).1.2.

Definition s0 : store := mk_store [] 0 ∅ 0 [].
Definition s3 : store := add 3 alice (add 2 bob (add 1 alice s0)).

Lemma wf_s3 : wf s3.
Proof. repeat apply add_report_wf. split; constructor. Qed.

Definition s4 : store := add 4 alice s3.

Lemma report_retention_witness :
  r_id <$> reports s4 = [4; 3; 2] /\ files s4 = [File 384 true; Absent; File 384 true] /\
  wf s4 /\ head (reports s4)
    = Some (mk_row (last_id s3 + 1) alice (lit "ALERT") (lit "hook") (Some (NInt 4)) 4
              (lit "::1")).
Proof.
  split; [vm_compute; reflexivity|]. split; [vm_compute; reflexivity|].
  destruct (report_retention cfg (e 4) s3 alice (lit "ALERT") (lit "hook") (Some (NInt 4))
    (lit "::1") s4 true 4 wf_s3) as (Hwf & Hh & _); [vm_compute; reflexivity|].
  exact (conj Hwf Hh).
Defined.

Lemma pages_complete_witness :
  concat ((fun i => take 1 (drop (i * 1) (filter (fun r => r_client r = alice) (reports s3))))
            <$> seq 0 2)
  = filter (fun r => r_client r = alice) (reports s3).
Proof.
  refine (proj2 (pages_complete (e 9) s3 alice 1 2 _ _ _ _ _));
    vm_compute; repeat split; try reflexivity; discriminate.
Defined.

Definition history : list op :=
  [OpBan (e 5) alice (lit "aimbot"); OpBan (e 6) bob (lit "x");
   OpReport (e 7) alice (lit "ALERT") (lit "again") None (lit "::1");
   OpUnban (e 8) bob].

Lemma ban_status_exact_witness :
  last_decision alice history (bans s3 !! alice) = Some (lit "aimbot", 5) /\
  ban_status (e 9) (apply_ops cfg history s3) alice
    = Ok (last_decision alice history (bans s3 !! alice)).
Proof.
  split; [vm_compute; reflexivity|].
  by apply (ban_status_exact cfg history s3 (e 9) alice).
Defined.

Definition flood : list op :=
  (fun t => OpReport (e t) alice (lit "ALERT") (lit "x") None (lit "::1")) <$> [1; 2; 3; 4; 5].

Lemma vacuum_cadence_witness :
  vacuums (mk_config 2 3 2) flood s0 = (1%nat, 3%nat) /\
  ((vacuums (mk_config 2 3 2) flood s0).1 * 2 <= (vacuums (mk_config 2 3 2) flood s0).2)%nat.
Proof.
  split; [vm_compute; reflexivity|]. by apply (vacuum_cadence (mk_config 2 3 2) flood s0).
Defined.

Definition other_schema : disk := mk_disk [File 420 true] (Some 2) [] 0 ∅.

Lemma open_store_safe_witness :
  (open_store (e 1) other_schema).1 = inl (UnknownSchema 2) /\
  k_reports (open_store (e 1) other_schema).2 = k_reports other_schema.
Proof.
  split; [vm_compute; reflexivity|].
  apply (open_store_safe (e 1) other_schema _ _ (surjective_pairing _)).
Defined.

End StoreDemo.
