(* ===== verification/Json.v ===== *)
(** Text and JSON as the report server reads them: UTF-8 decoding that
    replaces what is malformed ([bytes.decode("utf-8", errors="replace")]) and
    [json.loads], both of the Python standard library as
    src/server/ac_server.py uses them.  Text is a list of code points. *)

From S2P Require Import Prelude CText CScan Report.

#[local] Open Scope Z_scope.

Module Utf8.

Definition REPL : Z := 65533.

Definition cont (b : Z) : bool := (128 <=? b) && (b <=? 191).

(** The second byte of a three- or four-byte sequence: no overlong form, no
    surrogate, nothing above U+10FFFF. *)
Definition second (b0 b1 : Z) : bool :=
  ((if b0 =? 224 then 160 else if b0 =? 240 then 144 else 128) <=? b1)
  && (b1 <=? (if b0 =? 237 then 159 else if b0 =? 244 then 143 else 191)).

(** A malformed sequence becomes one replacement character per longest prefix
    of a well-formed one. *)
Fixpoint decode (bs : list Z) : list Z :=
  match bs with
  | [] => []
  | b0 :: r =>
      if b0 <? 128 then b0 :: decode r
      else if b0 <? 194 then REPL :: decode r
      else if b0 <? 224 then
        match r with
        | b1 :: r1 =>
            if cont b1 then ((b0 - 192) * 64 + (b1 - 128)) :: decode r1
            else REPL :: decode r
        | [] => [REPL]
        end
      else if b0 <? 240 then
        match r with
        | b1 :: r1 =>
            if second b0 b1 then
              match r1 with
              | b2 :: r2 =>
                  if cont b2
                  then (((b0 - 224) * 64 + (b1 - 128)) * 64 + (b2 - 128)) :: decode r2
                  else REPL :: decode r1
              | [] => [REPL]
              end
            else REPL :: decode r
        | [] => [REPL]
        end
      else if b0 <? 245 then
        match r with
        | b1 :: r1 =>
            if second b0 b1 then
              match r1 with
              | b2 :: r2 =>
                  if cont b2 then
                    match r2 with
                    | b3 :: r3 =>
                        if cont b3
                        then ((((b0 - 240) * 64 + (b1 - 128)) * 64 + (b2 - 128)) * 64
                              + (b3 - 128)) :: decode r3
                        else REPL :: decode r2
                    | [] => [REPL]
                    end
                  else REPL :: decode r1
              | [] => [REPL]
              end
            else REPL :: decode r
        | [] => [REPL]
        end
      else REPL :: decode r
  end.

(** The UTF-8 form of a code point. *)
Definition encode1 (c : Z) : list Z :=
  if c <? 128 then [c]
  else if c <? 2048 then [192 + c / 64; 128 + c mod 64]
  else if c <? 65536 then [224 + c / 4096; 128 + c / 64 mod 64; 128 + c mod 64]
  else [240 + c / 262144; 128 + c / 4096 mod 64; 128 + c / 64 mod 64; 128 + c mod 64].

Definition encode (s : list Z) : list Z := concat (encode1 <$> s).

(** A Unicode scalar value. *)
Definition scalar (c : Z) : Prop :=
  0 <= c <= 1114111 /\ ~ (55296 <= c <= 57343).

Lemma cont_low m : 0 <= m < 64 -> cont (128 + m) = true.
Proof. unfold cont. intros Hm. apply andb_true_iff. rewrite !Z.leb_le. lia. Qed.

(** The first byte of a three-byte form and its second. *)
Lemma second_3 y n :
  0 <= y < 16 -> 0 <= n < 64 -> (y = 0 -> 32 <= n) -> (y = 13 -> n < 32) ->
  second (224 + y) (128 + n) = true.
Proof.
  unfold second. intros Hy Hn H0 H13. apply andb_true_iff. rewrite !Z.leb_le.
  repeat match goal with |- context [if ?a =? ?b then _ else _] =>
    destruct (Z.eqb_spec a b) end; lia.
Qed.

Lemma second_4 z o :
  0 <= z < 5 -> 0 <= o < 64 -> (z = 0 -> 16 <= o) -> (z = 4 -> o < 16) ->
  second (240 + z) (128 + o) = true.
Proof.
  unfold second. intros Hy Hn H0 H4. apply andb_true_iff. rewrite !Z.leb_le.
  repeat match goal with |- context [if ?a =? ?b then _ else _] =>
    destruct (Z.eqb_spec a b) end; lia.
Qed.

Ltac below := rewrite (proj2 (Z.ltb_lt _ _)) by lia.
Ltac above := rewrite (proj2 (Z.ltb_ge _ _)) by lia.

Lemma decode_encode1 c rest : scalar c -> decode (encode1 c ++ rest) = c :: decode rest.
Proof.
  intros [Hc Hs]. unfold encode1.
  pose proof (Z.div_mod c 64 ltac:(lia)). pose proof (Z.mod_pos_bound c 64 ltac:(lia)).
  pose proof (Z.div_mod (c / 64) 64 ltac:(lia)).
  pose proof (Z.mod_pos_bound (c / 64) 64 ltac:(lia)).
  assert (c / 4096 = c / 64 / 64) as -> by (rewrite Z.div_div by lia; done).
  pose proof (Z.div_mod (c / 64 / 64) 64 ltac:(lia)).
  pose proof (Z.mod_pos_bound (c / 64 / 64) 64 ltac:(lia)).
  assert (c / 262144 = c / 64 / 64 / 64) as -> by (rewrite !Z.div_div by lia; done).
  set (x := c / 64) in *. set (y := x / 64) in *. set (z := y / 64) in *.
  set (m := c mod 64) in *. set (n := x mod 64) in *. set (o := y mod 64) in *.
  clearbody x y z m n o.
  destruct (Z.ltb_spec c 128); [|destruct (Z.ltb_spec c 2048);
    [|destruct (Z.ltb_spec c 65536)]]; cbn [app decode].
  - by below.
  - do 2 above. below. rewrite cont_low by lia. f_equal. lia.
  - do 3 above. below. rewrite second_3, cont_low by lia. f_equal. lia.
  - do 4 above. below. rewrite second_4, !cont_low by lia. f_equal. lia.
Qed.

(** Well-formed text survives. *)
Lemma decode_encode s : Forall scalar s -> decode (encode s) = s.
Proof.
  unfold encode. induction 1 as [|c s Hc _ IH]; [done|].
  cbn [fmap list_fmap concat]. rewrite decode_encode1 by done. by rewrite IH.
Qed.

(** ** Malformed text and its surroundings *)

Lemma ascii_not_cont c : c < 128 -> cont c = false.
Proof. unfold cont. intros Hc. apply andb_false_iff. rewrite !Z.leb_gt. lia. Qed.

Lemma ascii_not_second b c : c < 128 -> second b c = false.
Proof.
  unfold second. intros Hc. apply andb_false_iff. left. rewrite Z.leb_gt.
  repeat case_match; lia.
Qed.

(** One step: the character [b0] begins, and how many further bytes it takes. *)
Definition head1 (b0 : Z) (r : list Z) : Z * nat :=
  if b0 <? 128 then (b0, 0%nat)
  else if b0 <? 194 then (REPL, 0%nat)
  else if b0 <? 224 then
    match r with
    | b1 :: _ => if cont b1 then ((b0 - 192) * 64 + (b1 - 128), 1%nat) else (REPL, 0%nat)
    | [] => (REPL, 0%nat)
    end
  else if b0 <? 245 then
    match r with
    | b1 :: r1 =>
        if second b0 b1 then
          match r1 with
          | b2 :: r2 =>
              if cont b2 then
                if b0 <? 240
                then (((b0 - 224) * 64 + (b1 - 128)) * 64 + (b2 - 128), 2%nat)
                else match r2 with
                     | b3 :: _ =>
                         if cont b3
                         then ((((b0 - 240) * 64 + (b1 - 128)) * 64 + (b2 - 128)) * 64
                               + (b3 - 128), 3%nat)
                         else (REPL, 2%nat)
                     | [] => (REPL, 2%nat)
                     end
              else (REPL, 1%nat)
          | [] => (REPL, 1%nat)
          end
        else (REPL, 0%nat)
    | [] => (REPL, 0%nat)
    end
  else (REPL, 0%nat).

Lemma decode_step b0 r :
  decode (b0 :: r) = (head1 b0 r).1 :: decode (drop (head1 b0 r).2 r).
Proof.
  cbn [decode]. unfold head1.
  destruct (b0 <? 128); [done|]. destruct (b0 <? 194); [done|].
  destruct (b0 <? 224); [by destruct r as [|b1 r]; [|destruct (cont b1)]|].
  destruct (Z.ltb_spec b0 240), (Z.ltb_spec b0 245); try lia; try done;
    (destruct r as [|b1 r]; [done|]; destruct (second b0 b1); [|done];
     destruct r as [|b2 r]; [done|]; destruct (cont b2); [|done]; try done).
  destruct r as [|b3 r]; [done|]. by destruct (cont b3).
Qed.

(** An ASCII byte is never swallowed by what precedes it. *)
Lemma head1_app b0 r c b :
  c < 128 -> head1 b0 (r ++ c :: b) = head1 b0 r /\ ((head1 b0 r).2 <= length r)%nat.
Proof.
  intros Hc. unfold head1.
  destruct (b0 <? 128); [split; [done|cbn; lia]|].
  destruct (b0 <? 194); [split; [done|cbn; lia]|].
  destruct (b0 <? 224); [|destruct (b0 <? 245); [|split; [done|cbn; lia]]];
    (destruct r as [|b1 r]; cbn [app length];
     [by rewrite ?ascii_not_cont, ?ascii_not_second by done|]).
  { destruct (cont b1); split; done || (cbn; lia). }
  destruct (second b0 b1); [|split; [done|cbn; lia]].
  destruct r as [|b2 r]; cbn [app length];
    [by rewrite ?ascii_not_cont by done; split; [done|cbn; lia]|].
  destruct (cont b2); [|split; [done|cbn; lia]].
  destruct (b0 <? 240); [split; [done|cbn; lia]|].
  destruct r as [|b3 r]; cbn [app length];
    [by rewrite ?ascii_not_cont by done; split; [done|cbn; lia]|].
  destruct (cont b3); split; done || (cbn; lia).
Qed.

Lemma decode_ascii c r : c < 128 -> decode (c :: r) = c :: decode r.
Proof. intros Hc. cbn [decode]. by rewrite (proj2 (Z.ltb_lt _ _) Hc). Qed.

Lemma decode_ascii_app a c b :
  c < 128 -> decode (a ++ c :: b) = decode a ++ c :: decode b.
Proof.
  intros Hc. induction a as [a IH] using (induction_ltof1 _ length). unfold ltof in IH.
  destruct a as [|b0 r]; [by apply decode_ascii|]. cbn [app]. rewrite !decode_step.
  destruct (head1_app b0 r c b Hc) as [-> Hn]. cbn [app]. f_equal.
  rewrite drop_app_le by done. apply IH. rewrite length_drop. cbn. lia.
Qed.

Lemma decode_ascii_list a b :
  Forall (fun c => c < 128) a -> decode (a ++ b) = a ++ decode b.
Proof.
  induction 1 as [|c a Hc _ IH]; [done|]. cbn [app]. by rewrite decode_ascii, IH by done.
Qed.

(** Bytes above ASCII never decode to ASCII. *)
Lemma head1_high b0 r :
  128 <= b0 -> Forall (fun c => 128 <= c) r -> 128 <= (head1 b0 r).1.
Proof.
  unfold head1, REPL. intros Hb Hr.
  rewrite (proj2 (Z.ltb_ge _ _) Hb). destruct (Z.ltb_spec b0 194); [cbn; lia|].
  assert (forall x, x ∈ r -> 128 <= x) as Hall by by apply list.Forall_forall.
  destruct (Z.ltb_spec b0 224).
  { destruct r as [|b1 r]; [cbn; lia|]. pose proof (Hall b1 ltac:(left)).
    destruct (cont b1); cbn; lia. }
  destruct (Z.ltb_spec b0 245); [|cbn; lia].
  destruct r as [|b1 r]; [cbn; lia|]. pose proof (Hall b1 ltac:(left)).
  destruct (second b0 b1) eqn:Hs; [|cbn; lia].
  assert (b0 = 224 -> 160 <= b1) as Hb224.
  { intros ->. unfold second in Hs. boolp. cbn in *. lia. }
  assert (b0 = 240 -> 144 <= b1) as Hb240.
  { intros ->. unfold second in Hs. boolp. cbn in *. lia. }
  destruct r as [|b2 r]; [cbn; lia|]. pose proof (Hall b2 ltac:(right; left)).
  destruct (cont b2); [|cbn; lia]. destruct (Z.ltb_spec b0 240); [cbn [fst]; lia|].
  destruct r as [|b3 r]; [cbn; lia|]. pose proof (Hall b3 ltac:(right; right; left)).
  destruct (cont b3); cbn [fst]; lia.
Qed.

Lemma decode_high bs : Forall (fun c => 128 <= c) bs -> Forall (fun c => 128 <= c) (decode bs).
Proof.
  induction bs as [bs IH] using (induction_ltof1 _ length). unfold ltof in IH.
  destruct bs as [|b0 r]; [constructor|]. intros Hall. rewrite decode_step.
  apply Forall_cons_1 in Hall as [H0 Hr]. constructor; [by apply head1_high|].
  apply IH; [rewrite length_drop; cbn; lia|]. by apply list.Forall_drop.
Qed.

Lemma decode_length bs : (length (decode bs) <= length bs)%nat.
Proof.
  induction bs as [bs IH] using (induction_ltof1 _ length). unfold ltof in IH.
  destruct bs as [|b0 r]; [done|]. rewrite decode_step. cbn [length].
  specialize (IH (drop (head1 b0 r).2 r)). rewrite length_drop in IH. cbn in IH. lia.
Qed.

(** Bytes decode to Unicode scalar values, never to half a surrogate pair. *)
Lemma head1_scalar b0 r :
  Forall (fun c => 0 <= c < 256) (b0 :: r) -> scalar (head1 b0 r).1.
Proof.
  intros [Hb Hr]%Forall_cons_1. unfold head1, scalar, REPL.
  destruct (Z.ltb_spec b0 128); [cbn; lia|]. destruct (Z.ltb_spec b0 194); [cbn; lia|].
  destruct (Z.ltb_spec b0 224).
  { destruct r as [|b1 r]; [cbn; lia|]. destruct (cont b1) eqn:HxH1; [|cbn; lia].
    unfold cont in HxH1. boolp. cbn. lia. }
  destruct (Z.ltb_spec b0 245); [|cbn; lia]. destruct r as [|b1 r]; [cbn; lia|].
  destruct (second b0 b1) eqn:Hs; [|cbn; lia].
  assert ((if b0 =? 224 then 160 else if b0 =? 240 then 144 else 128) <= b1 <=
    (if b0 =? 237 then 159 else if b0 =? 244 then 143 else 191)) as Hb1.
  { unfold second in Hs. apply andb_true_iff in Hs as [HxH1 HxH2].
    apply Z.leb_le in HxH1. by apply Z.leb_le in HxH2. }
  clear Hs. destruct r as [|b2 r]; [cbn; lia|].
  destruct (cont b2) eqn:HxH2; [|cbn; lia]. unfold cont in HxH2. boolp.
  destruct (Z.ltb_spec b0 240); cbn [fst].
  { destruct (Z.eqb_spec b0 224), (Z.eqb_spec b0 240), (Z.eqb_spec b0 237),
      (Z.eqb_spec b0 244); lia. }
  destruct r as [|b3 r]; [cbn; lia|]. destruct (cont b3) eqn:HxH3; [|cbn; lia].
  unfold cont in HxH3. boolp. cbn [fst].
  destruct (Z.eqb_spec b0 224), (Z.eqb_spec b0 240), (Z.eqb_spec b0 237),
    (Z.eqb_spec b0 244); lia.
Qed.

Lemma decode_scalar bs : Forall (fun c => 0 <= c < 256) bs -> Forall scalar (decode bs).
Proof.
  induction bs as [bs IH] using (induction_ltof1 _ length). unfold ltof in IH.
  destruct bs as [|b0 r]; [constructor|]. intros Hall. rewrite decode_step.
  constructor; [by apply head1_scalar|]. apply Forall_cons_1 in Hall as [_ Hr].
  apply IH; [rewrite length_drop; cbn; lia|]. by apply list.Forall_drop.
Qed.

(** ** Decoding and JSON escaping commute *)

Definition escape (s : list Z) : list Z := concat (Report.esc <$> s).

Lemma escape_app s t : escape (s ++ t) = escape s ++ escape t.
Proof. unfold escape. by rewrite fmap_app, concat_app. Qed.

Lemma esc_high c : 128 <= c -> Report.esc c = [c].
Proof. intros Hc. unfold Report.esc, Report.quote, Report.bslash. repeat case_test; lia || done. Qed.

Lemma escape_high s : Forall (fun c => 128 <= c) s -> escape s = s.
Proof.
  unfold escape. induction 1 as [|c s Hc _ IH]; [done|].
  cbn [fmap list_fmap concat]. by rewrite esc_high, IH.
Qed.

Lemma esc_ascii c : 0 <= c < 128 -> exists x t, Report.esc c = x :: t /\
  x < 128 /\ Forall (fun c => c < 128) t.
Proof.
  intros Hc. unfold Report.esc, Report.quote, Report.bslash.
  repeat match goal with |- context [if c =? ?k then _ else _] =>
    destruct (Z.eqb_spec c k) end;
    try (do 2 eexists; split; [reflexivity|]; split; [lia|]; by repeat constructor).
  assert (forall d, 0 <= d < 16 -> digit_char d < 128) as Hd.
  { intros d Hd. unfold digit_char. case_test; lia. }
  destruct (Z.ltb_spec c 32); do 2 eexists; (split; [reflexivity|]); (split; [lia|]);
    repeat constructor; apply Hd; word_lia.
Qed.

Lemma split_high bs :
  Forall (fun c => 128 <= c) bs \/
  exists h c t, bs = h ++ c :: t /\ Forall (fun c => 128 <= c) h /\ c < 128.
Proof.
  induction bs as [|b bs IH]; [left; constructor|].
  destruct (Z.lt_ge_cases b 128) as [Hb|Hb].
  { right. exists [], b, bs. split_and!; [done|constructor|done]. }
  destruct IH as [IH|(h & c & t & -> & Hh & Hc)]; [left; by constructor|].
  right. exists (b :: h), c, t. split_and!; [done|by constructor|done].
Qed.

Lemma decode_escape bs : Forall (fun c => 0 <= c) bs -> decode (escape bs) = escape (decode bs).
Proof.
  induction bs as [bs IH] using (induction_ltof1 _ length). unfold ltof in IH. intros Hpos.
  destruct (split_high bs) as [Hh|(h & c & t & -> & Hh & Hc)].
  { rewrite !escape_high by (done || by apply decode_high). done. }
  apply list.Forall_app in Hpos as [_ Hpos]. apply Forall_cons_1 in Hpos as [H0 Hpos].
  destruct (esc_ascii c ltac:(lia)) as (x & tl & Hesc & Hx & Htl).
  assert (forall u, escape (c :: u) = x :: tl ++ escape u) as Hcons.
  { intros u. change (escape (c :: u)) with (Report.esc c ++ escape u). by rewrite Hesc. }
  rewrite escape_app, Hcons, (escape_high h) by done.
  rewrite !decode_ascii_app, decode_ascii_list by done.
  rewrite escape_app, Hcons, (escape_high (decode h)) by by apply decode_high.
  by rewrite IH by (done || (rewrite length_app; cbn; lia)).
Qed.

End Utf8.

Module Json.
Import Report.

(** A parsed value.  A float is the decimal [m * 10 ^ e] as written. *)
Inductive json :=
  | JNull | JBool (b : bool) | JInt (z : Z) | JFloat (m e : Z) | JNonFinite
  | JString (s : list Z) | JArray (l : list json)
  | JObject (members : list (list Z * json)).

(** [JErr] is the [ValueError] of malformed text, [JDeep] the
    [RecursionError] of text nested deeper than the interpreter allows. *)
Inductive jres (A : Type) := JOk (a : A) (rest : list Z) | JErr | JDeep | JFuel.
Arguments JOk {A} _ _.
Arguments JErr {A}.
Arguments JDeep {A}.
Arguments JFuel {A}.

Definition jbind {A B} (r : jres A) (k : A -> list Z -> jres B) : jres B :=
  match r with JOk a rest => k a rest | JErr => JErr | JDeep => JDeep | JFuel => JFuel end.

Definition ws (c : Z) : bool := (c =? 32) || (c =? 9) || (c =? 10) || (c =? 13).

Fixpoint skip (s : list Z) : list Z :=
  match s with c :: s' => if ws c then skip s' else s | [] => [] end.

(** The rest after an expected character. *)
Definition eat (c : Z) (s : list Z) : option (list Z) :=
  match s with x :: s' => if x =? c then Some s' else None | [] => None end.

(** ** Strings *)

Definition high (v : Z) : bool := (55296 <=? v) && (v <=? 56319).
Definition low (v : Z) : bool := (56320 <=? v) && (v <=? 57343).

(** After the opening quote: the characters and what follows the closing one.
    A high surrogate joins a low one that follows it. *)
Fixpoint scan_string (s : list Z) : option (list Z * list Z) :=
  match s with
  | [] => None
  | x :: s1 =>
      if x =? quote then Some ([], s1)
      else if x =? bslash then
        match s1 with
        | e :: s2 =>
            if e =? 117 then
              match s2 with
              | a :: b :: c :: d :: s3 =>
                  match hex4 a b c d with
                  | None => None
                  | Some v =>
                      match s3 with
                      | x1 :: x2 :: a' :: b' :: c' :: d' :: s4 =>
                          if high v && (x1 =? bslash) && (x2 =? 117) then
                            match hex4 a' b' c' d' with
                            | None => None
                            | Some w =>
                                if low w
                                then jcons (65536 + (v - 55296) * 1024 + (w - 56320))
                                           (scan_string s4)
                                else jcons v (scan_string s3)
                            end
                          else jcons v (scan_string s3)
                      | _ => jcons v (scan_string s3)
                      end
                  end
              | _ => None
              end
            else match unesc1 e with
                 | Some c => jcons c (scan_string s2)
                 | None => None
                 end
        | [] => None
        end
      else if x <? 32 then None
      else jcons x (scan_string s1)
  end.

(** ** Numbers *)

(** The longest run of digits, its value and its length. *)
Fixpoint digits (acc : Z) (n : nat) (s : list Z) : Z * nat * list Z :=
  match s with
  | c :: s' => if isdigit c then digits (acc * 10 + (c - 48)) (S n) s' else (acc, n, s)
  | [] => (acc, n, s)
  end.

(** Decimal digits of a positive number: how many. *)
Fixpoint ndigits (fuel : nat) (m : Z) : Z :=
  match fuel with
  | O => 0
  | S f => if m =? 0 then 0 else 1 + ndigits f (m / 10)
  end.

(** Whether [m * 10 ^ e] rounds to an infinity: at [2 ^ 1024 - 2 ^ 970], half
    way past the largest double, and above. *)
Definition overflows (len : nat) (m e : Z) : bool :=
  let a := Z.abs m in
  let d := ndigits len a + e in
  if a =? 0 then false
  else if d <? 300 then false
  else if 320 <? d then true
  else if e <? 0 then (2 ^ 1024 - 2 ^ 970) * 10 ^ (- e) <=? a
  else 2 ^ 1024 - 2 ^ 970 <=? a * 10 ^ e.

(** The exponent, when one follows. *)
Definition exponent (s : list Z) : option (Z * list Z) :=
  match s with
  | x :: s1 =>
      if (x =? 101) || (x =? 69) then
        let '(sg, s2) :=
          match eat 45 s1, eat 43 s1 with
          | Some s2, _ => (-1, s2)
          | None, Some s2 => (1, s2)
          | None, None => (1, s1)
          end in
        let '(v, n, s3) := digits 0 0 s2 in
        if (n =? 0)%nat then None else Some (sg * v, s3)
      else None
  | [] => None
  end.

(** The integer part: [0], or a run not beginning with it. *)
Definition int_part (s : list Z) : option (Z * nat * list Z) :=
  match eat 48 s with
  | Some s1 => Some (0, 1%nat, s1)
  | None => let '(v, n, s1) := digits 0 0 s in
            if (n =? 0)%nat then None else Some (v, n, s1)
  end.

Definition number (s : list Z) : jres json :=
  let '(sg, s0) := match eat 45 s with Some s' => (-1, s') | None => (1, s) end in
  match int_part s0 with
  | None => JErr
  | Some (v, n, s1) =>
      let '(m, nf, s2) :=
        match eat 46 s1 with
        | Some s2 =>
            let '(m, k, s3) := digits v 0 s2 in
            if (k =? 0)%nat then (v, 0%nat, s1) else (m, k, s3)
        | None => (v, 0%nat, s1)
        end in
      match exponent s2 with
      | Some (x, s3) =>
          let e := x - Z.of_nat nf in
          JOk (if overflows (n + nf) (sg * m) e then JNonFinite else JFloat (sg * m) e) s3
      | None =>
          if (nf =? 0)%nat then JOk (JInt (sg * v)) s1
          else let e := - Z.of_nat nf in
               JOk (if overflows (n + nf) (sg * m) e then JNonFinite
                    else JFloat (sg * m) e) s2
      end
  end.

(** ** Values *)

Definition literal (l : list Z) (v : json) (s : list Z) : jres json :=
  if starts_with l s then JOk v (drop (length l) s) else JErr.

(** [depth]: how many more arrays and objects may be entered. *)
Fixpoint value (fuel depth : nat) (s : list Z) {struct fuel} : jres json :=
  match fuel with
  | O => JFuel
  | S f =>
      match s with
      | [] => JErr
      | c :: s1 =>
          if c =? quote then
            match scan_string s1 with
            | Some (v, rest) => JOk (JString v) rest
            | None => JErr
            end
          else if c =? 123 then
            match depth with
            | O => JDeep
            | S d =>
                match eat 125 (skip s1) with
                | Some rest => JOk (JObject []) rest
                | None => jbind (members f d (skip s1)) (fun m rest => JOk (JObject m) rest)
                end
            end
          else if c =? 91 then
            match depth with
            | O => JDeep
            | S d =>
                match eat 93 (skip s1) with
                | Some rest => JOk (JArray []) rest
                | None => jbind (elements f d (skip s1)) (fun l rest => JOk (JArray l) rest)
                end
            end
          else if c =? 110 then literal (lit "null") JNull s
          else if c =? 116 then literal (lit "true") (JBool true) s
          else if c =? 102 then literal (lit "false") (JBool false) s
          else if c =? 78 then literal (lit "NaN") JNonFinite s
          else if c =? 73 then literal (lit "Infinity") JNonFinite s
          else if starts_with (lit "-Infinity") s then literal (lit "-Infinity") JNonFinite s
          else number s
      end
  end
with members (fuel depth : nat) (s : list Z) {struct fuel} : jres (list (list Z * json)) :=
  match fuel with
  | O => JFuel
  | S f =>
      match eat quote s with
      | None => JErr
      | Some s1 =>
          match scan_string s1 with
          | None => JErr
          | Some (k, s2) =>
              match eat 58 (skip s2) with
              | None => JErr
              | Some s3 =>
                  jbind (value f depth (skip s3)) (fun v s4 =>
                    match eat 125 (skip s4), eat 44 (skip s4) with
                    | Some rest, _ => JOk [(k, v)] rest
                    | None, Some s5 =>
                        jbind (members f depth (skip s5)) (fun m rest =>
                          JOk ((k, v) :: m) rest)
                    | None, None => JErr
                    end)
              end
          end
      end
  end
with elements (fuel depth : nat) (s : list Z) {struct fuel} : jres (list json) :=
  match fuel with
  | O => JFuel
  | S f =>
      jbind (value f depth s) (fun v s1 =>
        match eat 93 (skip s1), eat 44 (skip s1) with
        | Some rest, _ => JOk [v] rest
        | None, Some s2 =>
            jbind (elements f depth (skip s2)) (fun l rest => JOk (v :: l) rest)
        | None, None => JErr
        end)
  end.

(** [json.loads]: one value, with blanks around it and nothing else. *)
Definition loads (depth : nat) (s : list Z) : jres json :=
  match eat 65279 s with
  | Some _ => JErr
  | None =>
      jbind (value (S (2 * length s)) depth (skip s)) (fun v rest =>
        match skip rest with [] => JOk v [] | _ => JErr end)
  end.

(** [dict.get]: the last member of that name. *)
Fixpoint lookup_member (k : list Z) (m : list (list Z * json)) : option json :=
  match m with
  | [] => None
  | (k', v) :: m' =>
      match lookup_member k m' with
      | Some v' => Some v'
      | None => if bool_decide (k' = k) then Some v else None
      end
  end.

(** ** Every parse ends *)

Lemma skip_length s : (length (skip s) <= length s)%nat.
Proof. induction s as [|c s IH]; cbn [skip]; [done|]. case_test; cbn; lia. Qed.

Lemma eat_Some c s t : eat c s = Some t -> s = c :: t.
Proof.
  destruct s as [|x s]; cbn; [done|]. destruct (Z.eqb_spec x c) as [->|]; [|done].
  by intros [= ->].
Qed.

Lemma eat_length c s t : eat c s = Some t -> length s = S (length t).
Proof. by intros ->%eat_Some. Qed.

(** Turns every character eaten into what it says of lengths. *)
Ltac eat_lengths :=
  repeat match goal with E : eat _ _ = Some _ |- _ => apply eat_length in E end.

Lemma jcons_Some c r v rest :
  jcons c r = Some (v, rest) -> exists v', r = Some (v', rest) /\ v = c :: v'.
Proof. destruct r as [[v' r']|]; [|done]. cbn. intros [= <- <-]. by eexists. Qed.

Lemma scan_string_length s v rest :
  scan_string s = Some (v, rest) -> (length rest < length s)%nat.
Proof.
  revert v. induction s as [s IH] using (induction_ltof1 _ length). unfold ltof in IH.
  assert (forall c t v, (length t < length s)%nat ->
    jcons c (scan_string t) = Some (v, rest) -> (length rest < length s)%nat) as Hj.
  { intros c t v Ht (v' & Hs & ->)%jcons_Some. apply IH in Hs; lia. }
  destruct s as [|x s]; [done|]. intros v. cbn [scan_string].
  destruct (x =? quote); [intros [= <- <-]; cbn; lia|].
  destruct (x =? bslash); [|destruct (x <? 32); [done|apply Hj; cbn; lia]].
  destruct s as [|e s]; [done|]. destruct (e =? 117).
  - destruct s as [|a [|b [|c [|d s3]]]]; try done. destruct (hex4 a b c d) as [w|]; [|done].
    repeat case_match; try done; apply Hj; cbn; lia.
  - destruct (unesc1 e); [|done]. apply Hj. cbn; lia.
Qed.

Lemma digits_length a n s :
  let '(_, n', rest) := digits a n s in (n' + length rest = n + length s)%nat.
Proof.
  revert a n. induction s as [|c s IH]; intros a n; cbn [digits]; [done|].
  destruct (isdigit c); [|done]. specialize (IH (a * 10 + (c - 48)) (S n)).
  destruct (digits _ _ s) as [[? ?] ?]. cbn. lia.
Qed.

Lemma int_part_length s v n rest :
  int_part s = Some (v, n, rest) -> (length rest < length s)%nat.
Proof.
  assert (forall t, (let '(v, n, s1) := digits 0 0 t in
    if (n =? 0)%nat then None else Some (v, n, s1)) = Some (v, n, rest) ->
    (length rest < length t)%nat) as Hd.
  { intros t. pose proof (digits_length 0 0 t). destruct (digits 0 0 t) as [[? n'] ?].
    destruct (Nat.eqb_spec n' 0); [done|]. intros [= <- <- <-]. lia. }
  unfold int_part. destruct (eat 48 s) eqn:He; [|apply Hd]. intros [= _ _ <-].
  eat_lengths. lia.
Qed.

Lemma exponent_length s v rest : exponent s = Some (v, rest) -> (length rest <= length s)%nat.
Proof.
  unfold exponent. destruct s as [|x s]; [done|]. destruct (_ || _); [|done].
  set (p := match eat 45 s, eat 43 s with Some s2, _ => (-1, s2) | _, _ => _ end).
  assert (length p.2 <= length s)%nat as Hp
    by (subst p; repeat case_match; eat_lengths; cbn; lia).
  destruct p as [sg s2]. pose proof (digits_length 0 0 s2).
  destruct (digits 0 0 s2) as [[? n'] ?]. destruct (n' =? 0)%nat; [done|].
  intros [= <- <-]. cbn in *. lia.
Qed.

Lemma number_length s v rest : number s = JOk v rest -> (length rest < length s)%nat.
Proof.
  unfold number.
  set (p := match eat 45 s with Some s' => (-1, s') | None => (1, s) end).
  assert (length p.2 <= length s)%nat as Hp
    by (subst p; repeat case_match; eat_lengths; cbn; lia).
  destruct p as [sg s0]. cbn [snd] in Hp.
  destruct (int_part s0) as [[[w n] s1]|] eqn:Hi; [|done]. apply int_part_length in Hi.
  set (q := match eat 46 s1 with Some s2 => _ | None => _ end).
  assert (length q.2 <= length s1)%nat as Hq.
  { subst q. destruct (eat 46 s1) as [s2|] eqn:He; [|done]. eat_lengths.
    pose proof (digits_length w 0 s2). destruct (digits w 0 s2) as [[? k] ?].
    destruct (k =? 0)%nat; cbn; lia. }
  destruct q as [[m nf] s2]. cbn [snd] in Hq.
  destruct (exponent s2) as [[x s3]|] eqn:He.
  - apply exponent_length in He. intros [= _ <-]. lia.
  - destruct (nf =? 0)%nat; intros [= _ <-]; lia.
Qed.

Lemma literal_length l w s v rest :
  (0 < length l)%nat -> literal l w s = JOk v rest -> (length rest < length s)%nat.
Proof.
  unfold literal. intros Hl. destruct (starts_with l s) eqn:Hs; [|done].
  apply starts_with_spec in Hs as [t ->]. intros [= _ <-].
  rewrite drop_app_length, length_app. lia.
Qed.

Lemma jbind_JOk {A B} (r : jres A) (k : A -> list Z -> jres B) b rest :
  jbind r k = JOk b rest -> exists a s, r = JOk a s /\ k a s = JOk b rest.
Proof. destruct r; try done. intros Hk. by do 2 eexists. Qed.

(** What a result leaves is shorter than what it was given. *)
Lemma parse_length fuel :
  (forall d s v rest, value fuel d s = JOk v rest -> (length rest < length s)%nat) /\
  (forall d s v rest, members fuel d s = JOk v rest -> (length rest < length s)%nat) /\
  (forall d s v rest, elements fuel d s = JOk v rest -> (length rest < length s)%nat).
Proof.
  induction fuel as [|f (IHv & IHm & IHe)]; [done|]. split_and!; intros d s v rest.
  - cbn [value]. destruct s as [|c s]; [done|]. pose proof (skip_length s).
    destruct (c =? quote).
    { destruct (scan_string s) as [[w r]|] eqn:Hs; [|done]. apply scan_string_length in Hs.
      intros [= _ <-]. cbn. lia. }
    destruct (c =? 123).
    { destruct d as [|d]; [done|]. destruct (eat 125 (skip s)) eqn:He; eat_lengths.
      - intros [= _ <-]. cbn. lia.
      - intros (m & t & Hm & [= _ <-])%jbind_JOk. apply IHm in Hm. cbn. lia. }
    destruct (c =? 91).
    { destruct d as [|d]; [done|]. destruct (eat 93 (skip s)) eqn:He; eat_lengths.
      - intros [= _ <-]. cbn. lia.
      - intros (m & t & Hm & [= _ <-])%jbind_JOk. apply IHe in Hm. cbn. lia. }
    repeat (case_match; [apply literal_length; cbn; lia|]). apply number_length.
  - cbn [members]. destruct (eat quote s) as [s1|] eqn:E1; [|done].
    destruct (scan_string s1) as [[k s2]|] eqn:Hs; [|done]. apply scan_string_length in Hs.
    destruct (eat 58 (skip s2)) as [s3|] eqn:E2; [|done].
    intros (w & s4 & Hv & Hm)%jbind_JOk. apply IHv in Hv.
    pose proof (skip_length s2). pose proof (skip_length s3). pose proof (skip_length s4).
    destruct (eat 125 (skip s4)) eqn:E3; [injection Hm as _ <-; eat_lengths; lia|].
    destruct (eat 44 (skip s4)) as [s5|] eqn:E4; [|done].
    apply jbind_JOk in Hm as (m & t & Hm & [= _ <-]). apply IHm in Hm.
    pose proof (skip_length s5). eat_lengths. lia.
  - cbn [elements]. intros (w & s4 & Hv & Hm)%jbind_JOk. apply IHv in Hv.
    pose proof (skip_length s4).
    destruct (eat 93 (skip s4)) eqn:E3; [injection Hm as _ <-; eat_lengths; lia|].
    destruct (eat 44 (skip s4)) as [s5|] eqn:E4; [|done].
    apply jbind_JOk in Hm as (m & t & Hm & [= _ <-]). apply IHe in Hm.
    pose proof (skip_length s5). eat_lengths. lia.
Qed.

Lemma jbind_fuel {A B} (r : jres A) (k : A -> list Z -> jres B) :
  r <> JFuel -> (forall a s, r = JOk a s -> k a s <> JFuel) -> jbind r k <> JFuel.
Proof. destruct r; cbn; auto. Qed.

Lemma number_fuel s : number s <> JFuel.
Proof. unfold number. repeat case_match; done. Qed.

Lemma literal_fuel l v s : literal l v s <> JFuel.
Proof. unfold literal. by case_match. Qed.

(** Two units of fuel per character are enough. *)
Lemma parse_fuel fuel :
  (forall d s, (2 * length s < fuel)%nat -> value fuel d s <> JFuel) /\
  (forall d s, (2 * length s < fuel)%nat -> members fuel d s <> JFuel) /\
  (forall d s, (2 * length s + 1 < fuel)%nat -> elements fuel d s <> JFuel).
Proof.
  induction fuel as [|f (IHv & IHm & IHe)]; [split_and!; lia|].
  destruct (parse_length f) as (Lv & _). split_and!; intros d s Hf.
  - cbn [value]. destruct s as [|c s]; [done|]. pose proof (skip_length s). cbn in Hf.
    destruct (c =? quote); [by repeat case_match|].
    destruct (c =? 123).
    { destruct d; [done|]. case_match; [done|]. apply jbind_fuel; [apply IHm; lia|done]. }
    destruct (c =? 91).
    { destruct d; [done|]. case_match; [done|]. apply jbind_fuel; [apply IHe; lia|done]. }
    repeat (case_match; [apply literal_fuel|]). apply number_fuel.
  - cbn [members]. destruct (eat quote s) as [s1|] eqn:E1; [|done].
    destruct (scan_string s1) as [[k s2]|] eqn:Hs; [|done]. apply scan_string_length in Hs.
    destruct (eat 58 (skip s2)) as [s3|] eqn:E2; [|done].
    pose proof (skip_length s2). pose proof (skip_length s3). eat_lengths.
    apply jbind_fuel; [apply IHv; lia|]. intros w s4 Hv%Lv. pose proof (skip_length s4).
    case_match; [done|]. destruct (eat 44 (skip s4)) as [s5|] eqn:E4; [|done].
    pose proof (skip_length s5). eat_lengths. apply jbind_fuel; [apply IHm; lia|done].
  - cbn [elements]. apply jbind_fuel; [apply IHv; lia|]. intros w s4 Hv%Lv.
    pose proof (skip_length s4). case_match; [done|].
    destruct (eat 44 (skip s4)) as [s5|] eqn:E4; [|done].
    pose proof (skip_length s5). eat_lengths. apply jbind_fuel; [apply IHe; lia|done].
Qed.

Lemma loads_fuel depth s : loads depth s <> JFuel.
Proof.
  unfold loads. case_match; [done|]. pose proof (skip_length s).
  apply jbind_fuel; [apply parse_fuel; lia|]. intros v t _. by case_match.
Qed.

(** ** Escaped text is read back *)

Lemma hex4_low x y : 0 <= x < 16 -> 0 <= y < 16 ->
  hex4 48 48 (digit_char x) (digit_char y) = Some (x * 16 + y).
Proof.
  intros Hx Hy. unfold hex4. rewrite !digit_char_hexval by lia.
  change (hexval 48) with (Some 0). cbn iota. f_equal.
Qed.

Lemma esc_scan c rest :
  0 <= c -> scan_string (esc c ++ rest) = jcons c (scan_string rest).
Proof.
  unfold esc. intros Hc.
  repeat match goal with |- context [if c =? ?k then _ else _] =>
    destruct (Z.eqb_spec c k); [subst c; done|] end.
  unfold quote, bslash in *. destruct (Z.ltb_spec c 32) as [Hlt|Hge].
  - cbn [app scan_string]. cbn [Z.eqb Pos.eqb quote bslash].
    pose proof (Z.div_mod c 16 ltac:(lia)). pose proof (Z.mod_pos_bound c 16 ltac:(lia)).
    rewrite hex4_low by lia. replace (c / 16 * 16 + c mod 16) with c by lia.
    assert (high c = false) as -> by (unfold high; apply andb_false_iff; rewrite !Z.leb_gt; lia).
    cbn [andb]. by repeat case_match.
  - cbn [app scan_string]. unfold quote, bslash.
    rewrite (proj2 (Z.eqb_neq c 34)), (proj2 (Z.eqb_neq c 92)) by done.
    by rewrite (proj2 (Z.ltb_ge c 32)).
Qed.

Lemma escape_scan s rest :
  Forall (fun c => 0 <= c) s ->
  scan_string (Utf8.escape s ++ quote :: rest) = Some (s, rest).
Proof.
  unfold Utf8.escape. induction 1 as [|c s Hc _ IH]; [done|].
  cbn [fmap list_fmap concat]. by rewrite <- app_assoc, esc_scan, IH by done.
Qed.

End Json.
