(* ===== verification/Http.v ===== *)
(** Requests as Python's [http.server], [email.parser] and [urllib.parse] hand
    them to src/server/ac_server.py: the request line, the header fields, the
    path and the query of the target.  Limits the library enforces before any
    of the server's code runs (over-long lines, too many fields) are left out:
    such a request never reaches a handler. *)

From S2P Require Import Prelude CText CScan Report Json.

#[local] Open Scope Z_scope.

Module Http.
Import Report.

(** ** Splitting text *)

(** At the first occurrence of a character. *)
Fixpoint cut (c : Z) (s : list Z) : option (list Z * list Z) :=
  match s with
  | [] => None
  | x :: s' =>
      if x =? c then Some ([], s')
      else match cut c s' with Some (a, b) => Some (x :: a, b) | None => None end
  end.

(** At every occurrence. *)
Fixpoint split_on (c : Z) (s : list Z) : list (list Z) :=
  match s with
  | [] => [[]]
  | x :: s' =>
      if x =? c then [] :: split_on c s'
      else match split_on c s' with w :: ws => (x :: w) :: ws | [] => [[x]] end
  end.

(** White space of [str.split] and [str.strip]. *)
Definition pyspace (c : Z) : bool :=
  ((9 <=? c) && (c <=? 13)) || ((28 <=? c) && (c <=? 32)) || (c =? 133) || (c =? 160)
  || (c =? 5760) || ((8192 <=? c) && (c <=? 8202)) || (c =? 8232) || (c =? 8233)
  || (c =? 8239) || (c =? 8287) || (c =? 12288).

(** The words of a text; [w] is the word being read. *)
Fixpoint words (w s : list Z) : list (list Z) :=
  match s with
  | [] => match w with [] => [] | _ => [w] end
  | c :: s' =>
      if pyspace c then match w with [] => words [] s' | _ => w :: words [] s' end
      else words (w ++ [c]) s'
  end.

Fixpoint drop_while (p : Z -> bool) (s : list Z) : list Z :=
  match s with c :: s' => if p c then drop_while p s' else s | [] => [] end.

Definition rstrip (p : Z -> bool) (s : list Z) : list Z := reverse (drop_while p (reverse s)).

Definition eol (c : Z) : bool := (c =? 13) || (c =? 10).
Definition blank (c : Z) : bool := (c =? 32) || (c =? 9).

(** ** The head of a request *)

(** One [readline]. *)
Fixpoint readline (s : list Z) : list Z * list Z :=
  match s with
  | [] => ([], [])
  | c :: s' =>
      if c =? 10 then ([c], s')
      else let '(l, rest) := readline s' in (c :: l, rest)
  end.

(** The lines up to and including the first empty one, and the rest; [line] is
    the line being read. *)
Fixpoint head_block (line s : list Z) : list Z * list Z :=
  match s with
  | [] => (line, [])
  | c :: s' =>
      if c =? 10 then
        if bool_decide (line = []) || bool_decide (line = [13]) then (line ++ [10], s')
        else let '(block, rest) := head_block [] s' in (line ++ 10 :: block, rest)
      else head_block (line ++ [c]) s'
  end.

(** The block's lines with their ends, which are CR LF, CR or LF. *)
Fixpoint ulines (line s : list Z) : list (list Z) :=
  match s with
  | [] => match line with [] => [] | _ => [line] end
  | c :: s' =>
      if c =? 13 then
        match s' with
        | d :: s'' =>
            if d =? 10 then (line ++ [13; 10]) :: ulines [] s''
            else (line ++ [13]) :: ulines [] s'
        | [] => [line ++ [13]]
        end
      else if c =? 10 then (line ++ [10]) :: ulines [] s'
      else ulines (line ++ [c]) s'
  end.

Definition name_char (c : Z) : bool := (33 <=? c) && (c <=? 126) && negb (c =? 58).

(** The name of a field and what follows its colon. *)
Definition field_line (l : list Z) : option (list Z * list Z) :=
  match cut 58 l with
  | Some (name, v) => if forallb name_char name then Some (name, v) else None
  | None => None
  end.

Definition field_value (v : list Z) : list Z := rstrip eol (drop_while blank v).

(** [last]: the field being read, which blanks at the beginning of a line
    continue.  The first line that is neither ends the fields. *)
Fixpoint fields (last : option (list Z * list Z)) (ls : list (list Z))
    : list (list Z * list Z) :=
  let flush := match last with Some (n, v) => [(n, field_value v)] | None => [] end in
  match ls with
  | [] => flush
  | l :: ls' =>
      match l with
      | [] => flush
      | c :: _ =>
          if blank c then
            match last with
            | None => fields None ls'
            | Some (n, v) => fields (Some (n, v ++ l)) ls'
            end
          else if starts_with (lit "From ") l then flush ++ fields None ls'
          else match field_line l with
               | Some ([], _) => flush ++ fields None ls'
               | Some (n, v) => flush ++ fields (Some (n, v)) ls'
               | None => flush
               end
      end
  end.

Notation headers := (list (list Z * list Z)).

Definition lower (c : Z) : Z := if (65 <=? c) && (c <=? 90) then c + 32 else c.

Definition get_all (name : list Z) (hs : headers) : list (list Z) :=
  snd <$> filter (fun h => lower <$> h.1 = lower <$> name) hs.

Definition get (name : list Z) (hs : headers) : option (list Z) := head (get_all name hs).

(** ** The request line *)

Inductive read_result :=
  | NoRequest
  | LibError (code : Z)
  | Request (command target : list Z) (hs : headers) (rest : list Z).

(** [HTTP/<major>.<minor>]: the error it calls for, if any. *)
Definition version_error (v : list Z) : option Z :=
  if negb (starts_with (lit "HTTP/") v) then Some 400
  else match split_on 46 (drop 5 v) with
       | [a; b] =>
           if (length a =? 0)%nat || (length b =? 0)%nat || negb (forallb isdigit (a ++ b))
              || (10 <? length a)%nat || (10 <? length b)%nat then Some 400
           else if 2 <=? fst (digits decval 10 0 a) then Some 505 else None
       | _ => Some 400
       end.

(** The command and the target of a request line. *)
Definition request_line (l : list Z) : option (Z + list Z * list Z) :=
  match words [] (rstrip eol l) with
  | [] => None
  | [command; target] =>
      Some (if bool_decide (command = lit "GET") then inr (command, target) else inl 400)
  | [command; target; v] =>
      Some (match version_error v with Some e => inl e | None => inr (command, target) end)
  | _ :: ws =>
      Some (inl (match list.last ws with
                 | Some v => match version_error v with Some e => e | None => 400 end
                 | None => 400
                 end))
  end.

(** Several leading slashes are one. *)
Definition collapse (target : list Z) : list Z :=
  if starts_with (lit "//") target then 47 :: drop_while (Z.eqb 47) target else target.

(** What the connection delivers, up to the dispatch on the command. *)
Definition read_request (s : list Z) : read_result :=
  let '(l, s1) := readline s in
  match request_line l with
  | None => NoRequest
  | Some (inl code) => LibError code
  | Some (inr (command, target)) =>
      let '(block, rest) := head_block [] s1 in
      if bool_decide (command = lit "GET") || bool_decide (command = lit "POST")
      then Request command (collapse target) (fields None (ulines [] block)) rest
      else LibError 501
  end.

(** ** Targets *)

Definition alpha (c : Z) : bool :=
  ((65 <=? c) && (c <=? 90)) || ((97 <=? c) && (c <=? 122)).

Definition scheme_char (c : Z) : bool :=
  alpha c || isdigit c || (c =? 43) || (c =? 45) || (c =? 46).

(** The schemes whose last segment has parameters. *)
Definition uses_params : list (list Z) :=
  [[]; lit "ftp"; lit "hdl"; lit "prospero"; lit "http"; lit "https"; lit "shttp";
   lit "rtsp"; lit "sip"; lit "sips"; lit "mms"; lit "sftp"; lit "tel"].

Definition split_scheme (url : list Z) : list Z * list Z :=
  match cut 58 url with
  | Some ((c :: _) as s, rest) =>
      if alpha c && forallb scheme_char s then (lower <$> s, rest) else ([], url)
  | _ => ([], url)
  end.

(** The authority: up to the first slash, question mark or hash. *)
Fixpoint netloc (s : list Z) : list Z * list Z :=
  match s with
  | c :: s' =>
      if (c =? 47) || (c =? 63) || (c =? 35) then ([], s)
      else let '(a, b) := netloc s' in (c :: a, b)
  | [] => ([], [])
  end.

(** The path before the parameters of its last segment. *)
Definition strip_params (p : list Z) : list Z :=
  match strrchr 47 p with
  | Some i =>
      match cut 59 (drop i p) with Some (a, _) => take i p ++ a | None => p end
  | None => match cut 59 p with Some (a, _) => a | None => p end
  end.

Section Url.
(** Whether the library accepts an authority (brackets, Unicode normalisation);
    it raises [ValueError] for the others. *)
Context (netloc_ok : list Z -> bool).

(** [urlparse]: path and query, [None] when it raises. *)
Definition urlparse (target : list Z) : option (list Z * list Z) :=
  let url := filter (fun c => negb ((c =? 9) || eol c) = true)
               (drop_while (fun c => c <=? 32) target) in
  let '(scheme, url) := split_scheme url in
  let '(ok, url) :=
    if starts_with (lit "//") url
    then let '(auth, rest) := netloc (drop 2 url) in (netloc_ok auth, rest)
    else (true, url) in
  if negb ok then None
  else
    let url := match cut 35 url with Some (a, _) => a | None => url end in
    let '(path, query) := match cut 63 url with Some p => p | None => (url, []) end in
    Some (if bool_decide (scheme ∈ uses_params) then strip_params path else path, query).

End Url.

(** The bytes an ASCII run stands for. *)
Fixpoint unhex (s : list Z) : list Z :=
  match s with
  | [] => []
  | c :: s1 =>
      if c =? 37 then
        match s1 with
        | a :: b :: s2 =>
            match hexval a, hexval b with
            | Some x, Some y => (x * 16 + y) :: unhex s2
            | _, _ => c :: unhex s1
            end
        | _ => c :: unhex s1
        end
      else c :: unhex s1
  end.

(** [unquote]: each run of ASCII on its own, other characters unchanged. *)
Fixpoint unquote_from (run s : list Z) : list Z :=
  match s with
  | [] => Utf8.decode (unhex run)
  | c :: s' =>
      if c <? 128 then unquote_from (run ++ [c]) s'
      else Utf8.decode (unhex run) ++ c :: unquote_from [] s'
  end.

Definition unquote (s : list Z) : list Z := unquote_from [] s.

Definition plus (s : list Z) : list Z := (fun c => if c =? 43 then 32 else c) <$> s.

(** [parse_qs(..., keep_blank_values=True)], in order. *)
Definition parse_qs (q : list Z) : list (list Z * list Z) :=
  (fun nv => match cut 61 nv with
             | Some (n, v) => (unquote (plus n), unquote (plus v))
             | None => (unquote (plus nv), [])
             end) <$> filter (fun nv => nv <> []) (split_on 38 q).

Definition qs_values (name : list Z) (qs : list (list Z * list Z)) : list (list Z) :=
  snd <$> filter (fun nv => nv.1 = name) qs.

End Http.
