(* ===== verification/Server.v ===== *)
(** The report server's request handling (src/server/ac_server.py,
    [make_handler] and [ReportNotifier]): the limiter, the two tiers of keys,
    the routes with their deny-by-default guard, and each handler against the
    database, with the notifier it feeds.

    A handler is a state transformer over the server with three outcomes: it
    goes on with a value, it has sent a response, or it raised. *)

From S2P Require Import Prelude CText CScan Report Json Limiter Store Http.

#[local] Open Scope Z_scope.

Module Server.
Import Report Http Json.
Import Store (text, NInt, NFloat).

(** ** The notifier *)

Record payload := mk_payload {
  p_client : text;
  p_event : text;
  p_detail : text;
  p_ts : option Store.num;
  p_received : Z;
  p_source : text;
}.

Inductive log_line := LogNew (p : payload) | LogDropped (total : nat) | LogFailed.

(** [n_queue]: [None] without a webhook. *)
Record notifier := mk_notifier {
  n_size : nat;
  n_queue : option (list payload);
  n_dropped : nat;
  n_log : list log_line;
}.

Definition new_notifier (webhook : bool) (size : Z) : notifier :=
  mk_notifier (Z.to_nat (Z.max size 1)) (if webhook then Some [] else None) 0 [].

(** One event, at the [put_nowait]: the two lines go to standard error and the
    counter has a lock of its own, so other handlers can come between them, but
    the queue and the totals are the same. *)
Definition notify (p : payload) (n : notifier) : notifier :=
  let log := n_log n ++ [LogNew p] in
  match n_queue n with
  | None => mk_notifier (n_size n) None (n_dropped n) log
  | Some q =>
      if (length q <? n_size n)%nat
      then mk_notifier (n_size n) (Some (q ++ [p])) (n_dropped n) log
      else mk_notifier (n_size n) (Some q) (S (n_dropped n))
             (log ++ [LogDropped (S (n_dropped n))])
  end.

(** One turn of [_drain]: the payload handed to the webhook, if one waits;
    [ok] is whether the POST went through. *)
Definition drain (ok : bool) (n : notifier) : option payload * notifier :=
  match n_queue n with
  | Some (p :: q) =>
      (Some p, mk_notifier (n_size n) (Some q) (n_dropped n)
                 (if ok then n_log n else n_log n ++ [LogFailed]))
  | _ => (None, n)
  end.

(** ** State, requests and responses *)

Record server := mk_server {
  s_db : Store.store;
  s_lim : Limiter.limiter;
  s_note : notifier;
}.

Record response := mk_response {
  code : Z;
  obj : json;
  retry_after : option Z;
}.

(** [rq_stalls]: what follows [rq_body] never comes, and the read times out. *)
Record request := mk_request {
  rq_command : text;
  rq_target : text;
  rq_headers : headers;
  rq_body : list Z;
  rq_stalls : bool;
  rq_peer : text;
}.

(** What the system gives one request: the monotonic clock, the database, and
    how deep the interpreter lets JSON nest. *)
Record ctx := mk_ctx {
  cx_mono : Z;
  cx_env : Store.env;
  cx_depth : nat;
}.

Inductive outcome (A : Type) := Val (a : A) | Sent (r : response) | Exn.
Arguments Val {A} _.
Arguments Sent {A} _.
Arguments Exn {A}.

Definition hm (A : Type) : Type := server -> outcome A * server.

#[global] Instance hm_ret : MRet hm := fun A a s => (Val a, s).

#[global] Instance hm_bind : MBind hm := fun A B k m s =>
  match m s with
  | (Val a, s1) => k a s1
  | (Sent r, s1) => (Sent r, s1)
  | (Exn, s1) => (Exn, s1)
  end.

Definition raise {A} : hm A := fun s => (Exn, s).

Definition error_obj (e : text) : json := JObject [(lit "error", JString e)].

Definition send_json {A} (c : Z) (o : json) : hm A := fun s => (Sent (mk_response c o None), s).
Definition send_error {A} (c : Z) (e : text) : hm A := send_json c (error_obj e).

(** A database call: the result and the new database. *)
Definition with_db {A} (f : Store.store -> Store.res A * Store.store) : hm A := fun s =>
  let '(r, db) := f (s_db s) in
  let s1 := mk_server db (s_lim s) (s_note s) in
  match r with Store.Ok a => (Val a, s1) | Store.Raise => (Exn, s1) end.

(** ** Constants *)

Definition MAX_BODY_BYTES : Z := 4096.

Definition valid_client_id (v : text) : bool :=
  (1 <=? length v)%nat && (length v <=? 128)%nat && forallb id_char v.

(** ** Configuration *)

Record config (net : Type) := mk_config {
  c_store : Store.config;
  c_report_keys : list text;
  c_admin_keys : list text;
  c_limit : Z;
  c_window : Z;
  c_max_keys : nat;
  c_trust_proxy : bool;
  c_nets : list net;
}.
Arguments mk_config {net} _ _ _ _ _ _ _ _.
Arguments c_store {net} _.
Arguments c_report_keys {net} _.
Arguments c_admin_keys {net} _.
Arguments c_limit {net} _.
Arguments c_window {net} _.
Arguments c_max_keys {net} _.
Arguments c_trust_proxy {net} _.
Arguments c_nets {net} _.

Section Handler.
(** [ipaddress]: parsing an address and membership in a network; the decimal
    value of a non-ASCII digit; the authorities [urlparse] accepts. *)
Context {addr net : Type}.
Context (ip_address : text -> option addr) (in_net : addr -> net -> bool).
Context (decimal : Z -> option Z) (netloc_ok : list Z -> bool).
Context (cfg : config net) (cx : ctx) (rq : request).

(** ** Who is asking *)

Definition peer_is_trusted_proxy : bool :=
  match ip_address (rq_peer rq) with
  | None => false
  | Some a => existsb (in_net a) (c_nets cfg)
  end.

(** Joining with commas, and what follows the last comma. *)
Fixpoint join_commas (l : list text) : text :=
  match l with [] => [] | [v] => v | v :: l' => v ++ 44 :: join_commas l' end.

Definition last_hop (v : text) : text :=
  match strrchr 44 v with Some i => drop (S i) v | None => v end.

(** [str.strip]. *)
Definition strip (v : text) : text := rstrip pyspace (drop_while pyspace v).

Definition client_ip : text :=
  if negb (c_trust_proxy cfg) || negb peer_is_trusted_proxy then rq_peer rq
  else match get_all (lit "X-Forwarded-For") (rq_headers rq) with
       | [] => rq_peer rq
       | l =>
           let candidate := strip (last_hop (join_commas l)) in
           match ip_address candidate with
           | None => rq_peer rq
           | Some _ => candidate
           end
       end.

Definition rate_limited : hm unit := fun s =>
  let '(ok, lim) :=
    Limiter.allow (c_limit cfg) (c_window cfg) (c_max_keys cfg) (cx_mono cx) client_ip
      (s_lim s) in
  let s1 := mk_server (s_db s) lim (s_note s) in
  if ok then (Val tt, s1)
  else (Sent (mk_response 429 (error_obj (lit "rate limited")) (Some (c_window cfg))), s1).

Definition bearer : option text :=
  let auth := default [] (get (lit "Authorization") (rq_headers rq)) in
  if starts_with (lit "Bearer ") auth then Some (drop 7 auth) else None.

Definition ascii (s : text) : bool := forallb (fun c => (0 <=? c) && (c <? 128)) s.

(** [hmac.compare_digest] against each key in turn; it raises on text that is
    not ASCII. *)
Fixpoint any_key (got : text) (keys : list text) : outcome bool :=
  match keys with
  | [] => Val false
  | k :: ks =>
      if ascii got && ascii k
      then if bool_decide (got = k) then Val true else any_key got ks
      else Exn
  end.

Definition authed (keys : list text) : hm bool := fun s =>
  match bearer with
  | None => (Val false, s)
  | Some got => (any_key got keys, s)
  end.

(** ** Bodies *)

Definition parse_content_length (raw : text) : option Z :=
  let t := rstrip blank (drop_while blank raw) in
  if (length t =? 0)%nat || negb (forallb isdigit t) then None
  else
    let ds := match drop_while (Z.eqb 48) t with [] => [48] | ds => ds end in
    if (4 <? length ds)%nat then Some (MAX_BODY_BYTES + 1)
    else Some (fst (CScan.digits decval 10 0 ds)).

(** The status and message of a request that is not framed as it must be. *)
Definition check_body_framing : option (Z * text) :=
  match get (lit "Transfer-Encoding") (rq_headers rq) with
  | Some _ => Some (400, lit "chunked transfer-encoding not supported")
  | None =>
      match get_all (lit "Content-Length") (rq_headers rq) with
      | _ :: _ :: _ => Some (400, lit "duplicate content-length")
      | lengths =>
          match parse_content_length (default (lit "0") (head lengths)) with
          | None => Some (400, lit "bad request")
          | Some n => if MAX_BODY_BYTES <? n then Some (413, lit "payload too large") else None
          end
      end
  end.

(** [None] is the value [None], which the callers answer with 400. *)
Definition read_json_body : hm (option json) := fun s =>
  match parse_content_length
          (default (lit "0") (get (lit "Content-Length") (rq_headers rq))) with
  | None => (Val None, s)
  | Some n =>
      if (n <=? 0) || (MAX_BODY_BYTES <? n) then (Val None, s)
      else if rq_stalls rq && (length (rq_body rq) <? Z.to_nat n)%nat then (Exn, s)
      else match loads (cx_depth cx) (Utf8.decode (take (Z.to_nat n) (rq_body rq))) with
           | JOk v _ => (Val (Some v), s)
           | JErr => (Val None, s)
           | _ => (Exn, s)
           end
  end.

Definition require_valid_client_id (v : option json) : hm text :=
  match v with
  | Some (JString c) =>
      if valid_client_id c then mret c else send_error 400 (lit "invalid client_id")
  | _ => send_error 400 (lit "invalid client_id")
  end.

(** The members of the body and its client. *)
Definition require_body_client_id : hm (list (text * json) * text) :=
  match check_body_framing with
  | Some (status, e) => send_error status e
  | None =>
      body ← read_json_body;
      match body with
      | Some (JObject ((_ :: _) as m)) =>
          c ← require_valid_client_id (lookup_member (lit "client_id") m);
          mret (m, c)
      | _ => send_error 400 (lit "bad request")
      end
  end.

(** ** Handlers *)

(** The time stamp a report may carry: [None] when it is not acceptable. *)
Definition report_ts (m : list (text * json)) : option (option Store.num) :=
  match lookup_member (lit "ts") m with
  | None => Some None
  | Some (JInt z) => Some (Some (NInt z))
  | Some (JFloat x e) => Some (Some (NFloat x e))
  | Some _ => None
  end.

Definition json_text (max : nat) (v : option json) : option text :=
  match v with
  | Some (JString s) => if (max <? length s)%nat then None else Some s
  | _ => None
  end.

Definition ok_obj : json := JObject [(lit "ok", JBool true)].

Definition handle_report : hm unit :=
  p ← require_body_client_id;
  let '(m, c) := p in
  match json_text 64 (lookup_member (lit "event_type") m) with
  | None => send_error 400 (lit "invalid event_type")
  | Some ty =>
      match json_text 2000 (lookup_member (lit "detail") m) with
      | None => send_error 400 (lit "invalid detail")
      | Some d =>
          match report_ts m with
          | None => send_error 400 (lit "invalid ts")
          | Some ts =>
              now ← with_db (fun db =>
                       (Store.add_report (c_store cfg) (cx_env cx) db c ty d ts client_ip).1);
              (fun s => (Val tt, mk_server (s_db s) (s_lim s)
                 (notify (mk_payload c ty d ts now client_ip) (s_note s))));;
              send_json 201 ok_obj
          end
      end
  end.

Definition handle_ban : hm unit :=
  p ← require_body_client_id;
  let '(m, c) := p in
  match json_text 500 (lookup_member (lit "reason") m) with
  | Some ((_ :: _) as reason) =>
      with_db (fun db => Store.ban (cx_env cx) db c reason);;
      send_json 200 ok_obj
  | _ => send_error 400 (lit "invalid reason")
  end.

Definition handle_unban : hm unit :=
  p ← require_body_client_id;
  existed ← with_db (fun db => Store.unban (cx_env cx) db p.2);
  send_json 200 (JObject [(lit "ok", JBool true); (lit "was_banned", JBool existed)]).

Definition status_obj (b : option (text * Z)) : json :=
  match b with
  | None => JObject [(lit "banned", JBool false)]
  | Some (reason, at_) =>
      JObject [(lit "banned", JBool true); (lit "reason", JString reason);
               (lit "banned_at", JInt at_)]
  end.

Definition handle_banned (client : text) : hm unit :=
  c ← require_valid_client_id (Some (JString client));
  b ← with_db (fun db => (Store.ban_status (cx_env cx) db c, db));
  send_json 200 (status_obj b).

Definition num_json (n : option Store.num) : json :=
  match n with None => JNull | Some (NInt z) => JInt z | Some (NFloat m e) => JFloat m e end.

Definition row_json (r : Store.row) : json :=
  JObject [(lit "event_type", JString (Store.r_event r));
           (lit "detail", JString (Store.r_detail r));
           (lit "client_ts", num_json (Store.r_ts r));
           (lit "received_at", JInt (Store.r_received r));
           (lit "source_addr", JString (Store.r_source r))].

(** [str.isdigit] and [int]: [None] where the code raises [ValueError]. *)
Definition digit_value (c : Z) : option Z := if c <? 128 then decval c else decimal c.

Definition int_text (raw : text) : option Z :=
  if (length raw =? 0)%nat || (4300 <? length raw)%nat
     || negb (forallb (fun c => bool_decide (is_Some (digit_value c))) raw)
  then None
  else Some (foldl (fun a c => a * 10 + default 0 (digit_value c)) 0 raw).

Definition listing_param (name : text) (dflt : Z) (qs : list (text * text)) : option Z :=
  match qs_values name qs with
  | [] => Some dflt
  | [raw] => int_text raw
  | _ => None
  end.

Definition parse_listing_params (query : text) : option (Z * Z) :=
  let qs := parse_qs query in
  match listing_param (lit "limit") Store.DEFAULT_LIST_LIMIT qs with
  | None => None
  | Some limit =>
      if limit <? 1 then None
      else match listing_param (lit "offset") 0 qs with
           | None => None
           | Some offset => Some (Z.min limit Store.MAX_LIST_LIMIT, offset)
           end
  end.

Definition handle_reports (client query : text) : hm unit :=
  c ← require_valid_client_id (Some (JString client));
  match parse_listing_params query with
  | None => send_error 400 (lit "invalid pagination")
  | Some (limit, offset) =>
      rows ← with_db (fun db => (Store.list_reports (cx_env cx) db c limit offset, db));
      send_json 200 (JObject [(lit "reports", JArray (row_json <$> rows))])
  end.

(** ** Routing *)

(** A routed method: its name, the keys its decorator carries, its body. *)
Record handler := mk_handler {
  h_name : text;
  h_auth : option (list text);
  h_body : hm unit;
}.

Definition PUBLIC_HANDLERS : list text := [].

(** [_requires_auth]'s wrapper. *)
Definition requires_auth (keys : list text) (body : hm unit) : hm unit :=
  ok ← authed keys;
  if ok : bool then body else send_error 401 (lit "unauthorized").

Definition route_guarded (h : handler) : hm unit :=
  let run := match h_auth h with
             | Some keys => requires_auth keys (h_body h)
             | None => h_body h
             end in
  if bool_decide (h_name h ∈ PUBLIC_HANDLERS) then run
  else match h_auth h with
       | None => send_error 401 (lit "unauthorized")
       | Some _ => run
       end.

Definition admin (name : text) (body : hm unit) : handler :=
  mk_handler name (Some (c_admin_keys cfg)) body.

Definition not_found : hm unit := send_error 404 (lit "not found").

Definition post_routes : hm unit :=
  match urlparse netloc_ok (rq_target rq) with
  | None => raise
  | Some (p, _) =>
      let path := unquote p in
      if bool_decide (path = lit "/report")
      then route_guarded (mk_handler (lit "_handle_report") (Some (c_report_keys cfg))
                            handle_report)
      else if bool_decide (path = lit "/ban")
      then route_guarded (admin (lit "_handle_ban") handle_ban)
      else if bool_decide (path = lit "/unban")
      then route_guarded (admin (lit "_handle_unban") handle_unban)
      else not_found
  end.

Definition do_POST : hm unit := rate_limited;; post_routes.

Definition get_routes : hm unit :=
  match urlparse netloc_ok (rq_target rq) with
  | None => raise
  | Some (p, query) =>
      let path := unquote p in
      if starts_with (lit "/banned/") path
      then route_guarded (admin (lit "_handle_banned") (handle_banned (drop 8 path)))
      else if starts_with (lit "/reports/") path
      then route_guarded (admin (lit "_handle_reports") (handle_reports (drop 9 path) query))
      else not_found
  end.

Definition do_GET : hm unit := rate_limited;; get_routes.

(** [_dispatch]: an exception becomes 500.  A handler's last act is always its
    response, so nothing has been sent when it raises. *)
Definition dispatch (inner : hm unit) : server -> response * server := fun s =>
  match inner s with
  | (Sent r, s1) => (r, s1)
  | (_, s1) => (mk_response 500 (error_obj (lit "internal error")) None, s1)
  end.

Definition handle_request : server -> response * server :=
  dispatch (if bool_decide (rq_command rq = lit "GET") then do_GET else do_POST).

(** ** What a handler may do

    [acts D C m]: [m] changes the database only as [D] allows and sends only
    status codes in [C]. *)

Section Acts.
Context (D : relation Store.store) (C : Z -> Prop).
Context `{!PreOrder D}.

Definition acts {A} (m : hm A) : Prop := forall s,
  D (s_db s) (s_db (m s).2) /\ forall r, (m s).1 = Sent r -> C (code r).

Lemma acts_mret {A} (a : A) : acts (mret a).
Proof. intros s. by split. Qed.

Lemma acts_raise {A} : acts (raise (A := A)).
Proof. intros s. by split. Qed.

Lemma acts_bind {A B} (m : hm A) (k : A -> hm B) :
  acts m -> (forall a, acts (k a)) -> acts (m ≫= k).
Proof.
  intros Hm Hk s. destruct (Hm s) as [Hd Hc]. unfold mbind, hm_bind.
  destruct (m s) as [[a|r|] s1]; cbn [fst snd] in *;
    [|split; [done|intros r' [= <-]; by apply Hc]|by split].
  destruct (Hk a s1) as [Hd' Hc']. split; [by etrans|done].
Qed.

Lemma acts_send {A} c o : C c -> acts (send_json (A := A) c o).
Proof. intros HC s. split; [done|]. by intros r [= <-]. Qed.

Lemma acts_with_db {A} (f : Store.store -> Store.res A * Store.store) :
  (forall db, D db (f db).2) -> acts (with_db f).
Proof.
  intros Hf s. unfold with_db. specialize (Hf (s_db s)).
  destruct (f (s_db s)) as [[] db]; by split.
Qed.

Lemma acts_keeps_db {A} (m : hm A) :
  (forall s, s_db (m s).2 = s_db s) -> (forall s r, (m s).1 <> Sent r) -> acts m.
Proof. intros Hk Hn s. rewrite Hk. split; [done|]. intros r Hr. by destruct (Hn s r). Qed.

End Acts.

(** What all handlers share. *)
Definition common (c : Z) : Prop := c ∈ [400; 401; 404; 413].

#[local] Hint Resolve acts_mret acts_raise acts_bind acts_send acts_with_db : acts.

Section Shared.
Context (D : relation Store.store) (C : Z -> Prop).
Context `{!PreOrder D}.
Context (HC : forall c, common c -> C c).

Lemma acts_error {A} c e : common c -> acts D C (send_error (A := A) c e).
Proof. intros Hc. apply acts_send; auto. Qed.

Lemma acts_client v : acts D C (require_valid_client_id v).
Proof.
  assert (acts D C (send_error (A := text) 400 (lit "invalid client_id"))) as He.
  { apply acts_error. unfold common. set_solver. }
  destruct v as [[]|]; cbn; try done. case_match; [by apply acts_mret|done].
Qed.

Lemma framing_common st e : check_body_framing = Some (st, e) -> common st.
Proof.
  unfold check_body_framing, common. intros Hf.
  repeat case_match; simplify_eq; set_solver.
Qed.

Lemma read_json_body_db s : s_db (read_json_body s).2 = s_db s.
Proof. unfold read_json_body. by repeat case_match. Qed.

Lemma read_json_body_silent s r : (read_json_body s).1 <> Sent r.
Proof. unfold read_json_body. by repeat case_match. Qed.

Lemma acts_body : acts D C require_body_client_id.
Proof.
  unfold require_body_client_id. destruct check_body_framing as [[st e]|] eqn:Hf.
  { eapply acts_error, framing_common, Hf. }
  assert (acts D C (send_error (A := list (text * json) * text) 400 (lit "bad request"))) as He.
  { apply acts_error. unfold common. set_solver. }
  apply acts_bind; [done| |].
  - apply acts_keeps_db; [done|apply read_json_body_db|apply read_json_body_silent].
  - intros [[]|]; try done. case_match; [done|].
    apply acts_bind; [done|apply acts_client|]. intros c. by apply acts_mret.
Qed.

Lemma acts_rate_limited : C 429 -> acts D C rate_limited.
Proof.
  intros H429 s. unfold rate_limited. destruct (Limiter.allow _ _ _ _ _ _) as [[] lim]; [by split|].
  split; [done|]. by intros r [= <-].
Qed.

Lemma authed_pure keys s : (authed keys s).2 = s.
Proof. unfold authed. by case_match. Qed.

Lemma any_key_true got keys : any_key got keys = Val true -> got ∈ keys.
Proof.
  induction keys as [|k ks IH]; cbn [any_key]; [done|].
  case_match; [|done]. case_bool_decide; [intros _; subst; by left|right; auto].
Qed.

Lemma any_key_quiet got keys r : any_key got keys <> Sent r.
Proof. induction keys as [|k ks IH]; cbn [any_key]; [done|]. by repeat case_match. Qed.

(** Without a key of the tier the body never runs. *)
Lemma acts_requires_auth keys body :
  ((exists k, bearer = Some k /\ k ∈ keys) -> acts D C body) ->
  acts D C (requires_auth keys body).
Proof.
  intros Hb s. unfold requires_auth, mbind, hm_bind. pose proof (authed_pure keys s) as Hp.
  unfold authed in *. destruct bearer as [k|] eqn:Hk; cbn [fst snd] in *.
  - destruct (any_key k keys) as [[]|r|] eqn:Ha; [| | |by split].
    + apply Hb. exists k. split; [done|]. by apply any_key_true.
    + apply acts_error. unfold common. set_solver.
    + by apply any_key_quiet in Ha.
  - apply acts_error. unfold common. set_solver.
Qed.

Lemma acts_route name keys body :
  ((exists k, bearer = Some k /\ k ∈ keys) -> acts D C body) ->
  acts D C (route_guarded (mk_handler name (Some keys) body)).
Proof.
  intros Hb. unfold route_guarded. cbn. case_match; by apply acts_requires_auth.
Qed.

(** Where the three kinds of handlers may act. *)
Lemma acts_post :
  ((exists k, bearer = Some k /\ k ∈ c_report_keys cfg) -> acts D C handle_report) ->
  ((exists k, bearer = Some k /\ k ∈ c_admin_keys cfg) -> acts D C handle_ban /\ acts D C handle_unban) ->
  acts D C post_routes.
Proof.
  intros Hr Ha. unfold post_routes.
  destruct (urlparse _ _) as [[p q]|]; [|by apply acts_raise].
  case_bool_decide; [by apply acts_route|].
  case_bool_decide; [apply acts_route; intros Hk; by apply Ha|].
  case_bool_decide; [apply acts_route; intros Hk; by apply Ha|].
  apply acts_error. unfold common. set_solver.
Qed.

Lemma acts_get :
  ((exists k, bearer = Some k /\ k ∈ c_admin_keys cfg) ->
    forall c q, acts D C (handle_banned c) /\ acts D C (handle_reports c q)) ->
  acts D C get_routes.
Proof.
  intros Ha. unfold get_routes.
  destruct (urlparse _ _) as [[p q]|]; [|by apply acts_raise].
  destruct (starts_with _ _); [apply acts_route; intros Hk; by apply (Ha Hk _ [])|].
  destruct (starts_with _ _); [apply acts_route; intros Hk; by apply Ha|].
  apply acts_error. unfold common. set_solver.
Qed.

Lemma acts_report :
  (forall db c ty d ts src,
    D db (Store.add_report (c_store cfg) (cx_env cx) db c ty d ts src).1.2) ->
  C 201 -> acts D C handle_report.
Proof.
  intros HD H201. unfold handle_report. apply acts_bind; [done|apply acts_body|].
  intros [m c]. destruct (json_text 64 _); [|apply acts_error; unfold common; set_solver].
  destruct (json_text 2000 _); [|apply acts_error; unfold common; set_solver].
  destruct (report_ts m); [|apply acts_error; unfold common; set_solver].
  apply acts_bind; [done|by apply acts_with_db|]. intros now.
  apply acts_bind; [done|by intros s; split|]. intros _. by apply acts_send.
Qed.

Lemma acts_ban :
  (forall db c r, D db (Store.ban (cx_env cx) db c r).2) -> C 200 -> acts D C handle_ban.
Proof.
  intros HD H200. unfold handle_ban. apply acts_bind; [done|apply acts_body|]. intros [m c].
  destruct (json_text 500 _) as [[|]|]; try (apply acts_error; unfold common; set_solver).
  apply acts_bind; [done|by apply acts_with_db|]. intros _. by apply acts_send.
Qed.

Lemma acts_unban :
  (forall db c, D db (Store.unban (cx_env cx) db c).2) -> C 200 -> acts D C handle_unban.
Proof.
  intros HD H200. unfold handle_unban. apply acts_bind; [done|apply acts_body|]. intros p.
  apply acts_bind; [done|by apply acts_with_db|]. intros b. by apply acts_send.
Qed.

Lemma acts_reads c q : C 200 ->
  acts D C (handle_banned c) /\ acts D C (handle_reports c q).
Proof.
  intros H200. split; unfold handle_banned, handle_reports;
    (apply acts_bind; [done|apply acts_client|]); intros c'.
  - apply acts_bind; [done|by apply acts_with_db|]. intros b. by apply acts_send.
  - destruct (parse_listing_params q) as [[l o]|];
      [|apply acts_error; unfold common; set_solver].
    apply acts_bind; [done|by apply acts_with_db|]. intros b. by apply acts_send.
Qed.

End Shared.

(** ** Every request is answered *)

Definition responds (m : hm unit) : Prop := forall s a, (m s).1 <> Val a.

Lemma responds_bind {A} (m : hm A) k : (forall a, responds (k a)) -> responds (m ≫= k).
Proof.
  intros Hk s a. unfold mbind, hm_bind. destruct (m s) as [[x|r|] s1]; [apply Hk|done|done].
Qed.

Lemma responds_send c o : responds (send_json c o).
Proof. done. Qed.

Lemma responds_route name keys body :
  responds body -> responds (route_guarded (mk_handler name (Some keys) body)).
Proof.
  intros Hb. unfold route_guarded, requires_auth. cbn.
  case_match; apply responds_bind; by intros [].
Qed.

Lemma responds_handlers :
  responds handle_report /\ responds handle_ban /\ responds handle_unban /\
  (forall c, responds (handle_banned c)) /\ (forall c q, responds (handle_reports c q)).
Proof.
  split_and!; intros; unfold handle_report, handle_ban, handle_unban, handle_banned,
    handle_reports; apply responds_bind; intros p; try destruct p as [m c'];
    repeat case_match; try done; repeat (apply responds_bind; intros ?); done.
Qed.

Definition routes : hm unit :=
  if bool_decide (rq_command rq = lit "GET") then get_routes else post_routes.

Lemma handle_request_routes :
  handle_request = dispatch (rate_limited;; routes).
Proof. unfold handle_request, routes. by case_bool_decide. Qed.

Lemma responds_routes : responds routes.
Proof.
  destruct responds_handlers as (Hr & Hb & Hu & Hs & Hl). unfold routes.
  case_bool_decide; unfold get_routes, post_routes;
    (destruct (urlparse _ _) as [[p q]|]; [|done]).
  - destruct (starts_with _ _); [by apply responds_route|].
    destruct (starts_with _ _); [by apply responds_route|done].
  - do 3 (case_bool_decide; [by apply responds_route|]). done.
Qed.

(** The limiter and the database of a request; [common] with 500 and what
    [C] adds are the only codes. *)
Lemma acts_dispatch D C inner s :
  PreOrder D -> acts D C inner -> responds inner ->
  D (s_db s) (s_db (dispatch inner s).2) /\
  (C (code (dispatch inner s).1) \/ code (dispatch inner s).1 = 500).
Proof.
  intros HD Ha Hr. destruct (Ha s) as [Hd Hc]. specialize (Hr s). unfold dispatch.
  destruct (inner s) as [[a|r|] s1]; cbn [fst snd] in *.
  - by destruct (Hr a).
  - split; [done|left; by apply Hc].
  - split; [done|by right].
Qed.


(** ** The limiter is consulted once *)

Definition keeps_lim {A} (m : hm A) : Prop := forall s, s_lim (m s).2 = s_lim s.

Lemma lim_bind {A B} (m : hm A) (k : A -> hm B) :
  keeps_lim m -> (forall a, keeps_lim (k a)) -> keeps_lim (m ≫= k).
Proof.
  intros Hm Hk s. specialize (Hm s). unfold mbind, hm_bind.
  destruct (m s) as [[a|r|] s1]; cbn [snd] in *; [by rewrite Hk|done|done].
Qed.

Lemma lim_with_db {A} (f : Store.store -> Store.res A * Store.store) : keeps_lim (with_db f).
Proof. intros s. unfold with_db. destruct (f (s_db s)) as [[] db]; done. Qed.

Lemma lim_client v : keeps_lim (require_valid_client_id v).
Proof. intros s. unfold require_valid_client_id. by repeat case_match. Qed.

Lemma lim_body : keeps_lim require_body_client_id.
Proof.
  unfold require_body_client_id. case_match; [by case_match|]. apply lim_bind.
  - intros s. unfold read_json_body. by repeat case_match.
  - intros [[]|]; try done. case_match; [done|]. apply lim_bind; [apply lim_client|done].
Qed.

Lemma lim_route name keys body :
  keeps_lim body -> keeps_lim (route_guarded (mk_handler name (Some keys) body)).
Proof.
  intros Hb. unfold route_guarded, requires_auth. cbn. case_match; apply lim_bind;
    try (intros s; by rewrite authed_pure); by intros [].
Qed.

Ltac lim_steps :=
  repeat first [ done | apply lim_with_db | apply lim_body | apply lim_client
               | apply lim_bind; [|intros ?] | case_match ].

Lemma lim_routes : keeps_lim routes.
Proof.
  assert (keeps_lim handle_report /\ keeps_lim handle_ban /\ keeps_lim handle_unban /\
    forall c q, keeps_lim (handle_banned c) /\ keeps_lim (handle_reports c q))
    as (Hr & Hb & Hu & Hg).
  { split_and!; intros; try split;
      unfold handle_report, handle_ban, handle_unban, handle_banned, handle_reports; lim_steps. }
  unfold routes. case_bool_decide; unfold get_routes, post_routes;
    (destruct (urlparse _ _) as [[p q]|]; [|done]).
  - destruct (starts_with _ _); [apply lim_route, (Hg _ [])|].
    destruct (starts_with _ _); [apply lim_route, Hg|done].
  - do 3 (case_bool_decide; [by apply lim_route|]). done.
Qed.

(** No route answers 429. *)
Lemma acts_routes_429 : acts (fun _ _ => True) (fun c => c <> 429) routes.
Proof.
  assert (PreOrder (fun _ _ : Store.store => True)) by by repeat split.
  assert (forall c, common c -> c <> 429) as HC.
  { unfold common. intros c Hc ->. set_solver. }
  unfold routes. case_bool_decide.
  - apply acts_get; [done|done|]. intros _ c q. by apply acts_reads.
  - apply acts_post; [done|done| |].
    + intros _. by apply acts_report.
    + intros _. split; [by apply acts_ban|by apply acts_unban].
Qed.

Lemma handle_request_limit s :
  let '(ok, lim) :=
    Limiter.allow (c_limit cfg) (c_window cfg) (c_max_keys cfg) (cx_mono cx) client_ip
      (s_lim s) in
  s_lim (handle_request s).2 = lim /\
  (code (handle_request s).1 = 429 <-> ok = false) /\
  (ok = false -> s_db (handle_request s).2 = s_db s).
Proof.
  rewrite handle_request_routes. unfold dispatch, mbind at 1, hm_bind at 1, rate_limited.
  unfold mbind, hm_bind.
  destruct (Limiter.allow _ _ _ _ _ _) as [[] lim]; cbn [fst snd].
  - set (s1 := mk_server (s_db s) lim (s_note s)).
    pose proof (lim_routes s1) as Hl. destruct (acts_routes_429 s1) as [_ Hc].
    pose proof (responds_routes s1) as Hr.
    destruct (routes s1) as [[a|r|] s2]; cbn [fst snd] in *.
    + by destruct (Hr a).
    + split_and!; [done| |done]. split; [intros H429; by destruct (Hc r)|done].
    + split_and!; [done| |done]. by split.
  - done.
Qed.

(** ** What each tier of keys is for *)

Definition holds (keys : list text) : Prop := exists k, bearer = Some k /\ k ∈ keys.

Lemma ban_reports e db c r : Store.reports (Store.ban e db c r).2 = Store.reports db.
Proof. unfold Store.ban. repeat case_match; done. Qed.

Lemma unban_reports e db c : Store.reports (Store.unban e db c).2 = Store.reports db.
Proof. unfold Store.unban. repeat case_match; done. Qed.

(** A request does what [D] and [C] allow when the handlers its key opens do. *)
Lemma request_acts D C s :
  PreOrder D -> (forall c, common c -> C c) -> C 429 ->
  (holds (c_report_keys cfg) -> acts D C handle_report) ->
  (holds (c_admin_keys cfg) -> acts D C handle_ban /\ acts D C handle_unban) ->
  (holds (c_admin_keys cfg) ->
    forall c q, acts D C (handle_banned c) /\ acts D C (handle_reports c q)) ->
  D (s_db s) (s_db (handle_request s).2) /\
  (C (code (handle_request s).1) \/ code (handle_request s).1 = 500).
Proof.
  intros HD HC H429 Hr Hb Hg. rewrite handle_request_routes. apply acts_dispatch; [done| |].
  - apply acts_bind; [done|by apply acts_rate_limited|]. intros _. unfold routes.
    case_bool_decide; [by apply acts_get|by apply acts_post].
  - apply responds_bind. intros _. apply responds_routes.
Qed.

#[local] Instance on_preorder {B} (f : Store.store -> B) : PreOrder (fun d d' => f d' = f d).
Proof. split; [done|]. intros x y z -> ->. done. Qed.

Lemma without_admin_key s :
  ~ holds (c_admin_keys cfg) ->
  Store.bans (s_db (handle_request s).2) = Store.bans (s_db s) /\
  code (handle_request s).1 <> 200.
Proof.
  intros Hno.
  assert (forall c, common c -> c <> 200) as HC by (unfold common; intros c Hc ->; set_solver).
  destruct (request_acts (fun d d' => Store.bans d' = Store.bans d) (fun c => c <> 200) s)
    as [Hd Hc]; try done; [apply _|intros _; apply acts_report; [apply _|done| |done]|].
  - intros. apply Store.add_report_bans.
  - split; [done|]. by destruct Hc as [Hc|Hc]; [|rewrite Hc].
Qed.

Lemma without_report_key s :
  ~ holds (c_report_keys cfg) ->
  Store.reports (s_db (handle_request s).2) = Store.reports (s_db s) /\
  code (handle_request s).1 <> 201.
Proof.
  intros Hno.
  assert (forall c, common c -> c <> 201) as HC by (unfold common; intros c Hc ->; set_solver).
  destruct (request_acts (fun d d' => Store.reports d' = Store.reports d) (fun c => c <> 201) s)
    as [Hd Hc]; try done; [apply _| | |].
  - intros _. split.
    + apply acts_ban; [apply _|done| |done]. intros. apply ban_reports.
    + apply acts_unban; [apply _|done| |done]. intros. apply unban_reports.
  - intros _ c q. apply acts_reads; [apply _|done|done].
  - split; [done|]. by destruct Hc as [Hc|Hc]; [|rewrite Hc].
Qed.

Lemma without_any_key s :
  ~ holds (c_report_keys cfg) -> ~ holds (c_admin_keys cfg) ->
  s_db (handle_request s).2 = s_db s /\
  code (handle_request s).1 ∈ [400; 401; 404; 413; 429; 500].
Proof.
  intros Hr Ha.
  destruct (request_acts (fun d d' => d' = d) (fun c => c ∈ [400; 401; 404; 413; 429]) s)
    as [Hd Hc]; try done.
  - apply (on_preorder (fun d => d)).
  - unfold common. set_solver.
  - set_solver.
  - split; [done|]. destruct Hc as [Hc|Hc]; set_solver.
Qed.

(** ** Forwarded addresses *)

Lemma client_ip_untrusted :
  c_trust_proxy cfg = false \/ peer_is_trusted_proxy = false -> client_ip = rq_peer rq.
Proof. unfold client_ip. intros [-> | ->]; cbn; [done|]. by rewrite orb_true_r. Qed.

Lemma join_commas_last l v : exists pre, join_commas (l ++ [v]) = pre ++ v /\
  (pre = [] \/ exists pre', pre = pre' ++ [44]).
Proof.
  induction l as [|x l (pre & IH & Hp)]; [exists []; auto|].
  exists (x ++ 44 :: pre). split.
  - cbn [app join_commas]. destruct (l ++ [v]) as [|y l'] eqn:E; [by destruct l|].
    rewrite IH, <- app_assoc. done.
  - right. destruct Hp as [->|[pre' ->]]; [by exists x|].
    exists (x ++ 44 :: pre'). by rewrite <- app_assoc.
Qed.

Lemma last_hop_app pre v :
  Forall (fun c => c <> 44) v -> (pre = [] \/ exists pre', pre = pre' ++ [44]) ->
  last_hop (pre ++ v) = v.
Proof.
  intros Hv Hp. unfold last_hop. destruct Hp as [->|[pre' ->]].
  - cbn [app]. destruct (strrchr 44 v) as [i|] eqn:E; [|done].
    exfalso. clear -Hv E. revert i E. induction Hv as [|c v Hc _ IH]; intros i; cbn [strrchr]; [done|].
    destruct (strrchr 44 v); [by destruct (IH _ eq_refl)|]. by case_test.
  - rewrite <- app_assoc. cbn [app]. rewrite strrchr_app by done.
    rewrite drop_app_ge by lia. by replace (S (length pre') - length pre')%nat with 1%nat by lia.
Qed.

(** The last address the proxy wrote wins over everything before it. *)
Lemma client_ip_proxy vs pre ip :
  c_trust_proxy cfg = true -> peer_is_trusted_proxy = true ->
  get_all (lit "X-Forwarded-For") (rq_headers rq) = vs ++ [pre ++ ip] ->
  (pre = [] \/ exists pre', pre = pre' ++ [44]) ->
  Forall (fun c => c <> 44) ip -> is_Some (ip_address (strip ip)) ->
  client_ip = strip ip.
Proof.
  intros Ht Hp Hx Hpre Hc [a Ha]. unfold client_ip. rewrite Ht, Hp, Hx. cbn [negb orb].
  destruct (join_commas_last vs (pre ++ ip)) as (q & Hq & Hql).
  destruct (vs ++ [pre ++ ip]) as [|v0 l] eqn:E; [by destruct vs|]. rewrite Hq, app_assoc.
  rewrite last_hop_app, Ha; [done|done|].
  destruct Hpre as [->|[p' ->]]; [by rewrite app_nil_r|].
  right. exists (q ++ p'). by rewrite app_assoc.
Qed.

End Handler.

(** ** Content-Length *)

(** The number a run of digits denotes. *)
Definition decimal_value (t : text) : Z := foldl (fun a c => a * 10 + (c - 48)) 0 t.

Lemma digits_value a t :
  forallb isdigit t = true ->
  CScan.digits decval 10 a t = (foldl (fun a c => a * 10 + (c - 48)) a t, []).
Proof.
  revert a. induction t as [|c t IH]; intros a; [done|]. cbn [forallb CScan.digits foldl].
  intros [Hc Ht]%andb_true_iff. unfold decval. rewrite Hc. by apply IH.
Qed.

Lemma value_zeros t : decimal_value (drop_while (Z.eqb 48) t) = decimal_value t.
Proof.
  unfold decimal_value. induction t as [|c t IH]; [done|]. cbn [drop_while].
  destruct (Z.eqb_spec 48 c) as [<-|]; done.
Qed.

Lemma value_lower a t :
  0 <= a -> forallb isdigit t = true ->
  a * 10 ^ Z.of_nat (length t) <= foldl (fun a c => a * 10 + (c - 48)) a t.
Proof.
  revert a. induction t as [|c t IH]; intros a Ha; [cbn; lia|]. cbn [forallb foldl length].
  intros [Hc Ht]%andb_true_iff. unfold isdigit in Hc. boolp.
  specialize (IH (a * 10 + (c - 48)) ltac:(lia) Ht).
  rewrite Nat2Z.inj_succ, Z.pow_succ_r by lia.
  assert (0 <= 10 ^ Z.of_nat (length t)) by (apply Z.pow_nonneg; lia). nia.
Qed.

Lemma drop_while_digits p t : forallb isdigit t = true -> forallb isdigit (drop_while p t) = true.
Proof.
  induction t as [|c t IH]; [done|]. intros Ht. cbn [drop_while]. case_match; [|done].
  apply IH. cbn in Ht. by apply andb_true_iff in Ht as [_ Ht].
Qed.

Lemma drop_while_head p t c u : drop_while p t = c :: u -> p c = false.
Proof.
  induction t as [|x t IH]; [done|]. cbn [drop_while]. destruct (p x) eqn:E; [done|].
  by intros [= <- _].
Qed.

Lemma content_length_value raw :
  let t := rstrip blank (drop_while blank raw) in
  parse_content_length raw =
    if (length t =? 0)%nat || negb (forallb isdigit t) then None
    else Some (if decimal_value t <? 10000 then decimal_value t else MAX_BODY_BYTES + 1).
Proof.
  intros t. unfold parse_content_length. fold t. destruct (_ || _) eqn:Hb; [done|].
  apply orb_false_iff in Hb as [_ Hd%negb_false_iff].
  pose proof (drop_while_digits (Z.eqb 48) t Hd) as Hds. rewrite <- (value_zeros t).
  destruct (drop_while (Z.eqb 48) t) as [|c u] eqn:Hw; [done|].
  apply drop_while_head in Hw. cbn in Hds. apply andb_true_iff in Hds as [Hc Hu].
  unfold isdigit in Hc. boolp. apply Z.eqb_neq in Hw.
  assert (decimal_value (c :: u) = foldl (fun a c => a * 10 + (c - 48)) (c - 48) u) as Hv by done.
  pose proof (value_lower (c - 48) u ltac:(lia) Hu) as Hlow. rewrite <- Hv in Hlow.
  destruct (Nat.ltb_spec 4 (length (c :: u))) as [Hl|Hl].
  - rewrite (proj2 (Z.ltb_ge _ _)); [done|]. cbn in Hl.
    assert (10 ^ 4 <= 10 ^ Z.of_nat (length u)) by (apply Z.pow_le_mono_r; lia). nia.
  - assert (forallb isdigit (c :: u) = true) as Hall.
    { cbn. unfold isdigit at 1. rewrite Hu, !(proj2 (Z.leb_le _ _)) by lia. done. }
    rewrite digits_value by done. cbn [fst]. fold (decimal_value (c :: u)).
    rewrite (proj2 (Z.ltb_lt _ _)); [done|].
    destruct u as [|d [|e [|f [|]]]]; cbn in Hl; try lia; unfold decimal_value; cbn [foldl];
      cbn in Hu; repeat (apply andb_true_iff in Hu as [? Hu]); unfold isdigit in *; boolp; lia.
Qed.

(** ** A sequence of requests *)

Section Serve.
Context {addr net : Type}.
Context (ip_address : text -> option addr) (in_net : addr -> net -> bool).
Context (decimal : Z -> option Z) (netloc_ok : list Z -> bool).
Context (cfg : config net).

Fixpoint serve (l : list (ctx * request)) (s : server) : list response * server :=
  match l with
  | [] => ([], s)
  | (cx, rq) :: l' =>
      let '(r, s1) := handle_request ip_address in_net decimal netloc_ok cfg cx rq s in
      let '(rs, s2) := serve l' s1 in
      (r :: rs, s2)
  end.

(** When each request came, and from whom. *)
Definition arrivals (l : list (ctx * request)) : list (Z * text) :=
  (fun p => (cx_mono p.1, client_ip ip_address in_net cfg p.2)) <$> l.

Definition not_limited (r : response) : bool := negb (code r =? 429).

Lemma serve_limiter l s :
  not_limited <$> (serve l s).1
    = (Limiter.run (c_limit cfg) (c_window cfg) (c_max_keys cfg) (arrivals l) (s_lim s)).1.
Proof.
  revert s. induction l as [|[cx rq] l IH]; intros s; [done|].
  cbn [serve arrivals fmap list_fmap Limiter.run fst snd].
  pose proof (handle_request_limit ip_address in_net decimal netloc_ok cfg cx rq s) as Hl.
  destruct (Limiter.allow _ _ _ _ _ _) as [ok lim].
  destruct (handle_request _ _ _ _ _ _ _ s) as [r s1]. cbn [fst snd] in Hl.
  destruct Hl as (<- & Hc & _). specialize (IH s1). unfold arrivals in IH.
  destruct (serve l s1) as [rs s2]. destruct (Limiter.run _ _ _ _ (s_lim s1)) as [bs lim2].
  cbn [fst fmap list_fmap] in *. rewrite IH. f_equal. unfold not_limited.
  destruct (Z.eqb_spec (code r) 429) as [H429|H429], ok; naive_solver.
Qed.

End Serve.

(** ** Properties *)

(** C33: without a key of a tier nothing of that tier happens: no ban is
    set or lifted and nothing is listed (no 200) without an admin key, no
    report is stored (no 201) without a report key, and a request with neither
    leaves the database as it was.  The routes, the guard, the handlers' every
    error path and exceptions raised on the way are all included. *)
Theorem key_tiers {addr net} ip_address in_net decimal netloc_ok (cfg : config net) cx rq s :
  let '(r, s') := handle_request (addr := addr) ip_address in_net decimal netloc_ok cfg cx rq s in
  (~ holds rq (c_admin_keys cfg) ->
    Store.bans (s_db s') = Store.bans (s_db s) /\ code r <> 200) /\
  (~ holds rq (c_report_keys cfg) ->
    Store.reports (s_db s') = Store.reports (s_db s) /\ code r <> 201) /\
  (~ holds rq (c_report_keys cfg) -> ~ holds rq (c_admin_keys cfg) ->
    s_db s' = s_db s /\ code r ∈ [400; 401; 404; 413; 429; 500]).
Proof.
  pose proof (without_admin_key ip_address in_net decimal netloc_ok cfg cx rq s) as Ha.
  pose proof (without_report_key ip_address in_net decimal netloc_ok cfg cx rq s) as Hr.
  pose proof (without_any_key ip_address in_net decimal netloc_ok cfg cx rq s) as Hn.
  destruct (handle_request _ _ _ _ _ _ _ _) as [r s']. by split_and!.
Qed.


(** whose address counts.  A peer that is not a trusted proxy is itself,
    whatever headers it sends; behind a trusted proxy it is the last address
    the proxy wrote, whatever stands before it in that header line or in
    earlier ones. *)
Theorem forwarded_for_unforgeable {addr net} ip_address in_net (cfg : config net) rq :
  (c_trust_proxy cfg = false \/ peer_is_trusted_proxy (addr := addr) ip_address in_net cfg rq = false
    -> client_ip ip_address in_net cfg rq = rq_peer rq) /\
  (c_trust_proxy cfg = true -> peer_is_trusted_proxy ip_address in_net cfg rq = true ->
    forall vs pre ip,
      get_all (lit "X-Forwarded-For") (rq_headers rq) = vs ++ [pre ++ ip] ->
      (pre = [] \/ exists pre', pre = pre' ++ [44]) ->
      Forall (fun c => c <> 44) ip -> is_Some (ip_address (strip ip)) ->
      client_ip ip_address in_net cfg rq = strip ip).
Proof.
  split; [apply client_ip_untrusted|]. intros Ht Hp vs pre ip Hx Hpre Hc Hi.
  by eapply client_ip_proxy.
Qed.

(** framing is decided by the number the Content-Length denotes, however
    many digits or leading zeros it is written with: at most one field, of
    digits, denoting at most 4096 is accepted (none counts as 0), a larger
    number gets 413, and anything else (signs, underscores, blanks inside, an
    empty value, a repeated field, a Transfer-Encoding) gets 400. *)
Theorem framing_exact rq :
  let fields := get_all (lit "Content-Length") (rq_headers rq) in
  let t := rstrip blank (drop_while blank (default (lit "0") (head fields))) in
  check_body_framing rq =
    if bool_decide (is_Some (get (lit "Transfer-Encoding") (rq_headers rq)))
    then Some (400, lit "chunked transfer-encoding not supported")
    else if (1 <? length fields)%nat then Some (400, lit "duplicate content-length")
    else if (length t =? 0)%nat || negb (forallb isdigit t) then Some (400, lit "bad request")
    else if decimal_value t <=? MAX_BODY_BYTES then None
    else Some (413, lit "payload too large").
Proof.
  intros fields t. unfold check_body_framing.
  destruct (get (lit "Transfer-Encoding") (rq_headers rq)); [done|].
  rewrite bool_decide_false by by intros [].
  assert (match parse_content_length (default (lit "0") (head fields)) with
    | None => Some (400, lit "bad request")
    | Some n => if MAX_BODY_BYTES <? n then Some (413, lit "payload too large") else None
    end = if (length t =? 0)%nat || negb (forallb isdigit t) then Some (400, lit "bad request")
      else if decimal_value t <=? MAX_BODY_BYTES then None
      else Some (413, lit "payload too large")) as Hp.
  { rewrite content_length_value. fold t. destruct (_ || _); [done|]. unfold MAX_BODY_BYTES.
    destruct (Z.leb_spec (decimal_value t) 4096), (Z.ltb_spec (decimal_value t) 10000);
      try lia; try done; destruct (Z.ltb_spec 4096 (decimal_value t)); done || lia. }
  fold fields. by destruct fields as [|a [|b l]].
Qed.

End Server.

Module ServerDemo.
Import Report Http Json Server.
Import Store (text).

Definition key : text := lit "k".
Definition cfg : config unit :=
  mk_config (Store.mk_config 10 100 10) [key] [lit "a"] 1 60 4 false [].

Definition cx (t : Z) : ctx := mk_ctx t (Store.mk_env t true [] (Some 0) true) 10.
Definition s0 : server :=
  mk_server (Store.mk_store [] 0 ∅ 0 []) (Limiter.mk_limiter [] 0) (new_notifier false 10).

Definition no_ip (v : list Z) : option unit := None.
Definition no_net (x y : unit) : bool := false.
Definition no_digit (c : Z) : option Z := None.
Definition any_netloc (v : list Z) : bool := true.

Definition ask (token target : text) : request :=
  mk_request (lit "GET") target [(lit "Authorization", lit "Bearer " ++ token)] [] false (lit "10.0.0.1").

Definition burst : list (ctx * request) :=
  [(cx 0, ask (lit "a") (lit "/banned/x")); (cx 1, ask (lit "a") (lit "/banned/x"));
   (cx 60, ask (lit "z") (lit "/banned/x"))].


(** A report: the token, and the body's text. *)
Definition post (body : list Z) : request :=
  mk_request (lit "POST") (lit "/report")
    [(lit "Authorization", lit "Bearer k"); (lit "Content-Length", fmt_u (Z.of_nat (length body)))]
    body false (lit "10.0.0.1").

Definition q : list Z := [quote].

Definition body (ts : list Z) : list Z :=
  concat [lit "{"; q; lit "client_id"; q; lit ":"; q; lit "c"; q; lit ","; q; lit "event_type"; q;
    lit ":"; q; lit "A"; q; lit ","; q; lit "detail"; q; lit ":"; q; lit "d"; q; lit ","; q;
    lit "ts"; q; lit ":"; ts; lit "}"].

Example report_accepted :
  code (handle_request no_ip no_net no_digit any_netloc cfg (cx 0) (post (body (lit "17"))) s0).1 = 201.
Proof. vm_compute. reflexivity. Qed.

(** A time stamp the database cannot hold is answered 500, not 400. *)
Example huge_ts_is_500 :
  code (handle_request no_ip no_net no_digit any_netloc cfg (cx 0)
          (post (body (lit "9223372036854775808"))) s0).1 = 500.
Proof. vm_compute. reflexivity. Qed.

(** So is an offset beyond 64 bits. *)
Example huge_offset_is_500 :
  code (handle_request no_ip no_net no_digit any_netloc cfg (cx 0)
          (ask (lit "a") (lit "/reports/c?offset=9223372036854775808")) s0).1 = 500.
Proof. vm_compute. reflexivity. Qed.

(** And text nested deeper than the interpreter's limit. *)
Example deep_body_is_500 :
  code (handle_request no_ip no_net no_digit any_netloc cfg (cx 0) (post (lit "[[[[[[[[[[[[")) s0).1
  = 500.
Proof. vm_compute. reflexivity. Qed.

End ServerDemo.
