(* ===== verification/EndToEnd.v ===== *)
(** The daemon and the server together: the request [ac_report] writes
    (src/anticheat_daemon.c) as [http.server] and the handlers of
    src/server/ac_server.py read it, up to the stored row and the status the
    daemon reads back; and the way of a finding from the monitor loop through
    the log to that row. *)

From S2P Require Import Prelude CText CScan DLog Monitor Daemon.
From S2P Require Import Report Json Limiter Store Http Server.

#[local] Open Scope Z_scope.

Module EndToEnd.
Import Report Http Json Server.

(** ** The request as the library reads it *)

(** Lines that each end in CR LF, and the empty one. *)
Definition block (ls : list (list Z)) : list Z :=
  concat ((fun l => l ++ crlf) <$> ls) ++ crlf.

Definition plain (l : list Z) : Prop := Forall (fun c => eol c = false) l.

Lemma head_block_line line l s :
  Forall (fun c => c <> 10) l ->
  head_block line (l ++ s) = head_block (line ++ l) s.
Proof.
  intros Hl. revert line. induction Hl as [|c l Hc _ IH]; intros line;
    [by rewrite app_nil_r|]. cbn [app head_block].
  rewrite (proj2 (Z.eqb_neq c 10)) by done. by rewrite IH, <- app_assoc.
Qed.

Lemma plain_no_nl l : plain l -> Forall (fun c => c <> 10) l.
Proof.
  intros Hl. apply (list.Forall_impl _ _ _ Hl). unfold eol. intros c Hc ->. done.
Qed.

Lemma head_block_block ls body :
  Forall plain ls -> Forall (fun l => l <> []) ls ->
  head_block [] (block ls ++ body) = (block ls, body).
Proof.
  unfold block. induction ls as [|l ls IH]; intros Hp Hn; [done|].
  apply Forall_cons_1 in Hp as [Hl Hp]. apply Forall_cons_1 in Hn as [Hl0 Hn].
  cbn [fmap list_fmap concat]. rewrite <- !app_assoc, head_block_line by by apply plain_no_nl.
  change (crlf ++ ?t) with (13 :: 10 :: t) at 1. cbn [head_block]. cbn [Z.eqb Pos.eqb].
  rewrite !bool_decide_false; [|by destruct l as [|? []]|by destruct l].
  rewrite app_assoc, IH by done. cbn [app orb]. by rewrite <- app_assoc.
Qed.

Lemma ulines_line line l s : plain l -> ulines line (l ++ s) = ulines (line ++ l) s.
Proof.
  intros Hl. revert line. induction Hl as [|c l Hc _ IH]; intros line;
    [by rewrite app_nil_r|]. unfold eol in Hc. apply orb_false_iff in Hc as [H13 H10].
  cbn [app ulines]. rewrite H13, H10. by rewrite IH, <- app_assoc.
Qed.

Lemma ulines_block ls :
  Forall plain ls -> ulines [] (block ls) = ((fun l => l ++ crlf) <$> ls) ++ [crlf].
Proof.
  unfold block. induction 1 as [|l ls Hl _ IH]; [done|].
  cbn [fmap list_fmap concat app]. rewrite <- !app_assoc, ulines_line by done.
  change (crlf ++ ?t) with (13 :: 10 :: t) at 1. cbn [ulines app Z.eqb Pos.eqb].
  by rewrite IH.
Qed.

(** A field [name: v]. *)
Definition field (h : list Z * list Z) : list Z := h.1 ++ lit ": " ++ h.2.

Definition field_ok (h : list Z * list Z) : Prop :=
  forallb name_char h.1 = true /\ h.1 <> [] /\ plain h.2 /\
  starts_with (lit "From ") (field h ++ crlf) = false.

(** Blanks before a value are not part of it. *)
Definition trimmed (h : list Z * list Z) : list Z * list Z := (h.1, drop_while blank h.2).

Lemma cut_name n v : forallb name_char n = true -> cut 58 (n ++ 58 :: v) = Some (n, v).
Proof.
  induction n as [|c n IH]; [done|]. cbn [forallb app cut]. intros [Hc Hn]%andb_true_iff.
  unfold name_char in Hc. destruct (c =? 58); [by rewrite andb_false_r in Hc|]. by rewrite IH.
Qed.

Lemma drop_while_app p a b :
  drop_while p (a ++ b) =
  match drop_while p a with [] => drop_while p b | t => t ++ b end.
Proof.
  induction a as [|c a IH]; [done|]. cbn [app drop_while]. by destruct (p c).
Qed.

Lemma plain_rstrip v : plain v -> rstrip eol (v ++ crlf) = v.
Proof.
  unfold rstrip. intros Hv. rewrite reverse_app.
  assert (drop_while eol (reverse crlf ++ reverse v) = reverse v) as ->.
  { change (reverse crlf) with [10; 13]. cbn [app drop_while]. cbn [eol Z.eqb Pos.eqb orb].
    apply list.Forall_reverse in Hv. destruct Hv as [|c l Hc _]; [done|].
    cbn [drop_while]. by rewrite Hc. }
  apply reverse_involutive.
Qed.

Lemma drop_while_plain p v : plain v -> plain (drop_while p v).
Proof.
  induction 1 as [|c v Hc Hv IH]; [constructor|]. cbn [drop_while].
  destruct (p c); [done|by constructor].
Qed.

Lemma field_value_line v : plain v -> field_value (32 :: v ++ crlf) = drop_while blank v.
Proof.
  intros Hp. unfold field_value. cbn [drop_while]. cbn [blank Z.eqb Pos.eqb orb].
  pose proof (drop_while_plain blank v Hp) as Hd. rewrite drop_while_app.
  destruct (drop_while blank v) as [|c u]; [done|]. by apply plain_rstrip.
Qed.

Lemma fields_step last h ls :
  field_ok h ->
  fields last ((field h ++ crlf) :: ls) =
  match last with Some (n, v) => [(n, field_value v)] | None => [] end
  ++ fields (Some (h.1, 32 :: h.2 ++ crlf)) ls.
Proof.
  destruct h as [n v]. intros (Hn & Hne & _ & Hfrom). cbn [fields].
  unfold field, field_line in *. cbn [fst snd] in *.
  assert ((n ++ lit ": " ++ v) ++ crlf = n ++ 58 :: 32 :: v ++ crlf) as Heq
    by by rewrite <- app_assoc.
  rewrite Heq in *. destruct n as [|c n]; [done|].
  assert (blank c = false) as Hb.
  { cbn in Hn. apply andb_true_iff in Hn as [Hc _]. unfold name_char in Hc. unfold blank.
    boolp. lia. }
  rewrite cut_name, Hn, Hfrom by done. cbn [app]. by rewrite Hb.
Qed.

Lemma fields_block hs :
  Forall field_ok hs ->
  fields None (((fun l => l ++ crlf) <$> (field <$> hs)) ++ [crlf]) = trimmed <$> hs.
Proof.
  assert (forall last, Forall field_ok hs ->
    fields last (((fun l => l ++ crlf) <$> (field <$> hs)) ++ [crlf]) =
    match last with Some (n, v) => [(n, field_value v)] | None => [] end ++ (trimmed <$> hs)) as Hg.
  { induction hs as [|h hs IH]; intros last Hf; [by destruct last as [[]|]|].
    apply Forall_cons_1 in Hf as [Hh Hf]. cbn [fmap list_fmap app].
    rewrite fields_step, IH by done. f_equal. destruct h as [n v]. cbn [fst snd app].
    destruct Hh as (_ & _ & Hp & _). by rewrite field_value_line. }
  intros Hf. by rewrite Hg.
Qed.

(** The header fields of a report. *)
Definition report_fields (host key body : list Z) : headers :=
  [(lit "Host", host); (lit "Authorization", lit "Bearer " ++ key);
   (lit "Content-Type", lit "application/json");
   (lit "Content-Length", fmt_u (Z.of_nat (length body)));
   (lit "Connection", lit "close")].

Lemma report_request_block host key body :
  report_request host key body =
  (lit "POST /report HTTP/1.1" ++ crlf) ++ block (field <$> report_fields host key body) ++ body.
Proof.
  unfold report_request, block, report_fields, field. cbn [concat fmap list_fmap fst snd].
  rewrite <- !app_assoc, !app_nil_r. reflexivity.
Qed.

Lemma fmt_u_plain n : plain (fmt_u n).
Proof.
  apply (list.Forall_impl _ _ _ (fmt_u_chars n)). cbn beta. intros c Hc. unfold eol.
  apply orb_false_iff. rewrite !Z.eqb_neq. lia.
Qed.

Lemma report_fields_ok host key body :
  plain host -> plain key -> Forall field_ok (report_fields host key body).
Proof.
  intros Hh Hk. unfold report_fields.
  repeat constructor; cbn [fst snd]; try done; try apply fmt_u_plain;
    try (by vm_compute; repeat constructor).
Qed.

Lemma read_report host key body :
  plain host -> plain key ->
  read_request (report_request host key body) =
  Request (lit "POST") (lit "/report") (trimmed <$> report_fields host key body) body.
Proof.
  intros Hh Hk. pose proof (report_fields_ok host key body Hh Hk) as Hf.
  rewrite report_request_block. unfold read_request.
  set (blk := block _ ++ body).
  assert (readline ((lit "POST /report HTTP/1.1" ++ crlf) ++ blk)
    = (lit "POST /report HTTP/1.1" ++ crlf, blk)) as -> by reflexivity.
  assert (request_line (lit "POST /report HTTP/1.1" ++ crlf)
    = Some (inr (lit "POST", lit "/report"))) as -> by (vm_compute; reflexivity).
  subst blk.
  assert (Forall plain (field <$> report_fields host key body)) as Hp.
  { apply Forall_fmap. apply (list.Forall_impl _ _ _ Hf). intros [n v] (Hn & _ & Hv & _).
    unfold compose, field. cbn [fst snd] in *. apply list.Forall_app. split.
    - apply list.Forall_forall. intros c Hc%list_elem_of_In.
      apply (proj1 (forallb_forall _ _) Hn) in Hc. unfold name_char in Hc. unfold eol.
      boolp. lia.
    - apply list.Forall_app. split; [by repeat constructor|done]. }
  rewrite head_block_block; [|done|by repeat constructor].
  rewrite ulines_block, fields_block by done.
  rewrite bool_decide_false by (vm_compute; congruence). rewrite bool_decide_true by done. done.
Qed.

(** ** The body as [json.loads] reads it *)

Lemma digits_agree a n t :
  Json.digits a n t =
  let '(v, rest) := CScan.digits decval 10 a t in (v, (n + (length t - length rest))%nat, rest).
Proof.
  revert a n. induction t as [|c t IH]; intros a n; cbn [Json.digits CScan.digits].
  { cbn. f_equal. f_equal. lia. }
  change (decval c) with (if isdigit c then Some (c - 48) else None).
  destruct (isdigit c); [|by rewrite Nat.sub_diag, Nat.add_0_r].
  rewrite IH. pose proof (digits_length (a * 10 + (c - 48)) 0 t) as Hl. rewrite IH in Hl.
  destruct (CScan.digits decval 10 _ t) as [v rest]. cbn in Hl. do 2 f_equal. cbn [length]. lia.
Qed.

Lemma fmt_base_head fuel n acc :
  0 < n < 10 ^ Z.of_nat fuel -> exists c t, fmt_base 10 fuel n acc = c :: t /\ 48 < c <= 57.
Proof.
  revert n acc. induction fuel as [|fuel IH]; intros n acc Hn; [cbn in Hn; lia|].
  cbn [fmt_base]. rewrite Nat2Z.inj_succ, Z.pow_succ_r in Hn by lia.
  pose proof (Z.div_mod n 10 ltac:(lia)). pose proof (Z.mod_pos_bound n 10 ltac:(lia)).
  destruct (Z.eqb_spec (n / 10) 0).
  - do 2 eexists. split; [reflexivity|]. unfold digit_char. case_test; lia.
  - apply IH. split; [lia|]. lia.
Qed.

Lemma int_part_fmt n rest :
  0 <= n < 10 ^ 20 -> exists k, int_part (fmt_u n ++ 125 :: rest) = Some (n, k, 125 :: rest).
Proof.
  intros Hn. unfold fmt_u. destruct (Z.eq_dec n 0) as [->|Hn0]; [by eexists|].
  destruct (fmt_base_head 20 n [] ltac:(lia)) as (c & t & Hhead & Hc).
  destruct (fmt_base_digits 10 decval ltac:(lia) digit_char_decval 20 n ltac:(lia) ltac:(lia))
    as (ds & Hne & _ & _ & Heq & Hread).
  specialize (Heq []). rewrite app_nil_r in Heq. rewrite Heq in *.
  unfold int_part. assert (eat 48 (ds ++ 125 :: rest) = None) as ->.
  { rewrite Hhead. cbn. by rewrite (proj2 (Z.eqb_neq c 48)) by lia. }
  rewrite digits_agree, Hread. cbn [CScan.digits]. change (decval 125) with (@None Z). cbn iota.
  rewrite length_app, Nat.add_sub. destruct (Nat.eqb_spec (0 + length ds) 0) as [H0|_].
  - by destruct ds.
  - eexists. by rewrite Z.mul_0_l, Z.add_0_l.
Qed.

Lemma number_fmt n rest :
  - 2 ^ 63 <= n < 2 ^ 63 -> number (fmt_d n ++ 125 :: rest) = JOk (JInt n) (125 :: rest).
Proof.
  intros Hn. unfold number, fmt_d. destruct (Z.ltb_spec n 0).
  - cbn [app]. cbn [eat Z.eqb Pos.eqb].
    destruct (int_part_fmt (- n) rest ltac:(lia)) as [k ->]. cbn. do 2 f_equal. lia.
  - assert (eat 45 (fmt_u n ++ 125 :: rest) = None) as ->.
    { pose proof (fmt_u_chars n) as Hch. destruct (fmt_u n) as [|c t]; [done|].
      apply Forall_cons_1 in Hch as [Hc _]. cbn. by rewrite (proj2 (Z.eqb_neq c 45)) by lia. }
    destruct (int_part_fmt n rest ltac:(lia)) as [k ->]. cbn. do 2 f_equal. lia.
Qed.

Lemma value_fmt f d n rest :
  - 2 ^ 63 <= n < 2 ^ 63 ->
  value (S f) d (fmt_d n ++ 125 :: rest) = JOk (JInt n) (125 :: rest).
Proof.
  intros Hn. pose proof (number_fmt n rest Hn) as Hnum. revert Hnum.
  assert (exists c t, fmt_d n = c :: t /\ (48 <= c <= 57 \/ c = 45 /\ exists c' t', t = c' :: t' /\ 48 <= c' <= 57))
    as (c & t & -> & Hc).
  { assert (forall m, 0 <= m < 10 ^ 20 -> exists c t, fmt_u m = c :: t /\ 48 <= c <= 57) as Hu.
    { intros m Hm. destruct (Z.eq_dec m 0) as [->|]; [by do 2 eexists|].
      destruct (fmt_base_head 20 m [] ltac:(lia)) as (c & t & Hh & Hc).
      exists c, t. split; [done|lia]. }
    unfold fmt_d. destruct (Z.ltb_spec n 0).
    - destruct (Hu (- n) ltac:(lia)) as (c & t & -> & Hc). exists 45, (c :: t). naive_solver.
    - destruct (Hu n ltac:(lia)) as (c & t & -> & Hc). exists c, t. naive_solver. }
  cbn [app value]. unfold quote. intros Hnum.
  assert (starts_with (lit "-Infinity") (c :: t ++ 125 :: rest) = false) as Hinf.
  { destruct (starts_with _ _) eqn:Hs; [|done]. apply starts_with_spec in Hs as [u Hu].
    change (lit "-Infinity" ++ u) with (45 :: 73 :: lit "nfinity" ++ u) in Hu.
    injection Hu as Hc45 Hu. destruct Hc as [Hc|(_ & c' & t' & -> & Hc')]; [lia|].
    injection Hu as Hc73 _. lia. }
  rewrite Hinf, Hnum.
  rewrite !(proj2 (Z.eqb_neq c _)) by (destruct Hc as [?|[-> _]]; lia). done.
Qed.

Lemma value_text f d v rest :
  Forall (fun c => 0 <= c) v ->
  value (S f) d (quote :: Utf8.escape v ++ quote :: rest) = JOk (JString v) rest.
Proof. intros Hv. cbn [value]. rewrite Z.eqb_refl. by rewrite escape_scan. Qed.

Lemma skip_quote t : skip (quote :: t) = quote :: t.
Proof. done. Qed.

Lemma eat_same c t : eat c (c :: t) = Some t.
Proof. cbn. by rewrite Z.eqb_refl. Qed.

(** One member with a string value, followed by another. *)
Lemma member_text f d k v rest :
  Forall (fun c => 0 <= c) k -> Forall (fun c => 0 <= c) v ->
  members (S (S f)) d
    (quote :: Utf8.escape k ++ quote :: 58 :: quote :: Utf8.escape v ++ quote :: 44 :: quote :: rest)
  = jbind (members (S f) d (quote :: rest)) (fun m r => JOk ((k, JString v) :: m) r).
Proof.
  intros Hk Hv. remember (S f) as g eqn:Hg. cbn [members]. rewrite eat_same.
  rewrite escape_scan by done. change (skip (58 :: ?t)) with (58 :: t). rewrite eat_same.
  rewrite skip_quote, Hg, value_text by done. cbn [jbind].
  change (skip (44 :: ?t)) with (44 :: t). change (eat 125 (44 :: ?t)) with (@None (list Z)).
  by rewrite eat_same, skip_quote.
Qed.

(** The last one, with an integer. *)
Lemma member_int f d k n :
  Forall (fun c => 0 <= c) k -> - 2 ^ 63 <= n < 2 ^ 63 ->
  members (S (S f)) d (quote :: Utf8.escape k ++ quote :: 58 :: fmt_d n ++ [125])
  = JOk [(k, JInt n)] [].
Proof.
  intros Hk Hn. remember (S f) as g eqn:Hg. cbn [members]. rewrite eat_same.
  rewrite escape_scan by done. change (skip (58 :: ?t)) with (58 :: t). rewrite eat_same.
  assert (skip (fmt_d n ++ [125]) = fmt_d n ++ [125]) as ->.
  { assert (Forall (fun c => ws c = false) (fmt_d n ++ [125])) as Hws.
    { apply list.Forall_app. split; [|by repeat constructor]. unfold fmt_d.
      assert (forall m, Forall (fun c => ws c = false) (fmt_u m)) as Hu.
      { intros m. apply (list.Forall_impl _ _ _ (fmt_u_chars m)). cbn beta. intros c Hc.
        unfold ws. repeat (apply orb_false_iff; split); apply Z.eqb_neq; lia. }
      case_test; [by constructor|done]. }
    destruct Hws as [|c l Hc _]; [done|]. cbn [skip]. by rewrite Hc. }
  rewrite Hg, value_fmt by done. reflexivity.
Qed.

(** The text of a report's body. *)
Definition body_text (c ty d : list Z) (now : Z) : list Z :=
  123 :: quote :: Utf8.escape (lit "client_id") ++ quote :: 58 :: quote :: Utf8.escape c
  ++ quote :: 44 :: quote :: Utf8.escape (lit "event_type") ++ quote :: 58 :: quote
  :: Utf8.escape ty ++ quote :: 44 :: quote :: Utf8.escape (lit "detail") ++ quote :: 58
  :: quote :: Utf8.escape d ++ quote :: 44 :: quote :: Utf8.escape (lit "ts") ++ quote :: 58
  :: fmt_d now ++ [125].

Lemma body_loads depth c ty d now :
  Forall (fun c => 0 <= c) c -> Forall (fun c => 0 <= c) ty -> Forall (fun c => 0 <= c) d ->
  - 2 ^ 63 <= now < 2 ^ 63 ->
  loads (S depth) (body_text c ty d now) =
  JOk (JObject [(lit "client_id", JString c); (lit "event_type", JString ty);
                (lit "detail", JString d); (lit "ts", JInt now)]) [].
Proof.
  intros Hc Ht Hd Hn. unfold loads. change (eat 65279 (body_text c ty d now)) with (@None (list Z)).
  set (t := body_text c ty d now).
  assert (exists f, S (2 * length t) = S (S (S (S (S (S f)))))) as [f ->].
  { exists (2 * length t - 5)%nat. subst t. unfold body_text. cbn [length]. rewrite length_app. cbn [length]. lia. }
  subst t. unfold body_text. change (skip (123 :: ?t)) with (123 :: t).
  change (value (S ?g) (S depth) (123 :: quote :: ?t)) with
    (jbind (members g depth (quote :: t)) (fun m rest => JOk (JObject m) rest)).
  rewrite !member_text by (done || by vm_compute; repeat constructor).
  rewrite member_int by (done || by vm_compute; repeat constructor). reflexivity.
Qed.

(** What [ac_json_escape] writes is the escaped form of a prefix. *)
Lemma json_escape_flat inp outsz :
  (0 < outsz)%nat ->
  exists k, ac_json_escape inp outsz = Utf8.escape (take k inp) /\
    (length (ac_json_escape inp outsz) < outsz)%nat /\
    (k = length inp \/ outsz <= length (ac_json_escape inp outsz) + 7)%nat.
Proof.
  unfold ac_json_escape. assert (forall o, (o < outsz)%nat -> exists k,
    escape_loop outsz o inp = Utf8.escape (take k inp) /\
    (o + length (escape_loop outsz o inp) < outsz)%nat /\
    (k = length inp \/ outsz <= o + length (escape_loop outsz o inp) + 7)%nat) as Hg.
  { induction inp as [|c inp IH]; intros o Ho.
    { exists O. split_and!; [done|cbn; lia|by left]. }
    cbn [escape_loop]. destruct (Nat.ltb_spec (o + 7) outsz) as [Hr|Hr].
    - pose proof (esc_length c). destruct (IH (o + length (esc c))%nat ltac:(lia)) as (k & Hk & Hl & Hc).
      exists (S k). rewrite length_app, Hk. cbn [take length].
      split_and!; [done|rewrite <- Hk; lia|]. rewrite <- Hk. destruct Hc as [->|Hc]; [by left|right; lia].
    - exists O. split_and!; [done|cbn; lia|right; cbn; lia]. }
  intros Ho. destruct (Hg 0%nat Ho) as (k & Hk & Hl & Hc). by exists k.
Qed.

Lemma report_body_text c ty d now : exists i j k,
  report_body c ty d now = body_text (take i c) (take j ty) (take k d) now /\
  (i = length c \/ 249 <= length (Utf8.escape (take i c)))%nat /\
  (length (Utf8.escape (take j ty)) < 64)%nat /\
  (j = length ty \/ 57 <= length (Utf8.escape (take j ty)))%nat /\
  (length (Utf8.escape (take k d)) < 600)%nat /\
  (k = length d \/ 593 <= length (Utf8.escape (take k d)))%nat.
Proof.
  destruct (json_escape_flat c 256 ltac:(lia)) as (i & Hi & _ & Hci).
  destruct (json_escape_flat ty 64 ltac:(lia)) as (j & Hj & Hlj & Hcj).
  destruct (json_escape_flat d 600 ltac:(lia)) as (k & Hk & Hlk & Hck).
  exists i, j, k. rewrite <- Hi, <- Hj, <- Hk. split_and!; [|lia|lia|lia|lia|lia].
  unfold report_body, body_text. rewrite Hi, Hj, Hk.
  cbn [concat]. rewrite !app_nil_r. reflexivity.
Qed.

Lemma decode_quoted a rest :
  Forall (fun c => 0 <= c) a ->
  Utf8.decode (Utf8.escape a ++ quote :: rest)
    = Utf8.escape (Utf8.decode a) ++ quote :: Utf8.decode rest.
Proof. intros Ha. by rewrite Utf8.decode_ascii_app, Utf8.decode_escape. Qed.

Lemma decode_name a rest :
  forallb (fun c => (0 <=? c) && (c <? 128)) a = true ->
  Utf8.decode (Utf8.escape a ++ quote :: rest) = Utf8.escape a ++ quote :: Utf8.decode rest.
Proof.
  intros Ha. assert (Forall (fun c => 0 <= c < 128) a) as Hf.
  { apply list.Forall_forall. intros c Hc%list_elem_of_In.
    apply (proj1 (forallb_forall _ _) Ha) in Hc. boolp. lia. }
  rewrite decode_quoted by (apply (list.Forall_impl _ _ _ Hf); lia).
  rewrite <- (app_nil_r a) at 1. rewrite Utf8.decode_ascii_list, app_nil_r; [done|].
  apply (list.Forall_impl _ _ _ Hf). lia.
Qed.

Lemma decode_body_text c ty d now :
  Forall (fun c => 0 <= c) c -> Forall (fun c => 0 <= c) ty -> Forall (fun c => 0 <= c) d ->
  Utf8.decode (body_text c ty d now)
    = body_text (Utf8.decode c) (Utf8.decode ty) (Utf8.decode d) now.
Proof.
  intros Hc Ht Hd. unfold body_text. unfold quote.
  repeat first [ rewrite Utf8.decode_ascii by lia
               | rewrite decode_name by (vm_compute; reflexivity)
               | rewrite decode_quoted by done ].
  assert (Forall (fun c => c < 128) (fmt_d now ++ [125])) as Ha.
  { apply list.Forall_app. split; [|by repeat constructor]. unfold fmt_d.
    assert (forall m, Forall (fun c => c < 128) (fmt_u m)) as Hu.
    { intros m. apply (list.Forall_impl _ _ _ (fmt_u_chars m)). cbn beta. lia. }
    case_test; [by constructor|done]. }
  pose proof (Utf8.decode_ascii_list _ [] Ha) as Hn. rewrite !app_nil_r in Hn. by rewrite Hn.
Qed.

(** ** The request through the handler *)

(** What a connection's bytes become; a daemon's connection does not stall. *)
Definition request_of (bytes peer : list Z) : option request :=
  match read_request bytes with
  | Request c t hs rest => Some (mk_request c t hs rest false peer)
  | _ => None
  end.

Lemma any_key_in got keys :
  ascii got = true -> forallb ascii keys = true -> got ∈ keys -> any_key got keys = Val true.
Proof.
  intros Hg Hk Hin. induction keys as [|k ks IH]; [by apply elem_of_nil in Hin|].
  cbn in Hk. apply andb_true_iff in Hk as [Hka Hks]. cbn [any_key]. rewrite Hg, Hka. cbn.
  case_bool_decide; [done|]. apply IH; [done|]. by apply elem_of_cons in Hin as [|].
Qed.

Lemma fmt_u_value n : 0 <= n < 10 ^ 20 -> decimal_value (fmt_u n) = n.
Proof.
  intros Hn. destruct (fmt_base_digits 10 decval ltac:(lia) digit_char_decval 20 n ltac:(lia) Hn)
    as (ds & _ & Hall & _ & Heq & Hread).
  unfold fmt_u. rewrite Heq, app_nil_r. specialize (Hread 0 []). rewrite app_nil_r in Hread.
  assert (forallb isdigit ds = true) as Hd.
  { apply forallb_forall. intros c Hc%list_elem_of_In.
    apply (proj1 (list.Forall_forall _ _) Hall), digit_of_10 in Hc. unfold isdigit.
    apply andb_true_iff. rewrite !Z.leb_le. lia. }
  rewrite digits_value in Hread by done. cbn [CScan.digits] in Hread.
  injection Hread as Hread. unfold decimal_value. lia.
Qed.

Lemma strip_id p v : forallb (fun c => negb (p c)) v = true -> rstrip p (drop_while p v) = v.
Proof.
  intros Hv. assert (forall u, forallb (fun c => negb (p c)) u = true -> drop_while p u = u) as Hd.
  { intros [|c u] Hu; [done|]. cbn in Hu. apply andb_true_iff in Hu as [Hc _].
    cbn [drop_while]. by destruct (p c). }
  unfold rstrip. rewrite (Hd v) by done. rewrite Hd; [apply reverse_involutive|].
  apply forallb_forall. intros c Hc. apply (proj1 (forallb_forall _ _) Hv).
  apply list_elem_of_In. rewrite <- list_elem_of_In in Hc. by rewrite elem_of_reverse in Hc.
Qed.

Lemma fmt_u_digits n : forallb isdigit (fmt_u n) = true.
Proof.
  apply forallb_forall. intros c Hc%list_elem_of_In.
  apply (proj1 (list.Forall_forall _ _) (fmt_u_chars n)) in Hc. unfold isdigit.
  apply andb_true_iff. rewrite !Z.leb_le. lia.
Qed.

Lemma fmt_u_nonempty n : fmt_u n <> [].
Proof.
  assert (forall f m acc, (0 < f)%nat \/ acc <> [] -> fmt_base 10 f m acc <> []) as Hf.
  { induction f as [|f IH]; intros m acc Ha; [by destruct Ha; [lia|]|]. cbn [fmt_base].
    case_test; [done|]. apply IH. by right. }
  apply Hf. left. lia.
Qed.

(** The length a report announces is read back. *)
Lemma content_length_fmt n : 0 <= n < 10000 -> parse_content_length (fmt_u n) = Some n.
Proof.
  intros Hn. rewrite content_length_value. rewrite strip_id.
  - rewrite fmt_u_digits, fmt_u_value by lia. pose proof (fmt_u_nonempty n).
    destruct (fmt_u n); [done|]. cbn [length Nat.eqb negb orb].
    by rewrite (proj2 (Z.ltb_lt _ _)) by lia.
  - apply forallb_forall. intros c Hc.
    apply (proj1 (forallb_forall _ _) (fmt_u_digits n)) in Hc. unfold isdigit in Hc.
    unfold blank. boolp. lia.
Qed.

Section Handled.
Context {addr net : Type}.
Context (ip_address : list Z -> option addr) (in_net : addr -> net -> bool).
Context (decimal : Z -> option Z) (netloc_ok : list Z -> bool).
Context (cfg : Server.config net) (cx : ctx).
Context (host key body peer : list Z).

Notation rq := (mk_request (lit "POST") (lit "/report")
                  (trimmed <$> report_fields host key body) body false peer).

Context (Hbody : (length body < 4096)%nat) (Hbody0 : (0 < length body)%nat).

Lemma report_peer : client_ip ip_address in_net cfg rq = peer.
Proof. unfold client_ip. by destruct (_ || _). Qed.

Lemma report_bearer : bearer rq = Some key.
Proof. reflexivity. Qed.

Lemma report_length :
  get_all (lit "Content-Length") (rq_headers rq)
    = [fmt_u (Z.of_nat (length body))].
Proof.
  transitivity [drop_while blank (fmt_u (Z.of_nat (length body)))]; [reflexivity|]. f_equal.
  pose proof (fmt_u_chars (Z.of_nat (length body))) as Hc. destruct Hc as [|c l Hc _]; [done|].
  cbn [drop_while]. unfold blank. by rewrite !(proj2 (Z.eqb_neq _ _)) by lia.
Qed.

Lemma report_framing : check_body_framing rq = None.
Proof.
  unfold check_body_framing. change (get (lit "Transfer-Encoding") (rq_headers rq)) with (@None (list Z)).
  rewrite report_length. change (default (lit "0") (head [?x])) with x.
  rewrite content_length_fmt by lia. unfold MAX_BODY_BYTES.
  by rewrite (proj2 (Z.ltb_ge _ _)) by lia.
Qed.

Lemma report_read s v :
  loads (cx_depth cx) (Utf8.decode body) = JOk v [] -> read_json_body cx rq s = (Val (Some v), s).
Proof.
  intros Hl. unfold read_json_body. unfold get. rewrite report_length. cbn [head].
  change (default (lit "0") (Some ?x)) with x. rewrite content_length_fmt by lia.
  unfold MAX_BODY_BYTES. rewrite (proj2 (Z.leb_gt _ _)), (proj2 (Z.ltb_ge _ _)) by lia.
  cbn [orb rq_stalls andb rq_body]. rewrite Nat2Z.id, take_ge by done. by rewrite Hl.
Qed.

(** A report whose body parses and whose client is valid, from a holder of a
    report key within the rate, with a working database. *)
Lemma report_handled s c ty d n lim :
  loads (cx_depth cx) (Utf8.decode body) =
    JOk (JObject [(lit "client_id", JString c); (lit "event_type", JString ty);
                  (lit "detail", JString d); (lit "ts", JInt n)]) [] ->
  valid_client_id c = true -> (length ty <= 64)%nat -> (length d <= 2000)%nat ->
  key ∈ c_report_keys cfg -> ascii key = true -> forallb ascii (c_report_keys cfg) = true ->
  Limiter.allow (c_limit cfg) (c_window cfg) (c_max_keys cfg) (cx_mono cx) peer (s_lim s)
    = (true, lim) ->
  handle_request ip_address in_net decimal netloc_ok cfg cx rq s =
  let '(r, db) :=
    (Store.add_report (c_store cfg) (cx_env cx) (s_db s) c ty d (Some (Store.NInt n)) peer).1 in
  match r with
  | Store.Ok now =>
      (mk_response 201 ok_obj None,
       mk_server db lim (notify (mk_payload c ty d (Some (Store.NInt n)) now peer) (s_note s)))
  | Store.Raise =>
      (mk_response 500 (error_obj (lit "internal error")) None, mk_server db lim (s_note s))
  end.
Proof.
  intros Hl Hc Ht Hd Hkey Hk Hks Hal.
  assert (any_key key (c_report_keys cfg) = Val true) as Hauth by by apply any_key_in.
  unfold handle_request. rewrite bool_decide_false by (vm_compute; congruence).
  unfold dispatch, do_POST, mbind, hm_bind, rate_limited. rewrite report_peer, Hal.
  unfold post_routes.
  assert (urlparse netloc_ok (rq_target rq) = Some (lit "/report", [])) as -> by reflexivity.
  rewrite bool_decide_true by reflexivity.
  unfold route_guarded, requires_auth, authed, mbind, hm_bind. cbn [h_name h_auth h_body].
  rewrite report_bearer, Hauth. rewrite bool_decide_false by (intros ?%elem_of_nil; done).
  unfold handle_report, require_body_client_id, mbind, hm_bind. rewrite report_framing.
  rewrite (report_read _ _ Hl).
  unfold require_valid_client_id.
  change (lookup_member (lit "client_id") _) with (Some (JString c)). cbn iota.
  rewrite Hc. unfold mret, hm_ret.
  change (lookup_member (lit "event_type") _) with (Some (JString ty)).
  change (lookup_member (lit "detail") _) with (Some (JString d)).
  unfold json_text. rewrite !(proj2 (Nat.ltb_ge _ _)) by done.
  change (report_ts _) with (Some (Some (Store.NInt n))). cbn iota.
  rewrite report_peer. unfold with_db. cbn [s_db s_lim s_note].
  destruct (Store.add_report _ _ _ _ _ _ _ _) as [[[now|] db] vac]; reflexivity.
Qed.

End Handled.

(** ** From the daemon to the database *)

Lemma client_id_length mid hname : (length (ac_report_client_id mid hname 128) <= 127)%nat.
Proof.
  assert (forall n t, (length (fgets_n n t).1 <= n)%nat) as Hf.
  { induction n as [|n IH]; intros [|c t]; cbn [fgets_n]; try (cbn; lia).
    destruct (c =? 10); [cbn; lia|]. specialize (IH t). destruct (fgets_n n t). cbn in *. lia. }
  assert (forall t, (length (cstr t) <= length t)%nat) as Hc.
  { induction t as [|c t IH]; cbn [cstr]; [done|]. case_test; cbn; lia. }
  assert (forall t, (length (rtrim_nl t) <= length t)%nat) as Hr.
  { intros t. apply prefix_length, rtrim_prefix. }
  assert (forall t, (length (strscpy 128 t) <= 127)%nat) as Hs by (intros t; apply length_strscpy).
  unfold ac_report_client_id.
  assert (match mid with
    | Some f => length (rtrim_nl (cstr (fst (fgets_n (128 - 1) f)))) <= 127 | None => True end)%nat as Hm.
  { destruct mid as [f|]; [|done]. etrans; [apply Hr|]. etrans; [apply Hc|]. apply Hf. }
  assert (length match hname with
    | Some h => match (fun c => if id_char c then c else 95%Z) <$> strscpy 128 (cstr h) with
                | [] => strscpy 128 (lit "unknown") | out => out end
    | None => strscpy 128 (lit "unknown") end <= 127)%nat as Hh.
  { destruct hname as [h|]; [|apply Hs].
    pose proof (Hs (cstr h)) as Hb. rewrite <- (length_fmap (fun c => if id_char c then c else 95)) in Hb.
    destruct (_ <$> _); [apply Hs|done]. }
  destruct mid as [f|]; [|done]. destruct (rtrim_nl _); done.
Qed.

Lemma id_char_plain c : id_char c = true -> 32 <= c < 128 /\ esc c = [c].
Proof.
  unfold id_char, isdigit. intros Hc. assert (32 <= c < 128 /\ c <> 34 /\ c <> 92) as (Hr & H34 & H92)
    by (boolp; lia).
  split; [done|]. unfold esc, quote, bslash.
  rewrite !(proj2 (Z.eqb_neq c _)) by lia. by rewrite (proj2 (Z.ltb_ge c 32)) by lia.
Qed.

(** A client id of the server's alphabet is never cut or changed. *)
Lemma client_id_intact c i :
  Forall (fun c => id_char c = true) c -> (length c <= 127)%nat ->
  (i = length c \/ 249 <= length (Utf8.escape (take i c)))%nat ->
  Utf8.decode (take i c) = c.
Proof.
  intros Hid Hlen Hi.
  assert (forall u, Forall (fun c => id_char c = true) u -> Utf8.escape u = u) as He.
  { induction 1 as [|x u Hx _ IH]; [done|]. change (Utf8.escape (x :: u)) with (esc x ++ Utf8.escape u).
    rewrite IH. by rewrite (proj2 (id_char_plain x Hx)). }
  assert (take i c = c) as ->.
  { destruct Hi as [->|Hi]; [by apply firstn_all|]. rewrite He in Hi by by apply list.Forall_take.
    rewrite length_take in Hi. lia. }
  rewrite <- (app_nil_r c) at 1. rewrite Utf8.decode_ascii_list; [by rewrite app_nil_r|].
  apply (list.Forall_impl _ _ _ Hid). intros x Hx. apply id_char_plain in Hx as [? _]. lia.
Qed.

Lemma scalar_encodable u : Forall Utf8.scalar u -> Store.encodable u = true.
Proof.
  intros Hu. apply forallb_forall. intros c Hc%list_elem_of_In.
  apply (proj1 (list.Forall_forall _ _) Hu) in Hc as [Hr Hs]. unfold Store.surrogate.
  apply negb_true_iff, andb_false_iff. rewrite !Z.leb_gt. lia.
Qed.

Lemma fmt_d_length n : (length (fmt_d n) <= 21)%nat.
Proof.
  unfold fmt_d. pose proof (length_fmt_u n). pose proof (length_fmt_u (- n)).
  destruct (n <? 0); cbn [length]; lia.
Qed.

(** The bytes of a response: its status line and the rest. *)
Definition response_bytes (r : response) (rest : list Z) : list Z :=
  lit "HTTP/1.0 " ++ fmt_u (code r) ++ lit " " ++ rest.

Lemma status_201 n rest o x :
  (12 <= n)%nat ->
  ac_http_status_code (cstr (take 63 (take n (response_bytes (mk_response 201 o x) rest)))) = 201.
Proof.
  intros Hn. rewrite take_take.
  assert (exists m, Nat.min 63 n = (12 + m)%nat) as [m ->] by (exists (Nat.min 63 n - 12)%nat; lia).
  unfold response_bytes.
  change (lit "HTTP/1.0 " ++ fmt_u (code (mk_response 201 o x)) ++ lit " " ++ rest)
    with (lit "HTTP/1.0 201" ++ 32 :: rest).
  rewrite take_app_add' by reflexivity.
  assert (cstr (lit "HTTP/1.0 201" ++ take m (32 :: rest))
    = lit "HTTP/1.0 201" ++ cstr (take m (32 :: rest))) as -> by reflexivity.
  destruct m as [|m]; reflexivity.
Qed.

Lemma answered_code e ty d st ops :
  ac_report e ty d = (Answered st, ops) ->
  st = match re_read e with
       | Some ((_ :: _) as resp) => ac_http_status_code (cstr (take 63 resp))
       | _ => -1
       end.
Proof.
  unfold ac_report. destruct (_ || _); [done|].
  destruct (ac_report_parse_url _) as [|dest]; [done|]. destruct (_ || _); [done|].
  destruct (_ <=? _)%nat; [done|]. destruct (connect_any _) as [[] cops]; [|done].
  unfold send_request. destruct (_ <=? _)%nat; [done|].
  destruct (send_loop _ _ _) as [[sent|] sops]; [|done].
  destruct (negb _); [done|]. by intros [= <- _].
Qed.

Lemma is_byte_pos u : Forall is_byte u -> Forall (fun c => 0 <= c) u.
Proof. intros Hu. apply (list.Forall_impl _ _ _ Hu). unfold is_byte. lia. Qed.

Lemma body_text_length c ty d now :
  length (body_text c ty d now) =
  (length (Utf8.escape c) + length (Utf8.escape ty) + length (Utf8.escape d)
   + length (fmt_d now) + 50)%nat.
Proof.
  unfold body_text. repeat (cbn [length]; rewrite length_app). cbn [length].
  change (length (Utf8.escape (lit "client_id"))) with 9%nat.
  change (length (Utf8.escape (lit "event_type"))) with 10%nat.
  change (length (Utf8.escape (lit "detail"))) with 6%nat.
  change (length (Utf8.escape (lit "ts"))) with 2%nat. lia.
Qed.

(** The body of a report, as the server reads it. *)
Lemma report_body_read depth c ty d now :
  Forall is_byte c -> Forall is_byte ty -> Forall is_byte d -> - 2 ^ 63 <= now < 2 ^ 63 ->
  Forall (fun c => id_char c = true) c -> (length c <= 127)%nat ->
  exists j k,
    loads (S depth) (Utf8.decode (report_body c ty d now)) =
      JOk (JObject [(lit "client_id", JString c);
                    (lit "event_type", JString (Utf8.decode (take j ty)));
                    (lit "detail", JString (Utf8.decode (take k d))); (lit "ts", JInt now)]) [] /\
    (0 < length (report_body c ty d now) < 4096)%nat /\
    (length (Utf8.decode (take j ty)) <= 64)%nat /\ (length (Utf8.decode (take k d)) <= 2000)%nat /\
    (j = length ty \/ 57 <= length (Utf8.escape (take j ty)))%nat /\
    (k = length d \/ 593 <= length (Utf8.escape (take k d)))%nat.
Proof.
  intros Hc Ht Hd Hn Hid Hlen.
  destruct (report_body_text c ty d now) as (i & j & k & Hb & Hi & Hj & Hcj & Hk & Hck).
  pose proof (client_id_intact c i Hid Hlen Hi) as Hci.
  assert (forall u, (length (Utf8.decode u) <= length (Utf8.escape u))%nat) as Hle.
  { intros u. etrans; [apply Utf8.decode_length|]. unfold Utf8.escape.
    induction u as [|x u IH]; [done|]. cbn [fmap list_fmap concat length]. rewrite length_app.
    pose proof (esc_length x). lia. }
  exists j, k. rewrite Hb. split_and!; [| | | | |done|done].
  - rewrite decode_body_text, Hci by (apply is_byte_pos; by apply list.Forall_take).
    apply body_loads; [by apply is_byte_pos| | |done];
      (apply (list.Forall_impl Utf8.scalar); [|intros x [? _]; lia]);
      apply Utf8.decode_scalar; by apply list.Forall_take.
  - rewrite body_text_length. lia.
  - rewrite body_text_length. pose proof (fmt_d_length now).
    assert (length (Utf8.escape (take i c)) <= 6 * 127)%nat; [|lia].
    assert (forall u, (length (Utf8.escape u) <= 6 * length u)%nat) as H6.
    { unfold Utf8.escape. induction u as [|x u IH]; [done|].
      cbn [fmap list_fmap concat length]. rewrite length_app. pose proof (esc_length x). lia. }
    etrans; [apply H6|]. rewrite length_take. lia.
  - specialize (Hle (take j ty)). lia.
  - specialize (Hle (take k d)). lia.
Qed.

Lemma safe_plain u : ac_header_value_safe (Some u) = true -> plain u.
Proof.
  intros Hu. apply (list.Forall_impl _ _ _ (safe_no_cr u Hu)). cbn beta. intros c [H13 H10].
  unfold eol. by rewrite !(proj2 (Z.eqb_neq _ _)).
Qed.

Lemma add_report_ok cfg e s c ty d ts src :
  Store.wf s -> Store.e_sql_ok e = true -> (Store.ensure_private (Store.e_files e)).1 = true ->
  Store.encodable c = true -> Store.encodable ty = true -> Store.encodable d = true ->
  Store.ts_bindable ts = true -> Store.encodable src = true ->
  exists db vac, Store.add_report cfg e s c ty d ts src = (Store.Ok (Store.e_now e), db, vac) /\
    head (Store.reports db)
      = Some (Store.mk_row (Store.last_id s + 1) c ty d ts (Store.e_now e) src).
Proof.
  intros Hwf He Hp Hc Ht Hd Hts Hs. unfold Store.add_report.
  rewrite He, Hc, Ht, Hd, Hts, Hs. cbn [negb orb].
  destruct (Store.maybe_vacuum _ _ _ _) as [w vac], (Store.ensure_private _) as [ok fs].
  cbn in Hp. subst ok. do 2 eexists. split; [reflexivity|]. cbn [Store.reports].
  destruct (Store.insert_head cfg (Store.mk_row (Store.last_id s + 1) c ty d ts (Store.e_now e) src)
    (Store.reports s)) as [rows' ->]; [by apply Store.wf_insert|done].
Qed.

Lemma client_id_encodable c : Forall (fun c => id_char c = true) c -> Store.encodable c = true.
Proof.
  intros Hid. apply forallb_forall. intros x Hx%list_elem_of_In.
  apply (proj1 (list.Forall_forall _ _) Hid), id_char_plain in Hx as [Hx _].
  unfold Store.surrogate. apply negb_true_iff, andb_false_iff. rewrite !Z.leb_gt. lia.
Qed.

Lemma int64_bindable n : - 2 ^ 63 <= n < 2 ^ 63 -> Store.ts_bindable (Some (Store.NInt n)) = true.
Proof.
  intros Hn. cbn. unfold Store.int64. apply andb_true_iff. rewrite Z.leb_le, Z.ltb_lt. lia.
Qed.

Lemma client_id_valid mid hname :
  Forall (fun c => id_char c = true) (ac_report_client_id mid hname 128) ->
  valid_client_id (ac_report_client_id mid hname 128) = true.
Proof.
  intros Hid. unfold valid_client_id. pose proof (client_id_length mid hname) as Hlen.
  assert (ac_report_client_id mid hname 128 <> []) as Hne.
  { destruct (client_id_shape mid hname 128) as [(f & _ & _ & ?)|[_ ?]]; [lia|done|done]. }
  rewrite (proj2 (Nat.leb_le _ 128)) by lia.
  rewrite (proj2 (Nat.leb_le 1 _)) by (destruct (ac_report_client_id mid hname 128); [done|cbn; lia]).
  apply forallb_forall. intros c Hc%list_elem_of_In.
  by apply (proj1 (list.Forall_forall _ _) Hid).
Qed.

(** ** From a report to its row *)

(** A server that knows the key, has a working database and lets the peer's
    next request through its limiter. *)
Definition ready {net} (cfg : Server.config net) (cx : ctx) (peer : list Z) (s : server)
    (key : list Z) : Prop :=
  key ∈ c_report_keys cfg /\ forallb ascii (c_report_keys cfg) = true /\
  (0 < cx_depth cx)%nat /\
  Store.wf (s_db s) /\ Store.e_sql_ok (cx_env cx) = true /\
  (Store.ensure_private (Store.e_files (cx_env cx))).1 = true /\ Store.encodable peer = true /\
  (Limiter.allow (c_limit cfg) (c_window cfg) (c_max_keys cfg) (cx_mono cx) peer (s_lim s)).1
    = true.

(** A daemon with a key whose report got an answer. *)
Definition sent (e : report_env) (key ty d : list Z) (st : Z) (ops : list sock_op) : Prop :=
  opt_bytes (re_machine_id e) /\ - 2 ^ 63 <= re_now e < 2 ^ 63 /\
  Forall (fun c => id_char c = true)
    (ac_report_client_id (re_machine_id e) (re_hostname e) 128) /\
  re_key e = Some key /\ ac_report e ty d = (Answered st, ops).

Section Stored.
Context {addr net : Type} (ip_address : list Z -> option addr) (in_net : addr -> net -> bool).
Context (decimal : Z -> option Z) (netloc_ok : list Z -> bool).

(** The row the server has after the request, for the first [j] bytes of the
    event and [k] of the detail; and what the daemon reads of the answer. *)
Definition stored (cfg : Server.config net) (cx : ctx) (peer : list Z) (s : server)
    (e : report_env) (ty d : list Z) (st : Z) (ops : list sock_op) (j k : nat) : Prop :=
  exists rq, request_of (written ops) peer = Some rq /\
    let '(r, s') := handle_request ip_address in_net decimal netloc_ok cfg cx rq s in
    code r = 201 /\
    head (Store.reports (s_db s')) =
      Some (Store.mk_row (Store.last_id (s_db s) + 1)
              (ac_report_client_id (re_machine_id e) (re_hostname e) 128)
              (Utf8.decode (take j ty)) (Utf8.decode (take k d)) (Some (Store.NInt (re_now e)))
              (Store.e_now (cx_env cx)) peer) /\
    forall n rest, re_read e = Some (take n (response_bytes r rest)) -> (12 <= n)%nat -> st = 201.

Lemma report_stored cfg cx peer s e ty d st ops key :
  Forall is_byte ty -> Forall is_byte d -> sent e key ty d st ops -> ready cfg cx peer s key ->
  exists j k, stored cfg cx peer s e ty d st ops j k /\
    (j = length ty \/ 57 <= length (Utf8.escape (take j ty)))%nat /\
    (k = length d \/ 593 <= length (Utf8.escape (take k d)))%nat.
Proof.
  intros Ht Hd (Hm & Hn & Hid & Hkey & Hrep)
    (Hin & Hascii & Hdepth & Hwf & Hsql & Hpriv & Hpeer & Hal).
  set (cid := ac_report_client_id (re_machine_id e) (re_hostname e) 128) in *.
  pose proof (answered_code _ _ _ _ _ Hrep) as Hst. apply report_cases in Hrep as [_ Hc].
  destruct Hc as [[_ Hno]|(dest & key' & _ & Hk & Hh & Hks & _ & Hw)]; [by destruct (Hno st)|].
  rewrite Hkey in Hk. injection Hk as <-. fold cid in Hw.
  set (body := report_body cid ty d (re_now e)) in *.
  destruct (cx_depth cx) as [|depth] eqn:Hdep; [lia|].
  destruct (report_body_read depth cid ty d (re_now e) (client_id_bytes _ _ Hm) Ht Hd Hn Hid
    (client_id_length _ _)) as (j & k & Hl & Hlen & Hlj & Hlk & Hj & Hkk). fold body in Hl, Hlen.
  exists j, k. split; [|done]. unfold stored. fold cid. rewrite (Hw st eq_refl).
  eexists. split.
  { unfold request_of. rewrite read_report by by apply safe_plain. reflexivity. }
  destruct (Limiter.allow _ _ _ _ _ _) as [ok lim] eqn:Hlim. cbn in Hal. subst ok.
  destruct (add_report_ok (c_store cfg) (cx_env cx) (s_db s) cid (Utf8.decode (take j ty))
    (Utf8.decode (take k d)) (Some (Store.NInt (re_now e))) peer) as (db & vac & Hadd & Hhead);
    try done; [by apply client_id_encodable| | |by apply int64_bindable|].
  1,2: by apply scalar_encodable, Utf8.decode_scalar, list.Forall_take.
  assert (valid_client_id cid = true) as Hvalid by by apply client_id_valid.
  assert (ascii key = true) as Hka.
  { apply (proj1 (forallb_forall _ _) Hascii). by apply list_elem_of_In. }
  rewrite (report_handled ip_address in_net decimal netloc_ok cfg cx (d_host dest) key body peer
    ltac:(lia) ltac:(lia) s cid _ _ _ lim) by (done || by rewrite Hdep).
  rewrite Hadd. cbn [fst]. split_and!; try done.
  intros n rest Hread H12. rewrite Hread in Hst. rewrite Hst.
  assert (take n (response_bytes (mk_response 201 ok_obj None) rest) <> []) as Hne.
  { destruct n; [lia|done]. }
  pose proof (status_201 n rest ok_obj None H12) as H201. revert Hne H201.
  generalize (take n (response_bytes (mk_response 201 ok_obj None) rest)).
  by intros [|c t].
Qed.

Lemma event_type_whole j ty :
  ty ∈ [lit "ALERT"; lit "CRITICAL"] ->
  (j = length ty \/ 57 <= length (Utf8.escape (take j ty)))%nat -> Utf8.decode (take j ty) = ty.
Proof.
  intros [-> | ->%list_elem_of_singleton]%elem_of_cons [->|Hj]; [vm_compute; done| |vm_compute; done|];
    exfalso; revert Hj; apply Nat.lt_nge, Nat.ltb_lt;
    do 9 (destruct j as [|j]; [reflexivity|]); reflexivity.
Qed.

(** A critical message makes [logmsg] report it. *)
Lemma critical_reported v m :
  DLog.m_pri m = DLog.LOG_CRIT -> DLog.Report (lit "CRITICAL") (DLog.m_text m) ∈ DLog.logmsg v m.
Proof.
  intros Hm. unfold DLog.logmsg. rewrite Hm.
  apply elem_of_app. right. apply elem_of_app. right. left.
Qed.

End Stored.

(** ** Properties *)

(** C11: a report that the daemon could send is stored.  Whatever bytes the
    event and the detail hold (quotes, control characters, malformed UTF-8 in
    a process name or path an attacker chose), when [ac_report] got its
    request out to a server that knows its key, within the rate and with a
    working database, the server reads one well-formed request, answers 201,
    and its newest row has the daemon's client id and time and the event and
    detail decoded from prefixes of what was reported; each is cut only when
    its escaped form left fewer than eight bytes of the daemon's buffer; and
    the daemon, reading at least the first twelve bytes of the answer, takes
    it as 201. *)
Theorem report_reaches_database {addr net} (ip_address : list Z -> option addr) in_net decimal
    netloc_ok (cfg : Server.config net) cx peer s e ty d st ops key :
  Forall is_byte ty -> Forall is_byte d -> sent e key ty d st ops -> ready cfg cx peer s key ->
  exists rq j k, request_of (written ops) peer = Some rq /\
    let '(r, s') := handle_request ip_address in_net decimal netloc_ok cfg cx rq s in
    code r = 201 /\
    head (Store.reports (s_db s')) =
      Some (Store.mk_row (Store.last_id (s_db s) + 1)
              (ac_report_client_id (re_machine_id e) (re_hostname e) 128)
              (Utf8.decode (take j ty)) (Utf8.decode (take k d)) (Some (Store.NInt (re_now e)))
              (Store.e_now (cx_env cx)) peer) /\
    (j = length ty \/ 57 <= length (Utf8.escape (take j ty)))%nat /\
    (k = length d \/ 593 <= length (Utf8.escape (take k d)))%nat /\
    (forall n rest, re_read e = Some (take n (response_bytes r rest)) -> (12 <= n)%nat -> st = 201).
Proof.
  intros Ht Hd Hs Hr.
  destruct (report_stored ip_address in_net decimal netloc_ok cfg cx peer s e ty d st ops key
    Ht Hd Hs Hr) as (j & k & (rq & Hrq & Hrow) & Hj & Hk).
  exists rq, j, k. split; [done|]. destruct (handle_request _ _ _ _ _ _ _ _) as [r s'].
  destruct Hrow as (? & ? & ?). by split_and!.
Qed.

(** C12: a hooked system call reaches the server's database.  If every check
    of the monitor loop finds a hooked slot, then, whatever events its ring
    delivers or loses, once it has run for five seconds it has logged a message
    that says so: the ring's SYSCALL-HOOK event or the check's own "slot(s)
    still hooked" line.  The log reports it as CRITICAL, and whenever that
    report gets an answer from a server that is ready for it, the server's
    newest row is this client's, under that event type, with the text of the
    message; the text is cut only when its escaped form fills the daemon's
    buffer.  The one assumption on the messages is that they are C strings of
    bytes. *)
Theorem hook_reaches_database {addr net} (ip_address : list Z -> option addr) in_net decimal
    netloc_ok (cfg : Server.config net) ts i t0 ti :
  Forall (fun t => 0 <= Daemon.tn_now t) ts -> Forall Daemon.hooked_turn ts ->
  length (fst (Daemon.monitor ts Daemon.daemon_init)) = length ts ->
  ts !! 0%nat = Some t0 -> ts !! i = Some ti -> Daemon.tn_now t0 + 5 <= Daemon.tn_now ti ->
  Forall (fun l => Forall (fun m => Forall is_byte (DLog.m_text m)) (fst l))
    (fst (Daemon.monitor ts Daemon.daemon_init)) ->
  exists l m, l ∈ fst (Daemon.monitor ts Daemon.daemon_init) /\ m ∈ fst l /\
    Monitor.says_hooked m = true /\
    DLog.Report (lit "CRITICAL") (DLog.m_text m) ∈ DLog.logmsg false m /\
    forall cx peer s e key st ops,
      sent e key (lit "CRITICAL") (DLog.m_text m) st ops -> ready cfg cx peer s key ->
      exists rq k, request_of (written ops) peer = Some rq /\
        let '(r, s') := handle_request ip_address in_net decimal netloc_ok cfg cx rq s in
        code r = 201 /\
        head (Store.reports (s_db s')) =
          Some (Store.mk_row (Store.last_id (s_db s) + 1)
                  (ac_report_client_id (re_machine_id e) (re_hostname e) 128) (lit "CRITICAL")
                  (Utf8.decode (take k (DLog.m_text m))) (Some (Store.NInt (re_now e)))
                  (Store.e_now (cx_env cx)) peer) /\
        (k = length (DLog.m_text m) \/ 593 <= length (Utf8.escape (take k (DLog.m_text m))))%nat.
Proof.
  intros Hpos Hh Hlen H0 Hi Ht Hb.
  pose proof (Daemon.daemon_reports_hook ts i t0 ti Hpos Hh Hlen H0 Hi Ht) as Hc.
  apply existsb_exists in Hc as (l & Hl%list_elem_of_In & Hc).
  apply existsb_exists in Hc as (m & Hm%list_elem_of_In & Hc).
  exists l, m. split_and!; try done.
  { apply critical_reported. apply andb_true_iff in Hc as [Hp _]. by apply Z.eqb_eq. }
  intros cx peer s e key st ops Hs Hr.
  rewrite list.Forall_forall in Hb. specialize (Hb l Hl). rewrite list.Forall_forall in Hb.
  assert (lit "CRITICAL" ∈ [lit "ALERT"; lit "CRITICAL"]) as Hty by (right; left).
  assert (Forall is_byte (lit "CRITICAL")) as Hbt by ReportDemo.all_bytes.
  destruct (report_stored ip_address in_net decimal netloc_ok cfg cx peer s e _ (DLog.m_text m) st
    ops key Hbt (Hb m Hm) Hs Hr) as (j & k & (rq & Hrq & Hrow) & Hj & Hk).
  rewrite (event_type_whole j _ Hty Hj) in Hrow.
  exists rq, k. split; [done|]. destruct (handle_request _ _ _ _ _ _ _ _) as [r s'].
  destruct Hrow as (? & ? & _). by split_and!.
Qed.

End EndToEnd.

Module EndToEndDemo.
Import Report Server EndToEnd.

Definition key : list Z := lit "correct-horse-battery".

(** A detail with a quote, a control character and a byte that is not UTF-8. *)
Definition detail : list Z := lit "evil" ++ [quote; 1; 200].

Definition env : report_env :=
  mk_report_env (Some (lit "http://ban.example:8787")) (Some key)
    (Some (lit "0123abcd" ++ [10])) None 1700000000 NoSocket [Connected] [2000]
    (Some (lit "HTTP/1.0 201 Created")).

Definition cfg : Server.config unit :=
  Server.mk_config (Store.mk_config 1000 100000 1000) [key] [lit "another-admin-key-99"]
    60 60 4096 false [].

Definition cx : ctx :=
  mk_ctx 5 (Store.mk_env 1700000001 true [Store.File 384 true; Store.Absent; Store.Absent]
              (Some 0) true) 100.

Definition s0 : server :=
  mk_server (Store.mk_store [] 0 ∅ 0 []) (Limiter.mk_limiter [] 0) (new_notifier false 1000).

Definition no_ip (a : list Z) : option unit := None.
Definition no_net (a b : unit) : bool := false.
Definition no_digit (c : Z) : option Z := None.
Definition any_netloc (a : list Z) : bool := true.

Lemma env_sent ty d :
  fst (ac_report env ty d) = Answered 201 -> sent env key ty d 201 (snd (ac_report env ty d)).
Proof.
  intros Ha. split_and!; [ReportDemo.all_bytes|cbn; lia|cbn; lia|by vm_compute; repeat constructor|done|].
  by rewrite <- Ha, <- surjective_pairing.
Qed.

Lemma s0_ready : ready cfg cx (lit "10.0.0.9") s0 key.
Proof.
  split_and!; [left|vm_compute; done|cbn; lia|split; constructor|done|done|vm_compute; done..].
Qed.

Lemma report_reaches_database_witness :
  exists rq j k,
    request_of (written (snd (ac_report env (lit "ALERT") detail))) (lit "10.0.0.9") = Some rq /\
    let '(r, s') := handle_request no_ip no_net no_digit any_netloc cfg cx rq s0 in
    code r = 201 /\
    head (Store.reports (s_db s')) =
      Some (Store.mk_row 1 (lit "0123abcd") (Utf8.decode (take j (lit "ALERT")))
              (Utf8.decode (take k detail)) (Some (Store.NInt 1700000000)) 1700000001
              (lit "10.0.0.9")) /\
    (j = 5 \/ 57 <= length (Utf8.escape (take j (lit "ALERT"))))%nat /\
    (k = 7 \/ 593 <= length (Utf8.escape (take k detail)))%nat /\
    (forall n rest, re_read env = Some (take n (response_bytes r rest)) -> (12 <= n)%nat ->
       201 = 201).
Proof.
  apply (report_reaches_database no_ip no_net no_digit any_netloc cfg cx (lit "10.0.0.9") s0 env
    (lit "ALERT") detail 201 (snd (ac_report env (lit "ALERT") detail)) key).
  - ReportDemo.all_bytes.
  - ReportDemo.all_bytes.
  - apply env_sent. vm_compute. reflexivity.
  - exact s0_ready.
Defined.

(** The daemon of [six_seconds], whose checks find a hook while its ring
    delivers nothing. *)
Definition hook_log := fst (Daemon.monitor DaemonDemo.six_seconds Daemon.daemon_init).

Lemma hook_reaches_database_witness :
  exists l m, l ∈ hook_log /\ m ∈ fst l /\ Monitor.Monitor.says_hooked m = true /\
    DLog.Report (lit "CRITICAL") (DLog.m_text m) ∈ DLog.logmsg false m /\
    forall cx peer s e key st ops,
      sent e key (lit "CRITICAL") (DLog.m_text m) st ops -> ready cfg cx peer s key ->
      exists rq k, request_of (written ops) peer = Some rq /\
        let '(r, s') := handle_request no_ip no_net no_digit any_netloc cfg cx rq s in
        code r = 201 /\
        head (Store.reports (s_db s')) =
          Some (Store.mk_row (Store.last_id (s_db s) + 1)
                  (ac_report_client_id (re_machine_id e) (re_hostname e) 128) (lit "CRITICAL")
                  (Utf8.decode (take k (DLog.m_text m))) (Some (Store.NInt (re_now e)))
                  (Store.e_now (cx_env cx)) peer) /\
        (k = length (DLog.m_text m)
         \/ 593 <= length (Utf8.escape (take k (DLog.m_text m))))%nat.
Proof.
  apply (hook_reaches_database no_ip no_net no_digit any_netloc cfg DaemonDemo.six_seconds 2
    (DaemonDemo.quiet_turn 7) (DaemonDemo.quiet_turn 13)).
  - exact DaemonDemo.clocks_ok.
  - repeat constructor; (eexists; split; [reflexivity|cbn; lia]).
  - vm_compute. reflexivity.
  - reflexivity.
  - reflexivity.
  - cbn. lia.
  - vm_compute. repeat constructor; discriminate.
Defined.

End EndToEndDemo.
