(* ===== verification/Attack.v ===== *)
(** From an attack to the report: a ptrace request on a protected process
    that the kernel module denies (src/anticheat_module.c), its event through
    the ring and GET_EVENTS to the daemon's monitor loop
    (src/anticheat_daemon.c, [cmd_start]), the log, the report, and the row the
    server stores (src/server/ac_server.py). *)

From S2P Require Import Prelude CText CScan Abi DLog Ring DenyLimit Modules SyscallTable.
From S2P Require Import SyscallCheck Registry Handlers Scan Ioctl Monitor Daemon Cli.
From S2P Require Import Report Json Limiter Store Http Server EndToEnd.
Import Modules.Mods SyscallTable.Table Registry.Reg Scan.Scan Ioctl.Ioctl.

#[local] Open Scope Z_scope.

Module Attack.
Import Ring.Ring DenyLimit.DenyLimit Handlers.Handlers Daemon.Daemon.

(** ** The monitor loop on the device *)

(** The list the loop passes in: zeroed, with its [block_ms]. *)
Definition event_request : ac_event_list :=
  mk_event_list 0 0 AC_MONITOR_BLOCK_MS (replicate AC_MAX_EVENTS zero_event).

(** A turn with what GET_EVENTS answered put in. *)
Definition with_events (o : option ac_event_list) (t : turn) : turn :=
  mk_turn o (tn_waited t) (tn_stop t) (tn_drops_now t) (tn_now t) (tn_errno t) (tn_check t)
    (tn_mods_begin t) (tn_mods_get t) (tn_proc_modules t) (tn_list t) (tn_begin t)
    (tn_files t) (tn_dir t) (tn_view t) (tn_render t) (tn_environ t) (tn_layers t)
    (tn_interval t).

Section loop.
Context `{!TaskEnv, !ModuleEnv, !KernelEnv}.

(** What surrounds one turn: the events emitted since the last fetch, the
    device apart from its ring, the call's environment, and the rest of the
    turn. *)
Record live := mk_live {
  lv_clock : nat -> Z;
  lv_emits : list emission;
  lv_dev : dev_st;
  lv_env : call_env;
  lv_turn : turn;
}.

(** One fetch: what the loop gets of it, and the ring afterwards. *)
Definition fetch_turn (l : live) (r : ring_st) : turn * ring_st :=
  let v := set_ring (lv_dev l) (emit_all (lv_clock l) r (lv_emits l)) in
  let '(got, v', _, rep) :=
    ac_ioctl (lv_env l) AC_IOCTL_GET_EVENTS (mk_in None None None (Some event_request)) v None in
  (with_events
     (if got =? 0 then match rep with Some (REvents el) => Some el | _ => None end else None)
     (lv_turn l), v_ring v').

Fixpoint live_turns (ls : list live) (r : ring_st) : list turn :=
  match ls with
  | [] => []
  | l :: ls' => let '(t, r') := fetch_turn l r in t :: live_turns ls' r'
  end.

(** A fetch nothing stands in the way of. *)
Definition served (l : live) : Prop :=
  let e := lv_env l in
  capable e = true /\ compat e = false /\ alloc_list e = true /\ copy_to_ok e = true /\
  0 <= wait_ret e.

(** The events a turn's drain looks at. *)
Definition drained (t : turn) : list ac_event :=
  match tn_events t with Some el => take (el_count el) (el_events el) | None => [] end.

(** A turn whose fetch was answered, within the reply's bound. *)
Definition answered (t : turn) : Prop :=
  exists el, tn_events t = Some el /\ (el_count el <= AC_MAX_EVENTS)%nat.

(** ** Fetching *)

Lemma contents_emit_all cl r ems :
  wf_ring r -> (length (contents r) + length ems <= AC_RING_SIZE)%nat ->
  exists evs, contents (emit_all cl r ems) = contents r ++ evs /\ length evs = length ems /\
    forall e, e ∈ ems -> exists ts,
      build_event ts (em_type e) (em_pid e) (em_comm e) (em_text e) ∈ evs.
Proof.
  unfold emit_all. generalize 0%nat. revert r.
  induction ems as [|e ems IH]; intros r k Hr Hlen; cbn [foldl snd].
  { exists []. rewrite app_nil_r. split_and!; [done..|]. by intros e ?%elem_of_nil. }
  cbn [length] in Hlen.
  pose proof (emit_refines r (cl k) (em_type e) (em_pid e) (em_comm e) (em_text e) Hr) as He.
  unfold q_emit in He. cbn [q_events abs] in He.
  destruct (Nat.eqb_spec (length (contents r)) AC_RING_SIZE); [lia|].
  apply (f_equal q_events) in He. cbn [q_events abs] in He.
  destruct (IH (ac_emit r (cl k) (em_type e) (em_pid e) (em_comm e) (em_text e)) (S k))
    as (evs & -> & Hl & Hin); [by apply emit_wf|rewrite He, length_app; cbn; lia|].
  rewrite He, <- app_assoc. eexists. split; [done|]. split; [cbn; by rewrite Hl|].
  intros e' [->|He']%elem_of_cons; [eexists; left|].
  destruct (Hin e' He') as [ts ?]. exists ts. by right.
Qed.

Lemma take_inserts (evs slots : list ac_event) :
  (length evs <= length slots)%nat ->
  take (length evs) (list_inserts 0 evs slots) = evs.
Proof.
  intros Hl. apply list_eq. intros i. destruct (decide (i < length evs)%nat).
  - rewrite lookup_take_lt, list_lookup_inserts by lia. by rewrite Nat.sub_0_r.
  - rewrite lookup_take_ge by lia. symmetry. apply lookup_ge_None. lia.
Qed.

Lemma get_events_ioctl e u v pd :
  capable e = true -> compat e = false ->
  ac_ioctl e AC_IOCTL_GET_EVENTS u v pd = do_get_events e v pd u.
Proof. intros Hc Hn. unfold ac_ioctl. by rewrite Hc, Hn. Qed.

Lemma fetch_turn_spec l r :
  wf_ring r -> served l -> (length (contents r) + length (lv_emits l) <= AC_RING_SIZE)%nat ->
  let q := contents (emit_all (lv_clock l) r (lv_emits l)) in
  let '(t, r') := fetch_turn l r in
  answered t /\ drained t = take AC_MAX_EVENTS q /\
  wf_ring r' /\ contents r' = drop AC_MAX_EVENTS q.
Proof.
  intros Hr (Hc & Hn & Ha & Ht & Hw) Hlen q.
  pose proof (emit_all_wf (lv_clock l) r (lv_emits l) Hr) as Hr1.
  unfold fetch_turn. subst q. set (r1 := emit_all _ _ _) in *.
  rewrite get_events_ioctl by done. unfold do_get_events. rewrite Ha, Ht. cbn [negb u_events].
  rewrite (proj2 (Z.ltb_ge _ _)), andb_false_r by done. cbn [v_ring set_ring].
  rewrite (peek_refines r1) by done.
  assert (length (take AC_MAX_EVENTS (contents r1)) <= AC_MAX_EVENTS)%nat as H64
    by (rewrite length_take; lia).
  cbn [q_fetch el_count with_events tn_events drained q_events abs fst snd el_events].
  change (0 =? 0) with true. cbn iota beta.
  pose proof (commit_refines r1 (length (take AC_MAX_EVENTS (contents r1))) (ac_ring_removed r1)
    Hr1 ltac:(apply Hr1) H64) as Hcm.
  split; [eexists; split; [reflexivity|exact H64]|]. split_and!.
  - apply take_inserts. cbn [event_request el_events]. by rewrite length_replicate.
  - by apply commit_wf.
  - apply (f_equal q_events) in Hcm. cbn [q_events abs q_removed q_remove] in Hcm.
    etrans; [exact Hcm|]. rewrite Z.sub_diag. change (Z.to_nat (u64 0)) with 0%nat. rewrite Nat.sub_0_r, length_take.
    destruct (Nat.min_spec AC_MAX_EVENTS (length (contents r1))) as [[_ ->]|[? ->]]; [done|].
    by rewrite !drop_ge by lia.
Qed.

(** The emissions still to come. *)
Definition pending_emits (ls : list live) : nat := sum_list (length ∘ lv_emits <$> ls).

(** Without an overflow, the [i]-th queued event is drained after the ones
    before it, 64 a turn. *)
Lemma event_drained ls : forall r i ev,
  wf_ring r -> Forall served ls ->
  (length (contents r) + pending_emits ls <= AC_RING_SIZE)%nat ->
  contents r !! i = Some ev -> (i < AC_MAX_EVENTS * length ls)%nat ->
  exists j t, live_turns ls r !! j = Some t /\ ev ∈ drained t.
Proof.
  induction ls as [|l ls IH]; intros r i ev Hr Hs Hlen Hi Hlt; [cbn in Hlt; lia|].
  apply Forall_cons_1 in Hs as [Hl Hs]. unfold pending_emits in Hlen. cbn in Hlen.
  destruct (contents_emit_all (lv_clock l) r (lv_emits l) Hr ltac:(lia)) as (evs & Hq & Hn & _).
  pose proof (fetch_turn_spec l r Hr Hl ltac:(lia)) as Hf. cbn [live_turns].
  destruct (fetch_turn l r) as [t r']. destruct Hf as (_ & Hd & Hr' & Hc). rewrite Hq in *.
  assert ((contents r ++ evs) !! i = Some ev) as Hi' by by apply lookup_app_l_Some.
  destruct (decide (i < AC_MAX_EVENTS)%nat).
  - exists 0%nat, t. split; [done|]. rewrite Hd. apply (list_elem_of_lookup_2 _ i).
    by rewrite lookup_take_lt.
  - destruct (IH r' (i - AC_MAX_EVENTS)%nat ev) as (j & t' & Hj & Hin); try done.
    + rewrite Hc, length_drop, length_app, Hn. unfold pending_emits. lia.
    + rewrite Hc, lookup_drop. rewrite <- Hi'. f_equal. lia.
    + cbn [length] in Hlt. lia.
    + by exists (S j), t'.
Qed.

Lemma live_turns_events ls : forall r,
  wf_ring r -> Forall served ls ->
  (length (contents r) + pending_emits ls <= AC_RING_SIZE)%nat ->
  Forall answered (live_turns ls r).
Proof.
  induction ls as [|l ls IH]; intros r Hr Hs Hlen; [constructor|].
  apply Forall_cons_1 in Hs as [Hl Hs]. unfold pending_emits in Hlen. cbn in Hlen.
  destruct (contents_emit_all (lv_clock l) r (lv_emits l) Hr ltac:(lia)) as (evs & Hq & Hn & _).
  pose proof (fetch_turn_spec l r Hr Hl ltac:(lia)) as Hf. cbn [live_turns].
  destruct (fetch_turn l r) as [t r']. destruct Hf as (He & _ & Hr' & Hc).
  constructor; [done|]. apply IH; try done.
  rewrite Hc, Hq, length_drop, length_app, Hn. unfold pending_emits. lia.
Qed.

End loop.

(** ** Logging *)

Lemma gated_keeps t l : forall ms ran s,
  ms ⊆ (foldl (gated t) (ms, ran, s) l).1.1.
Proof.
  induction l as [|c l IH]; intros ms ran s; cbn [foldl]; [done|]. unfold gated at 2.
  destruct (_ <=? _); [|apply IH]. destruct (run_check t s c) as [ms1 s1].
  etrans; [|apply IH]. set_solver.
Qed.

(** A drained event is logged in its turn. *)
Lemma turn_logs t s ev :
  answered t -> ev ∈ drained t ->
  exists ms ran s', monitor_turn t s = Some (ms, ran, s') /\ Monitor.event_msg ev ∈ ms.
Proof.
  intros (el & He & Hmax) Hev. unfold monitor_turn, drain_turn.
  unfold drained in Hev. rewrite He in *. rewrite bool_decide_true by by eexists. cbn [negb andb].
  unfold Monitor.drain, DLog.clamp_event_count. rewrite (proj2 (Z.ltb_ge _ _)) by lia.
  rewrite Nat2Z.id. destruct (Monitor.note_ring_drops _ _ _) as [dms d'].
  match goal with |- context [foldl (gated t) (?m, [], ?s0) all_checks] =>
    pose proof (gated_keeps t all_checks m [] s0) as Hk;
    destruct (foldl (gated t) (m, [], s0) all_checks) as [[ms ran] s'] end.
  exists ms, ran, s'. split; [done|]. apply Hk. cbn [fst app]. apply elem_of_app. left.
  by apply list_elem_of_fmap_2.
Qed.

Lemma answered_runs t s : answered t -> exists x, monitor_turn t s = Some x.
Proof.
  intros (el & He & _). unfold monitor_turn. rewrite He, bool_decide_true by by eexists.
  cbn [negb andb]. destruct (drain_turn t s). by eexists.
Qed.

Lemma monitor_logs ts : forall s j t ev,
  Forall answered ts -> ts !! j = Some t -> ev ∈ drained t ->
  exists l, l ∈ fst (monitor ts s) /\ Monitor.event_msg ev ∈ fst l.
Proof.
  induction ts as [|t0 ts IH]; intros s j t ev Hts Hj Hev; [done|].
  apply Forall_cons_1 in Hts as [Ht0 Hts]. cbn [monitor]. destruct j as [|j].
  - injection Hj as ->. destruct (turn_logs t s ev Ht0 Hev) as (ms & ran & s' & -> & Hin).
    destruct (monitor ts s') as [log s'']. exists (ms, ran). split; [left|done].
  - destruct (answered_runs t0 s Ht0) as [[[ms ran] s'] ->].
    destruct (IH s' j t ev Hts Hj Hev) as (l & Hl & Hin).
    destruct (monitor ts s') as [log s'']. exists l. split; [by right|done].
Qed.

(** What the loop logs for an emission, whenever it was. *)
Definition alert_of (em : emission) : DLog.msg :=
  Monitor.event_msg (build_event 0 (em_type em) (em_pid em) (em_comm em) (em_text em)).

Section reported.
Context `{!TaskEnv, !ModuleEnv, !KernelEnv}.

(** An emission that does not overflow the ring is logged by the turns that
    drain what was queued with it. *)
Lemma emission_logged cl r ems em ls s :
  wf_ring r -> em ∈ ems -> Forall served ls ->
  (length (contents r) + length ems + pending_emits ls <= AC_RING_SIZE)%nat ->
  (length (contents r) + length ems <= AC_MAX_EVENTS * length ls)%nat ->
  exists l, l ∈ fst (monitor (live_turns ls (emit_all cl r ems)) s) /\ alert_of em ∈ fst l.
Proof.
  intros Hr Hem Hs Hlen Hturns.
  destruct (contents_emit_all cl r ems Hr ltac:(lia)) as (evs & Hq & Hn & Hin).
  destruct (Hin em Hem) as [ts Hev].
  pose proof (emit_all_wf cl r ems Hr) as Hr'. set (r' := emit_all cl r ems) in *.
  assert (length (contents r') = length (contents r) + length ems)%nat as Hl
    by by rewrite Hq, length_app, Hn.
  assert (build_event ts (em_type em) (em_pid em) (em_comm em) (em_text em) ∈ contents r')
    as [i Hi]%list_elem_of_lookup by (rewrite Hq; apply elem_of_app; by right).
  pose proof (lookup_lt_Some _ _ _ Hi).
  destruct (event_drained ls r' i _ Hr' Hs ltac:(lia) Hi ltac:(lia)) as (j & t & Hj & Hd).
  exact (monitor_logs _ s j t _ (live_turns_events ls r' Hr' Hs ltac:(lia)) Hj Hd).
Qed.

End reported.

(** ** Storing *)

Lemma escape_prefix k d : (length (Utf8.escape (take k d)) <= length (Utf8.escape d))%nat.
Proof. rewrite <- (take_drop k d) at 2. rewrite Utf8.escape_app, length_app. lia. Qed.

(** An alert short enough for the daemon's buffer is stored whole. *)
Lemma alert_stored {addr net} (ip_address : list Z -> option addr) in_net decimal netloc_ok
    (cfg : Server.config net) cx peer s e key d st ops :
  Forall Report.is_byte d -> (length (Utf8.escape d) < 593)%nat ->
  EndToEnd.sent e key (lit "ALERT") d st ops -> EndToEnd.ready cfg cx peer s key ->
  exists rq, EndToEnd.request_of (Report.written ops) peer = Some rq /\
    let '(r, s') := Server.handle_request ip_address in_net decimal netloc_ok cfg cx rq s in
    Server.code r = 201 /\
    head (Store.reports (Server.s_db s')) =
      Some (Store.mk_row (Store.last_id (Server.s_db s) + 1)
              (Report.ac_report_client_id (Report.re_machine_id e) (Report.re_hostname e) 128)
              (lit "ALERT") (Utf8.decode d) (Some (Store.NInt (Report.re_now e)))
              (Store.e_now (Server.cx_env cx)) peer).
Proof.
  intros Hd Hlen Hs Hr.
  assert (Forall Report.is_byte (lit "ALERT")) as Ha by ReportDemo.all_bytes.
  destruct (EndToEnd.report_stored ip_address in_net decimal netloc_ok cfg cx peer s e _ d st ops
    key Ha Hd Hs Hr) as (j & k & (rq & Hrq & Hrow) & Hj & Hk).
  exists rq. split; [done|]. rewrite (EndToEnd.event_type_whole j) in Hrow by (done || left).
  rewrite take_ge in Hrow; [by destruct (Server.handle_request _ _ _ _ _ _ _ _) as [r s'];
    destruct Hrow as (? & ? & _)|].
  pose proof (escape_prefix k d). destruct Hk as [->|?]; lia.
Qed.

(** ** The text of an alert *)

(** Bytes, at most [n] of them and at most [m] once escaped. *)
Definition brief (n m : nat) (d : list Z) : Prop :=
  Forall Report.is_byte d /\ (length d <= n)%nat /\ (length (Utf8.escape d) <= m)%nat.

Lemma brief_app n m n' m' d d' :
  brief n m d -> brief n' m' d' -> brief (n + n') (m + m') (d ++ d').
Proof.
  intros (? & ? & ?) (? & ? & ?). split; [by apply list.Forall_app|].
  rewrite Utf8.escape_app, !length_app. lia.
Qed.

Lemma brief_comm (comm : list Z) :
  Forall Report.is_byte comm -> brief 15 90 (strscpy AC_MAX_COMM comm).
Proof.
  intros Hc. pose proof (length_strscpy AC_MAX_COMM comm) as Hl. unfold AC_MAX_COMM in *.
  split; [by apply list.Forall_take|]. split; [lia|].
  revert Hl. generalize (strscpy 16 comm). intros d Hl.
  enough (length (Utf8.escape d) <= 6 * length d)%nat by lia. clear.
  induction d as [|c d IH]; [done|]. unfold Utf8.escape in *. cbn [fmap list_fmap concat length].
  rewrite length_app. pose proof (Report.esc_length c). lia.
Qed.

Lemma brief_fmt_d n : brief 21 21 (fmt_d n).
Proof.
  pose proof (EndToEnd.fmt_d_length n) as Hl.
  assert (Forall (fun c => 45 <= c <= 57) (fmt_d n)) as Hc.
  { unfold fmt_d. case_test; [constructor; [lia|]|];
      apply (list.Forall_impl _ _ _ (fmt_u_chars _)); cbn beta; lia. }
  split; [apply (list.Forall_impl _ _ _ Hc); unfold Report.is_byte; lia|]. split; [done|].
  replace (Utf8.escape (fmt_d n)) with (fmt_d n); [done|]. clear Hl.
  induction Hc as [|c d Hc _ IH]; [done|]. unfold Utf8.escape in *. cbn [fmap list_fmap concat].
  rewrite <- IH. unfold Report.esc, Report.quote, Report.bslash. by repeat case_test; try lia.
Qed.

Ltac brief_lit := split; [ReportDemo.all_bytes|split; vm_compute; lia].

(** What the daemon logs and reports of a denied ptrace request. *)
Definition ptrace_alert (target : Z) (victim : list Z) (request pid : Z) (caller : list Z)
    : list Z :=
  lit "PTRACE-DENIED pid=" ++ fmt_d target ++ lit " comm=" ++ victim ++ lit " ptrace req " ++
  fmt_d request ++ lit " by pid " ++ fmt_d pid ++ lit " (" ++ caller ++ lit ") DENIED".

Lemma ptrace_text_brief request pid caller :
  - 2 ^ 63 <= request < 2 ^ 63 -> - 2 ^ 31 <= pid < 2 ^ 31 -> brief 15 90 caller ->
  brief 86 161 (lit "ptrace req " ++ fmt_d request ++ lit " by pid " ++ fmt_d pid ++ lit " (" ++
                caller ++ lit ") DENIED").
Proof.
  intros Hr Hp Hc.
  apply (brief_app 11 11 75 150); [brief_lit|].
  apply (brief_app 21 21 54 129); [apply brief_fmt_d|].
  apply (brief_app 8 8 46 121); [brief_lit|].
  apply (brief_app 21 21 25 100); [apply brief_fmt_d|].
  apply (brief_app 2 2 23 98); [brief_lit|].
  apply (brief_app 15 90 8 8); [done|brief_lit].
Qed.

Lemma ptrace_alert_brief target victim request pid caller :
  - 2 ^ 31 <= target < 2 ^ 31 -> brief 15 90 victim ->
  - 2 ^ 63 <= request < 2 ^ 63 -> - 2 ^ 31 <= pid < 2 ^ 31 -> brief 15 90 caller ->
  brief 147 297 (ptrace_alert target victim request pid caller).
Proof.
  intros Ht Hv Hr Hp Hc. pose proof (ptrace_text_brief request pid caller Hr Hp Hc) as Hb.
  apply (brief_app 18 18 129 279); [brief_lit|].
  apply (brief_app 21 21 108 258); [apply brief_fmt_d|].
  apply (brief_app 6 6 102 252); [brief_lit|].
  apply (brief_app 15 90 87 162); [done|].
  change (lit " ptrace req ") with (lit " " ++ lit "ptrace req "). rewrite <- app_assoc.
  apply (brief_app 1 1 86 161); [brief_lit|done].
Qed.

Lemma ptrace_alert_of target victim request pid caller :
  - 2 ^ 31 <= target < 2 ^ 31 -> brief 15 90 victim ->
  - 2 ^ 63 <= request < 2 ^ 63 -> - 2 ^ 31 <= pid < 2 ^ 31 -> brief 15 90 caller ->
  alert_of (mk_emission AC_EV_PTRACE target (Some victim)
    (lit "ptrace req " ++ fmt_d request ++ lit " by pid " ++ fmt_d pid ++ lit " (" ++ caller ++
     lit ") DENIED"))
  = DLog.mk_msg DLog.LOG_ALERT (ptrace_alert target victim request pid caller).
Proof.
  intros Ht Hv Hr Hp Hc. unfold alert_of, build_event, Monitor.event_msg. cbn [em_type em_pid
    em_comm em_text ev_type ev_pid ev_comm ev_data]. change (AC_EV_PTRACE =? AC_EV_PTRACE) with true.
  cbn [orb]. change (default (lit "?") (Some victim)) with victim.
  rewrite (strscpy_id AC_MAX_COMM) by (unfold AC_MAX_COMM; apply Hv).
  destruct (ptrace_text_brief request pid caller Hr Hp Hc) as (_ & Hl & _).
  rewrite (strscpy_id AC_EVENT_DATA) by (unfold AC_EVENT_DATA; lia).
  unfold DLog.logm. f_equal.
  destruct (ptrace_alert_brief target victim request pid caller Ht Hv Hr Hp Hc) as (_ & Hla & _).
  rewrite <- (strscpy_id 512 (ptrace_alert _ _ _ _ _)) by lia. f_equal.
  unfold ptrace_alert. cbn [concat]. rewrite app_nil_r.
  change (lit "PTRACE-DENIED pid=") with (lit "PTRACE-DENIED" ++ lit " pid=").
  change (lit " ptrace req ") with (lit " " ++ lit "ptrace req "). by rewrite <- !app_assoc.
Qed.

(** ** The attack *)

Section attack.
Context (find_get_pid : Z -> option Z) (get_pid_task : Z -> option task)
  (wr : Z -> preg -> bool) (HZ ac_ret_stub : Z).
Context (reg : reg_st) (current : task) (ac_policy j1 j2 : Z) (pool_ok : bool).

Let ptrace := ac_ptrace_pre find_get_pid get_pid_task wr HZ ac_ret_stub reg current ac_policy
  j1 j2 pool_ok.

(** The frame of a ptrace request on [t] by a process that may not make it. *)
Definition ptrace_attack (p : kprobe) (k : kp_st) (request target : Z) (t : task) : Prop :=
  on_ptrace p = true /\
  k_mem k (r_di (k_regs k)) (fst (arg_regs p)) = Some request /\
  k_mem k (r_di (k_regs k)) (snd (arg_regs p)) = Some target /\
  s64 request <> PTRACE_TRACEME /\ 0 < s64 target /\
  ac_find_task find_get_pid get_pid_task (s32 target) = Some t /\ attacks reg current t.

(** Its event, when the limiter lets one through. *)
Lemma ptrace_attack_emits p k request target t :
  ptrace_attack p k request target t ->
  (ac_deny_event_allowed HZ j1 j2 (k_rl_ptrace k)).1.1 = true ->
  mk_emission AC_EV_PTRACE (s32 target) (Some (strscpy AC_MAX_COMM (tk_comm t)))
    (lit "ptrace req " ++ fmt_d (s64 request) ++ lit " by pid " ++ fmt_d (tk_pid current) ++
     lit " (" ++ strscpy AC_MAX_COMM (tk_comm current) ++ lit ") DENIED") ∈ (ptrace p k).2 /\
  (length (ptrace p k).2 <= 2)%nat.
Proof.
  intros (Hon & Hr & Ht & Hreq & Hpos & Hf & [Hg Hp]) Hok. subst ptrace.
  unfold ac_ptrace_pre, ac_kread, ptrace_decide.
  rewrite (ptrace_slots_args p Hon), (surjective_pairing (arg_regs p)), Hr, Ht, !s32_s64, Hf.
  destruct (Z.eqb_spec (s64 request) PTRACE_TRACEME); [done|].
  destruct (Z.ltb_spec 0 (s64 target)); [|lia].
  unfold same_thread_group. destruct (Z.eqb_spec (tk_signal t) (tk_signal current)); [done|].
  rewrite Hp. cbn [negb andb].
  destruct (ac_deny_event_allowed _ _ _ _) as [[ok sup] rl]. cbn in Hok. subst ok.
  destruct (neutralise _ _ _ _ _ _ _ _ _) as [rc k3]. cbn [snd]. rewrite s32_s64.
  unfold deny_events. split; [apply elem_of_app; right; left|].
  destruct (sup =? 0); cbn; lia.
Qed.

(** C3: an attack reaches the server's database.  When a process of another
    thread group aims ptrace at a protected process and the limiter lets the
    denial's event through, and the ring does not overflow before the monitor
    loop has fetched what was queued (64 events a turn), the loop logs one alert
    naming the target, the request and the caller, the log reports exactly that
    text under ALERT, and whenever the report gets an answer from a server that
    is ready for it, the server's newest row is this client's, of type ALERT,
    with the whole text, whatever bytes the two process names hold. *)
Theorem attack_reaches_database `{!TaskEnv, !ModuleEnv, !KernelEnv} {addr net}
    (ip_address : list Z -> option addr) in_net decimal netloc_ok (cfg : Server.config net)
    p k request target t cl r ls ds :
  ptrace_attack p k request target t ->
  (ac_deny_event_allowed HZ j1 j2 (k_rl_ptrace k)).1.1 = true ->
  Forall Report.is_byte (tk_comm t) -> Forall Report.is_byte (tk_comm current) ->
  - 2 ^ 31 <= tk_pid current < 2 ^ 31 ->
  wf_ring r -> Forall served ls ->
  (length (contents r) + 2 + pending_emits ls <= AC_RING_SIZE)%nat ->
  (length (contents r) + 2 <= AC_MAX_EVENTS * length ls)%nat ->
  let d := ptrace_alert (s32 target) (strscpy AC_MAX_COMM (tk_comm t)) (s64 request)
             (tk_pid current) (strscpy AC_MAX_COMM (tk_comm current)) in
  (exists l, l ∈ fst (monitor (live_turns ls (emit_all cl r (ptrace p k).2)) ds) /\
     DLog.mk_msg DLog.LOG_ALERT d ∈ fst l) /\
  DLog.Report (lit "ALERT") d ∈ DLog.logmsg false (DLog.mk_msg DLog.LOG_ALERT d) /\
  forall cx peer s e key st ops,
    EndToEnd.sent e key (lit "ALERT") d st ops -> EndToEnd.ready cfg cx peer s key ->
    exists rq, EndToEnd.request_of (Report.written ops) peer = Some rq /\
      let '(resp, s') := Server.handle_request ip_address in_net decimal netloc_ok cfg cx rq s in
      Server.code resp = 201 /\
      head (Store.reports (Server.s_db s')) =
        Some (Store.mk_row (Store.last_id (Server.s_db s) + 1)
                (Report.ac_report_client_id (Report.re_machine_id e) (Report.re_hostname e) 128)
                (lit "ALERT") (Utf8.decode d) (Some (Store.NInt (Report.re_now e)))
                (Store.e_now (Server.cx_env cx)) peer).
Proof.
  intros Ha Hok Hvic Hcal Hpid Hr Hs Hlen Hturns d.
  destruct (ptrace_attack_emits p k request target t Ha Hok) as [Hem H2].
  pose proof (brief_comm _ Hvic) as Hv. pose proof (brief_comm _ Hcal) as Hc.
  pose proof (s32_range target) as Ht. pose proof (s64_range request) as Hq.
  destruct (ptrace_alert_brief _ _ _ _ _ Ht Hv Hq Hpid Hc) as (Hb & _ & Hesc). fold d in Hb, Hesc.
  split_and!.
  - destruct (emission_logged cl r _ _ ls ds Hr Hem Hs ltac:(lia) ltac:(lia)) as (l & Hl & Hin).
    rewrite ptrace_alert_of in Hin by done. by exists l.
  - right. right. left.
  - intros cx peer s e key st ops Hsent Hready. apply (alert_stored ip_address in_net decimal
      netloc_ok cfg cx peer s e key d st ops); [done|lia|done|done].
Qed.

End attack.

End Attack.

(** The cheat of the handlers' demo attacks the game; one turn of the loop
    fetches the event. *)
Module AttackDemo.
Import Ring.Ring Handlers.Handlers.HandlersDemo Ioctl.Ioctl.IoctlDemo Attack.

#[local] Existing Instances demo_tasks demo_mods demo_kernel.

Definition one_turn : list live :=
  [mk_live (fun _ => 0) [] CliDemo.empty_device (root true) (DaemonDemo.quiet_turn 7)].

Definition attack_log :=
  fst (Daemon.monitor (live_turns one_turn (emit_all (fun _ => 0) ring_init
    (Handlers.ac_ptrace_pre find_get_pid get_pid_task stuck 250 300 one_game cheat 0 10 10 true
       Handlers.ac_kp_ptrace (start 16 5)).2)) Daemon.daemon_init).

Definition text : list Z :=
  lit "PTRACE-DENIED pid=5 comm=game ptrace req 16 by pid 9 (cheat) DENIED".

Lemma attack_reaches_database_witness :
  (exists l, l ∈ attack_log /\ DLog.mk_msg DLog.LOG_ALERT text ∈ fst l) /\
  DLog.Report (lit "ALERT") text ∈ DLog.logmsg false (DLog.mk_msg DLog.LOG_ALERT text) /\
  forall cx peer s e key st ops,
    EndToEnd.sent e key (lit "ALERT") text st ops ->
    EndToEnd.ready EndToEndDemo.cfg cx peer s key ->
    exists rq, EndToEnd.request_of (Report.written ops) peer = Some rq /\
      let '(resp, s') := Server.handle_request EndToEndDemo.no_ip EndToEndDemo.no_net
        EndToEndDemo.no_digit EndToEndDemo.any_netloc EndToEndDemo.cfg cx rq s in
      Server.code resp = 201 /\
      head (Store.reports (Server.s_db s')) =
        Some (Store.mk_row (Store.last_id (Server.s_db s) + 1)
                (Report.ac_report_client_id (Report.re_machine_id e) (Report.re_hostname e) 128)
                (lit "ALERT") (Utf8.decode text) (Some (Store.NInt (Report.re_now e)))
                (Store.e_now (Server.cx_env cx)) peer).
Proof.
  apply (attack_reaches_database find_get_pid get_pid_task stuck 250 300 one_game cheat 0 10 10
    true EndToEndDemo.no_ip EndToEndDemo.no_net EndToEndDemo.no_digit EndToEndDemo.any_netloc
    EndToEndDemo.cfg Handlers.ac_kp_ptrace (start 16 5) 16 5 game (fun _ => 0) ring_init one_turn
    Daemon.daemon_init).
  - split_and!; try reflexivity; [by vm_compute..|exact game_attacked].
  - reflexivity.
  - ReportDemo.all_bytes.
  - ReportDemo.all_bytes.
  - cbn. lia.
  - exact ring_init_wf.
  - repeat constructor; discriminate.
  - vm_compute. lia.
  - vm_compute. lia.
Defined.

End AttackDemo.
