(* ===== verification/ServerConc.v ===== *)
(** Concurrency in the report server (src/server/ac_server.py): the bounded
    pool of handler threads ([BoundedThreadingMixIn]) with its accept loop and
    its handlers as interleaved steps, the coalesced log of rejections, and
    the webhook queue between the handlers and the delivery thread. *)

From stdpp Require Import relations.
From S2P Require Import Prelude CText Json Limiter Store Http Server.

#[local] Open Scope Z_scope.

Module Pool.

(** ** The log of rejections *)

(** One line: how many rejections it stands for besides its own. *)
Record overload_log := mk_overload {
  o_last : Z;
  o_suppressed : nat;
  o_lines : list (Z * nat);
}.

Definition OVERLOAD_LOG_INTERVAL : Z := 5000.

(** [_log_overload_rejection] at a time of the monotonic clock, in
    milliseconds. *)
Definition log_rejection (now : Z) (o : overload_log) : overload_log :=
  if now - o_last o <? OVERLOAD_LOG_INTERVAL
  then mk_overload (o_last o) (S (o_suppressed o)) (o_lines o)
  else mk_overload now 0 (o_lines o ++ [(now, o_suppressed o)]).

(** ** The pool *)

(** Where the accept loop is: waiting, holding a slot for the thread it is
    about to start, or turning a connection away. *)
Inductive acceptor := Waiting | Spawning | Rejecting.

Record pool := mk_pool {
  p_slots : nat;                    (** the semaphore *)
  p_running : nat;                  (** handler threads *)
  p_accept : acceptor;
  p_served : nat;
  p_failed : nat;
  p_rejected : nat;                 (** connections turned away *)
  p_log : overload_log;
  p_times : list Z;                 (** when connections were found to be too many *)
}.

Definition new_pool (max : nat) : pool :=
  mk_pool max 0 Waiting 0 0 0 (mk_overload 0 0 []) [].

(** [process_request]: [acquire(blocking=False)]. *)
Definition accept (now : Z) (p : pool) : pool :=
  match p_slots p with
  | S n => mk_pool n (p_running p) Spawning (p_served p) (p_failed p) (p_rejected p) (p_log p)
             (p_times p)
  | O => mk_pool 0 (p_running p) Rejecting (p_served p) (p_failed p) (p_rejected p)
           (log_rejection now (p_log p)) (p_times p ++ [now])
  end.

(** The thread started; it will run [process_request_thread]. *)
Definition spawned (p : pool) : pool :=
  mk_pool (p_slots p) (S (p_running p)) Waiting (p_served p) (p_failed p) (p_rejected p) (p_log p)
    (p_times p).

(** Starting it raised: the slot is released and the exception goes on. *)
Definition spawn_failed (p : pool) : pool :=
  mk_pool (S (p_slots p)) (p_running p) Waiting (p_served p) (S (p_failed p)) (p_rejected p)
    (p_log p) (p_times p).

(** [_reject_overloaded]: best-effort 503 and close. *)
Definition rejected (p : pool) : pool :=
  mk_pool (p_slots p) (p_running p) Waiting (p_served p) (p_failed p) (S (p_rejected p)) (p_log p)
    (p_times p).

(** A handler ends, normally or not: its [finally] releases the slot. *)
Definition finished (p : pool) : pool :=
  mk_pool (S (p_slots p)) (p_running p - 1) (p_accept p) (S (p_served p)) (p_failed p)
    (p_rejected p) (p_log p) (p_times p).

Inductive step : relation pool :=
  | step_accept now p : p_accept p = Waiting -> Forall (fun t => t <= now) (p_times p) ->
      step p (accept now p)
  | step_spawned p : p_accept p = Spawning -> step p (spawned p)
  | step_spawn_failed p : p_accept p = Spawning -> step p (spawn_failed p)
  | step_rejected p : p_accept p = Rejecting -> step p (rejected p)
  | step_finished p : p_running p <> O -> step p (finished p).

(** Slots held: by running handlers and by the accept loop. *)
Definition held (p : pool) : nat :=
  (p_running p + match p_accept p with Spawning => 1 | _ => 0 end)%nat.

Definition pool_inv (max : nat) (p : pool) : Prop := (p_slots p + held p = max)%nat.

Lemma step_inv max p p' : step p p' -> pool_inv max p -> pool_inv max p'.
Proof.
  unfold pool_inv, held. intros [now q Hq Hnow|q Hq|q Hq|q Hq|q Hq] Hi; unfold accept; cbn.
  - destruct (p_slots q) as [|n]; rewrite Hq in Hi; cbn; lia.
  - rewrite Hq in Hi. lia.
  - rewrite Hq in Hi. lia.
  - rewrite Hq in Hi. lia.
  - lia.
Qed.

Lemma reachable_inv max p : rtc step (new_pool max) p -> pool_inv max p.
Proof.
  intros Hr. apply (rtc_invariant _ (pool_inv max) _ _ Hr).
  - unfold pool_inv, held. cbn. lia.
  - intros x y. apply step_inv.
Qed.

(** A connection is turned away only while every slot is taken: nothing is
    rejected with capacity to spare. *)
Definition full_when_rejecting (max : nat) (p p' : pool) : Prop :=
  p_accept p = Waiting -> p_accept p' = Rejecting -> p_running p = max.

(** The rejections the log knows of: the lines written, what they say was
    suppressed before them, and those counted for the next. *)
Definition logged (o : overload_log) : nat :=
  (length (o_lines o) + sum_list (snd <$> o_lines o) + o_suppressed o)%nat.

Lemma log_rejection_logged now o : logged (log_rejection now o) = S (logged o).
Proof.
  unfold logged, log_rejection. case_test; cbn [o_lines o_suppressed]; [lia|].
  assert (forall l1 l2, sum_list (l1 ++ l2) = sum_list l1 + sum_list l2)%nat as Hs.
  { induction l1 as [|x l1 IH]; intros l2; cbn; [done|]. rewrite IH. lia. }
  rewrite length_app, fmap_app, Hs. cbn. lia.
Qed.

Definition rejecting (p : pool) : nat := match p_accept p with Rejecting => 1 | _ => 0 end.

(** A rejection is covered by a line written at most five seconds before it, or
    came in the first five seconds of the clock. *)
Definition covered (o : overload_log) (t : Z) : Prop :=
  t < OVERLOAD_LOG_INTERVAL \/
  exists t' k, (t', k) ∈ o_lines o /\ t' <= t < t' + OVERLOAD_LOG_INTERVAL.

Definition log_inv (p : pool) : Prop :=
  logged (p_log p) = length (p_times p) /\
  length (p_times p) = (p_rejected p + rejecting p)%nat /\
  (forall t, t ∈ p_times p -> covered (p_log p) t) /\
  (o_last (p_log p) = 0 \/
   o_last (p_log p) ∈ p_times p /\ exists k, (o_last (p_log p), k) ∈ o_lines (p_log p)).

Lemma step_log p p' : step p p' -> log_inv p -> log_inv p'.
Proof.
  unfold log_inv, rejecting.
  intros [now q Hq Hnow|q Hq|q Hq|q Hq|q Hq] (Hi & Hl & Hc & Ho); unfold accept; cbn.
  - rewrite Hq in Hl. destruct (p_slots q); cbn; [|split_and!; done || lia].
    rewrite log_rejection_logged, length_app. cbn. split_and!; [lia|lia| |].
    + intros t [Ht| ->%list_elem_of_singleton]%elem_of_app; unfold log_rejection;
        case_test; boolp.
      * by apply Hc.
      * destruct (Hc t Ht) as [?|(t' & k & Hk & Hr)]; [by left|]. right.
        exists t', k. cbn. split; [apply elem_of_app; by left|done].
      * destruct Ho as [Ho|[Hin [k Hk]]]; [left; lia|]. right. exists (o_last (p_log q)), k.
        split; [done|]. split; [|lia]. by apply (proj1 (list.Forall_forall _ _) Hnow).
      * right. exists now, (o_suppressed (p_log q)). cbn.
        split; [apply elem_of_app; right; left|unfold OVERLOAD_LOG_INTERVAL; lia].
    + unfold log_rejection. case_test; cbn.
      * destruct Ho as [?|[? ?]]; [by left|right]. split; [apply elem_of_app; by left|done].
      * right. split; [apply elem_of_app; right; left|].
        eexists. apply elem_of_app. right. left.
  - rewrite Hq in Hl. split_and!; done || lia.
  - rewrite Hq in Hl. split_and!; done || lia.
  - rewrite Hq in Hl. split_and!; done || lia.
  - split_and!; done.
Qed.

(** ** Properties *)

(** C32: however connections, thread starts that fail, handlers that end and
    rejections interleave, no more than [max] handlers ever run, every slot is
    either free or held by exactly one handler or by the accept loop, so none
    leaks; a connection is turned away only while all [max] handlers are
    running.  The lines written, the rejections they count as suppressed before
    them and those counted for the next line add up to the rejections; and
    every rejection falls within five seconds of a line written at or before
    it, but for the first five seconds of the monotonic clock. *)
Theorem pool_bounded max p :
  rtc step (new_pool max) p ->
  (p_running p <= max)%nat /\ (p_slots p + held p = max)%nat /\
  (forall p', step p p' -> full_when_rejecting max p p') /\
  length (p_times p) = (p_rejected p + rejecting p)%nat /\
  logged (p_log p) = length (p_times p) /\
  (forall t, t ∈ p_times p -> covered (p_log p) t).
Proof.
  intros Hr.
  assert (pool_inv max p) as Hi.
  { by apply (reachable_inv max). }
  assert (log_inv p) as (Hl & Hn & Hc & _).
  { apply (rtc_invariant _ log_inv _ _ Hr); [|intros x y; apply step_log].
    split_and!; [done|done|intros t Ht; by apply elem_of_nil in Ht|by left]. }
  split_and!; [|done| |done|done|done].
  - unfold pool_inv, held in Hi. lia.
  - intros p' Hs Hw Hrej. unfold pool_inv, held in Hi. rewrite Hw in Hi.
    destruct Hs as [now q Hq Hnow|q Hq|q Hq|q Hq|q Hq]; cbn in *; try congruence.
    unfold accept in Hrej. destruct (p_slots q); cbn in Hrej; [lia|done].
Qed.

(** a server that is not full accepts: with no handler running, the next
    connection is given a thread, whatever happened before (failed thread
    starts and bursts of rejections included). *)
Theorem pool_recovers max p now :
  rtc step (new_pool max) p -> p_accept p = Waiting -> (p_running p < max)%nat ->
  Forall (fun t => t <= now) (p_times p) ->
  p_accept (accept now p) = Spawning /\
  rtc step p (spawned (accept now p)) /\
  p_running (spawned (accept now p)) = S (p_running p).
Proof.
  intros Hr Hw Hlt Hnow.
  assert (pool_inv max p) as Hi.
  { by apply (reachable_inv max). }
  unfold pool_inv, held in Hi. rewrite Hw in Hi. unfold accept.
  destruct (p_slots p) as [|n] eqn:Hs; [lia|]. cbn. split; [done|]. split; [|done].
  eapply rtc_l; [by apply (step_accept now)|]. unfold accept. rewrite Hs.
  apply rtc_once. by apply step_spawned.
Qed.

End Pool.

Module Webhook.
Import Server.

(** What happens to the notifier: a handler notifies, the delivery thread
    takes the next payload and its POST succeeds or not. *)
Inductive event := ENotify (p : payload) | EDrain (ok : bool).

(** The payloads handed to the webhook, in order. *)
Fixpoint play (l : list event) (n : notifier) : list payload * notifier :=
  match l with
  | [] => ([], n)
  | ENotify p :: l' => play l' (notify p n)
  | EDrain ok :: l' =>
      let '(d, n1) := drain ok n in
      let '(ds, n2) := play l' n1 in
      (match d with Some p => p :: ds | None => ds end, n2)
  end.

(** The payloads the notifier accepted: those that found room. *)
Fixpoint accepted (l : list event) (n : notifier) : list payload :=
  match l with
  | [] => []
  | ENotify p :: l' =>
      (match n_queue n with
       | Some q => if (length q <? n_size n)%nat then [p] else []
       | None => []
       end) ++ accepted l' (notify p n)
  | EDrain ok :: l' => accepted l' (drain ok n).2
  end.

Definition notified (l : list event) : list payload :=
  omap (fun e => match e with ENotify p => Some p | _ => None end) l.

Definition new_lines (log : list log_line) : list payload :=
  omap (fun x => match x with LogNew p => Some p | _ => None end) log.

Definition waiting (n : notifier) : list payload :=
  match n_queue n with Some q => q | None => [] end.

Lemma new_lines_app a b : new_lines (a ++ b) = new_lines a ++ new_lines b.
Proof. unfold new_lines. by rewrite omap_app. Qed.

Lemma play_spec l n :
  let '(ds, n') := play l n in
  ds ++ waiting n' = waiting n ++ accepted l n /\
  new_lines (n_log n') = new_lines (n_log n) ++ notified l /\
  (is_Some (n_queue n) ->
    n_dropped n' + length (accepted l n) = n_dropped n + length (notified l))%nat /\
  ((length (waiting n) <= n_size n)%nat ->
    (length (waiting n') <= n_size n')%nat /\ n_size n' = n_size n).
Proof.
  revert n. induction l as [|[p|ok] l IH]; intros n; cbn [play accepted].
  - cbn. rewrite !app_nil_r. split_and!; done || lia.
  - specialize (IH (notify p n)). destruct (play l (notify p n)) as [ds n'].
    change (notified (ENotify p :: l)) with (p :: notified l).
    destruct IH as (Hd & Hlog & Hdrop & Hlen). revert Hd Hlog Hdrop Hlen.
    unfold notify. destruct (n_queue n) as [q|] eqn:Hq; cbn [n_queue n_log n_dropped n_size app length].
    + unfold waiting. rewrite Hq.
      destruct (Nat.ltb_spec (length q) (n_size n)); cbn [n_queue n_log n_dropped n_size app length];
        rewrite !new_lines_app; cbn [new_lines omap list_omap app length].
      * intros -> -> Hdrop Hlen. split_and!; [by rewrite <- app_assoc|by rewrite <- app_assoc| |].
        -- intros _. specialize (Hdrop ltac:(done)). lia.
        -- intros Hl. apply Hlen. rewrite length_app. cbn. lia.
      * intros -> -> Hdrop Hlen. split_and!; [done|by rewrite <- !app_assoc| |done].
        intros _. specialize (Hdrop ltac:(done)). lia.
    + unfold waiting. rewrite Hq. cbn [n_queue n_log n_dropped n_size app length]. rewrite new_lines_app.
      intros -> -> _ Hlen. rewrite <- app_assoc. split_and!; [done|done|by intros []|done].
  - specialize (IH (drain ok n).2). revert IH. unfold drain.
    destruct (n_queue n) as [[|p q]|] eqn:Hq; cbn [snd fst].
    + destruct (play l n) as [ds n']. rewrite Hq. exact (fun H => H).
    + destruct (play l _) as [ds n']. unfold waiting. rewrite Hq. cbn [n_queue n_log n_dropped n_size].
      intros (Hd & Hlog & Hdrop & Hlen). cbn [app]. rewrite Hd. split_and!; [done| | |].
      * rewrite Hlog. destruct ok; [done|]. by rewrite new_lines_app, app_nil_r.
      * intros _. specialize (Hdrop ltac:(done)). done.
      * intros Hl. apply Hlen. cbn in *. lia.
    + destruct (play l n) as [ds n']. rewrite Hq. exact (fun H => H).
Qed.

(** C35: nothing is lost silently between a stored report and the webhook.
    For any interleaving of handlers and the delivery thread, with POSTs that
    fail included, the payloads taken up for delivery followed by those still
    waiting are exactly the accepted ones in order, accepted and counted drops add up to
    the reports, the queue never exceeds its size, and every report has its
    log line in order whether it was queued or dropped. *)
Theorem webhook_accounted l size :
  let n := new_notifier true size in
  let '(ds, n') := play l n in
  ds ++ waiting n' = accepted l n /\
  (n_dropped n' + length (accepted l n) = length (notified l))%nat /\
  (length (waiting n') <= Z.to_nat (Z.max size 1))%nat /\
  new_lines (n_log n') = notified l.
Proof.
  intros n. pose proof (play_spec l n) as Hp. destruct (play l n) as [ds n'].
  destruct Hp as (Hd & Hlog & Hdrop & Hlen). cbn in Hd, Hlog, Hdrop, Hlen.
  specialize (Hdrop ltac:(done)). destruct (Hlen ltac:(lia)) as [Hw Hs].
  rewrite Hs in Hw. by split_and!.
Qed.

End Webhook.

Module ServerConcDemo.
Import Pool.

(** One slot: a connection is served while a second is turned away, which the
    log says. *)
Definition busy : pool := rejected (accept 7000 (spawned (accept 6000 (new_pool 1)))).

Lemma busy_reachable : rtc step (new_pool 1) busy.
Proof.
  eapply rtc_l; [apply (step_accept 6000); [done|constructor]|].
  eapply rtc_l; [by apply step_spawned|].
  eapply rtc_l; [apply (step_accept 7000); [done|constructor]|]. apply rtc_once. by apply step_rejected.
Qed.

Lemma pool_bounded_witness :
  p_running busy = 1%nat /\ p_rejected busy = 1%nat /\ o_lines (p_log busy) = [(7000, 0%nat)] /\
  (p_running busy <= 1)%nat /\ covered (p_log busy) 7000.
Proof.
  split; [reflexivity|]. split; [reflexivity|]. split; [reflexivity|].
  destruct (pool_bounded 1 busy busy_reachable) as (Hr & _ & _ & _ & _ & Hc).
  split; [exact Hr|]. apply Hc. left.
Defined.

Lemma pool_recovers_witness :
  p_accept (accept 9000 (finished busy)) = Spawning.
Proof.
  apply (pool_recovers 1 (finished busy) 9000); [|reflexivity|cbn; lia|repeat constructor; cbn; lia].
  eapply rtc_r; [exact busy_reachable|]. by apply step_finished.
Defined.

End ServerConcDemo.
