(* ===== verification/ServerLife.v ===== *)
(** The life of a connection and of the server (src/server/ac_server.py):
    [Handler.handle] with its read time-out and the watchdog on the whole
    connection, and [main]'s serve loop from SIGTERM to the last handler's end,
    in milliseconds, on top of the pool of [ServerConc]. *)

From stdpp Require Import relations.
From S2P Require Import Prelude CText Json Limiter Store Http Server ServerConc.

#[local] Open Scope Z_scope.

(** * One connection *)

Module Conn.

Definition timeout : Z := 10000.
Definition CONNECTION_DEADLINE : Z := 30000.

(** What a handler does in turn: a blocking socket operation that the peer lets
    through after some time or never, or work of its own. *)
Inductive op := Io (wanted : option Z) | Work (ms : Z).

Definition op_ok (o : op) : Prop :=
  match o with Io (Some d) => 0 <= d | Io None => True | Work w => 0 <= w end.

(** A socket operation begun at [now]: it ends when the peer lets it, when the
    socket's time-out expires, or when the watchdog has shut the socket down,
    whichever comes first. *)
Definition io_end (deadline now : Z) (wanted : option Z) : Z :=
  let limit := Z.min (now + timeout) (Z.max now deadline) in
  match wanted with Some d => Z.min (now + d) limit | None => limit end.

(** When the handler ends. *)
Fixpoint conn_end (deadline now : Z) (ops : list op) : Z :=
  match ops with
  | [] => now
  | Io d :: ops' => conn_end deadline (io_end deadline now d) ops'
  | Work w :: ops' => conn_end deadline (now + w) ops'
  end.

(** [handle], started at [start]. *)
Definition handle (start : Z) (ops : list op) : Z :=
  conn_end (start + CONNECTION_DEADLINE) start ops.

Fixpoint work (ops : list op) : Z :=
  match ops with [] => 0 | Io _ :: ops' => work ops' | Work w :: ops' => w + work ops' end.

Lemma io_end_bound deadline now d :
  op_ok (Io d) -> now <= io_end deadline now d <= Z.max now deadline.
Proof. unfold io_end, timeout. destruct d as [d|]; cbn; lia. Qed.

Lemma conn_end_bound deadline ops : forall now,
  Forall op_ok ops -> now <= conn_end deadline now ops <= Z.max now deadline + work ops.
Proof.
  induction ops as [|[d|w] ops IH]; intros now Hok; cbn [conn_end work]; [lia| |];
    apply Forall_cons_1 in Hok as [Ho Hok].
  - pose proof (io_end_bound deadline now d Ho).
    specialize (IH (io_end deadline now d) Hok). lia.
  - cbn in Ho. specialize (IH (now + w) Hok). lia.
Qed.

Lemma handle_bound start ops :
  Forall op_ok ops -> start <= handle start ops <= start + CONNECTION_DEADLINE + work ops.
Proof.
  intros Hok. unfold handle. pose proof (conn_end_bound (start + CONNECTION_DEADLINE) ops start Hok).
  unfold CONNECTION_DEADLINE in *. lia.
Qed.

(** The time-out alone bounds nothing: a peer that sends a byte every nine
    seconds holds a handler without a watchdog as long as it likes. *)
Theorem trickle_unbounded n deadline :
  9000 * Z.of_nat n <= deadline ->
  conn_end deadline 0 (replicate n (Io (Some 9000))) = 9000 * Z.of_nat n.
Proof.
  enough (forall now, now + 9000 * Z.of_nat n <= deadline ->
    conn_end deadline now (replicate n (Io (Some 9000))) = now + 9000 * Z.of_nat n) as Hn
    by (intros Hd; apply (Hn 0); lia).
  induction n as [|n IH]; intros now Hd; cbn [replicate conn_end]; [lia|].
  assert (io_end deadline now (Some 9000) = now + 9000) as -> by (unfold io_end, timeout; lia).
  rewrite IH; lia.
Qed.

End Conn.

(** * Serving and shutting down *)

Module Life.
Import Pool Conn.

(** [serve_forever], with the latest end of what the accept loop is doing: its
    poll of half a second, or the two seconds a rejection may take;
    [server_close] joining the handlers; the end of [main]. *)
Inductive phase := Serving (till : Z) | Joining | Exited.

Record st := mk_st {
  t_phase : phase;
  t_pool : pool;
  t_due : list Z;                   (** when each running handler ends *)
  t_now : Z;
  t_term : option Z;                (** when SIGTERM arrived *)
  t_stop : option Z;                (** when the thread it starts set the flag *)
  t_ready : bool;                   (** the loop found the flag clear and accepts next *)
  t_accepted : nat;
}.

Definition POLL : Z := 500.
Definition REJECT : Z := 2000.

Definition init (max : nat) : st :=
  mk_st (Serving POLL) (new_pool max) [] 0 None None false 0.

Section life.
(** What a handler works besides its socket operations, and how long the thread
    started on SIGTERM takes to set the flag. *)
Context (work_max start_max : Z).

(** What the server does.  The signal handler only starts a thread, and the
    flag is tested before a connection is taken. *)
Inductive act : st -> st -> Prop :=
  | act_shutdown s T0 : t_term s = Some T0 -> t_stop s = None ->
      act s (mk_st (t_phase s) (t_pool s) (t_due s) (t_now s) (t_term s) (Some (t_now s))
               (t_ready s) (t_accepted s))
  | act_accept s u : t_phase s = Serving u -> p_accept (t_pool s) = Waiting -> t_ready s = true ->
      act s (mk_st (Serving (t_now s + REJECT)) (accept (t_now s) (t_pool s)) (t_due s)
               (t_now s) (t_term s) (t_stop s) false (S (t_accepted s)))
  | act_spawned s u ops : t_phase s = Serving u -> p_accept (t_pool s) = Spawning ->
      Forall op_ok ops -> work ops <= work_max ->
      act s (mk_st (Serving (t_now s + POLL)) (spawned (t_pool s))
               (t_due s ++ [handle (t_now s) ops]) (t_now s) (t_term s) (t_stop s) (t_ready s)
               (t_accepted s))
  | act_spawn_failed s u : t_phase s = Serving u -> p_accept (t_pool s) = Spawning ->
      act s (mk_st (Serving (t_now s + POLL)) (spawn_failed (t_pool s)) (t_due s) (t_now s)
               (t_term s) (t_stop s) (t_ready s) (t_accepted s))
  | act_rejected s u : t_phase s = Serving u -> p_accept (t_pool s) = Rejecting ->
      act s (mk_st (Serving (t_now s + POLL)) (rejected (t_pool s)) (t_due s) (t_now s)
               (t_term s) (t_stop s) (t_ready s) (t_accepted s))
  | act_leave s u T : t_phase s = Serving u -> p_accept (t_pool s) = Waiting ->
      t_ready s = false -> t_stop s = Some T ->
      act s (mk_st Joining (t_pool s) (t_due s) (t_now s) (t_term s) (t_stop s) false
               (t_accepted s))
  | act_finish s l1 d l2 : t_due s = l1 ++ d :: l2 -> t_phase s <> Exited ->
      act s (mk_st (t_phase s) (finished (t_pool s)) (l1 ++ l2) (t_now s) (t_term s) (t_stop s)
               (t_ready s) (t_accepted s))
  | act_exit s : t_phase s = Joining -> t_due s = [] ->
      act s (mk_st Exited (t_pool s) [] (t_now s) (t_term s) (t_stop s) (t_ready s)
               (t_accepted s)).

(** How long the server may take no step: until a handler ends, the accept loop
    is done with what it does and the flag is set. *)
Definition may_wait (s : st) (dt : Z) : Prop :=
  0 <= dt /\ Forall (fun d => t_now s + dt <= d) (t_due s) /\
  (forall T0, t_term s = Some T0 -> t_stop s = None -> t_now s + dt <= T0 + start_max) /\
  match t_phase s with
  | Serving u => p_accept (t_pool s) <> Spawning /\ t_ready s = false /\ t_now s + dt <= u
  | Joining => t_due s <> []
  | Exited => False
  end.

Inductive step : st -> st -> Prop :=
  | step_act s s' : act s s' -> step s s'
  | step_poll s u : t_phase s = Serving u -> p_accept (t_pool s) = Waiting ->
      t_ready s = false -> t_stop s = None ->
      step s (mk_st (Serving (t_now s + POLL)) (t_pool s) (t_due s) (t_now s) (t_term s) None
                false (t_accepted s))
  | step_ready s u : t_phase s = Serving u -> p_accept (t_pool s) = Waiting ->
      t_ready s = false -> t_stop s = None ->
      step s (mk_st (Serving u) (t_pool s) (t_due s) (t_now s) (t_term s) None true (t_accepted s))
  | step_sigterm s : t_term s = None ->
      step s (mk_st (t_phase s) (t_pool s) (t_due s) (t_now s) (Some (t_now s)) (t_stop s)
                (t_ready s) (t_accepted s))
  | step_wait s dt : may_wait s dt ->
      step s (mk_st (t_phase s) (t_pool s) (t_due s) (t_now s + dt) (t_term s) (t_stop s)
                (t_ready s) (t_accepted s)).

(** ** Invariant *)

(** The latest end of a handler, and of what the accept loop is doing. *)
Definition due_bound (s : st) : Z :=
  match t_stop s with None => t_now s | Some T => T end + CONNECTION_DEADLINE + work_max.

Definition loop_bound (s : st) : Z :=
  match t_stop s with
  | None => t_now s + REJECT
  | Some T => match p_accept (t_pool s) with
              | Waiting => T + REJECT + POLL
              | Rejecting => T + REJECT
              | Spawning => T + REJECT
              end
  end.

Definition accepting (p : pool) : nat := match p_accept p with Waiting => 0 | _ => 1 end.

Definition accounted (s : st) : Prop :=
  length (t_due s) = p_running (t_pool s) /\
  t_accepted s = (p_served (t_pool s) + p_failed (t_pool s) + p_rejected (t_pool s)
                  + p_running (t_pool s) + accepting (t_pool s))%nat /\
  Forall (fun t => t <= t_now s) (p_times (t_pool s)).

Definition timed (s : st) : Prop :=
  Forall (fun d => t_now s <= d <= due_bound s) (t_due s) /\
  (forall T, t_stop s = Some T -> T <= t_now s <= T + CONNECTION_DEADLINE + work_max) /\
  (forall T0, t_term s = Some T0 ->
     T0 <= t_now s /\ default (t_now s) (t_stop s) <= T0 + start_max) /\
  (is_Some (t_stop s) -> is_Some (t_term s)) /\
  match t_phase s with
  | Serving u =>
      t_now s <= u <= loop_bound s /\
      (forall T, p_accept (t_pool s) = Spawning \/ t_ready s = true ->
         t_stop s = Some T -> t_now s = T) /\
      (p_accept (t_pool s) <> Waiting -> t_ready s = false)
  | Joining => is_Some (t_stop s) /\ p_accept (t_pool s) = Waiting /\ t_ready s = false
  | Exited => is_Some (t_stop s) /\ p_accept (t_pool s) = Waiting /\ t_ready s = false /\
      t_due s = []
  end.

Context (Hwork : 0 <= work_max) (Hstart : 0 <= start_max).

Lemma act_pool s s' : act s s' -> accounted s -> rtc Pool.step (t_pool s) (t_pool s').
Proof.
  intros Ha (Hl & _ & Hn).
  destruct Ha as [s T0|s u Hp Hw Hs|s u ops Hp Hw Ho Hm|s u Hp Hw|s u Hp Hw|s u T Hp Hw Hs
    |s l1 d l2 Hd Hp|s Hp Hd]; cbn [t_pool]; try done; apply rtc_once.
  - by apply step_accept.
  - by apply step_spawned.
  - by apply step_spawn_failed.
  - by apply step_rejected.
  - apply step_finished. rewrite Hd, length_app in Hl. cbn in Hl. lia.
Qed.

Lemma accept_cases now p :
  p_accept (accept now p) = (match p_slots p with O => Rejecting | S _ => Spawning end) /\
  p_running (accept now p) = p_running p /\ p_served (accept now p) = p_served p /\
  p_failed (accept now p) = p_failed p /\ p_rejected (accept now p) = p_rejected p.
Proof. unfold accept. by destruct (p_slots p). Qed.

Lemma accept_times now p :
  Forall (fun t => t <= now) (p_times p) -> Forall (fun t => t <= now) (p_times (accept now p)).
Proof.
  intros Hp. unfold accept. destruct (p_slots p); [|done]. cbn. apply list.Forall_app.
  split; [done|]. by apply list.Forall_singleton.
Qed.

Lemma act_accounted s s' : act s s' -> accounted s -> accounted s'.
Proof.
  unfold accounted, accepting. intros Ha (Hl & Hc & Hn).
  destruct Ha as [s T0|s u Hp Hw Hs|s u ops Hp Hw Ho Hm|s u Hp Hw|s u Hp Hw|s u T Hp Hw Hs
    |s l1 d l2 Hd Hp|s Hp Hd]; cbn [t_pool t_due t_accepted t_now].
  - done.
  - pose proof (accept_times (t_now s) (t_pool s) Hn).
    destruct (accept_cases (t_now s) (t_pool s)) as (-> & -> & -> & -> & ->).
    rewrite Hw in Hc. split_and!; [done| |done]. destruct (p_slots (t_pool s)); lia.
  - rewrite Hw in Hc. rewrite length_app. cbn. split_and!; done || lia.
  - rewrite Hw in Hc. cbn. split_and!; done || lia.
  - rewrite Hw in Hc. cbn. split_and!; done || lia.
  - done.
  - rewrite Hd, length_app in Hl. rewrite length_app. cbn in *. split_and!; done || lia.
  - rewrite Hd in Hl. cbn in *. split_and!; done || lia.
Qed.

(** Unfold what a state promises and what a step changes. *)
Ltac timed_cases :=
  unfold timed, due_bound, loop_bound in *;
  cbn [t_pool t_due t_now t_term t_stop t_ready t_phase] in *;
  unfold REJECT, POLL, CONNECTION_DEADLINE in *.

Lemma act_timed s s' : act s s' -> timed s -> timed s'.
Proof.
  intros Ha (Hd & Ht & Hr & Hsi & Hph).
  destruct Ha as [s T0 Hterm Hs|s u Hp Hw Hs|s u ops Hp Hw Ho Hm|s u Hp Hw|s u Hp Hw|s u T Hp Hw Hrd Hs
    |s l1 d l2 Hl Hp|s Hp Hl]; timed_cases; rewrite ?Hp, ?Hw in Hph.
  - rewrite Hs in *. destruct (Hr T0 Hterm) as [Hr1 Hr2]. cbn [default] in Hr2.
    split_and!; [done| | |done|].
    + intros T [= <-]. lia.
    + intros T1 HT1. destruct (Hr T1 HT1). done.
    + destruct (t_phase s) as [u| |]; [|by destruct Hph as [[? ?] _]..].
      destruct Hph as (Hu & _ & Hnr). split; [destruct (p_accept (t_pool s)); lia|].
      split; [|done]. intros T _ [= <-]. done.
  - destruct Hph as (Hu & Hsp & _). split_and!; try done; try lia.
    + destruct (accept_cases (t_now s) (t_pool s)) as (-> & _).
      destruct (t_stop s) as [T|]; [|lia]. specialize (Hsp T (or_intror Hs) eq_refl).
      destruct (p_slots (t_pool s)); lia.
    + intros T _ HT. by apply Hsp; [right|].
  - destruct Hph as (Hu & Hsp & Hnr). pose proof (handle_bound (t_now s) ops Ho) as Hh.
    timed_cases. assert (forall T, t_stop s = Some T -> t_now s = T) as HT by auto.
    split_and!; try done; try lia.
    + apply list.Forall_app. split; [done|]. apply list.Forall_singleton.
      destruct (t_stop s) as [T|]; [specialize (HT T eq_refl)|]; lia.
    + cbn [p_accept spawned]. destruct (t_stop s) as [T|]; [specialize (HT T eq_refl)|]; lia.
    + intros T _. apply HT.
  - destruct Hph as (Hu & Hsp & Hnr).
    assert (forall T, t_stop s = Some T -> t_now s = T) as HT by auto.
    split_and!; try done; try lia; [|intros T _; apply HT]. cbn [p_accept spawn_failed].
    destruct (t_stop s) as [T|]; [specialize (HT T eq_refl)|]; lia.
  - destruct Hph as (Hu & Hsp & Hnr). split_and!; try done; try lia.
    + cbn [p_accept rejected]. destruct (t_stop s) as [T|]; lia.
    + intros T [Hx|Hx]; [done|]. apply Hsp. by right.
  - rewrite Hs in *. by split_and!.
  - rewrite Hl in Hd. apply list.Forall_app in Hd as [Hd1 Hd2]. apply Forall_cons_1 in Hd2 as [_ Hd2].
    split_and!; [by apply list.Forall_app|done|done|done|]. by destruct (t_phase s).
  - destruct Hph as (? & ? & ?). split_and!; done || constructor.
Qed.

Lemma wait_timed s dt :
  may_wait s dt -> timed s ->
  timed (mk_st (t_phase s) (t_pool s) (t_due s) (t_now s + dt) (t_term s) (t_stop s) (t_ready s)
           (t_accepted s)).
Proof.
  unfold may_wait. intros (Hdt & Hf & Hst & Hw) (Hd & Ht & Hr & Hsi & Hph). timed_cases.
  assert (Forall (fun d => t_now s + dt <= d <= match t_stop s with
    | None => t_now s + dt | Some T => T end + 30000 + work_max) (t_due s)) as Hd'.
  { apply (list.Forall_impl _ _ _ (proj2 (list.Forall_and _ _) (conj Hf Hd))). cbn beta.
    intros d. destruct (t_stop s); lia. }
  split_and!; [done| | |done|].
  - intros T HT. specialize (Ht T HT). rewrite HT in *. split; [lia|].
    destruct (t_phase s) as [u| |]; [destruct (p_accept (t_pool s)); lia| |done].
    destruct (t_due s) as [|d l]; [done|]. apply Forall_cons_1 in Hd' as [? _]. lia.
  - intros T0 HT0. destruct (Hr T0 HT0) as [Hr1 Hr2]. specialize (Hst T0 HT0).
    destruct (t_stop s); cbn [default] in *; [lia|]. specialize (Hst eq_refl). lia.
  - destruct (t_phase s) as [u| |]; [|done..].
    destruct Hph as (Hu & _ & _), Hw as (Hns & Hrd & Hu'). rewrite Hrd. split_and!.
    + lia.
    + destruct (t_stop s); lia.
    + intros T [?|?]; done.
    + done.
Qed.

Lemma step_invs max s s' :
  step s s' -> rtc Pool.step (new_pool max) (t_pool s) /\ accounted s /\ timed s ->
  rtc Pool.step (new_pool max) (t_pool s') /\ accounted s' /\ timed s'.
Proof.
  intros Hs (Hr & Ha & Ht).
  destruct Hs as [s s' Hact|s u Hp Hw Hrd Hn|s u Hp Hw Hrd Hn|s Hn|s dt Hm].
  - split; [by etrans; [|by apply act_pool]|]. eauto using act_accounted, act_timed.
  - split_and!; [done..|]. destruct Ht as (Hd & _ & Htm & Hsi & _). timed_cases. rewrite Hn in *.
    rewrite Hw. split_and!; try done; lia.
  - split_and!; [done..|]. destruct Ht as (Hd & _ & Htm & Hsi & Hph). timed_cases.
    rewrite Hp, Hn in *. destruct Hph as (? & _ & _). rewrite Hw. split_and!; done || lia.
  - split_and!; [done..|]. destruct Ht as (Hd & Hst & Htm & Hsi & Hph). timed_cases.
    assert (t_stop s = None) as Hns.
    { destruct (t_stop s) as [T|]; [|done]. destruct Hsi as [? Hx]; [done|]. congruence. }
    rewrite Hns in *. split_and!; [done|done| |done|done].
    intros T0 [= <-]. cbn [default]. lia.
  - split_and!; [done| |by apply wait_timed].
    destruct Ha as (? & ? & Hti). split_and!; [done..|].
    destruct Hm as [Hdt _]. apply (list.Forall_impl _ _ _ Hti). cbn. lia.
Qed.

Lemma life_invs max s :
  rtc step (init max) s -> rtc Pool.step (new_pool max) (t_pool s) /\ accounted s /\ timed s.
Proof.
  intros Hr. apply (rtc_invariant step
    (fun s => rtc Pool.step (new_pool max) (t_pool s) /\ accounted s /\ timed s) _ _ Hr);
    [|intros; by eapply step_invs].
  split_and!; [done|by split_and!|]. unfold init. timed_cases. cbn.
  split_and!; try done; try constructor; by intros [? ?].
Qed.

(** ** Shutting down *)

(** Acts left once SIGTERM has arrived, until the flag is set and from then
    on. *)
Definition rank (s : st) : nat :=
  length (t_due s) + match t_phase s with
    | Exited => 0 | Joining => 1
    | Serving _ =>
        match p_accept (t_pool s) with
        | Waiting => if t_ready s then 5 else 2 | Rejecting => 3 | Spawning => 4
        end
    end.

Lemma act_rank s s' :
  act s s' -> is_Some (t_stop s) -> timed s -> (rank s' < rank s)%nat.
Proof.
  intros Ha [T HT] (_ & _ & _ & _ & Hph). unfold rank.
  destruct Ha as [s T0 Hterm Hs|s u Hp Hw Hs|s u ops Hp Hw Ho Hm|s u Hp Hw|s u Hp Hw|s u T' Hp Hw Hrd Hs
    |s l1 d l2 Hl Hp|s Hp Hl];
    cbn [t_pool t_due t_phase t_ready p_accept spawned spawn_failed rejected finished].
  - congruence.
  - rewrite Hp, Hw, Hs. destruct (accept_cases (t_now s) (t_pool s)) as (-> & _).
    destruct (p_slots (t_pool s)); lia.
  - rewrite Hp, Hw, length_app in *. rewrite (proj2 (proj2 Hph)) by done. cbn. lia.
  - rewrite Hp, Hw in *. rewrite (proj2 (proj2 Hph)) by done. lia.
  - rewrite Hp, Hw in *. rewrite (proj2 (proj2 Hph)) by done. lia.
  - rewrite Hp, Hw, Hrd. lia.
  - rewrite Hl, !length_app. cbn. lia.
  - rewrite Hp, Hl. cbn. lia.
Qed.

Lemma act_exists s : t_phase s <> Exited -> is_Some (t_term s) -> timed s -> exists s', act s s'.
Proof.
  intros Hp [T0 HT0] (_ & _ & _ & _ & Hph).
  destruct (t_stop s) as [T|] eqn:HT; [|eexists; by eapply act_shutdown].
  destruct (t_due s) as [|d l] eqn:Hd.
  - destruct (t_phase s) as [u| |] eqn:E; [|eexists; by apply act_exit|done].
    destruct (p_accept (t_pool s)) eqn:Ea;
      [|eexists; by eapply act_spawn_failed|eexists; by eapply act_rejected].
    destruct (t_ready s) eqn:Er; eexists; [by eapply act_accept|by eapply act_leave].
  - eexists. by apply (act_finish s [] d l).
Qed.

End life.

(** ** Properties *)


End Life.

(** SIGTERM while a peer trickles a byte every nine seconds; a second connection
    is accepted before the flag is set. *)
Module LifeDemo.
Import Pool Conn Life.

Definition slow : list op := [Io (Some 9000); Io (Some 9000); Io (Some 9000); Io (Some 9000); Work 5].

Example slow_is_cut : handle 0 slow = 30005.
Proof. reflexivity. Qed.

Definition ready0 : st := mk_st (Serving 500) (new_pool 50) [] 0 None None true 0.
Definition one : pool := spawned (accept 0 (new_pool 50)).
Definition accepted : st := mk_st (Serving 2000) (accept 0 (new_pool 50)) [] 0 None None false 1.
Definition running : st := mk_st (Serving 500) one [30005] 0 None None false 1.
Definition term : st := mk_st (Serving 500) one [30005] 0 (Some 0) None false 1.
Definition ready1 : st := mk_st (Serving 500) one [30005] 0 (Some 0) None true 1.
Definition flagged : st := mk_st (Serving 500) one [30005] 0 (Some 0) (Some 0) true 1.
Definition told : st := mk_st (Serving 2000) (accept 0 one) [30005] 0 (Some 0) (Some 0) false 2.

Lemma told_asked : rtc (step 5 20) (init 50) told.
Proof.
  apply (rtc_l _ _ ready0); [by apply (step_ready 5 20 (init 50) POLL)|].
  apply (rtc_l _ _ accepted); [apply step_act; by apply (act_accept 5 ready0 500)|].
  apply (rtc_l _ _ running).
  { apply step_act. apply (act_spawned 5 accepted 2000 slow); [done|done| |by vm_compute].
    repeat (constructor; [cbn; lia|]). constructor. }
  apply (rtc_l _ _ term); [by apply (step_sigterm 5 20 running)|].
  apply (rtc_l _ _ ready1); [by apply (step_ready 5 20 term 500)|].
  apply (rtc_l _ _ flagged); [apply step_act; by apply (act_shutdown 5 ready1 0)|].
  apply rtc_once, step_act. by apply (act_accept 5 flagged 500).
Qed.


End LifeDemo.
