(* ===== verification/ServerMain.v ===== *)
(** Starting and stopping the report server (src/server/ac_server.py, [main]
    and [ThreadingUnixHTTPServer]): the validation of keys and options that
    decides whether it starts and with which configuration, binding the
    unix-domain socket, and removing its path on a clean exit. *)

From S2P Require Import Prelude CText CScan Report Json Limiter Store Http Server.

#[local] Open Scope Z_scope.

Module ServerMain.
Import Report Http Server.
Import Store (text).

(** ** Keys *)

(** A key from the command line, else from the environment; whether to warn
    that it can be read from the process list. *)
Definition key_arg (cli env : option text) : option text * bool :=
  match cli with Some v => (Some v, true) | None => (env, false) end.

Definition MIN_KEY_LENGTH : nat := 16.

Inductive refusal :=
  | NoKeys | ShortKey (len : nat) | DullKey (distinct : nat) | TiersOverlap | BadRate
  | BadPerClient | BadTotal | BadTimeout | BadQueue | BadVacuum | BadConnections
  | BadCidr (v : text) | NoCidr | BadSocketMode | UnknownGroup.

Definition check_key_strength (k : option text) : option refusal :=
  match k with
  | None => None
  | Some k =>
      if (length k <? MIN_KEY_LENGTH)%nat then Some (ShortKey (length k))
      else let distinct := length (remove_dups k) in
           if (distinct <? 8)%nat then Some (DullKey distinct) else None
  end.

(** A present, non-empty key. *)
Definition key_set (k : option text) : list text :=
  match k with Some ((_ :: _) as k) => [k] | _ => [] end.

(** ** Socket options *)

(** Blanks around it and a leading [0o] are dropped; the rest must be octal. *)
Definition octal (c : Z) : bool := (48 <=? c) && (c <=? 55).

Definition parse_socket_mode (value : text) : option Z :=
  let t := strip value in
  let t := if starts_with (lit "0o") t || starts_with (lit "0O") t then drop 2 t else t in
  if (length t =? 0)%nat || negb (forallb octal t) then None
  else let mode := foldl (fun a c => a * 8 + (c - 48)) 0 t in
       if (mode <? 0) || (511 <? mode) then None else Some mode.

(** ** Options *)

Record args := mk_args {
  a_report_key : option text * option text;      (** option and environment *)
  a_admin_key : option text * option text;
  a_report_key_old : option text * option text;
  a_admin_key_old : option text * option text;
  a_rate_limit : Z;
  a_rate_window : Z;
  a_max_reports_per_client : Z;
  a_max_total_reports : Z;
  a_timeout_positive : bool;
  a_notify_queue_size : Z;
  a_vacuum_interval : Z;
  a_max_connections : Z;
  a_cidrs : list text;
  a_trust_proxy : bool;
  a_unix_socket : option text;
  a_socket_mode : text;
  a_socket_group : option text;
}.

Inductive warning :=
  | KeyOnCommandLine | CidrWithoutProxy | WideSocket (mode : Z) | SocketOptionsIgnored
  | ProxyOverUnix.

(** What [main] goes on with. *)
Record started (net : Type) := mk_started {
  st_config : config net;
  st_max_connections : nat;
  st_mode : Z;
  st_gid : option Z;
  st_warnings : list warning;
}.
Arguments mk_started {net} _ _ _ _ _.
Arguments st_config {net} _.
Arguments st_max_connections {net} _.
Arguments st_mode {net} _.
Arguments st_gid {net} _.
Arguments st_warnings {net} _.

Section Start.
(** [ipaddress.ip_network(v, strict=True)] and [grp.getgrnam]. *)
Context {net : Type} (ip_network : text -> option net) (getgrnam : text -> option Z).

Fixpoint parse_proxy_cidrs (l : list text) : refusal + list net :=
  match l with
  | [] => inr []
  | v :: l' =>
      match ip_network v with
      | None => inl (BadCidr v)
      | Some n =>
          match parse_proxy_cidrs l' with inl e => inl e | inr ns => inr (n :: ns) end
      end
  end.

(** The first test that fails refuses. *)
Fixpoint first_refusal (l : list (option refusal)) : option refusal :=
  match l with [] => None | Some e :: _ => Some e | None :: l' => first_refusal l' end.

Definition refuse_if (b : bool) (e : refusal) : option refusal := if b then Some e else None.

Definition truthy (s : option text) : bool :=
  match s with Some (_ :: _) => true | _ => false end.

(** The socket's mode and group with their warnings; without a socket they are
    not even parsed. *)
Definition socket_options (a : args) : refusal + Z * option Z * list warning :=
  if truthy (a_unix_socket a) then
    match parse_socket_mode (a_socket_mode a) with
    | None => inl BadSocketMode
    | Some mode =>
        match (match a_socket_group a with
               | None => Some None
               | Some g => Some <$> getgrnam g
               end) with
        | None => inl UnknownGroup
        | Some gid =>
            inr (mode, gid, if Z.land mode 63 =? 0 then [] else [WideSocket mode])
        end
    end
  else
    inr (384, None,
         if bool_decide (a_socket_mode a = lit "0600") && negb (bool_decide (is_Some (a_socket_group a)))
         then [] else [SocketOptionsIgnored]).

Definition start (a : args) : refusal + started net :=
  let '(rk, w1) := key_arg (a_report_key a).1 (a_report_key a).2 in
  let '(ak, w2) := key_arg (a_admin_key a).1 (a_admin_key a).2 in
  if negb (truthy rk) || negb (truthy ak) then inl NoKeys
  else
    let '(rko, w3) := key_arg (a_report_key_old a).1 (a_report_key_old a).2 in
    let '(ako, w4) := key_arg (a_admin_key_old a).1 (a_admin_key_old a).2 in
    let report_keys := key_set rk ++ key_set rko in
    let admin_keys := key_set ak ++ key_set ako in
    match first_refusal
      [check_key_strength rk; check_key_strength ak;
       check_key_strength rko; check_key_strength ako;
       refuse_if (existsb (fun k => bool_decide (k ∈ admin_keys)) report_keys) TiersOverlap;
       refuse_if ((a_rate_limit a <=? 0) || (a_rate_window a <=? 0)) BadRate;
       refuse_if (a_max_reports_per_client a <? 0) BadPerClient;
       refuse_if (a_max_total_reports a <? 0) BadTotal;
       refuse_if (negb (a_timeout_positive a)) BadTimeout;
       refuse_if (a_notify_queue_size a <=? 0) BadQueue;
       refuse_if (a_vacuum_interval a <? 0) BadVacuum;
       refuse_if (a_max_connections a <=? 0) BadConnections] with
    | Some e => inl e
    | None =>
        match parse_proxy_cidrs (a_cidrs a) with
        | inl e => inl e
        | inr nets =>
            if a_trust_proxy a && (length nets =? 0)%nat then inl NoCidr
            else
              match socket_options a with
              | inl e => inl e
              | inr (mode, gid, wsock) =>
                  inr (mk_started
                    (mk_config
                       (Store.mk_config (Z.to_nat (a_max_reports_per_client a))
                          (Z.to_nat (a_max_total_reports a)) (Z.to_nat (a_vacuum_interval a)))
                       report_keys admin_keys (a_rate_limit a) (a_rate_window a) 4096
                       (a_trust_proxy a) nets)
                    (Z.to_nat (a_max_connections a)) mode gid
                    (concat ((fun w : bool => if w then [KeyOnCommandLine] else [])
                               <$> [w1; w2; w3; w4])
                     ++ (if negb (length nets =? 0)%nat && negb (a_trust_proxy a)
                         then [CidrWithoutProxy] else [])
                     ++ wsock
                     ++ (if a_trust_proxy a && truthy (a_unix_socket a)
                         then [ProxyOverUnix] else [])))
              end
        end
    end.

End Start.

(** ** The unix-domain socket *)

(** Device and inode. *)
Record file_id := mk_file_id { f_dev : Z; f_ino : Z }.

#[export] Instance file_id_eq_dec : EqDecision file_id.
Proof. solve_decision. Defined.

(** A directory entry: for a socket what is needed of its state, for a symbolic
    link the file it leads to, if there is one. *)
Inductive node :=
  | NSocket (id : file_id) (mode gid : Z) (listening : bool)
  | NLink (id : file_id) (target : option file_id)
  | NOther (id : file_id).

Record dir := mk_dir { d_mode : Z; d_entry : option node }.

(** How the probe's [connect] ends: connected, or any [OSError]. *)
Inductive probe := ProbeConnected | ProbeError.

Inductive bind_error :=
  | DirFailed | DirWritable | NotASocket | ActiveListener | UnlinkFailed | BindFailed
  | ChownFailed | NotASocketAfter | WrongMode | WrongGroup.

(** What the system gives one bind: whether the directory can be examined and
    opened, the probe's end for a socket that is there, whether the stale entry
    can be removed, the entry [bind] creates ([None] when it fails), and whether
    [chown] went through. *)
Record bind_env := mk_bind_env {
  be_dir_ok : bool;
  be_probe : node -> probe;
  be_unlink_ok : bool;
  be_created : option node;
  be_chown_ok : bool;
}.

Definition set_gid (g : Z) (n : node) : node :=
  match n with NSocket i m _ l => NSocket i m g l | n => n end.

(** After the path is free. *)
Definition bind_fresh (mode : Z) (gid : option Z) (e : bind_env) (d : dir)
    : (bind_error + node) * dir :=
  match be_created e with
  | None => (inl BindFailed, mk_dir (d_mode d) None)
  | Some n =>
      let d1 := mk_dir (d_mode d) (Some n) in
      match gid with
      | Some g =>
          if be_chown_ok e then
            let n := set_gid g n in
            let d2 := mk_dir (d_mode d) (Some n) in
            match n with
            | NSocket _ m g' _ =>
                if negb (m =? mode) then (inl WrongMode, d2)
                else if negb (g' =? g) then (inl WrongGroup, d2)
                else (inr n, d2)
            | _ => (inl NotASocketAfter, d2)
            end
          else (inl ChownFailed, d1)
      | None =>
          match n with
          | NSocket _ m _ _ => if negb (m =? mode) then (inl WrongMode, d1) else (inr n, d1)
          | _ => (inl NotASocketAfter, d1)
          end
      end
  end.

(** [server_bind]: the bound entry, or why it refused; and the directory. *)
Definition server_bind (mode : Z) (gid : option Z) (e : bind_env) (d : dir)
    : (bind_error + node) * dir :=
  if negb (be_dir_ok e) then (inl DirFailed, d)
  else if negb (Z.land (d_mode d) 18 =? 0) then (inl DirWritable, d)
  else
    match d_entry d with
    | None => bind_fresh mode gid e d
    | Some (NSocket _ _ _ _ as n) =>
        match be_probe e n with
        | ProbeConnected => (inl ActiveListener, d)
        | ProbeError =>
            if be_unlink_ok e then bind_fresh mode gid e (mk_dir (d_mode d) None)
            else (inl UnlinkFailed, d)
        end
    | Some _ => (inl NotASocket, d)
    end.

(** [os.lstat] and [os.stat], which follows links; [None] when that leads to
    nothing. *)
Definition lstat_id (n : node) : file_id :=
  match n with NSocket i _ _ _ | NLink i _ | NOther i => i end.

Definition stat_id (d : dir) : option file_id :=
  match d_entry d with
  | None => None
  | Some (NLink _ target) => target
  | Some n => Some (lstat_id n)
  end.

(** The clean-up of [main]: the entry goes if the path leads to what was
    bound. *)
Definition cleanup (bound : node) (d : dir) : dir :=
  match stat_id d with
  | None => d
  | Some i => if bool_decide (i = lstat_id bound) then mk_dir (d_mode d) None else d
  end.

(** ** What a started server guarantees *)

Lemma first_refusal_None l : first_refusal l = None <-> Forall (eq None) l.
Proof.
  induction l as [|[e|] l IH]; cbn; [done|split; [done|]|].
  - intros Hf. by apply Forall_cons_1 in Hf as [? _].
  - rewrite IH. split; [by constructor|]. intros Hf. by apply Forall_cons_1 in Hf as [_ ?].
Qed.

Lemma refuse_if_None b e : refuse_if b e = None <-> b = false.
Proof. by destruct b. Qed.

Definition strong (k : text) : Prop :=
  (16 <= length k)%nat /\ (8 <= length (remove_dups k))%nat.

Lemma key_set_strong k x : check_key_strength k = None -> x ∈ key_set k -> strong x.
Proof.
  destruct k as [[|c k]|]; cbn [key_set]; try (intros _ Hx; by apply elem_of_nil in Hx).
  intros Hk ->%list_elem_of_singleton. unfold check_key_strength, MIN_KEY_LENGTH in Hk.
  destruct (Nat.ltb_spec (length (c :: k)) 16); [done|].
  destruct (Nat.ltb_spec (length (remove_dups (c :: k))) 8); [done|]. by split.
Qed.

Section Started.
Context {net : Type} (ip_network : text -> option net) (getgrnam : text -> option Z).
Context (a : args) (st : started net).
Context (Hstart : start ip_network getgrnam a = inr st).

Lemma started_facts :
  let cfg := st_config st in
  (forall k, k ∈ c_report_keys cfg -> k ∈ c_admin_keys cfg -> False) /\
  (forall k, k ∈ c_report_keys cfg ++ c_admin_keys cfg -> strong k) /\
  c_report_keys cfg <> [] /\ c_admin_keys cfg <> [] /\
  0 < c_limit cfg /\ 0 < c_window cfg /\ (0 < st_max_connections st)%nat /\
  (c_trust_proxy cfg = true -> c_nets cfg <> []).
Proof.
  revert Hstart. unfold start.
  destruct (key_arg (a_report_key a).1 (a_report_key a).2) as [rk w1].
  destruct (key_arg (a_admin_key a).1 (a_admin_key a).2) as [ak w2].
  destruct (negb (truthy rk) || negb (truthy ak)) eqn:Hkeys; [done|].
  apply orb_false_iff in Hkeys as [Hrk%negb_false_iff Hak%negb_false_iff].
  destruct (key_arg (a_report_key_old a).1 (a_report_key_old a).2) as [rko w3].
  destruct (key_arg (a_admin_key_old a).1 (a_admin_key_old a).2) as [ako w4].
  destruct (first_refusal _) as [e|] eqn:Href; [done|].
  apply first_refusal_None in Href. repeat (apply Forall_cons_1 in Href as [? Href]).
  repeat match goal with H : None = _ |- _ => symmetry in H end.
  repeat match goal with H : refuse_if _ _ = None |- _ => apply refuse_if_None in H end.
  destruct (parse_proxy_cidrs ip_network (a_cidrs a)) as [e|nets] eqn:Hnets; [done|].
  destruct (a_trust_proxy a && (length nets =? 0)%nat) eqn:Htp; [done|].
  destruct (socket_options getgrnam a) as [e|[[mode gid] ws]]; [done|].
  intros [= <-]. cbn [st_config c_report_keys c_admin_keys c_limit c_window st_max_connections
    c_trust_proxy c_nets].
  split_and!.
  - intros k Hr Ha'. assert (existsb (fun k => bool_decide (k ∈ key_set ak ++ key_set ako))
      (key_set rk ++ key_set rko) = true) as Ht; [|congruence].
    apply existsb_exists. exists k. split; [by apply list_elem_of_In|by apply bool_decide_eq_true].
  - intros k Hk. rewrite !elem_of_app in Hk.
    destruct Hk as [[Hk|Hk]|[Hk|Hk]]; (eapply key_set_strong; [|exact Hk]); done.
  - by destruct rk as [[|]|].
  - by destruct ak as [[|]|].
  - boolp. lia.
  - boolp. lia.
  - boolp. lia.
  - intros Ht. rewrite Ht in Htp. by destruct nets.
Qed.

End Started.

(** ** Binding *)

Lemma bind_fresh_ok mode gid e d n d' :
  bind_fresh mode gid e d = (inr n, d') ->
  d_mode d' = d_mode d /\ d_entry d' = Some n /\
  exists i g l, n = NSocket i mode g l /\ (forall g', gid = Some g' -> g = g').
Proof.
  unfold bind_fresh. destruct (be_created e) as [c|]; [|done]. destruct gid as [g|].
  - destruct (be_chown_ok e); [|done]. destruct c as [i m g0 l| |]; cbn [set_gid]; [|done..].
    destruct (Z.eqb_spec m mode) as [->|]; [|done]. rewrite Z.eqb_refl.
    intros [= <- <-]. split_and!; [done|done|]. exists i, g, l. split; [done|]. by intros g' [= <-].
  - destruct c as [i m g0 l| |]; [|done..]. destruct (Z.eqb_spec m mode) as [->|]; [|done].
    intros [= <- <-]. split_and!; [done|done|]. by exists i, g0, l.
Qed.

(** ** Properties *)

(** C13: a server that starts keeps its tiers apart.  No holder of a report
    key, current or still valid from a rotation, can set or lift a ban or list
    anything with any request, in any state of the server. *)
Theorem report_key_never_admin {addr net} ip_network getgrnam a (st : started net)
    ip_address in_net decimal netloc_ok cx rq s k :
  start ip_network getgrnam a = inr st ->
  bearer rq = Some k -> k ∈ c_report_keys (st_config st) ->
  let '(r, s') := handle_request (addr := addr) ip_address in_net decimal netloc_ok
                    (st_config st) cx rq s in
  Store.bans (s_db s') = Store.bans (s_db s) /\ code r <> 200.
Proof.
  intros Hst Hb Hk. destruct (started_facts ip_network getgrnam a st Hst) as (Hdisj & _).
  pose proof (without_admin_key ip_address in_net decimal netloc_ok (st_config st) cx rq s) as Hw.
  destruct (handle_request _ _ _ _ _ _ _ _) as [r s']. apply Hw.
  intros (k' & Hb' & Hk'). rewrite Hb in Hb'. injection Hb' as <-. by apply (Hdisj k).
Qed.

(** a server that starts has two non-empty disjoint tiers of keys, each
    key of at least 16 characters with at least 8 distinct ones, a positive
    rate and window, room for a connection, and an allow-list whenever it
    trusts forwarded addresses; every other combination is refused. *)
Theorem start_only_when_safe {net} ip_network getgrnam a (st : started net) :
  start ip_network getgrnam a = inr st ->
  let cfg := st_config st in
  (forall k, k ∈ c_report_keys cfg -> k ∈ c_admin_keys cfg -> False) /\
  (forall k, k ∈ c_report_keys cfg ++ c_admin_keys cfg -> strong k) /\
  c_report_keys cfg <> [] /\ c_admin_keys cfg <> [] /\
  0 < c_limit cfg /\ 0 < c_window cfg /\ (0 < st_max_connections st)%nat /\
  (c_trust_proxy cfg = true -> c_nets cfg <> []).
Proof. apply started_facts. Qed.


End ServerMain.

Module ServerMainDemo.
Import Report Http Server ServerMain.

Definition report_key : list Z := lit "report-key-0123456789".
Definition admin_key : list Z := lit "admin-key-abcdefghijk".

Definition a : args :=
  mk_args (None, Some report_key) (None, Some admin_key) (None, None) (None, None)
    60 60 10 100 true 10 10 5 [] false (Some (lit "/run/ac/ac.sock")) (lit "0660") None.

Definition no_network (v : list Z) : option unit := None.
Definition no_group (g : list Z) : option Z := None.

Definition st : started unit :=
  match start no_network no_group a with
  | inr s => s
  | inl _ => mk_started (mk_config (Store.mk_config 0 0 0) [] [] 0 0 0 false []) 0 0 None []
  end.

Lemma started_a : start no_network no_group a = inr st.
Proof. vm_compute. reflexivity. Qed.

Lemma start_only_when_safe_witness :
  st_mode st = 432 /\ st_warnings st = [WideSocket 432] /\
  c_report_keys (st_config st) <> [].
Proof.
  split; [vm_compute; reflexivity|]. split; [vm_compute; reflexivity|].
  apply (start_only_when_safe no_network no_group a st started_a).
Defined.

(** A report key asks for a ban. *)
Definition ban_request : request :=
  mk_request (lit "POST") (lit "/ban")
    [(lit "Authorization", lit "Bearer " ++ report_key); (lit "Content-Length", lit "2")]
    (lit "{}") false (lit "10.0.0.1").

Definition cx : ctx := mk_ctx 1 (Store.mk_env 5 true [] (Some 0) true) 100.
Definition s0 : server :=
  mk_server (Store.mk_store [] 0 ∅ 0 []) (Limiter.mk_limiter [] 0) (new_notifier false 1000).
Definition no_ip (v : list Z) : option unit := None.
Definition no_net (x y : unit) : bool := false.
Definition no_digit (c : Z) : option Z := None.
Definition any_netloc (v : list Z) : bool := true.

Lemma report_key_never_admin_witness :
  code (handle_request no_ip no_net no_digit any_netloc (st_config st) cx ban_request s0).1 = 401 /\
  let '(r, s') := handle_request no_ip no_net no_digit any_netloc (st_config st) cx ban_request s0 in
  Store.bans (s_db s') = Store.bans (s_db s0) /\ code r <> 200.
Proof.
  split; [vm_compute; reflexivity|].
  apply (report_key_never_admin no_network no_group a st no_ip no_net no_digit any_netloc cx
    ban_request s0 report_key started_a); [reflexivity|].
  assert (c_report_keys (st_config st) = [report_key]) as -> by (vm_compute; reflexivity). left.
Defined.

(** A bearer token that is not ASCII makes the key comparison raise: the answer
    is 500, not 401. *)
Definition latin_request : request :=
  mk_request (lit "POST") (lit "/ban") [(lit "Authorization", lit "Bearer " ++ [233])] [] false
    (lit "10.0.0.1").

Example non_ascii_token_is_500 :
  code (handle_request no_ip no_net no_digit any_netloc (st_config st) cx latin_request s0).1 = 500.
Proof. vm_compute. reflexivity. Qed.

(** Trusting forwarded addresses over the unix-domain socket is only warned
    about. *)
Definition proxy_over_unix : args :=
  mk_args (None, Some report_key) (None, Some admin_key) (None, None) (None, None)
    60 60 10 100 true 10 10 5 [lit "10.0.0.0/8"] true (Some (lit "/run/ac/ac.sock"))
    (lit "0600") None.

Example proxy_over_unix_starts :
  match start (fun _ => Some tt) no_group proxy_over_unix with
  | inr s => st_warnings s = [ProxyOverUnix]
  | inl _ => False
  end.
Proof. vm_compute. reflexivity. Qed.

Definition old_id : file_id := mk_file_id 1 7.
Definition new_id : file_id := mk_file_id 1 8.
Definition ours : node := NSocket new_id 384 0 true.
Definition stale_dir : dir := mk_dir 448 (Some (NSocket old_id 384 0 false)).

Definition be (p : probe) : bind_env := mk_bind_env true (fun _ => p) true (Some ours) true.


(** Any error of the probe counts as nobody listening: a listener the server
    may not connect to (EACCES) loses its path. *)
Example unreachable_listener_replaced :
  server_bind 384 None (be ProbeError) (mk_dir 448 (Some (NSocket old_id 384 1000 true)))
  = (inr ours, mk_dir 448 (Some ours)).
Proof. reflexivity. Qed.

(** The socket moved aside and the path made a link to it: the exit removes the
    link. *)
Example cleanup_removes_link :
  cleanup ours (mk_dir 448 (Some (NLink old_id (Some new_id)))) = mk_dir 448 None.
Proof. reflexivity. Qed.

End ServerMainDemo.
