(* ===== verification/ServerArgs.v ===== *)
(** The report server's options (src/server/ac_server.py, [main]): the table
    of [add_argument] calls with their types and defaults, the conversions
    [int] and [float] they ask for, and the arguments [start] is given.  How
    argparse splits a command line into options and values is the library's;
    here an option comes with its value. *)

From stdpp Require Import gmap.
From S2P Require Import Prelude CText CScan Report Json Limiter Store Http Server EndToEnd ServerMain.

#[local] Open Scope Z_scope.

Module ServerArgs.
Import Server ServerMain.
Import Store (text).

(** ** Numbers *)

(** A float: [m * 10 ^ e], or not a finite number. *)
Inductive pyfloat := Finite (m e : Z) | Infinite (neg : bool) | NaN.

Definition sign_of (t : text) : Z * text :=
  match t with
  | c :: t' => if c =? 45 then (-1, t') else if c =? 43 then (1, t') else (1, t)
  | [] => (1, [])
  end.

Section numbers.
(** The decimal value of a non-ASCII digit. *)
Context (decimal : Z -> option Z).

(** Digits with single underscores between them, after the value and the count
    of those before. *)
Fixpoint more_digits (a : Z) (n : nat) (t : text) : Z * nat * text :=
  match t with
  | c :: t' =>
      match digit_value decimal c with
      | Some d => more_digits (a * 10 + d) (S n) t'
      | None =>
          match t' with
          | c' :: t'' =>
              match digit_value decimal c' with
              | Some d => if c =? 95 then more_digits (a * 10 + d) (S n) t'' else (a, n, t)
              | None => (a, n, t)
              end
          | [] => (a, n, t)
          end
      end
  | [] => (a, n, [])
  end.

(** At least one digit, none of them preceded by an underscore. *)
Definition digits_of (t : text) : option (Z * nat * text) :=
  match t with
  | c :: t' => match digit_value decimal c with
               | Some d => Some (more_digits d 1 t')
               | None => None
               end
  | [] => None
  end.

(** [int(raw)]. *)
Definition py_int (raw : text) : option Z :=
  let '(sg, t) := sign_of (strip raw) in
  match digits_of t with
  | Some (v, n, []) => if (4300 <? n)%nat then None else Some (sg * v)
  | _ => None
  end.

Definition lower (c : Z) : Z := if (65 <=? c) && (c <=? 90) then c + 32 else c.

(** The exponent of a float: 0 when there is none. *)
Definition exponent_of (t : text) : option Z :=
  match t with
  | [] => Some 0
  | c :: t' =>
      if lower c =? 101 then
        let '(sg, u) := sign_of t' in
        match digits_of u with Some (v, _, []) => Some (sg * v) | _ => None end
      else None
  end.

(** [float(raw)]: digits before or after the point, or both. *)
Definition py_float (raw : text) : option pyfloat :=
  let '(sg, t) := sign_of (strip raw) in
  let name := lower <$> t in
  if bool_decide (name = lit "inf") || bool_decide (name = lit "infinity")
  then Some (Infinite (sg =? -1))
  else if bool_decide (name = lit "nan") then Some NaN
  else
    let '(v, n, t1) := match digits_of t with Some x => x | None => (0, 0%nat, t) end in
    let '(m, k, t2) :=
      match t1 with
      | 46 :: t' =>
          match digits_of t' with
          | Some (_, k, t2) => ((more_digits v n t').1.1, k, t2)
          | None => (v, 0%nat, t')
          end
      | _ => (v, 0%nat, t1)
      end in
    if (n + k =? 0)%nat then None
    else (fun x => Finite (sg * m) (x - Z.of_nat k)) <$> exponent_of t2.

(** [x <= 0]: false for NaN, and true for a number that rounds to zero. *)
Definition at_most_zero (x : pyfloat) : bool :=
  match x with
  | Finite m e => (m <=? 0) || ((e <? 0) && (m * 2 ^ 1075 <=? 10 ^ (- e)))
  | Infinite neg => neg
  | NaN => false
  end.

(** ** The table *)

Inductive value :=
  | VNone | VText (t : text) | VInt (z : Z) | VFloat (x : pyfloat) | VBool (b : bool)
  | VList (l : list text).

(** A plain option, [type=int], [type=float], [store_true], [append]. *)
Inductive kind := KText | KInt | KFloat | KFlag | KAppend.

Definition option_table : list (text * (kind * value)) :=
  [(lit "--host", (KText, VText (lit "127.0.0.1")));
   (lit "--port", (KInt, VInt 8787));
   (lit "--unix-socket", (KText, VNone));
   (lit "--unix-socket-mode", (KText, VText (lit "0600")));
   (lit "--unix-socket-group", (KText, VNone));
   (lit "--db", (KText, VText (lit "ac_server.db")));
   (lit "--max-reports-per-client", (KInt, VInt 1000));
   (lit "--report-webhook-url", (KText, VNone));
   (lit "--report-webhook-timeout", (KFloat, VInt 5));
   (lit "--notify-queue-size", (KInt, VInt 1000));
   (lit "--vacuum-interval", (KInt, VInt 1000));
   (lit "--max-total-reports", (KInt, VInt 100000));
   (lit "--report-key", (KText, VNone));
   (lit "--admin-key", (KText, VNone));
   (lit "--report-key-old", (KText, VNone));
   (lit "--admin-key-old", (KText, VNone));
   (lit "--rate-limit", (KInt, VInt 60));
   (lit "--rate-window", (KInt, VInt 60));
   (lit "--max-connections", (KInt, VInt 50));
   (lit "--trust-proxy", (KFlag, VBool false));
   (lit "--trusted-proxy-cidr", (KAppend, VList []))].

(** The namespace: the value of each option. *)
Notation namespace := (gmap text value).

Definition default_namespace : namespace :=
  list_to_map ((fun '(n, (_, v)) => (n, v)) <$> option_table).

Definition kind_of_option (name : text) : option kind :=
  fst <$> (list_to_map option_table : gmap text (kind * value)) !! name.

(** What an option stores over its value so far: [None] when the value does not
    convert. *)
Definition set_value (k : kind) (old : value) (raw : text) : option value :=
  match k with
  | KText => Some (VText raw)
  | KInt => VInt <$> py_int raw
  | KFloat => VFloat <$> py_float raw
  | KFlag => Some (VBool true)
  | KAppend => Some (VList (match old with VList l => l | _ => [] end ++ [raw]))
  end.

(** One option with its value: [None] is argparse's error. *)
Definition set_option (ns : namespace) (o : text * text) : option namespace :=
  let '(name, raw) := o in
  match kind_of_option name, ns !! name with
  | Some k, Some old => (fun v => <[name := v]> ns) <$> set_value k old raw
  | _, _ => None
  end.

Definition parse_args (l : list (text * text)) : option namespace :=
  foldl (fun ns o => ns ≫= fun ns => set_option ns o) (Some default_namespace) l.

(** ** The arguments of [start] *)

Definition text_opt (ns : namespace) (name : text) : option text :=
  match ns !! name with Some (VText t) => Some t | _ => None end.

Definition int_opt (ns : namespace) (name : text) : Z :=
  match ns !! name with Some (VInt z) => z | _ => 0 end.

Definition positive_opt (ns : namespace) (name : text) : bool :=
  match ns !! name with
  | Some (VInt z) => negb (z <=? 0)
  | Some (VFloat x) => negb (at_most_zero x)
  | _ => false
  end.

Definition args_of (ns : namespace) (environ : text -> option text) : args :=
  mk_args
    (text_opt ns (lit "--report-key"), environ (lit "AC_SERVER_REPORT_KEY"))
    (text_opt ns (lit "--admin-key"), environ (lit "AC_SERVER_ADMIN_KEY"))
    (text_opt ns (lit "--report-key-old"), environ (lit "AC_SERVER_REPORT_KEY_OLD"))
    (text_opt ns (lit "--admin-key-old"), environ (lit "AC_SERVER_ADMIN_KEY_OLD"))
    (int_opt ns (lit "--rate-limit")) (int_opt ns (lit "--rate-window"))
    (int_opt ns (lit "--max-reports-per-client")) (int_opt ns (lit "--max-total-reports"))
    (positive_opt ns (lit "--report-webhook-timeout"))
    (int_opt ns (lit "--notify-queue-size")) (int_opt ns (lit "--vacuum-interval"))
    (int_opt ns (lit "--max-connections"))
    (match ns !! lit "--trusted-proxy-cidr" with Some (VList l) => l | _ => [] end)
    (match ns !! lit "--trust-proxy" with Some (VBool b) => b | _ => false end)
    (text_opt ns (lit "--unix-socket"))
    (default [] (text_opt ns (lit "--unix-socket-mode")))
    (text_opt ns (lit "--unix-socket-group")).

(** ** Properties *)

Lemma digit_value_ascii c : 48 <= c <= 57 -> digit_value decimal c = Some (c - 48).
Proof.
  intros Hc. unfold digit_value, decval, isdigit. rewrite (proj2 (Z.ltb_lt _ _)) by lia.
  by rewrite !(proj2 (Z.leb_le _ _)) by lia.
Qed.

Lemma more_digits_all ds : forall a n,
  Forall (fun c => 48 <= c <= 57) ds ->
  more_digits a n ds = (fst (CScan.digits decval 10 a ds), (n + length ds)%nat, []).
Proof.
  induction ds as [|c ds IH]; intros a n Hd; cbn [more_digits CScan.digits length].
  { by rewrite Nat.add_0_r. }
  apply Forall_cons_1 in Hd as [Hc Hd]. rewrite digit_value_ascii by done.
  assert (decval c = Some (c - 48)) as ->.
  { unfold decval, isdigit. by rewrite !(proj2 (Z.leb_le _ _)) by lia. }
  rewrite IH by done. by rewrite Nat.add_succ_r.
Qed.

Lemma decval_digit c : 48 <= c <= 57 -> decval c = Some (c - 48).
Proof. intros Hc. unfold decval, isdigit. by rewrite !(proj2 (Z.leb_le _ _)) by lia. Qed.

Lemma digits_of_fmt m :
  0 <= m < 10 ^ 20 -> exists c ds, fmt_u m = c :: ds /\
    Forall (fun c => 48 <= c <= 57) (c :: ds) /\ (length ds < 20)%nat /\
    digits_of (c :: ds) = Some (m, S (length ds), []).
Proof.
  intros Hm. destruct (fmt_base_digits 10 decval ltac:(lia) digit_char_decval 20 m ltac:(lia) Hm)
    as (ds & Hne & _ & Hl & Heq & Hread).
  pose proof (fmt_u_chars m) as Hc. unfold fmt_u in *. rewrite Heq, app_nil_r in *.
  destruct ds as [|c ds]; [done|]. exists c, ds. split_and!; [done|done|cbn in Hl; lia|].
  apply Forall_cons_1 in Hc as [Hc0 Hcs]. specialize (Hread 0 []). rewrite app_nil_r in Hread.
  cbn [CScan.digits] in Hread. rewrite decval_digit in Hread by done.
  unfold digits_of. rewrite digit_value_ascii, more_digits_all by done.
  change (c - 48) with (0 * 10 + (c - 48)). rewrite Hread. cbn [fst]. do 3 f_equal.
Qed.

Lemma strip_number s : Forall (fun c => 45 <= c <= 57) s -> strip s = s.
Proof.
  intros Hs. apply EndToEnd.strip_id, forallb_forall. intros c Hc%list_elem_of_In.
  apply (proj1 (list.Forall_forall _ _) Hs) in Hc. apply negb_true_iff. unfold Http.pyspace.
  rewrite !orb_false_iff, !andb_false_iff, !Z.leb_gt, !Z.eqb_neq. lia.
Qed.

(** An integer option is read back from its decimal form. *)
Theorem py_int_fmt n : - 10 ^ 20 < n < 10 ^ 20 -> py_int (fmt_d n) = Some n.
Proof.
  intros Hn. unfold py_int, fmt_d. destruct (Z.ltb_spec n 0).
  - destruct (digits_of_fmt (- n) ltac:(lia)) as (c & ds & Hf & Hc & Hl & Hd). rewrite Hf.
    rewrite strip_number by (constructor; [lia|]; apply (list.Forall_impl _ _ _ Hc); lia).
    cbn [sign_of]. change (45 =? 45) with true. cbn iota. rewrite Hd.
    rewrite (proj2 (Nat.ltb_ge _ _)) by lia. f_equal. lia.
  - destruct (digits_of_fmt n ltac:(lia)) as (c & ds & Hf & Hc & Hl & Hd). rewrite Hf.
    rewrite strip_number by (apply (list.Forall_impl _ _ _ Hc); lia).
    pose proof Hc as [Hc0 _]%Forall_cons_1. cbn [sign_of].
    rewrite !(proj2 (Z.eqb_neq c _)) by lia. rewrite Hd.
    rewrite (proj2 (Nat.ltb_ge _ _)) by lia. f_equal. lia.
Qed.

(** *** The options *)

(** The value of an option after the values given for it. *)
Definition option_value (name : text) (l : list (text * text)) : option value :=
  kv ← (list_to_map option_table : gmap text (kind * value)) !! name;
  foldl (fun v o => v ≫= fun old => set_value kv.1 old o.2) (Some kv.2)
    (filter (fun o => o.1 = name) l).

Lemma default_namespace_lookup name :
  default_namespace !! name = snd <$> (list_to_map option_table : gmap text (kind * value)) !! name.
Proof. rewrite <- lookup_fmap. by rewrite <- list_to_map_fmap. Qed.

Lemma parse_args_snoc l o : parse_args (l ++ [o]) = parse_args l ≫= fun ns => set_option ns o.
Proof. unfold parse_args. by rewrite foldl_app. Qed.

Lemma option_value_snoc name l o :
  option_value name (l ++ [o]) =
  if decide (o.1 = name)
  then k ← kind_of_option name; old ← option_value name l; set_value k old o.2
  else option_value name l.
Proof.
  unfold option_value, kind_of_option. rewrite list.filter_app.
  destruct (list_to_map option_table !! name) as [[k v]|]; cbn [mbind option_bind fmap option_fmap
    option_map fst]; [|by case_decide].
  rewrite foldl_app. destruct (decide (o.1 = name)).
  - by rewrite filter_cons_True.
  - by rewrite filter_cons_False.
Qed.

(** The namespace has every option of the table, each with its own values
    only: the last one given for a plain option, all of them in order for the
    repeatable one, the default otherwise. *)
Theorem options_independent l ns :
  parse_args l = Some ns -> forall name, ns !! name = option_value name l.
Proof.
  revert ns. induction l as [|[name raw] l IH] using rev_ind; intros ns.
  - intros [= <-] name. rewrite default_namespace_lookup. unfold option_value.
    by destruct (list_to_map option_table !! name) as [[k v]|].
  - rewrite parse_args_snoc. destruct (parse_args l) as [ns0|]; cbn [mbind option_bind set_option]; [|done].
    specialize (IH ns0 eq_refl). destruct (kind_of_option name) as [k|] eqn:Hk; [|done].
    destruct (ns0 !! name) as [old|] eqn:Ho; [|done].
    destruct (set_value k old raw) as [v|] eqn:Hv; cbn [fmap option_fmap option_map]; [|done].
    intros [= <-] name'.
    rewrite option_value_snoc. cbn [fst snd]. case_decide as Hn.
    + subst name'. rewrite lookup_insert_eq, Hk. cbn. rewrite <- IH, Ho. cbn. by rewrite Hv.
    + by rewrite lookup_insert_ne.
Qed.

End numbers.

(** *** Defaults *)

Section defaults.
Context {net : Type} (ip_network : text -> option net) (getgrnam : text -> option Z).
Context (environ : text -> option text).

(** Two strong, different keys in the environment are all it takes: the server
    starts with the documented limits, no proxy trusted, no socket, and
    without a warning. *)
Theorem defaults_start rk ak :
  environ (lit "AC_SERVER_REPORT_KEY") = Some rk -> environ (lit "AC_SERVER_ADMIN_KEY") = Some ak ->
  environ (lit "AC_SERVER_REPORT_KEY_OLD") = None ->
  environ (lit "AC_SERVER_ADMIN_KEY_OLD") = None ->
  strong rk -> strong ak -> rk <> ak ->
  start ip_network getgrnam (args_of default_namespace environ) =
  inr (mk_started (mk_config (Store.mk_config 1000 (Z.to_nat 100000) 1000) [rk] [ak] 60 60 4096 false [])
         50 384 None []).
Proof.
  intros Hr Ha Hro Hao [Hr1 Hr2] [Ha1 Ha2] Hne.
  assert (args_of default_namespace environ = mk_args (None, Some rk) (None, Some ak) (None, None)
    (None, None) 60 60 1000 100000 true 1000 1000 50 [] false None (lit "0600") None) as ->.
  { unfold args_of. rewrite Hr, Ha, Hro, Hao. reflexivity. }
  destruct rk as [|r rk]; [cbn in Hr1; lia|]. destruct ak as [|a ak]; [cbn in Ha1; lia|].
  unfold start. cbn [key_arg a_report_key a_admin_key a_report_key_old a_admin_key_old fst snd
    truthy negb orb key_set app]. unfold check_key_strength, MIN_KEY_LENGTH.
  rewrite !(proj2 (Nat.ltb_ge _ _)) by done. cbn [first_refusal existsb orb].
  rewrite bool_decide_false by (intros ?%list_elem_of_singleton; congruence). reflexivity.
Qed.

End defaults.
End ServerArgs.

Module ServerArgsDemo.
Import Server ServerMain ServerArgs ServerMainDemo.

Definition keys (name : list Z) : option (list Z) :=
  if bool_decide (name = lit "AC_SERVER_REPORT_KEY") then Some report_key
  else if bool_decide (name = lit "AC_SERVER_ADMIN_KEY") then Some admin_key else None.

(** A webhook time-out that is not a number passes the test for a positive
    one. *)
Example nan_timeout_starts :
  (ns ← parse_args no_digit [(lit "--report-webhook-timeout", lit "nan")];
   match start no_network no_group (args_of ns keys) with inr _ => Some tt | inl _ => None end)
  = Some tt.
Proof. vm_compute. reflexivity. Qed.

Example zero_timeout_refused :
  (ns ← parse_args no_digit [(lit "--report-webhook-timeout", lit "1e-400")];
   match start no_network no_group (args_of ns keys) with inr _ => None | inl e => Some e end)
  = Some BadTimeout.
Proof. vm_compute. reflexivity. Qed.

Example numbers :
  py_int no_digit (lit " -1_000 ") = Some (-1000) /\ py_int no_digit (lit "1__0") = None /\
  py_float no_digit (lit "2.50e1") = Some (Finite 250 (-1)) /\ py_float no_digit (lit ".") = None.
Proof. vm_compute. done. Qed.

End ServerArgsDemo.
